(* ===== verification/_CoqProject ===== *)
-Q . S2P
Prelude.v
WireProtocol.v
Sha256.v
Paths.v
FileSystem.v
FileManager.v
FileMutex.v
DeltaSync.v
Directories.v
Negotiator.v
Proto.v
Proto3.v
ZeroCopySender.v
Ends.v
Session.v
Server.v
MainArgs.v
Lifecycle.v
ClientBase.v
ClientWire.v
ClientFiles.v
ClientDelta.v
ClientRebuild.v
TcpClient.v
Service.v
Conversation.v
DeltaConversation.v
Replication.v
LocalCopy.v
LocalTree.v
LocalListing.v
Desktop.v
Window.v
ConcurrentUploads.v
SharedStorage.v
SharedDownloads.v
DownloadRace.v
