(* ===== verification/Prelude.v ===== *)
(** * Verification of AdaptiveSync

    AdaptiveSync is a file server in C++17 (src/server), a client library in Rust
    (src/client) and a desktop program around that library (src/ui).  They talk
    over TCP: length-prefixed frames carry protobuf messages and raw file data.
    This library models the three programs and proves what they do, alone and in
    conversation, including the failures of the network and of the file system.

    ** The parts and how they interact

    [main] reads the command line and starts [AdaptiveSyncServer], which accepts
    connections and gives each one a thread.  A thread runs a [Session]: it reads
    frames ([wire_protocol.h]) and dispatches them.  A hello fixes the block
    size; a negotiation ([Negotiator]) compares digests; a download is streamed
    by [ZeroCopySender]; an upload is buffered and stored; block signatures and
    blocks go to [DeltaSyncHandler].  All of them reach the storage through
    [FileManager], and the delta handler serialises its accesses with
    [FileMutex].  On the other side [TcpClient] sends the requests and reads the
    answers with its own framing ([wire.rs]), its local files ([file_ops.rs],
    [hashing.rs]) and its delta engine ([delta_sync.rs]); the desktop program
    keeps one such client and runs its commands on it.

    ** The files: the server

    - [Prelude]: machine integers (each conversion and each operation that can
      leave its width applies [u8] .. [u64], [i32] explicitly), big-endian
      bytes, the state-and-outcome monad [SM] in which the code is written (a
      call returns, throws, or traps: a fatal signal, [std::terminate], a lock
      that is not free, or fuel run out), its predicate transformer [wp], and
      the invariants [respects] and [keeps] with their automation.
    - [WireProtocol] (src/server/include/wire_protocol.h): the frame formats,
      header decoding, [read_exact], [write_exact], [read_frame],
      [write_frame].  A [socket] is a script of what the kernel answers to
      successive calls (segments of any size, EINTR, errors, end of stream,
      SIGPIPE) and the bytes handed to the peer.
    - [Sha256] (file_manager.cpp, anonymous namespace): the hash, and
      [Module Fips], the standard, whose constants are computed from primes.
    - [Paths]: the operations of [std::filesystem::path] in use, [resolve_path]
      and [tmp_path_for] (file_manager.cpp), and [locate], the walk of a path
      name by the operating system.
    - [FileSystem]: files, directories, modification times and a script of
      faults, with the library calls the source makes.
    - [FileManager] (file_manager.cpp): every member function.
    - [FileMutex] (file_mutex.cpp): the map of counted mutexes, the member
      functions, and the relation [step] between configurations of threads.
    - [DeltaSync] (delta_sync_handler.cpp): the block hashes (the handler's own
      SHA-256 in [Module BlockHash], Adler-32 against [Module Rfc1950]),
      [handle_signature_request] and [handle_block_data].
    - [Directories]: what the file manager's operations do to the tree of
      directories, and paths whose files do not get in each other's way ([apart]).
    - [Negotiator] (negotiator.cpp): [negotiate].
    - [Proto] (src/proto/adaptivesync.proto): the messages, their type numbers
      and [msg_wf], the ranges of their fields.  The code protoc generates is the
      class [Codec]; its law [CodecLaws] is that parsing inverts serialising.
    - [Proto3]: the proto3 wire format and, field by field, the messages of the
      .proto file in it.  [proto3] is the codec computed this way; it satisfies
      the law, and the witnesses run on it.  [decode_message true] is as strict
      as prost, [decode_message false] skips what the C++ classes skip.
    - [ZeroCopySender] (zero_copy_sender.cpp): [send_file] with the [sendfile]
      loop and the read-and-send loop.
    - [Ends]: every operation of the components comes back.
    - [Session] (session.cpp): the handlers, the upload loop, dispatch and the
      event loop.
    - [Server] (server.cpp): start-up, the three accept loops, client threads,
      counters and signals, with the abstract relation [server_step].
    - [MainArgs] (main.cpp): [std::atoi], the options and [main].
    - [Lifecycle] (server.cpp, session.cpp): the descriptors of the process from
      the accepts to the destructors, with signals and ends of threads in any
      order ([process_step]).
    - [ConcurrentUploads] (delta_sync_handler.cpp): several threads inside
      [handle_block_data] over one [FileMutex] and one storage root
      ([upload_step]: pointer fetched, locked, block written, unlocked,
      published).
    - [SharedStorage] (session.cpp, file_manager.cpp, zero_copy_sender.cpp):
      several sessions that store what they have received and send files, one
      system call at a time ([save_step], [fetch_step], [storage_step]).  Open
      files are descriptors ([fd]) that follow their file when it is renamed or
      replaced.  [SharedDownloads] has what the downloads among them read.

    ** The files: the client and the desktop program

    - [ClientBase]: the error type (lib.rs), results and [?] as the monad [CM],
      the parts of Rust's standard library in use, and the classes [Disk],
      [Tokio], [Sha2] and [Prost] for the crates the client calls, with their
      documented laws ([TokioLaws], [Sha2Laws], [ProstLaws]: each end reads what
      the other encoded).  Instances that satisfy the laws serve the witnesses.
    - [ClientWire] (wire.rs), [ClientFiles] (hashing.rs, file_ops.rs),
      [ClientDelta] (delta_sync.rs), [TcpClient] (tcp_client.rs): every function;
      [ClientRebuild] proves what [apply_blocks] does under failures, and
      [LocalListing] (file_ops.rs) has [FileOps::list_files], over the class
      [WalkDir] for the walkdir crate.
    - [LocalCopy], [LocalTree], [Desktop] (src/ui/src-tauri/src/main.rs): the commands, the
      guard around the shared client, copying picked files below the local root,
      and commands that overlap in time ([ui_step]).
    - [Window] (src/ui/src/App.tsx): the handlers of the window with what it shows
      ([handle_sync], [handle_connect], [handle_download], the dialogs, dropped
      files), and the window in conversation with a session.

    ** The files: both ends

    - [Service]: [serves], what a session does with a request: it consumes
      exactly its bytes, from any segmentation, and sends a reply.
    - [Conversation], [DeltaConversation]: [says], the same for a call of the
      client; [conversation] joins the two, so that each end reads exactly what
      the other has sent.
    - [Replication]: several requests on one connection, and several clients of
      one server.
    - [DownloadRace]: a download during which the file is replaced, from the
      system calls of the server to the local file of the client.

    ** What the theorems show

    - Framing: what is written is read back, in order and from any segmentation,
      by either end; truncated frames are refused.
    - Messages: every message comes back from its proto3 encoding, at either end
      and past fields a later version has added.
    - Hashes: the two SHA-256 copies and Adler-32 are the standard ones.
    - Paths: accepted relative paths stay below the storage root, paths that
      lead out of it are refused.
    - Storage: block writes, publication and reading form a round trip; listings
      are complete and exact at both ends; the client's files are written whole
      or not at all.
    - Locks: mutual exclusion, exact use counts, well-paired releases, safe
      clean-up and freedom from deadlock, for all interleavings.
    - Delta synchronisation: exactly the differing blocks are requested, every
      outcome of a received block is described under all failures, a full set of
      blocks stores the file, and uploads of different files that interleave in
      any way all store theirs.  Blocks the client reads rebuild the file at
      another client, all or nothing.
    - Downloads and uploads: what is sent is a prefix of the announced stream and
      all of it when nothing fails; uploads are stored whole or not at all, also
      when sessions store different files at the same time, and a download that
      runs meanwhile reads one version of its file from its beginning to its end.
    - Sessions: they end, keep their fields in range, shake hands and answer
      malformed requests.
    - Server: the statistics are right, the accept loops refine the abstract
      server, every descriptor is closed exactly once; the command line is read
      back.
    - Conversations: handshake, download, upload, listing, synchronisation of an
      unchanged, a new and a rewritten file, as one statement about both ends.
      A rewritten file is found unchanged when it is synchronised again; what one
      client uploads, another downloads.
    - Desktop: all new files of a list are sent on one connection and shown as
      complete, clients in use stay connected, picked files and whole directories
      are copied; the list of jobs shows what the commands came to.
    - Limits of the code, proved as behaviour: absolute paths, the sentinel
      collision, 4 GiB raw frames, block size zero, 32-bit block counts, blocks
      that are skipped, sizes that are a multiple of the block size, the lock
      kept by an exception, the process ended by a refused path, the limit on
      connections, the [sendfile] loop on a file that has shrunk, new files the
      library's [sync_file] does not send, two uploads of one file whose contents
      mix, a header that no longer fits the file that is sent and the client that
      replaces its file before it compares the digest, an upload after an upload on
      one connection, temporary files in flat listings, commands that end after a
      reconnection, files picked from the local root itself, failed transfers that
      are shown as complete, a connection that is not shown.

    ** Fuel

    Loops that are not structural take fuel.  [read_exact_loop] and
    [write_exact_loop] get the weight of the socket's script (its events and
    bytes), the [sendfile] loop the events and remaining bytes, the upload and
    session loops the weight of what is still to be received ([rx_weight]), the
    client's hashing loop the length of the file.  Running out of fuel is the
    outcome [Trap Diverges]; [session_terminates] and the lemmas of [Ends] show
    that it never happens.  [copy_recursive] takes the depth it may reach as an
    argument: a directory that contains the local root has none that is enough.

    ** Conventions and limits

    Theorems that need a working environment say so: [calm] is a file system
    without faults, [willing] a peer that keeps reading, [alive] one that does
    not reset the connection, [delivers] a socket that yields given bytes in
    some segmentation, [room_for] and [local_room] that nothing stands in the way
    of a file, [sendable] and [answerable] that a message is in range and fits a
    frame.  The class [Host] fixes the byte order of the machine and the largest
    allocation that succeeds, for both ends; allocation fails only for sizes the
    peer controls (frame payloads, the upload buffer, block buffers).  A lock that
    is not free makes a session's run end in the outcome [Blocked]; threads that
    wait and proceed are in [FileMutex] and [ConcurrentUploads].  The theorems
    on one session or one conversation do not cover files that other sessions
    change meanwhile; [ConcurrentUploads], [SharedStorage] and [SharedDownloads]
    do, with one call of the file system (a write of the whole buffer, a digest, a
    read) as one step.  The handlers of the window run one after the other; how
    their commands overlap is in [Desktop].
    Error texts of the client carry the client's own words without the text of
    the system's error.

    Not modelled: the window's rendering and its selection of files (nothing but
    what is drawn depends on them), the Windows [TransmitFile] branch (the file does
    not compile there), proto3 groups (refused as malformed), socket options, log
    output, the banner and the help text, symbolic links, failures of read-only
    opens in [FileManager], and signals that arrive inside an iteration of an accept
    loop rather than between two: the handler only stores to [running_] and closes
    the listening socket, and what an [accept] on a descriptor closed under it does
    is up to the system.  Build files and benchmark scripts have no logic of the
    program. *)
From coqutil Require Export Byte Word.LittleEndianList.
From stdpp Require Export base list gmap strings pretty.
From Stdlib Require Export ZArith Lia.
From Corelib Require Export Init.Byte.
#[global] Open Scope Z_scope.

(** * Machine integers

    Unsigned and signed C++ integers are [Z] values; every place where the
    source converts or computes at a given width applies the wrap-around of
    that width explicitly. *)

Definition u8 (z : Z) : Z := z mod 2 ^ 8.
Definition u16 (z : Z) : Z := z mod 2 ^ 16.
Definition u32 (z : Z) : Z := z mod 2 ^ 32.
Definition u64 (z : Z) : Z := z mod 2 ^ 64.
Definition i32 (z : Z) : Z := (z + 2 ^ 31) mod 2 ^ 32 - 2 ^ 31.
Definition i64 (z : Z) : Z := (z + 2 ^ 63) mod 2 ^ 64 - 2 ^ 63.

(** [std::vector::size] and friends as an integer. *)
Definition zlen {A} (l : list A) : Z := Z.of_nat (length l).

Abbreviation bytes := (list byte).

(** The bytes of an integer, most significant first, and back. *)
Definition be_split (n : nat) (v : Z) : bytes := reverse (le_split n v).
Definition be_combine (bs : bytes) : Z := le_combine (reverse bs).

(** * Outcomes of C++ code

    A call returns a value, throws an exception, or stops the whole process:
    [Trap] carries what the process dies of (or that it never comes back). *)

Inductive exn :=
| RuntimeError (what : string)
| FilesystemError (what : string)
| LengthError
| BadAlloc
| Panic (what : string).   (* of the Rust client: unwinds like an exception *)

Inductive trap :=
| SigPipe          (* send() on a connection reset by the peer, SIGPIPE not ignored *)
| SigFpe           (* integer division by zero *)
| Diverges         (* a loop that makes no more progress *)
| Blocked          (* waits for a lock while another thread holds it *)
| Terminate (e : exn)   (* std::terminate: an exception leaves a thread *)
| OutOfMemory.     (* of the Rust client: a failed allocation aborts *)

Inductive outcome (A : Type) :=
| Ret (a : A)
| Throw (e : exn)
| Trap (t : trap).
Arguments Ret {A} a.
Arguments Throw {A} e.
Arguments Trap {A} t.

#[export] Instance outcome_ret : MRet outcome := @Ret.
#[export] Instance outcome_bind : MBind outcome := λ A B f m,
  match m with
  | Ret a => f a
  | Throw e => Throw e
  | Trap t => Trap t
  end.

(** State passing with outcomes: what a stateful C++ member function is. *)
Definition SM (S A : Type) : Type := S → outcome A * S.

#[export] Instance SM_ret {S} : MRet (SM S) := λ A a s, (Ret a, s).
#[export] Instance SM_bind {S} : MBind (SM S) := λ A B f m s,
  match m s with
  | (Ret a, s') => f a s'
  | (Throw e, s') => (Throw e, s')
  | (Trap t, s') => (Trap t, s')
  end.

Definition get_st {S} : SM S S := λ s, (Ret s, s).
Definition put_st {S} (s : S) : SM S unit := λ _, (Ret tt, s).
Definition modify_st {S} (f : S → S) : SM S unit := λ s, (Ret tt, f s).
Definition gets_st {S A} (f : S → A) : SM S A := λ s, (Ret (f s), s).
Definition throw {S A} (e : exn) : SM S A := λ s, (Throw e, s).
Definition trap_with {S A} (t : trap) : SM S A := λ s, (Trap t, s).
Definition lift {S A} (o : outcome A) : SM S A := λ s, (o, s).

(** Run a computation on one field of a larger state. *)
Definition zoom {S T A} (get : S → T) (set : T → S → S) (m : SM T A) : SM S A :=
  λ s, let '(o, t) := m (get s) in (o, set t s).

(** Every end of a run satisfies [Q]: total correctness over outcomes. *)
Definition wp {S A} (m : SM S A) (Q : outcome A → S → Prop) (s : S) : Prop :=
  let '(r, s') := m s in Q r s'.

(** * The machine the server runs on *)

(** Byte order and the amount of memory an allocation may take are properties
    of the host, not of the program: the development is parametric in them. *)
Class Host := {
  host_little_endian : bool;
  alloc_limit : Z
}.

(** [std::vector<uint8_t>::resize] / [reserve] to [n] elements. *)
Definition vector_max_size : Z := 2 ^ 63 - 1.
Definition vector_alloc `{Host} (n : Z) : outcome unit :=
  if vector_max_size <? n then Throw LengthError
  else if alloc_limit <? n then Throw BadAlloc
  else Ret tt.

(** * Automation *)

Create HintDb wrap.
Create Rewrite HintDb len.
Create Rewrite HintDb u32_flat.

Ltac wrap_unfold := unfold u8, u16, u32, u64, i32, i64 in *.

(** Arithmetic goals with wrap-around: expose the moduli to [lia]. *)
Ltac wrap_lia := wrap_unfold; Z.div_mod_to_equations; lia.

(** Case analysis on a stuck [match]/[if] scrutinee, remembering it. *)
Ltac split_match :=
  match goal with
  | |- context [match ?x with _ => _ end] =>
      lazymatch x with
      | context [match _ with _ => _ end] => fail
      | _ => destruct x eqn:?
      end
  end.

Ltac len_solve := autorewrite with len in *; simpl in *; try lia.
Ltac bool_to_prop :=
  repeat match goal with
  | H : (_ && _)%bool = true |- _ => apply andb_prop in H as [? ?]
  | H : (_ <? _) = true |- _ => apply Z.ltb_lt in H
  | H : (_ <? _) = false |- _ => apply Z.ltb_ge in H
  | H : (_ <=? _) = true |- _ => apply Z.leb_le in H
  | H : (_ <=? _) = false |- _ => apply Z.leb_gt in H
  | H : (_ =? _) = true |- _ => apply Z.eqb_eq in H
  | H : (_ =? _) = false |- _ => apply Z.eqb_neq in H
  end.

(** * Shared lemmas *)

#[export] Instance byte_eq_dec : EqDecision byte.
Proof. unfold EqDecision, Decision. intros x y. destruct (Byte.byte_eq_dec x y); auto. Defined.

Lemma u32_small z : 0 <= z < 2 ^ 32 → u32 z = z.
Proof. apply Z.mod_small. Qed.
Lemma u64_small z : 0 <= z < 2 ^ 64 → u64 z = z.
Proof. apply Z.mod_small. Qed.
Lemma u32_bound z : 0 <= u32 z < 2 ^ 32.
Proof. apply Z.mod_pos_bound. lia. Qed.
Lemma u64_bound z : 0 <= u64 z < 2 ^ 64.
Proof. apply Z.mod_pos_bound. lia. Qed.
#[export] Hint Resolve u32_bound u64_bound : wrap.

Lemma zlen_nonneg {A} (l : list A) : 0 <= zlen l.
Proof. unfold zlen. lia. Qed.
Lemma zlen_app {A} (l k : list A) : zlen (l ++ k) = zlen l + zlen k.
Proof. unfold zlen. rewrite length_app. lia. Qed.
Lemma zlen_nil_inv {A} (l : list A) : zlen l = 0 → l = [].
Proof. destruct l; unfold zlen; simpl; [done | lia]. Qed.
Lemma to_nat_zlen {A} (l : list A) : Z.to_nat (zlen l) = length l.
Proof. unfold zlen. lia. Qed.
#[export] Hint Rewrite @zlen_app @length_app @length_replicate @length_take @length_drop
  @length_inserts @length_insert @length_le_split @length_reverse : len.

(** [memcpy] into the middle of a buffer that is long enough. *)
Lemma inserts_within {A} (i : nat) (src buf : list A) :
  (i + length src <= length buf)%nat →
  list_inserts i src buf = take i buf ++ src ++ drop (i + length src) buf.
Proof.
  intros Hlen.
  rewrite <- (take_drop i buf) at 1.
  replace i with (length (take i buf) + 0)%nat at 1 by (rewrite length_take; lia).
  rewrite list_inserts_app_r. f_equal.
  rewrite <- (take_drop (length src) (drop i buf)) at 1.
  rewrite list_inserts_0_r by (rewrite length_take, length_drop; lia).
  by rewrite drop_drop.
Qed.

Lemma insert_within {A} (i : nat) (x : A) (buf : list A) :
  (i < length buf)%nat → <[i:=x]> buf = take i buf ++ x :: drop (S i) buf.
Proof. intros. by apply insert_take_drop. Qed.

Lemma take_min_length {A} (n : nat) (l : list A) : take (Nat.min n (length l)) l = take n l.
Proof. by rewrite <- take_take, firstn_all. Qed.

Lemma drop_min_length {A} (n : nat) (l : list A) : drop (Nat.min n (length l)) l = drop n l.
Proof.
  destruct (Nat.le_ge_cases n (length l)); [by rewrite Nat.min_l|].
  rewrite Nat.min_r by done. by rewrite !drop_ge.
Qed.

(** ** Outcomes and the state monad *)

Lemma SM_bind_unfold {S A B} (m : SM S A) (f : A → SM S B) s :
  (m ≫= f) s =
  match m s with
  | (Ret a, s') => f a s'
  | (Throw e, s') => (Throw e, s')
  | (Trap t, s') => (Trap t, s')
  end.
Proof. reflexivity. Qed.

Lemma SM_bind_ret {S A B} (m : SM S A) (f : A → SM S B) s a s' :
  m s = (Ret a, s') → (m ≫= f) s = f a s'.
Proof. intros Hm. by rewrite SM_bind_unfold, Hm. Qed.

Lemma SM_lift_bind {S A B} (a : A) (f : A → SM S B) s : (x ← lift (Ret a); f x) s = f a s.
Proof. done. Qed.

Lemma SM_ret_inj {S A} (a b : A) (s s' : S) : mret (M := SM S) a s = (Ret b, s') → a = b ∧ s = s'.
Proof. by intros [= -> ->]. Qed.

Lemma wp_run {S A} (m : SM S A) Q s r s' : m s = (r, s') → wp m Q s → Q r s'.
Proof. intros Hm. unfold wp. by rewrite Hm. Qed.

Lemma wp_mono {S A} (m : SM S A) (Q Q' : outcome A → S → Prop) s :
  wp m Q s → (∀ r s', Q r s' → Q' r s') → wp m Q' s.
Proof. unfold wp. destruct (m s). auto. Qed.

Lemma wp_and {S A} (m : SM S A) (Q Q' : outcome A → S → Prop) s :
  wp m Q s → wp m Q' s → wp m (λ r s', Q r s' ∧ Q' r s') s.
Proof. unfold wp. by destruct (m s). Qed.

Lemma wp_bind {S A B} (m : SM S A) (f : A → SM S B) Q s :
  wp m (λ r s', match r with
                | Ret a => wp (f a) Q s'
                | Throw e => Q (Throw e) s'
                | Trap t => Q (Trap t) s'
                end) s →
  wp (m ≫= f) Q s.
Proof. unfold wp. rewrite SM_bind_unfold. by destruct (m s) as [[a|e|t] s']. Qed.

(** A computation known to return, followed by another. *)
Lemma wp_bind_ret {S A B} (m : SM S A) (f : A → SM S B) (R : A → S → Prop) Q s :
  wp m (λ r s', ∃ a, r = Ret a ∧ R a s') s →
  (∀ a s', R a s' → wp (f a) Q s') →
  wp (m ≫= f) Q s.
Proof.
  intros Hm Hf. apply wp_bind. eapply wp_mono; [exact Hm|]. intros r s' (a & -> & Ha). by apply Hf.
Qed.

Lemma wp_lift {S A} (a : A) (Q : outcome A → S → Prop) s : Q (Ret a) s → wp (lift (Ret a)) Q s.
Proof. done. Qed.

(** ** Computations that come back

    [respects R m]: every run of [m] relates its start to its end by [R] and
    does not run forever.  The rules follow the structure of the code, so that
    [solve_respects] walks through a whole handler. *)

Definition respects {S A} (R : S → S → Prop) (m : SM S A) : Prop :=
  ∀ s, R s (m s).2 ∧ (m s).1 ≠ Trap Diverges.
Abbreviation ends m := (respects (λ _ _, True) m).

Section Respects.
Context {S : Type} (R : S → S → Prop) `{!Reflexive R, !Transitive R}.

Lemma respects_ret {A} (a : A) : respects R (mret a).
Proof. done. Qed.
Lemma respects_throw {A} e : respects R (throw (A := A) e).
Proof. done. Qed.
Lemma respects_trap {A} t : t ≠ Diverges → respects R (trap_with (A := A) t).
Proof. intros Ht s. simpl. split; [done|congruence]. Qed.
Lemma respects_lift {A} (o : outcome A) : o ≠ Trap Diverges → respects R (lift o).
Proof. done. Qed.
Lemma respects_get : respects R get_st.
Proof. done. Qed.
Lemma respects_gets {A} (f : S → A) : respects R (gets_st f).
Proof. done. Qed.
Lemma respects_modify (f : S → S) : (∀ s, R s (f s)) → respects R (modify_st f).
Proof. done. Qed.
Lemma respects_put s' : (∀ s, R s s') → respects R (put_st s').
Proof. done. Qed.

Lemma respects_bind {A B} (m : SM S A) (f : A → SM S B) :
  respects R m → (∀ a, respects R (f a)) → respects R (m ≫= f).
Proof.
  intros Hm Hf s. rewrite SM_bind_unfold. specialize (Hm s).
  destruct (m s) as [[a|e|t] s1]; simpl in *; [|by destruct Hm; split; congruence..].
  destruct (Hf a s1) as [Hr Hd]. split; [|done]. etransitivity; [apply Hm|done].
Qed.

Lemma respects_zoom {T A} (get : S → T) (set : T → S → S) (Q : T → T → Prop) (m : SM T A) :
  (∀ t s, Q (get s) t → R s (set t s)) → respects Q m → respects R (zoom get set m).
Proof.
  intros Hset Hm s. unfold zoom. specialize (Hm (get s)). destruct (m (get s)) as [o t]. simpl in *.
  split; [|by apply Hm]. by apply Hset, Hm.
Qed.

End Respects.

#[export] Instance true_reflexive {A} : Reflexive (λ _ _ : A, True).
Proof. done. Qed.
#[export] Instance true_transitive {A} : Transitive (λ _ _ : A, True).
Proof. done. Qed.

Create HintDb respects.
#[export] Hint Resolve respects_ret respects_throw respects_get respects_gets : respects.
#[export] Hint Extern 1 (Trap _ ≠ Trap Diverges) => discriminate : respects.

Ltac solve_respects :=
  repeat first
    [ progress intros
    | solve [eauto with respects typeclass_instances]
    | apply respects_bind
    | match goal with
      | |- respects _ (match ?x with _ => _ end) => destruct x eqn:?
      | |- respects _ (if ?x then _ else _) => destruct x eqn:?
      | |- respects _ (lift _) => apply respects_lift
      | |- respects _ (modify_st _) => apply respects_modify
      | |- respects _ (put_st _) => apply respects_put
      | |- respects _ (trap_with _) => apply respects_trap; [..|discriminate]
      | |- respects _ (let '(_, _) := ?x in _) => destruct x eqn:?
      | |- match ?x with _ => _ end ≠ Trap Diverges => destruct x
      | |- _ ≠ Trap Diverges => discriminate
      end ].

(** [keeps R m]: the same without the claim that the run ends. *)
Definition keeps {S A} (R : S → S → Prop) (m : SM S A) : Prop := ∀ s, R s (m s).2.

Lemma keeps_wp {S A} (R : S → S → Prop) (m : SM S A) s : keeps R m → wp m (λ _ s', R s s') s.
Proof. intros Hk. unfold wp. specialize (Hk s). by destruct (m s). Qed.

Section Keeps.
Context {S : Type} (R : S → S → Prop) `{!Reflexive R, !Transitive R}.

Lemma keeps_ret {A} (a : A) : keeps R (mret a).
Proof. done. Qed.
Lemma keeps_lift {A} (o : outcome A) : keeps R (lift o).
Proof. done. Qed.
Lemma keeps_trap {A} t : keeps R (trap_with (A := A) t).
Proof. done. Qed.
Lemma keeps_get : keeps R get_st.
Proof. done. Qed.
Lemma keeps_gets {A} (f : S → A) : keeps R (gets_st f).
Proof. done. Qed.
Lemma keeps_modify (f : S → S) : (∀ s, R s (f s)) → keeps R (modify_st f).
Proof. done. Qed.
Lemma keeps_bind {A B} (m : SM S A) (f : A → SM S B) :
  keeps R m → (∀ a, keeps R (f a)) → keeps R (m ≫= f).
Proof.
  intros Hm Hf s. rewrite SM_bind_unfold. specialize (Hm s).
  destruct (m s) as [[a|e|t] s1]; simpl in *; [|done..]. etransitivity; [exact Hm|apply Hf].
Qed.
Lemma keeps_zoom {T A} (get : S → T) (set : T → S → S) (m : SM T A) :
  (∀ t s, R s (set t s)) → keeps R (zoom get set m).
Proof. intros Hset s. unfold zoom. destruct (m (get s)) as [o t]. apply Hset. Qed.

End Keeps.

Create HintDb keeps.
#[export] Hint Resolve keeps_ret keeps_lift keeps_trap keeps_get keeps_gets : keeps.

Ltac solve_keeps :=
  repeat first
    [ progress intros
    | solve [eauto with keeps typeclass_instances]
    | apply keeps_bind
    | match goal with
      | |- keeps _ (match ?x with _ => _ end) => destruct x eqn:?
      | |- keeps _ (if ?x then _ else _) => destruct x eqn:?
      | |- keeps _ (modify_st _) => apply keeps_modify
      | |- keeps _ (zoom _ _ _) => apply keeps_zoom
      end ].

(** ** Filtering *)

Lemma filter_agree {A} (P Q : A → Prop) `{∀ x, Decision (P x), ∀ x, Decision (Q x)} (l : list A) :
  (∀ x, x ∈ l → P x ↔ Q x) → filter P l = filter Q l.
Proof.
  induction l as [|x l IH]; intros Hl; [done|]. rewrite !filter_cons.
  rewrite IH by (intros y Hy; apply Hl; by right).
  assert (P x ↔ Q x) by (apply Hl; by left). repeat case_decide; tauto || done.
Qed.

Lemma filter_all {A} (P : A → Prop) `{∀ x, Decision (P x)} (l : list A) : Forall P l → filter P l = l.
Proof. induction 1 as [|x l Hx _ IH]; [done|]. by rewrite filter_cons_True, IH. Qed.

Lemma filter_none {A} (P : A → Prop) `{∀ x, Decision (P x)} (l : list A) :
  Forall (λ x, ~ P x) l → filter P l = [].
Proof. induction 1 as [|x l Hx _ IH]; [done|]. by rewrite filter_cons_False, IH. Qed.

(** ** Bytes of integers *)

Lemma le_combine_split_small (n : nat) z :
  0 <= z < 2 ^ (Z.of_nat n * 8) → le_combine (le_split n z) = z.
Proof. intros. rewrite le_combine_split. by apply Z.mod_small. Qed.

Lemma le_combine_range (bs : bytes) (n : nat) :
  length bs = n → 0 <= le_combine bs < 2 ^ (8 * Z.of_nat n).
Proof. intros <-. apply le_combine_bound. Qed.

Lemma length_be_split n v : length (be_split n v) = n.
Proof. unfold be_split. by rewrite length_reverse, length_le_split. Qed.

Lemma be_combine_split n v : 0 <= v < 2 ^ (Z.of_nat n * 8) → be_combine (be_split n v) = v.
Proof.
  intros. unfold be_combine, be_split. rewrite reverse_involutive.
  by apply le_combine_split_small.
Qed.

Lemma be_combine_bound bs n : length bs = n → 0 <= be_combine bs < 2 ^ (8 * Z.of_nat n).
Proof. intros <-. unfold be_combine. rewrite <- length_reverse. apply le_combine_bound. Qed.

#[export] Hint Rewrite length_be_split : len.

(** Bit fields that do not overlap: [or] is [+]. *)
Lemma testbit_above a k i : 0 <= a < 2 ^ k → k <= i → Z.testbit a i = false.
Proof.
  intros Ha Hi. destruct (decide (k < 0)); [rewrite Z.pow_neg_r in Ha; lia|].
  rewrite <- (Z.mod_small a (2 ^ k)) by done. apply Z.mod_pow2_bits_high. lia.
Qed.

Lemma lor_disjoint a b k : 0 <= k → 0 <= a < 2 ^ k → Z.lor a (b * 2 ^ k) = a + b * 2 ^ k.
Proof.
  intros Hk Ha. rewrite <- Z.add_lor_land.
  enough (Z.land a (b * 2 ^ k) = 0) as -> by lia.
  apply Z.bits_inj'. intros i Hi. rewrite Z.land_spec, Z.bits_0.
  destruct (decide (i < k)).
  - rewrite (Z.mul_pow2_bits_low b k i) by done. apply andb_false_r.
  - by rewrite (testbit_above a k) by lia.
Qed.

(** Nested wrap-around collapses into one. *)
Lemma u32_add_l a b : u32 (u32 a + b) = u32 (a + b).
Proof. unfold u32. by rewrite Z.add_mod_idemp_l. Qed.
Lemma u32_add_l2 a b c : u32 (u32 a + b + c) = u32 (a + b + c).
Proof. by rewrite <- Z.add_assoc, u32_add_l, Z.add_assoc. Qed.
Lemma u32_add_l3 a b c d : u32 (u32 a + b + c + d) = u32 (a + b + c + d).
Proof. by rewrite <- Z.add_assoc, u32_add_l2, Z.add_assoc. Qed.
Lemma u32_add_r a b : u32 (a + u32 b) = u32 (a + b).
Proof. unfold u32. by rewrite Z.add_mod_idemp_r. Qed.

#[export] Hint Rewrite u32_add_l u32_add_l2 u32_add_l3 : u32_flat.

Lemma u32_sum5 a b c d e : u32 (u32 (u32 (u32 (a + b) + c) + d) + e) = u32 (a + b + c + d + e).
Proof. by autorewrite with u32_flat. Qed.

(** A counted loop over two arrays is a fold over their pairs. *)
Lemma fold_left_zip {S A B} `{Inhabited A, Inhabited B} (g : S → A → B → S) :
  ∀ (l : list A) (k : list B) s, length l = length k →
  fold_left (λ s i, g s (l !!! i) (k !!! i)) (seq 0 (length l)) s =
  fold_left (λ s '(x, y), g s x y) (zip l k) s.
Proof.
  induction l as [|x l IH]; intros [|y k] s Hlen; simpl in *; try done.
  rewrite <- seq_shift, <- IH by lia. generalize (g s x y). generalize (seq 0 (length l)).
  intros js; induction js as [|i js IHi]; intros s'; simpl; [done|apply IHi].
Qed.

Lemma fold_left_ext_in {A B} (f g : A → B → A) (P : A → Prop) l :
  (∀ a b, P a → f a b = g a b) → (∀ a b, P a → P (f a b)) →
  ∀ a, P a → fold_left f l a = fold_left g l a ∧ P (fold_left f l a).
Proof.
  intros Hfg HP. induction l as [|b l IH]; intros a Ha; simpl; [done|].
  rewrite <- Hfg by done. auto.
Qed.

(** Cutting a list into [n] blocks of [k]. *)
Lemma reshape_blocks {A} (k n : nat) : ∀ l : list A,
  reshape (replicate n k) l = (λ i, take k (drop (i * k) l)) <$> seq 0 n.
Proof.
  induction n as [|n IH]; intros l; [done|]. simpl.
  rewrite drop_0, IH, <- fmap_S_seq, <- list_fmap_compose. f_equal.
  apply list_fmap_ext. intros i j _. simpl. by rewrite drop_drop.
Qed.

Lemma vector_alloc_ok `{Host} n :
  n <= alloc_limit → n <= vector_max_size → vector_alloc n = Ret tt.
Proof.
  intros. unfold vector_alloc.
  rewrite (proj2 (Z.ltb_ge _ _)) by lia. by rewrite (proj2 (Z.ltb_ge _ _)) by lia.
Qed.

(** * Sums over a map *)

Definition map_sum {K A} `{Countable K} (f : A → nat) (m : gmap K A) : nat :=
  map_fold (λ _ x n, f x + n)%nat 0%nat m.

Lemma map_sum_update {K A} `{Countable K} (f : A → nat) (m : gmap K A) k x y : m !! k = Some x →
  (map_sum f (<[k := y]> m) + f x = map_sum f m + f y)%nat.
Proof.
  intros Hx. assert (∀ z, map_sum f (<[k := z]> (delete k m)) = f z + map_sum f (delete k m))%nat as Hz.
  { intros z. unfold map_sum. rewrite map_fold_insert_L; [done|intros; lia|apply lookup_delete_eq]. }
  rewrite <- insert_delete_eq, Hz. rewrite <- (insert_delete_id m k x Hx) at 2. rewrite Hz. lia.
Qed.

Lemma map_sum_ext {K A} `{Countable K} (f g : A → nat) (m : gmap K A) : (∀ x, f x = g x) → map_sum f m = map_sum g m.
Proof.
  intros Hfg. unfold map_sum. induction m as [|k x m Hk Hfirst IH] using map_first_key_ind; [done|].
  rewrite !map_fold_insert_first_key by done. by rewrite IH, Hfg.
Qed.

Lemma map_sum_fmap {K A B} `{Countable K} (h : A → B) (f : B → nat) (m : gmap K A) :
  map_sum f (h <$> m) = map_sum (f ∘ h) m.
Proof. unfold map_sum. by rewrite map_fold_fmap. Qed.
