(* ===== verification/WireProtocol.v ===== *)
(** Wire protocol: frame encoding and decoding and the socket helpers of
    src/server/include/wire_protocol.h.

    The socket is a script of what the kernel answers to the successive calls
    of [recv] and [send] (data, EINTR, errors) together with the bytes handed
    to the peer, so every loop of the header runs on concrete values. *)
From S2P Require Import Prelude.

(** * Constants *)

Definition RAW_DATA_SENTINEL : Z := 0xFFFFFFFF.
Definition MSG_RAW_DATA : byte := xfe.
Definition FRAME_HEADER_SIZE : nat := 5.
Definition RAW_HEADER_SIZE : nat := 13.

(** * Byte order *)

Section ByteOrder.
Context `{Host}.

(** The object representation of an unsigned integer of [n] bytes. *)
Definition store (n : nat) (v : Z) : bytes :=
  if host_little_endian then le_split n v else reverse (le_split n v).
Definition load (bs : bytes) : Z :=
  if host_little_endian then le_combine bs else le_combine (reverse bs).

Definition bswap (n : nat) (v : Z) : Z := le_combine (reverse (le_split n v)).

Definition host_to_net32 (val : Z) : Z := if host_little_endian then bswap 4 val else val.
Definition net_to_host32 (val : Z) : Z := if host_little_endian then bswap 4 val else val.
Definition host_to_net64 (val : Z) : Z := if host_little_endian then bswap 8 val else val.
Definition net_to_host64 (val : Z) : Z := if host_little_endian then bswap 8 val else val.

End ByteOrder.

(** * Frames *)

Record WireFrame := mkWireFrame {
  message_type : byte;
  payload : bytes
}.

Record FrameHeader := mkFrameHeader {
  payload_length : Z;
  hdr_message_type : byte;
  is_raw_data : bool;
  raw_data_length : Z
}.

Section Codec.
Context `{Host}.

Definition encode_frame (frame : WireFrame) : bytes :=
  let buffer := replicate (FRAME_HEADER_SIZE + length (payload frame)) x00 in
  let net_len := host_to_net32 (u32 (zlen (payload frame))) in
  let buffer := list_inserts 0 (store 4 net_len) buffer in
  let buffer := <[4%nat := message_type frame]> buffer in
  if decide (payload frame = []) then buffer
  else list_inserts FRAME_HEADER_SIZE (payload frame) buffer.

Definition encode_raw_data_header (raw_length : Z) : bytes :=
  let buffer := replicate RAW_HEADER_SIZE x00 in
  let sentinel := host_to_net32 RAW_DATA_SENTINEL in
  let buffer := list_inserts 0 (store 4 sentinel) buffer in
  let buffer := <[4%nat := MSG_RAW_DATA]> buffer in
  let net_len := host_to_net64 raw_length in
  list_inserts 5 (store 8 net_len) buffer.

Definition decode_frame_header (data : bytes) (len : Z) : outcome FrameHeader :=
  if len <? Z.of_nat FRAME_HEADER_SIZE then
    Throw (RuntimeError ("Frame header too short: " +:+ pretty len))
  else
    let first4 := net_to_host32 (load (take 4 data)) in
    if first4 =? RAW_DATA_SENTINEL then
      if len <? Z.of_nat RAW_HEADER_SIZE then
        Throw (RuntimeError "Raw-data header too short")
      else
        let raw_len := load (take 8 (drop 5 data)) in
        Ret (mkFrameHeader 0 (default x00 (data !! 4%nat)) true (net_to_host64 raw_len))
    else
      Ret (mkFrameHeader first4 (default x00 (data !! 4%nat)) false 0).

End Codec.

(** * Sockets *)

Inductive recv_event :=
| RecvData (b : byte) (bs : bytes)   (* a non-empty segment that has arrived *)
| RecvEintr
| RecvError.

Inductive send_event :=
| SendUpTo (n : nat)                 (* the kernel takes at most [n] bytes *)
| SendEintr
| SendError
| SendPipe.                          (* the peer reset the connection *)

(** When [rx] is used up the peer has closed its side; when [tx_events] is
    used up the kernel takes whatever it is given. *)
Record socket := mkSocket {
  rx : list recv_event;
  tx_events : list send_event;
  tx : bytes
}.

Inductive io_result :=
| IoData (bs : bytes)                (* the bytes moved; none: 0 is returned *)
| IoEintr
| IoError.

(** The length argument both helpers compute, [static_cast<int>(rest)], as the
    kernel sees it: converted to [size_t], and clamped to the most bytes one
    call moves on Linux. *)
Definition MAX_RW_COUNT : Z := 0x7ffff000.
Definition io_len (rest : Z) : Z := Z.min (u64 (i32 rest)) MAX_RW_COUNT.

Definition recv (len : Z) : SM socket io_result := λ s,
  if len =? 0 then (Ret (IoData []), s) else
  match rx s with
  | [] => (Ret (IoData []), s)
  | RecvEintr :: evs => (Ret IoEintr, mkSocket evs (tx_events s) (tx s))
  | RecvError :: evs => (Ret IoError, mkSocket evs (tx_events s) (tx s))
  | RecvData b bs :: evs =>
      let n := Z.to_nat len in
      let rest :=
        match drop n (b :: bs) with
        | [] => evs
        | b' :: bs' => RecvData b' bs' :: evs
        end in
      (Ret (IoData (take n (b :: bs))), mkSocket rest (tx_events s) (tx s))
  end.

Definition send (buf : bytes) (len : Z) : SM socket io_result := λ s,
  let n := Z.to_nat len in
  match tx_events s with
  | [] => (Ret (IoData (take n buf)), mkSocket (rx s) [] (tx s ++ take n buf))
  | SendUpTo k :: evs =>
      let sent := take (Nat.min k n) buf in
      (Ret (IoData sent), mkSocket (rx s) evs (tx s ++ sent))
  | SendEintr :: evs => (Ret IoEintr, mkSocket (rx s) evs (tx s))
  | SendError :: evs => (Ret IoError, mkSocket (rx s) evs (tx s))
  | SendPipe :: evs => (Trap SigPipe, mkSocket (rx s) evs (tx s))
  end.

(** The work left in a script: it bounds the iterations of the loops below. *)
Definition recv_weight (e : recv_event) : nat :=
  match e with RecvData _ bs => S (S (length bs)) | _ => 1%nat end.
Definition rx_weight (s : socket) : nat := sum_list_with recv_weight (rx s).
Definition tx_weight (s : socket) (n : nat) : nat := (length (tx_events s) + n)%nat.

(** The bytes a benign script delivers before the peer closes. *)
Definition event_bytes (e : recv_event) : bytes :=
  match e with RecvData b bs => b :: bs | _ => [] end.
Definition rx_stream (s : socket) : bytes := concat (event_bytes <$> rx s).

(** [read_exact]: the return value and the bytes stored in [buf]. *)
Fixpoint read_exact_loop (fuel : nat) (count : Z) (buf : bytes) : SM socket (Z * bytes) :=
  match fuel with
  | O => trap_with Diverges
  | S fuel' =>
      let total := zlen buf in
      if total <? count then
        r ← recv (io_len (count - total));
        match r with
        | IoData [] => mret (total, buf)
        | IoData bs => read_exact_loop fuel' count (buf ++ bs)
        | IoEintr => read_exact_loop fuel' count buf
        | IoError => mret (-1, buf)
        end
      else mret (total, buf)
  end.

Definition read_exact (count : Z) : SM socket (Z * bytes) := λ s,
  read_exact_loop (S (rx_weight s)) count [] s.

Fixpoint write_exact_loop (fuel : nat) (buf : bytes) (total : nat) : SM socket Z :=
  match fuel with
  | O => trap_with Diverges
  | S fuel' =>
      if decide (total < length buf)%nat then
        r ← send (drop total buf) (io_len (zlen buf - Z.of_nat total));
        match r with
        | IoData [] => mret (Z.of_nat total)
        | IoData bs => write_exact_loop fuel' buf (total + length bs)%nat
        | IoEintr => write_exact_loop fuel' buf total
        | IoError => mret (-1)
        end
      else mret (Z.of_nat total)
  end.

Definition write_exact (buf : bytes) : SM socket Z := λ s,
  write_exact_loop (S (tx_weight s (length buf))) buf 0 s.

Section FrameIO.
Context `{Host}.

(** [read_frame]: [None] is the [false] return. *)
Definition read_frame : SM socket (option WireFrame) :=
  '(n, hdr5) ← read_exact (Z.of_nat FRAME_HEADER_SIZE);
  if negb (n =? Z.of_nat FRAME_HEADER_SIZE) then mret None else
  let first4 := net_to_host32 (load (take 4 hdr5)) in
  if first4 =? RAW_DATA_SENTINEL then
    '(n, hdr8) ← read_exact 8;
    if negb (n =? 8) then mret None else
    hdr ← lift (decode_frame_header (hdr5 ++ hdr8) (Z.of_nat RAW_HEADER_SIZE));
    _ ← lift (vector_alloc (raw_data_length hdr));
    if 0 <? raw_data_length hdr then
      '(n, data) ← read_exact (raw_data_length hdr);
      if negb (n =? i64 (raw_data_length hdr)) then mret None
      else mret (Some (mkWireFrame MSG_RAW_DATA data))
    else mret (Some (mkWireFrame MSG_RAW_DATA []))
  else
    _ ← lift (vector_alloc first4);
    if 0 <? first4 then
      '(n, data) ← read_exact first4;
      if negb (n =? first4) then mret None
      else mret (Some (mkWireFrame (default x00 (hdr5 !! 4%nat)) data))
    else mret (Some (mkWireFrame (default x00 (hdr5 !! 4%nat)) [])).

Definition write_frame (frame : WireFrame) : SM socket bool :=
  let encoded := encode_frame frame in
  n ← write_exact encoded;
  mret (n =? zlen encoded).

End FrameIO.

(** * Specification vocabulary *)

(** The wire format the protocol documents. *)
Definition frame_format (len : Z) (ty : byte) (data : bytes) : bytes :=
  be_split 4 len ++ ty :: data.
Definition raw_frame_format (data : bytes) : bytes :=
  frame_format RAW_DATA_SENTINEL MSG_RAW_DATA (be_split 8 (zlen data) ++ data).

(** A socket whose script holds no error. *)
Definition benign (s : socket) : Prop := Forall (λ e, e ≠ RecvError) (rx s).
Definition same_tx (s s' : socket) : Prop := tx s' = tx s ∧ tx_events s' = tx_events s.

(** A socket that has received exactly [bs], cut into segments at will. *)
Definition delivers (s : socket) (bs : bytes) : Prop := benign s ∧ rx_stream s = bs.

(** Read frames until the peer closes or a frame is cut short. *)
Fixpoint read_frames `{Host} (n : nat) : SM socket (list WireFrame) :=
  match n with
  | O => mret []
  | S n' =>
      f ← read_frame;
      match f with
      | None => mret []
      | Some f => fs ← read_frames n'; mret (f :: fs)
      end
  end.

(** * Byte order lemmas *)

Section ByteOrderFacts.
Context `{Host}.

Lemma store_bswap n v :
  store n (if host_little_endian then bswap n v else v) = be_split n v.
Proof.
  unfold store, be_split, bswap. destruct host_little_endian; [|done].
  apply split_le_combine'. by rewrite length_reverse, length_le_split.
Qed.

Lemma bswap_load n bs : length bs = n →
  (if host_little_endian then bswap n (load bs) else load bs) = be_combine bs.
Proof.
  intros Hlen. unfold load, be_combine, bswap. destruct host_little_endian; [|done].
  by rewrite (split_le_combine' bs n Hlen).
Qed.

Lemma store_host_to_net32 v : store 4 (host_to_net32 v) = be_split 4 v.
Proof. apply store_bswap. Qed.
Lemma store_host_to_net64 v : store 8 (host_to_net64 v) = be_split 8 v.
Proof. apply store_bswap. Qed.
Lemma net_to_host32_load bs : length bs = 4%nat → net_to_host32 (load bs) = be_combine bs.
Proof. apply bswap_load. Qed.
Lemma net_to_host64_load bs : length bs = 8%nat → net_to_host64 (load bs) = be_combine bs.
Proof. apply bswap_load. Qed.

Lemma take_be_split n v rest : take n (be_split n v ++ rest) = be_split n v.
Proof. apply take_app_length'. symmetry. apply length_be_split. Qed.

Lemma drop_be_split n v rest : drop n (be_split n v ++ rest) = rest.
Proof. apply drop_app_length'. symmetry. apply length_be_split. Qed.

End ByteOrderFacts.

(** * The frame codec *)

Section CodecFacts.
Context `{Host}.

Lemma header_layout ty (sz : Z) n :
  <[4%nat := ty]> (list_inserts 0 (be_split 4 sz) (replicate (5 + n) x00)) =
  be_split 4 sz ++ ty :: replicate n x00.
Proof.
  change (replicate (5 + n) x00) with (replicate 4 x00 ++ x00 :: replicate n x00).
  rewrite list_inserts_0_r by apply length_be_split.
  rewrite insert_app_r_alt by (rewrite length_be_split; lia).
  by rewrite length_be_split.
Qed.

Lemma payload_layout (sz : Z) ty (data rest : bytes) :
  list_inserts 5 data (be_split 4 sz ++ ty :: replicate (length data) x00 ++ rest) =
  be_split 4 sz ++ ty :: data ++ rest.
Proof.
  rewrite cons_middle, app_assoc, cons_middle, (app_assoc _ [ty]).
  replace 5%nat with (length (be_split 4 sz ++ [ty]) + 0)%nat
    by (rewrite length_app, length_be_split; reflexivity).
  by rewrite list_inserts_app_r, list_inserts_0_r by (by rewrite length_replicate).
Qed.

Lemma encode_frame_layout (f : WireFrame) :
  encode_frame f = frame_format (u32 (zlen (payload f))) (message_type f) (payload f).
Proof.
  unfold encode_frame, frame_format. rewrite store_host_to_net32, header_layout.
  case_decide as Hp; [by rewrite Hp|].
  by rewrite <- (app_nil_r (replicate _ _)), payload_layout, app_nil_r.
Qed.

Lemma encode_raw_format n :
  encode_raw_data_header n = frame_format RAW_DATA_SENTINEL MSG_RAW_DATA (be_split 8 n).
Proof.
  unfold encode_raw_data_header, frame_format.
  rewrite store_host_to_net32, store_host_to_net64, (header_layout _ _ 8).
  rewrite <- (app_nil_r (replicate _ _)), <- (length_be_split 8 n) at 1.
  by rewrite payload_layout, app_nil_r.
Qed.

Lemma decode_first4 sz ty rest :
  0 <= sz < 2 ^ 32 →
  net_to_host32 (load (take 4 (frame_format sz ty rest))) = sz.
Proof.
  intros. unfold frame_format. rewrite take_be_split, net_to_host32_load by apply length_be_split.
  by apply be_combine_split.
Qed.

Lemma lookup_type sz ty rest : frame_format sz ty rest !! 4%nat = Some ty.
Proof.
  unfold frame_format. rewrite lookup_app_r by (rewrite length_be_split; lia).
  by rewrite length_be_split.
Qed.

Lemma drop_type sz ty rest : drop 5 (frame_format sz ty rest) = rest.
Proof.
  unfold frame_format. rewrite drop_app_ge; rewrite length_be_split; [done|lia].
Qed.

Lemma decode_raw_format n :
  0 <= n < 2 ^ 64 →
  decode_frame_header (encode_raw_data_header n) (Z.of_nat RAW_HEADER_SIZE) =
  Ret (mkFrameHeader 0 MSG_RAW_DATA true n).
Proof.
  intros Hn. unfold decode_frame_header. simpl (_ <? _).
  rewrite encode_raw_format, decode_first4, lookup_type by (unfold RAW_DATA_SENTINEL; lia).
  rewrite drop_type. unfold RAW_DATA_SENTINEL. rewrite Z.eqb_refl.
  rewrite take_ge by (rewrite length_be_split; lia).
  rewrite net_to_host64_load by apply length_be_split.
  by rewrite be_combine_split by lia.
Qed.

End CodecFacts.

(** * Socket loops *)

Lemma io_len_bounds rest : 0 < rest < 2 ^ 32 → 0 < io_len rest <= rest.
Proof. intros. unfold io_len, MAX_RW_COUNT. wrap_lia. Qed.

Lemma rx_weight_cons e evs te t :
  rx_weight (mkSocket (e :: evs) te t) = (recv_weight e + rx_weight (mkSocket evs te t))%nat.
Proof. reflexivity. Qed.

Lemma rx_stream_cons e evs te t :
  rx_stream (mkSocket (e :: evs) te t) = event_bytes e ++ rx_stream (mkSocket evs te t).
Proof. reflexivity. Qed.

(** One [recv] of a positive length on a script without errors. *)
Inductive recv_step (len : Z) (s : socket) : io_result → socket → Prop :=
| recv_closed : rx s = [] → recv_step len s (IoData []) s
| recv_interrupted s' :
    rx_stream s' = rx_stream s → (rx_weight s' < rx_weight s)%nat →
    benign s' → same_tx s s' → recv_step len s IoEintr s'
| recv_got b bs s' :
    rx_stream s = (b :: bs) ++ rx_stream s' → zlen (b :: bs) <= len →
    (rx_weight s' < rx_weight s)%nat →
    benign s' → same_tx s s' → recv_step len s (IoData (b :: bs)) s'.

Lemma recv_benign len s :
  0 < len → benign s → ∃ r s', recv len s = (Ret r, s') ∧ recv_step len s r s'.
Proof.
  intros Hlen Hben. unfold recv. rewrite (proj2 (Z.eqb_neq _ _)) by lia.
  destruct s as [evs te t]; unfold benign in Hben; simpl in *.
  destruct evs as [|[b bs| |] evs].
  - eexists _, _; split; [done|]. by constructor.
  - inversion_clear Hben.
    destruct (Z.to_nat len) as [|n] eqn:Hn; [lia|]. simpl.
    assert (bs = take n bs ++ drop n bs) as Hbs by (by rewrite take_drop).
    assert (length (take n bs) + length (drop n bs) = length bs)%nat as Hl
      by (rewrite length_take, length_drop; lia).
    assert (zlen (b :: take n bs) <= len) by (unfold zlen; simpl; rewrite length_take; lia).
    destruct (drop n bs) as [|b' bs'] eqn:Hd; eexists _, _; (split; [done|]); constructor;
      rewrite ?rx_stream_cons, ?rx_weight_cons; simpl in *; try lia; try done.
    + rewrite app_nil_r in Hbs. by rewrite <- Hbs.
    + f_equal. rewrite Hbs at 1. by rewrite <- app_assoc.
    + by constructor.
  - inversion_clear Hben. eexists _, _; split; [done|].
    constructor; rewrite ?rx_stream_cons, ?rx_weight_cons; simpl; try lia; done.
  - by inversion_clear Hben.
Qed.

Lemma read_exact_loop_spec fuel : ∀ count buf s,
  (rx_weight s < fuel)%nat → benign s → zlen buf <= count < 2 ^ 32 →
  let n := Z.to_nat (count - zlen buf) in
  ∃ s', read_exact_loop fuel count buf s =
          (Ret (zlen (buf ++ take n (rx_stream s)), buf ++ take n (rx_stream s)), s') ∧
        rx_stream s' = drop n (rx_stream s) ∧ benign s' ∧ same_tx s s'.
Proof.
  induction fuel as [|fuel IH]; [lia|]. intros count buf s Hfuel Hben Hcount n.
  simpl. destruct (Z.ltb_spec (zlen buf) count); cycle 1.
  { replace n with 0%nat by lia. exists s. by rewrite take_0, app_nil_r. }
  pose proof (io_len_bounds (count - zlen buf)) as Hio.
  pose proof (zlen_nonneg buf).
  destruct (recv_benign (io_len (count - zlen buf)) s) as (r & s1 & Hr & Hstep); [lia|done|].
  rewrite SM_bind_unfold, Hr.
  inversion Hstep as [Hnil|s2 Hst Hw Hb Htx|b bs s2 Hst Hl Hw Hb Htx]; subst.
  - exists s1. unfold rx_stream. rewrite Hnil. simpl.
    by rewrite take_nil, drop_nil, app_nil_r.
  - destruct (IH count buf s1) as (s' & -> & Hst' & Hb' & Htx'); [lia|done|lia|].
    rewrite Hst in *. exists s'. repeat split; try done; destruct Htx, Htx'; congruence.
  - assert (zlen (buf ++ b :: bs) <= count) by (rewrite zlen_app; lia).
    destruct (IH count (buf ++ b :: bs) s1) as (s' & -> & Hst' & Hb' & Htx'); [lia|done|lia|].
    exists s'. rewrite Hst.
    assert (n = length (b :: bs) + Z.to_nat (count - zlen (buf ++ b :: bs)))%nat as ->
      by (rewrite zlen_app; unfold n, zlen in *; lia).
    rewrite take_app_add, drop_app_add, <- !app_assoc.
    repeat split; try done; destruct Htx, Htx'; congruence.
Qed.

(** The whole call: [n] is what is asked for, and the peer may close early. *)
Lemma read_exact_spec count s :
  benign s → 0 <= count < 2 ^ 32 →
  ∃ s', read_exact count s =
          (Ret (zlen (take (Z.to_nat count) (rx_stream s)), take (Z.to_nat count) (rx_stream s)), s') ∧
        rx_stream s' = drop (Z.to_nat count) (rx_stream s) ∧ benign s' ∧ same_tx s s'.
Proof.
  intros Hb Hc. unfold read_exact.
  destruct (read_exact_loop_spec (S (rx_weight s)) count [] s) as (s' & Hr & ? & ? & ?);
    [lia|done|unfold zlen; simpl; lia|].
  change (zlen []) with 0 in *. rewrite Z.sub_0_r in *. by exists s'.
Qed.

Lemma read_exact_exact data rest s :
  delivers s (data ++ rest) → zlen data < 2 ^ 32 →
  ∃ s', read_exact (zlen data) s = (Ret (zlen data, data), s') ∧
        delivers s' rest ∧ same_tx s s'.
Proof.
  intros [Hb Hst] Hl.
  destruct (read_exact_spec (zlen data) s Hb) as (s' & Hr & Hst' & Hb' & Htx);
    [pose proof (zlen_nonneg data); lia|].
  rewrite Hst, to_nat_zlen, take_app_length in Hr.
  rewrite Hst, to_nat_zlen, drop_app_length in Hst'.
  exists s'. split; [done|]. by split; [split|].
Qed.

(** [write_exact] hands a prefix of the buffer to the peer, and says how long
    a prefix unless an error struck. *)
Lemma send_cases buf len s :
  (∃ bs, send buf len s = (Ret (IoData bs), mkSocket (rx s) (tail (tx_events s)) (tx s ++ bs)) ∧
         bs = take (length bs) buf) ∨
  (∃ r, send buf len s = (Ret r, mkSocket (rx s) (tail (tx_events s)) (tx s)) ∧
        tx_events s ≠ [] ∧ (r = IoEintr ∨ r = IoError)) ∨
  (send buf len s = (Trap SigPipe, mkSocket (rx s) (tail (tx_events s)) (tx s))).
Proof.
  unfold send. destruct (tx_events s) as [|[k| | |] evs]; simpl; eauto 10.
  - left. eexists; split; [done|]. by rewrite length_take, take_min_length.
  - left. eexists; split; [done|]. by rewrite length_take, take_min_length.
Qed.

(** What a run of the send loop from offset [total] may do: every return value
    with the bytes the peer got, and no third way to end. *)
Definition wrote (buf : bytes) (total : nat) (s : socket) (r : outcome Z) (s' : socket) : Prop :=
  ∃ k, (total + k <= length buf)%nat ∧
    tx s' = tx s ++ take k (drop total buf) ∧ rx s' = rx s ∧
    match r with
    | Ret z => z = -1 ∨ z = Z.of_nat (total + k)
    | Throw _ => False
    | Trap t => t = SigPipe
    end.

Lemma wrote_step buf total bs s r s1 s' :
  bs = take (length bs) (drop total buf) → rx s1 = rx s → tx s1 = tx s ++ bs →
  wrote buf (total + length bs) s1 r s' → wrote buf total s r s'.
Proof.
  intros Hbs Hrx Htx (k & Hk & Htx' & Hrx' & Hr). exists (length bs + k)%nat.
  rewrite <- take_take_drop, <- Hbs, drop_drop, Nat.add_assoc.
  split; [lia|]. split; [|by rewrite Hrx'].
  by rewrite Htx', Htx, <- app_assoc.
Qed.

Lemma write_exact_loop_spec fuel : ∀ buf total s,
  (length (tx_events s) + (length buf - total) < fuel)%nat → (total <= length buf)%nat →
  let '(r, s') := write_exact_loop fuel buf total s in wrote buf total s r s'.
Proof.
  induction fuel as [|fuel IH]; [lia|]. intros buf total s Hfuel Htot. simpl.
  assert (∀ z, z = -1 ∨ z = Z.of_nat total → wrote buf total s (Ret z) s) as Hstop.
  { intros z Hz. exists 0%nat. rewrite take_0, app_nil_r, Nat.add_0_r. by repeat split. }
  case_decide; [|by apply Hstop; right].
  rewrite SM_bind_unfold.
  destruct (send_cases (drop total buf) (io_len (zlen buf - Z.of_nat total)) s)
    as [(bs & -> & Hbs)|[(r & -> & Hne & Hr)| ->]].
  - destruct bs as [|b bs].
    + exists 0%nat. simpl. rewrite take_0, !app_nil_r, Nat.add_0_r. by repeat split; [lia|right].
    + assert (length (b :: bs) <= length buf - total)%nat.
      { rewrite Hbs, length_take, length_drop. lia. }
      set (s1 := mkSocket _ _ _). specialize (IH buf (total + length (b :: bs))%nat s1).
      destruct (write_exact_loop _ _ _ s1) as [r s'].
      apply (wrote_step _ _ (b :: bs) _ _ s1); [done..|].
      apply IH; simpl in *; [|lia]. destruct (tx_events s); simpl in *; lia.
  - set (s1 := mkSocket _ _ _). destruct Hr as [-> | ->].
    + specialize (IH buf total s1). destruct (write_exact_loop _ _ _ _) as [r s'].
      destruct IH as (k & ?); [|done|by exists k].
      destruct (tx_events s); simpl in *; [done|lia].
    + exists 0%nat. simpl. rewrite take_0, app_nil_r. by repeat split; [lia|left].
  - exists 0%nat. simpl. rewrite take_0, app_nil_r. by repeat split; lia.
Qed.

(** A peer that keeps reading: every call makes progress or is interrupted. *)
Definition willing (e : send_event) : Prop :=
  match e with SendUpTo n => (0 < n)%nat | SendEintr => True | _ => False end.

Lemma write_exact_loop_willing fuel : ∀ buf total s,
  (length (tx_events s) + (length buf - total) < fuel)%nat → (total <= length buf)%nat →
  Forall willing (tx_events s) → zlen buf < 2 ^ 32 →
  ∃ evs, write_exact_loop fuel buf total s =
    (Ret (zlen buf), mkSocket (rx s) evs (tx s ++ drop total buf)) ∧ Forall willing evs.
Proof.
  induction fuel as [|fuel IH]; [lia|]. intros buf total s Hfuel Htot Hw Hlen. simpl.
  case_decide as Hlt; cycle 1.
  { exists (tx_events s). rewrite drop_ge, app_nil_r by lia. destruct s.
    by replace total with (length buf) by lia. }
  pose proof (io_len_bounds (zlen buf - Z.of_nat total)) as Hio.
  specialize (Hio ltac:(unfold zlen in *; lia)). set (len := io_len _) in *. rewrite SM_bind_unfold. unfold send.
  assert (∀ k evs, (0 < k)%nat → (length evs <= length (tx_events s))%nat → Forall willing evs →
    ∃ evs', match take k (drop total buf) with
      | [] => mret (Z.of_nat total)
      | _ => write_exact_loop fuel buf (total + length (take k (drop total buf)))
      end (mkSocket (rx s) evs (tx s ++ take k (drop total buf))) =
      (Ret (zlen buf), mkSocket (rx s) evs' (tx s ++ drop total buf)) ∧ Forall willing evs') as Hgo.
  { intros k evs Hk Hle Hevs.
    assert (0 < length (take k (drop total buf)) <= length buf - total)%nat as Hpos
      by (rewrite length_take, length_drop; lia).
    set (s1 := mkSocket _ _ _).
    destruct (IH buf (total + length (take k (drop total buf)))%nat s1)
      as (evs' & Heq & Hw'); [simpl; lia|lia|done|done|]. exists evs'; split; [|exact Hw'].
    destruct (take k _) eqn:Ht at 1; [rewrite Ht in Hpos; simpl in *; lia|].
    rewrite Heq. unfold s1. simpl. do 2 f_equal.
    rewrite <- app_assoc, <- drop_drop. f_equal.
    rewrite length_take, drop_min_length. apply take_drop. }
  destruct (tx_events s) as [|[n| | |] evs] eqn:He; inversion_clear Hw as [|?? Hn Hevs]; simpl.
  - apply Hgo; simpl; [lia|lia|done].
  - simpl in Hn. apply Hgo; simpl in *; [lia|lia|done].
  - destruct (IH buf total (mkSocket (rx s) evs (tx s))) as (evs' & -> & ?); simpl in *; eauto; lia.
  - done.
  - done.
Qed.

(** * Frames over a socket *)

Section FrameFacts.
Context `{Host}.

Lemma frame_format_app sz ty data rest :
  frame_format sz ty data ++ rest = (be_split 4 sz ++ [ty]) ++ data ++ rest.
Proof. unfold frame_format. by rewrite <- !app_assoc. Qed.

Lemma first4_header sz ty : 0 <= sz < 2 ^ 32 →
  net_to_host32 (load (take 4 (be_split 4 sz ++ [ty]))) = sz.
Proof. apply (decode_first4 sz ty []). Qed.

Lemma header_type sz ty : (be_split 4 sz ++ [ty]) !! 4%nat = Some ty.
Proof. apply (lookup_type sz ty []). Qed.

Lemma zlen_header sz ty : zlen (be_split 4 sz ++ [ty]) = Z.of_nat FRAME_HEADER_SIZE.
Proof. unfold zlen. by rewrite length_app, length_be_split. Qed.

(** The five header bytes are there: what [read_frame] does next. *)
Lemma read_header sz ty rest s :
  delivers s ((be_split 4 sz ++ [ty]) ++ rest) →
  ∃ s', read_exact (Z.of_nat FRAME_HEADER_SIZE) s =
          (Ret (Z.of_nat FRAME_HEADER_SIZE, be_split 4 sz ++ [ty]), s') ∧
        delivers s' rest ∧ same_tx s s'.
Proof.
  intros Hd. rewrite <- (zlen_header sz ty).
  apply read_exact_exact; [done|]. by rewrite zlen_header.
Qed.

Lemma same_tx_trans s1 s2 s3 : same_tx s1 s2 → same_tx s2 s3 → same_tx s1 s3.
Proof. unfold same_tx. intuition congruence. Qed.

Lemma read_frame_standard ty data rest s :
  delivers s (frame_format (zlen data) ty data ++ rest) →
  zlen data < RAW_DATA_SENTINEL → zlen data <= alloc_limit →
  ∃ s', read_frame s = (Ret (Some (mkWireFrame ty data)), s') ∧ delivers s' rest ∧ same_tx s s'.
Proof.
  unfold RAW_DATA_SENTINEL. rewrite frame_format_app. intros Hd Hlen Hal.
  pose proof (zlen_nonneg data).
  destruct (read_header _ _ _ _ Hd) as (s1 & Hr & Hd1 & Htx).
  unfold read_frame. rewrite (SM_bind_ret _ _ _ _ _ Hr), Z.eqb_refl. cbn [negb].
  rewrite first4_header, header_type by lia.
  unfold RAW_DATA_SENTINEL. rewrite (proj2 (Z.eqb_neq _ _)) by lia.
  cbn [negb]. rewrite SM_bind_unfold. unfold lift at 1.
  rewrite vector_alloc_ok by (unfold vector_max_size; lia). simpl.
  destruct (Z.ltb_spec 0 (zlen data)).
  - destruct (read_exact_exact data rest s1 Hd1) as (s2 & Hr2 & Hd2 & Htx2); [lia|].
    rewrite (SM_bind_ret _ _ _ _ _ Hr2), Z.eqb_refl. simpl.
    exists s2. eauto using same_tx_trans.
  - assert (data = []) as -> by (apply zlen_nil_inv; lia). exists s1. by rewrite app_nil_l in Hd1.
Qed.

Lemma decode_raw_buffer n : 0 <= n < 2 ^ 64 →
  decode_frame_header ((be_split 4 RAW_DATA_SENTINEL ++ [MSG_RAW_DATA]) ++ be_split 8 n)
    (Z.of_nat RAW_HEADER_SIZE) = Ret (mkFrameHeader 0 MSG_RAW_DATA true n).
Proof.
  intros. rewrite <- (decode_raw_format n), encode_raw_format by done.
  by rewrite <- (app_nil_r (frame_format _ _ _)), frame_format_app, app_nil_r.
Qed.

(** A raw-data header announcing [n] bytes: [read_frame] up to its payload. *)
Lemma read_raw_header n rest s :
  delivers s (encode_raw_data_header n ++ rest) → 0 <= n < 2 ^ 64 →
  ∃ s1, delivers s1 rest ∧ same_tx s s1 ∧
    read_frame s =
      (_ ← lift (vector_alloc n);
       if 0 <? n then
         '(k, data) ← read_exact n;
         if negb (k =? i64 n) then mret None else mret (Some (mkWireFrame MSG_RAW_DATA data))
       else mret (Some (mkWireFrame MSG_RAW_DATA []))) s1.
Proof.
  rewrite encode_raw_format, frame_format_app. intros Hd Hn.
  destruct (read_header _ _ _ _ Hd) as (s1 & Hr & Hd1 & Htx).
  destruct (read_exact_exact (be_split 8 n) rest s1 Hd1) as (s2 & Hr2 & Hd2 & Htx2).
  { unfold zlen. rewrite length_be_split. lia. }
  change (zlen (be_split 8 n)) with (Z.of_nat (length (be_split 8 n))) in Hr2.
  rewrite length_be_split in Hr2. change (Z.of_nat 8) with 8 in Hr2.
  exists s2. split; [done|]. split; [eauto using same_tx_trans|].
  unfold read_frame. rewrite (SM_bind_ret _ _ _ _ _ Hr), Z.eqb_refl. cbn [negb].
  rewrite first4_header by (unfold RAW_DATA_SENTINEL; lia). rewrite Z.eqb_refl.
  rewrite (SM_bind_ret _ _ _ _ _ Hr2). cbn [negb].
  rewrite SM_bind_unfold. unfold lift at 1. by rewrite decode_raw_buffer.
Qed.

Lemma read_frame_raw data rest s :
  delivers s (encode_raw_data_header (zlen data) ++ data ++ rest) →
  zlen data < 2 ^ 32 → zlen data <= alloc_limit →
  ∃ s', read_frame s = (Ret (Some (mkWireFrame MSG_RAW_DATA data)), s') ∧
        delivers s' rest ∧ same_tx s s'.
Proof.
  intros Hd Hlen Hal. pose proof (zlen_nonneg data).
  destruct (read_raw_header (zlen data) (data ++ rest) s) as (s1 & Hd1 & Htx & ->); [done|lia|].
  rewrite SM_bind_unfold. unfold lift.
  rewrite vector_alloc_ok by (unfold vector_max_size; lia).
  destruct (Z.ltb_spec 0 (zlen data)).
  - destruct (read_exact_exact data rest s1 Hd1) as (s2 & Hr2 & Hd2 & Htx2); [lia|].
    rewrite (SM_bind_ret _ _ _ _ _ Hr2).
    replace (i64 (zlen data)) with (zlen data) by wrap_lia. rewrite Z.eqb_refl.
    exists s2. eauto using same_tx_trans.
  - assert (data = []) as -> by (apply zlen_nil_inv; lia). exists s1. by rewrite app_nil_l in Hd1.
Qed.

End FrameFacts.

(** * Properties *)

Section FrameProperties.
Context `{Host}.

Lemma write_exact_willing buf s :
  Forall willing (tx_events s) → zlen buf < 2 ^ 32 →
  ∃ evs, write_exact buf s = (Ret (zlen buf), mkSocket (rx s) evs (tx s ++ buf)) ∧
         Forall willing evs.
Proof.
  intros Hw Hl. unfold write_exact.
  destruct (write_exact_loop_willing (S (tx_weight s (length buf))) buf 0 s)
    as (evs & -> & ?); unfold tx_weight; eauto; lia.
Qed.

Lemma zlen_encode f : zlen (encode_frame f) = 5 + zlen (payload f).
Proof.
  rewrite encode_frame_layout. unfold frame_format, zlen.
  rewrite length_app, length_be_split. simpl. lia.
Qed.

Lemma encode_frame_standard f :
  zlen (payload f) < 2 ^ 32 →
  encode_frame f = frame_format (zlen (payload f)) (message_type f) (payload f).
Proof.
  intros. rewrite encode_frame_layout, u32_small; [done|].
  pose proof (zlen_nonneg (payload f)). lia.
Qed.

(** C15: a frame written to a peer that keeps reading arrives: [write_frame]
    succeeds, and [read_frame] on any socket that delivers the written bytes,
    cut into segments and interrupted at will and followed by anything, returns
    that very frame and leaves exactly the bytes behind it. *)
Theorem frame_roundtrip (f : WireFrame) (out inp : socket) (rest : bytes) :
  Forall willing (tx_events out) → tx out = [] →
  zlen (payload f) < 2 ^ 32 - 5 → zlen (payload f) <= alloc_limit →
  ∃ out', write_frame f out = (Ret true, out') ∧
    (delivers inp (tx out' ++ rest) →
     ∃ inp', read_frame inp = (Ret (Some f), inp') ∧ delivers inp' rest).
Proof.
  intros Hw Htx Hlen Hal.
  destruct (write_exact_willing (encode_frame f) out) as (evs & Hwr & _);
    [done|rewrite zlen_encode; lia|].
  eexists; split.
  { unfold write_frame. rewrite (SM_bind_ret _ _ _ _ _ Hwr), Z.eqb_refl. done. }
  simpl. rewrite Htx, app_nil_l, encode_frame_standard by lia. intros Hd.
  destruct (read_frame_standard _ _ _ _ Hd) as (inp' & ? & ? & _);
    [unfold RAW_DATA_SENTINEL; lia|done|].
  exists inp'. by destruct f.
Qed.

(** Framing is self-delimiting: any sequence of frames sent back to back,
    however the network cuts the byte stream, is read back as the same sequence
    in the same order. *)
Theorem frames_in_order (fs : list WireFrame) (s : socket) :
  Forall (λ f, zlen (payload f) < RAW_DATA_SENTINEL ∧ zlen (payload f) <= alloc_limit) fs →
  delivers s (concat (encode_frame <$> fs)) →
  ∃ s', read_frames (length fs) s = (Ret fs, s') ∧ delivers s' [].
Proof.
  unfold RAW_DATA_SENTINEL. intros Hfs. revert s.
  induction Hfs as [|f fs [Hlen Hal] _ IH]; intros s Hd; [by exists s|].
  simpl in Hd. rewrite encode_frame_standard in Hd by lia.
  destruct (read_frame_standard _ _ _ _ Hd) as (s1 & Hr & Hd1 & _); [done|done|].
  destruct (IH s1 Hd1) as (s' & Hrs & Hd').
  exists s'. split; [|done]. simpl. rewrite (SM_bind_ret _ _ _ _ _ Hr), (SM_bind_ret _ _ _ _ _ Hrs).
  by destruct f.
Qed.

Lemma prefix_split (p l k : bytes) :
  p `prefix_of` l ++ k → (length l <= length p)%nat → ∃ p', p = l ++ p' ∧ p' `prefix_of` k.
Proof.
  intros [m Hm] Hle. exists (drop (length l) p).
  assert (take (length l) p = l) as Ht.
  { rewrite <- (take_app_le p m) by lia. rewrite <- Hm. apply take_app_length. }
  split; [rewrite <- Ht at 1; by rewrite take_drop|].
  exists m. rewrite <- (take_drop (length l) p), Ht, <- app_assoc in Hm.
  by apply app_inv_head in Hm.
Qed.

(** A connection closed in the middle of a frame is never mistaken for a
    frame: on a proper prefix of an encoded frame [read_frame] returns false. *)
Theorem read_frame_truncated (f : WireFrame) (p : bytes) (s : socket) :
  zlen (payload f) < RAW_DATA_SENTINEL → zlen (payload f) <= alloc_limit →
  p `prefix_of` encode_frame f → p ≠ encode_frame f → delivers s p →
  ∃ s', read_frame s = (Ret None, s').
Proof.
  unfold RAW_DATA_SENTINEL. intros Hlen Hal Hp Hne Hd. pose proof (zlen_nonneg (payload f)).
  rewrite encode_frame_standard in Hp, Hne by lia.
  rewrite <- (app_nil_r (frame_format _ _ _)), frame_format_app, app_nil_r in Hp, Hne.
  set (hd := be_split 4 _ ++ [_]) in *.
  assert (length hd = 5%nat) as Hhd by (unfold hd; by rewrite length_app, length_be_split).
  destruct (decide (length p < 5)%nat) as [Hsh|Hge].
  - destruct (read_exact_spec (Z.of_nat FRAME_HEADER_SIZE) s) as (s1 & Hr & _); [apply Hd|done|].
    exists s1. unfold read_frame. rewrite (SM_bind_ret _ _ _ _ _ Hr).
    destruct Hd as [_ ->]. unfold zlen.
    rewrite (take_ge p (Z.to_nat (Z.of_nat FRAME_HEADER_SIZE))) by (unfold FRAME_HEADER_SIZE; lia).
    by rewrite (proj2 (Z.eqb_neq _ _)) by (unfold FRAME_HEADER_SIZE; lia).
  - destruct (prefix_split _ _ _ Hp) as (p' & -> & Hp'); [lia|].
    assert (zlen p' < zlen (payload f)) as Hlt.
    { destruct Hp' as [[|b m] Hm]; rewrite ?app_nil_r in Hm; [congruence|].
      rewrite Hm, zlen_app. unfold zlen. simpl. lia. }
    pose proof (zlen_nonneg p').
    destruct (read_header _ _ _ _ Hd) as (s1 & Hr & Hd1 & _).
    destruct (read_exact_spec (zlen (payload f)) s1) as (s2 & Hr2 & _); [apply Hd1|lia|].
    exists s2. unfold read_frame. rewrite (SM_bind_ret _ _ _ _ _ Hr), Z.eqb_refl. cbn [negb].
    unfold hd. rewrite first4_header, header_type by lia.
    unfold RAW_DATA_SENTINEL. rewrite (proj2 (Z.eqb_neq _ _)) by lia. cbn [negb].
    rewrite SM_bind_unfold. unfold lift.
    rewrite vector_alloc_ok, (proj2 (Z.ltb_lt _ _)) by (unfold vector_max_size; lia).
    rewrite (SM_bind_ret _ _ _ _ _ Hr2). destruct Hd1 as [_ ->].
    rewrite take_ge by (unfold zlen in *; lia).
    by rewrite (proj2 (Z.eqb_neq _ _)) by lia.
Qed.

End FrameProperties.

(** * Limits of the format *)

Section FrameLimits.
Context `{Host}.

(** The one payload size the format cannot carry: 2^32-1 bytes are announced
    with the raw-data sentinel in the length field, and [decode_frame_header]
    takes such a frame for a raw-data frame, whatever its message type. *)
Theorem sentinel_collision (f : WireFrame) :
  zlen (payload f) = RAW_DATA_SENTINEL →
  take 4 (encode_frame f) = take 4 (encode_raw_data_header 0) ∧
  ∃ n, decode_frame_header (encode_frame f) (zlen (encode_frame f)) =
       Ret (mkFrameHeader 0 (message_type f) true n).
Proof.
  intros Hlen. pose proof (zlen_encode f) as Hz. unfold RAW_DATA_SENTINEL in Hlen.
  rewrite encode_raw_format, Hz, encode_frame_standard, Hlen by lia.
  split; [unfold frame_format; by rewrite !take_be_split|].
  eexists. unfold decode_frame_header. by rewrite decode_first4, lookup_type by lia.
Qed.

Lemma read_exact_4gib s : read_exact (2 ^ 32) s = (Ret (0, []), s).
Proof. unfold read_exact. simpl. rewrite SM_bind_unfold. reflexivity. Qed.

(** C40: the [static_cast<int>] in [read_exact] loses raw frames of 2^32 bytes:
    the length handed to [recv] is 0, so with all the data at hand [read_frame]
    answers as if the peer had closed the connection. *)
Theorem raw_frame_4gib_lost (data : bytes) (s : socket) :
  2 ^ 32 <= alloc_limit →
  delivers s (encode_raw_data_header (2 ^ 32) ++ data) →
  ∃ s', read_frame s = (Ret None, s') ∧ delivers s' data.
Proof.
  intros Hal Hd. destruct (read_raw_header (2 ^ 32) data s) as (s1 & Hd1 & _ & ->); [done|lia|].
  exists s1. split; [|done]. rewrite SM_bind_unfold. unfold lift.
  rewrite vector_alloc_ok by (unfold vector_max_size; lia).
  change (0 <? 2 ^ 32) with true. cbv iota.
  by rewrite (SM_bind_ret _ _ _ _ _ (read_exact_4gib s1)).
Qed.

(** [write_exact] always comes back, and what it puts on the wire is always
    a prefix of the buffer: the returned count is its exact length unless the
    call reports an error (-1); the only other end is the death by SIGPIPE. *)
Theorem write_exact_safe (buf : bytes) (s : socket) :
  let '(r, s') := write_exact buf s in
  ∃ k, (k <= length buf)%nat ∧ tx s' = tx s ++ take k buf ∧ rx s' = rx s ∧
    match r with
    | Ret z => z = -1 ∨ z = Z.of_nat k
    | Throw _ => False
    | Trap t => t = SigPipe
    end.
Proof.
  unfold write_exact.
  pose proof (write_exact_loop_spec (S (tx_weight s (length buf))) buf 0 s) as Hw.
  destruct (write_exact_loop _ _ _ _) as [r s']. unfold tx_weight in Hw.
  destruct Hw as (k & Hk); [lia|lia|]. by exists k.
Qed.

End FrameLimits.

(** * Witnesses *)

Definition le_host : Host := {| host_little_endian := true; alloc_limit := 2 ^ 40 |}.
Definition be_host : Host := {| host_little_endian := false; alloc_limit := 2 ^ 40 |}.

Definition demo_frame : WireFrame := mkWireFrame x0a [x41; x42; x43].

Lemma frame_roundtrip_witness :
  let out := mkSocket [] [SendUpTo 2; SendEintr; SendUpTo 5] [] in
  let inp := mkSocket [RecvData x00 [x00; x00]; RecvEintr; RecvData x03 [x0a; x41];
                       RecvData x42 [x43; x07]] [] [] in
  ∃ out', @write_frame le_host demo_frame out = (Ret true, out') ∧
    (delivers inp (tx out' ++ [x07]) →
     ∃ inp', @read_frame le_host inp = (Ret (Some demo_frame), inp') ∧ delivers inp' [x07]).
Proof.
  intros out inp. apply (@frame_roundtrip le_host demo_frame out inp [x07]);
    [repeat constructor|reflexivity|reflexivity|discriminate].
Defined.

Lemma frames_in_order_witness :
  ∃ s', @read_frames be_host 2 (mkSocket [RecvData x00 [x00; x00]; RecvData x03 [x0a; x41; x42];
      RecvEintr; RecvData x43 [x00; x00; x00; x00; x01]] [] []) =
    (Ret [demo_frame; mkWireFrame x01 []], s') ∧ delivers s' [].
Proof.
  apply (@frames_in_order be_host [demo_frame; mkWireFrame x01 []]);
    [repeat constructor; discriminate|split; [|reflexivity]].
  repeat constructor; discriminate.
Defined.

Lemma read_frame_truncated_witness :
  ∃ s', @read_frame le_host (mkSocket [RecvData x00 [x00; x00; x03; x0a; x41]] [] []) = (Ret None, s').
Proof.
  apply (@read_frame_truncated le_host demo_frame [x00; x00; x00; x03; x0a; x41]);
    [reflexivity|discriminate|by exists [x42; x43]|discriminate|split; [|reflexivity]].
  repeat constructor; discriminate.
Defined.

Lemma zlen_replicate {A} n (x : A) : 0 <= n → zlen (replicate (Z.to_nat n) x) = n.
Proof. intros. unfold zlen. rewrite length_replicate. lia. Qed.

Lemma sentinel_collision_witness :
  let f := mkWireFrame x0a (replicate (Z.to_nat RAW_DATA_SENTINEL) x00) in
  take 4 (@encode_frame le_host f) = take 4 (@encode_raw_data_header le_host 0) ∧
  ∃ n, @decode_frame_header le_host (@encode_frame le_host f) (zlen (@encode_frame le_host f)) =
       Ret (mkFrameHeader 0 x0a true n).
Proof.
  intros f. apply (@sentinel_collision le_host f). apply zlen_replicate. discriminate.
Defined.

Lemma raw_frame_4gib_lost_witness :
  let s := mkSocket [RecvData xff [xff; xff; xff; xfe; x00; x00; x00]; RecvEintr;
                     RecvData x01 [x00; x00; x00; x00; x11; x22]] [] [] in
  ∃ s', @read_frame le_host s = (Ret None, s') ∧ delivers s' [x11; x22].
Proof.
  intros s. apply (@raw_frame_4gib_lost le_host [x11; x22] s);
    [discriminate|split; [|reflexivity]].
  repeat constructor; discriminate.
Defined.

(** * Any script: the helpers come back and make progress *)

Lemma recv_any len s : ∃ r s', recv len s = (Ret r, s') ∧ same_tx s s' ∧
  (rx_weight s' <= rx_weight s)%nat ∧
  (r = IoEintr ∨ (∃ b bs, r = IoData (b :: bs)) → (rx_weight s' < rx_weight s)%nat).
Proof.
  unfold recv. destruct (len =? 0).
  { eexists _, _; split; [done|]. split; [done|]. split; [done|]. by intros [|(? & ? & ?)]. }
  destruct s as [[|[b bs| |] evs] te t]; simpl; unfold rx_weight; simpl.
  - eexists _, _; split; [done|]. split; [done|]. split; [simpl; lia|]. by intros [|(? & ? & ?)].
  - assert (∀ n, match drop n (b :: bs) with [] => True | b' :: bs' => length (b' :: bs') <= length (b :: bs) ∧
      (n ≠ 0 → length (b' :: bs') < length (b :: bs)) end)%nat as Hd.
    { intros n. pose proof (length_drop (b :: bs) n) as Hl. destruct (drop n (b :: bs)); [done|]. simpl in *. lia. }
    specialize (Hd (Z.to_nat len)). eexists _, _; split; [done|]. split; [done|]. simpl.
    destruct (drop (Z.to_nat len) (b :: bs)); simpl in *; [lia|].
    split; [lia|]. intros [|(b1 & bs1 & Hbs)]; [done|].
    destruct (Z.to_nat len); [done|]. destruct Hd as [_ Hd]. specialize (Hd ltac:(lia)). lia.
  - eexists _, _; split; [done|]. split; [done|]. simpl. lia.
  - eexists _, _; split; [done|]. split; [done|]. simpl. lia.
Qed.

Lemma read_exact_loop_any fuel : ∀ count buf s, (rx_weight s < fuel)%nat →
  ∃ z out s', read_exact_loop fuel count buf s = (Ret (z, out), s') ∧ same_tx s s' ∧
    (rx_weight s' <= rx_weight s)%nat ∧ (zlen buf < z → (rx_weight s' < rx_weight s)%nat).
Proof.
  induction fuel as [|fuel IH]; [lia|]. intros count buf s Hfuel. simpl.
  destruct (zlen buf <? count); cycle 1.
  { eexists _, _, _; split; [done|]. split; [done|]. split; [done|]. lia. }
  destruct (recv_any (io_len (count - zlen buf)) s) as (r & s1 & Hr & Htx & Hle & Hlt).
  rewrite SM_bind_unfold, Hr. destruct r as [[|b bs]| |].
  - eexists _, _, _; split; [done|]. split; [done|]. split; [done|]. lia.
  - specialize (Hlt ltac:(eauto)).
    destruct (IH count (buf ++ b :: bs) s1) as (z & out & s' & -> & Htx' & Hle' & _); [lia|].
    eexists _, _, _; split; [done|]. split; [unfold same_tx in *; intuition congruence|]. lia.
  - specialize (Hlt ltac:(eauto)).
    destruct (IH count buf s1) as (z & out & s' & -> & Htx' & Hle' & _); [lia|].
    eexists _, _, _; split; [done|]. split; [unfold same_tx in *; intuition congruence|]. lia.
  - eexists _, _, _; split; [done|]. split; [done|]. split; [done|]. pose proof (zlen_nonneg buf). lia.
Qed.

Lemma read_exact_any count s :
  ∃ z out s', read_exact count s = (Ret (z, out), s') ∧ same_tx s s' ∧
    (rx_weight s' <= rx_weight s)%nat ∧ (0 < z → (rx_weight s' < rx_weight s)%nat).
Proof. apply (read_exact_loop_any _ count []). lia. Qed.

Section AnyScript.
Context `{Host}.

(** Whatever the peer does, [read_frame] comes back with a frame, with the
    [false] return or with a failed allocation; a frame uses up input. *)
Lemma read_frame_any s :
  let '(r, s') := read_frame s in
  same_tx s s' ∧ (rx_weight s' <= rx_weight s)%nat ∧
  match r with
  | Ret None => True
  | Ret (Some _) => (rx_weight s' < rx_weight s)%nat
  | Throw e => e = LengthError ∨ e = BadAlloc
  | Trap _ => False
  end.
Proof.
  unfold read_frame. destruct (read_exact_any (Z.of_nat FRAME_HEADER_SIZE) s) as (n & hdr & s1 & Hr1 & Htx1 & Hle1 & Hlt1).
  rewrite SM_bind_unfold, Hr1. destruct (Z.eqb_spec n (Z.of_nat FRAME_HEADER_SIZE)) as [->|]; [|done].
  specialize (Hlt1 ltac:(done)). cbn [negb]. cbv iota zeta.
  assert (∀ k (cond : Z → bytes → bool) (mk : bytes → WireFrame) s2, same_tx s s2 → (rx_weight s2 < rx_weight s)%nat →
    let '(r, s') := ('(n, data) ← read_exact k;
      if cond n data then mret None else mret (Some (mk data))) s2 in
    same_tx s s' ∧ (rx_weight s' <= rx_weight s)%nat ∧
    match r with Ret None => True | Ret (Some _) => (rx_weight s' < rx_weight s)%nat
    | Throw e => e = LengthError ∨ e = BadAlloc | Trap _ => False end) as Htail.
  { intros k cond mk s2 Htx2 Hlt2. destruct (read_exact_any k s2) as (n2 & data & s3 & Hr3 & Htx3 & Hle3 & _).
    rewrite SM_bind_unfold, Hr3.
    assert (same_tx s s3) by (unfold same_tx in *; intuition congruence).
    destruct (cond n2 data); simpl; (split; [done|]); lia. }
  assert (∀ n, vector_alloc n = Ret tt ∨ vector_alloc n = Throw LengthError ∨ vector_alloc n = Throw BadAlloc) as Halloc.
  { intros m. unfold vector_alloc. repeat case_match; auto. }
  destruct (_ =? RAW_DATA_SENTINEL).
  - destruct (read_exact_any 8 s1) as (n2 & hdr8 & s2 & Hr2 & Htx2 & Hle2 & _).
    rewrite SM_bind_unfold, Hr2.
    assert (same_tx s s2) by (unfold same_tx in *; intuition congruence).
    destruct (n2 =? 8); cbn [negb]; cbv iota; [|split; [done|lia]].
    rewrite SM_bind_unfold. unfold decode_frame_header, lift.
    change (Z.of_nat RAW_HEADER_SIZE <? Z.of_nat FRAME_HEADER_SIZE) with false.
    change (Z.of_nat RAW_HEADER_SIZE <? Z.of_nat RAW_HEADER_SIZE) with false. cbv iota zeta.
    destruct (_ =? RAW_DATA_SENTINEL); cbn [raw_data_length]; rewrite SM_bind_unfold.
    all: match goal with |- context [vector_alloc ?n] => destruct (Halloc n) as [->|[->| ->]] end.
    all: try (split; [done|]; split; [lia|]; tauto).
    all: match goal with |- context [0 <? ?n] => destruct (0 <? n) end.
    all: try (split; [done|]; simpl; lia).
    all: apply (Htail _ (λ k _, negb (k =? _)) (mkWireFrame MSG_RAW_DATA)); [done|lia].
  - rewrite SM_bind_unfold. unfold lift.
    match goal with |- context [vector_alloc ?n] => destruct (Halloc n) as [->|[->| ->]] end;
      [|split; [done|]; split; [lia|]; tauto..].
    match goal with |- context [0 <? ?n] => destruct (0 <? n) end; [|split; [done|]; simpl; lia].
    apply (Htail _ (λ k _, negb (k =? _)) (mkWireFrame _)); [done|lia].
Qed.

(** And [write_frame] leaves the input alone. *)
Lemma write_frame_any f s :
  let '(r, s') := write_frame f s in
  rx s' = rx s ∧ match r with Ret _ => True | Throw _ => False | Trap t => t = SigPipe end.
Proof.
  unfold write_frame, write_exact. rewrite SM_bind_unfold.
  pose proof (write_exact_loop_spec (S (tx_weight s (length (encode_frame f)))) (encode_frame f) 0 s) as Hw.
  destruct (write_exact_loop _ _ _ _) as [r s']. unfold tx_weight in Hw.
  destruct Hw as (k & _ & _ & Hrx & Hr); [lia|lia|]. by destruct r.
Qed.

Lemma write_frame_willing f s :
  Forall willing (tx_events s) → zlen (payload f) < 2 ^ 32 - 5 →
  ∃ evs, write_frame f s = (Ret true, mkSocket (rx s) evs (tx s ++ encode_frame f)) ∧ Forall willing evs.
Proof.
  intros Hw Hl. destruct (write_exact_willing (encode_frame f) s) as (evs & Hr & Hev);
    [done|rewrite zlen_encode; lia|].
  exists evs. split; [|done]. unfold write_frame. by rewrite (SM_bind_ret _ _ _ _ _ Hr), Z.eqb_refl.
Qed.

End AnyScript.

(** * A peer that has not reset the connection *)

(** Sends may fall short or fail, but no SIGPIPE is raised. *)
Definition alive (s : socket) : Prop := Forall (λ e, e ≠ SendPipe) (tx_events s).

Lemma write_exact_loop_alive fuel : ∀ buf total s, alive s →
  (length (tx_events s) + (length buf - total) < fuel)%nat →
  ∃ z evs t, write_exact_loop fuel buf total s = (Ret z, mkSocket (rx s) evs t) ∧
    Forall (λ e, e ≠ SendPipe) evs.
Proof.
  induction fuel as [|fuel IH]; [lia|]. intros buf total s Hal Hfuel. cbn [write_exact_loop].
  case_decide; [|destruct s; eauto 10]. rewrite SM_bind_unfold.
  assert (Forall (λ e, e ≠ SendPipe) (tail (tx_events s))) as Htl.
  { unfold alive in Hal. destruct (tx_events s); [done|]. by inversion Hal. }
  destruct (send_cases (drop total buf) (io_len (zlen buf - Z.of_nat total)) s)
    as [(bs & -> & Hbs)|[(r & -> & Hne & Hr)|Hp]].
  - destruct bs as [|b bs]; [eauto 10|].
    assert (length (b :: bs) <= length buf - total)%nat by (rewrite Hbs, length_take, length_drop; lia).
    destruct (IH buf (total + length (b :: bs))%nat (mkSocket (rx s) (tail (tx_events s)) (tx s ++ b :: bs)))
      as (z & evs & t & -> & Hev); [done| |eauto 10].
    simpl in *. destruct (tx_events s); simpl in *; lia.
  - destruct Hr as [-> | ->]; [|eauto 10].
    destruct (IH buf total (mkSocket (rx s) (tail (tx_events s)) (tx s))) as (z & evs & t & -> & Hev);
      [done| |eauto 10]. destruct (tx_events s); simpl in *; [done|lia].
  - exfalso. unfold send in Hp. unfold alive in Hal.
    destruct (tx_events s) as [|[]]; try discriminate Hp. by inversion Hal.
Qed.

Lemma write_frame_alive `{Host} f s : alive s →
  ∃ b evs t, write_frame f s = (Ret b, mkSocket (rx s) evs t) ∧ Forall (λ e, e ≠ SendPipe) evs.
Proof.
  intros Hal. unfold write_frame, write_exact. rewrite SM_bind_unfold.
  destruct (write_exact_loop_alive (S (tx_weight s (length (encode_frame f)))) (encode_frame f) 0 s Hal)
    as (z & evs & t & -> & Hev); [unfold tx_weight; lia|]. eexists _, evs, t. split; [reflexivity|done].
Qed.

Lemma delivers_rx s s' bs : rx s' = rx s → delivers s bs → delivers s' bs.
Proof. unfold delivers, benign, rx_stream. by intros ->. Qed.

Lemma alive_same_tx s s' : same_tx s s' → alive s → alive s'.
Proof. unfold alive. by intros [_ ->]. Qed.

(** * Sending uses up the script of the peer and adds to what was sent *)

Definition sends_on (s s' : socket) : Prop :=
  tx s `prefix_of` tx s' ∧ tx_events s' `suffix_of` tx_events s.

#[export] Instance sends_on_reflexive : Reflexive sends_on.
Proof. split; reflexivity. Qed.
#[export] Instance sends_on_transitive : Transitive sends_on.
Proof. intros a b c [H1 H2] [G1 G2]. split; by etransitivity. Qed.

Lemma send_sends_on buf len : keeps sends_on (send buf len).
Proof.
  intros s. destruct (send_cases buf len s) as [(bs & -> & _)|[(r & -> & _)| ->]]; simpl.
  all: (split; simpl; [by first [apply prefix_app_r|reflexivity]|]).
  all: by destruct (tx_events s) as [|e evs]; [|apply suffix_cons_r].
Qed.

Lemma write_exact_loop_sends_on fuel : ∀ buf total, keeps sends_on (write_exact_loop fuel buf total).
Proof.
  induction fuel as [|fuel IH]; intros buf total; cbn [write_exact_loop]; [solve_keeps|].
  pose proof send_sends_on. case_decide; solve_keeps.
Qed.

Lemma write_frame_sends_on `{Host} f : keeps sends_on (write_frame f).
Proof.
  unfold write_frame. apply keeps_bind; [apply _| |solve_keeps].
  intros s. apply write_exact_loop_sends_on.
Qed.

Lemma willing_sends_on s s' : sends_on s s' → Forall willing (tx_events s) → Forall willing (tx_events s').
Proof. intros [_ [evs ->]]. by intros [_ ?]%Forall_app. Qed.
