(* ===== verification/Sha256.v ===== *)
(** The embedded SHA-256 of src/server/src/file_manager.cpp (anonymous
    namespace) and its reference: FIPS 180-4, written independently of the
    code's loops, index arithmetic and constants. *)
From S2P Require Import Prelude.

(** * The code *)

Definition SHA256_K : list Z := concat [
  [0x428a2f98; 0x71374491; 0xb5c0fbcf; 0xe9b5dba5];
  [0x3956c25b; 0x59f111f1; 0x923f82a4; 0xab1c5ed5];
  [0xd807aa98; 0x12835b01; 0x243185be; 0x550c7dc3];
  [0x72be5d74; 0x80deb1fe; 0x9bdc06a7; 0xc19bf174];
  [0xe49b69c1; 0xefbe4786; 0x0fc19dc6; 0x240ca1cc];
  [0x2de92c6f; 0x4a7484aa; 0x5cb0a9dc; 0x76f988da];
  [0x983e5152; 0xa831c66d; 0xb00327c8; 0xbf597fc7];
  [0xc6e00bf3; 0xd5a79147; 0x06ca6351; 0x14292967];
  [0x27b70a85; 0x2e1b2138; 0x4d2c6dfc; 0x53380d13];
  [0x650a7354; 0x766a0abb; 0x81c2c92e; 0x92722c85];
  [0xa2bfe8a1; 0xa81a664b; 0xc24b8b70; 0xc76c51a3];
  [0xd192e819; 0xd6990624; 0xf40e3585; 0x106aa070];
  [0x19a4c116; 0x1e376c08; 0x2748774c; 0x34b0bcb5];
  [0x391c0cb3; 0x4ed8aa4a; 0x5b9cca4f; 0x682e6ff3];
  [0x748f82ee; 0x78a5636f; 0x84c87814; 0x8cc70208];
  [0x90befffa; 0xa4506ceb; 0xbef9a3f7; 0xc67178f2] ].

Definition rotr (x n : Z) : Z := Z.lor (Z.shiftr x n) (u32 (Z.shiftl x (32 - n))).

(** [~x] on [uint32_t]. *)
Definition not32 (x : Z) : Z := Z.lxor x 0xFFFFFFFF.

(** The eight chaining (and working) variables [h0 .. h7] / [a .. hh]. *)
Record hash_state := mkHash {
  st_a : Z; st_b : Z; st_c : Z; st_d : Z;
  st_e : Z; st_f : Z; st_g : Z; st_h : Z
}.

Definition initial_hash : hash_state :=
  mkHash 0x6a09e667 0xbb67ae85 0x3c6ef372 0xa54ff53a
         0x510e527f 0x9b05688c 0x1f83d9ab 0x5be0cd19.

(** Padding: the message, 0x80, zeros, the bit length in the last 8 bytes. *)
Definition padded_length (len : Z) : Z := u64 ((u64 (len + 8) / 64 + 1) * 64).

Definition put_length (bit_len : Z) (padded : bytes) : bytes :=
  fold_left
    (λ p i, <[(length padded - 1 - i)%nat := byte.of_Z (Z.shiftr bit_len (Z.of_nat i * 8))]> p)
    (seq 0 8) padded.

Definition sha256_pad (data : bytes) : bytes :=
  let len := zlen data in
  let bit_len := u64 (len * 8) in
  let padded := replicate (Z.to_nat (padded_length len)) x00 in
  let padded := list_inserts 0 data padded in
  let padded := <[length data := x80]> padded in
  put_length bit_len padded.

(** The message schedule [w] of the block at [offset]. *)
Definition word_at (padded : bytes) (pos : nat) : Z :=
  let b i := byte.unsigned (default x00 (padded !! (pos + i)%nat)) in
  Z.lor (Z.lor (Z.lor (u32 (Z.shiftl (b 0%nat) 24)) (u32 (Z.shiftl (b 1%nat) 16)))
               (u32 (Z.shiftl (b 2%nat) 8))) (b 3%nat).

Definition schedule_first (padded : bytes) (offset : nat) : list Z :=
  (λ i, word_at padded (offset + i * 4)) <$> seq 0 16.

Definition schedule_step (w : list Z) (i : nat) : list Z :=
  let w15 := w !!! (i - 15)%nat in
  let w2 := w !!! (i - 2)%nat in
  let s0 := Z.lxor (Z.lxor (rotr w15 7) (rotr w15 18)) (Z.shiftr w15 3) in
  let s1 := Z.lxor (Z.lxor (rotr w2 17) (rotr w2 19)) (Z.shiftr w2 10) in
  w ++ [u32 (u32 (u32 (w !!! (i - 16)%nat + s0) + w !!! (i - 7)%nat) + s1)].

Definition schedule (padded : bytes) (offset : nat) : list Z :=
  fold_left schedule_step (seq 16 48) (schedule_first padded offset).

(** One of the 64 rounds. *)
Definition sha256_round (w : list Z) (s : hash_state) (i : nat) : hash_state :=
  let '(mkHash a b c d e f g hh) := s in
  let S1 := Z.lxor (Z.lxor (rotr e 6) (rotr e 11)) (rotr e 25) in
  let ch := Z.lxor (Z.land e f) (Z.land (not32 e) g) in
  let temp1 := u32 (u32 (u32 (u32 (hh + S1) + ch) + SHA256_K !!! i) + w !!! i) in
  let S0 := Z.lxor (Z.lxor (rotr a 2) (rotr a 13)) (rotr a 22) in
  let maj := Z.lxor (Z.lxor (Z.land a b) (Z.land a c)) (Z.land b c) in
  let temp2 := u32 (S0 + maj) in
  mkHash (u32 (temp1 + temp2)) a b c (u32 (d + temp1)) e f g.

Definition add_state (s t : hash_state) : hash_state :=
  mkHash (u32 (st_a s + st_a t)) (u32 (st_b s + st_b t)) (u32 (st_c s + st_c t))
         (u32 (st_d s + st_d t)) (u32 (st_e s + st_e t)) (u32 (st_f s + st_f t))
         (u32 (st_g s + st_g t)) (u32 (st_h s + st_h t)).

Definition sha256_block (padded : bytes) (h : hash_state) (offset : nat) : hash_state :=
  add_state h (fold_left (sha256_round (schedule padded offset)) (seq 0 64) h).

(** The loop over the blocks, [offset = 0, 64, ...]. *)
Definition sha256_blocks (padded : bytes) : hash_state :=
  fold_left (sha256_block padded) ((λ k, (k * 64)%nat) <$> seq 0 (length padded / 64)) initial_hash.

Definition put_be32 (val : Z) : bytes :=
  [byte.of_Z (Z.shiftr val 24); byte.of_Z (Z.shiftr val 16);
   byte.of_Z (Z.shiftr val 8); byte.of_Z val].

Definition hash_words (h : hash_state) : list Z :=
  [st_a h; st_b h; st_c h; st_d h; st_e h; st_f h; st_g h; st_h h].

Definition sha256_raw (data : bytes) : bytes :=
  concat (put_be32 <$> hash_words (sha256_blocks (sha256_pad data))).

#[global] Arguments sha256_raw : simpl never.

(** [hex_chars[n]]. *)
Definition hex_char (n : Z) : Ascii.ascii :=
  match String.get (Z.to_nat n) "0123456789abcdef" with
  | Some c => c
  | None => Ascii.zero
  end.

Fixpoint to_hex (data : bytes) : string :=
  match data with
  | [] => ""
  | b :: data' =>
      String (hex_char (Z.shiftr (byte.unsigned b) 4))
        (String (hex_char (Z.land (byte.unsigned b) 0x0F)) (to_hex data'))
  end.

(** * The reference: FIPS 180-4 *)

Module Fips.

(** Words are integers below 2^32; rotation and complement by arithmetic. *)
Definition ROTR (n x : Z) : Z := x / 2 ^ n + (x mod 2 ^ n) * 2 ^ (32 - n).
Definition SHR (n x : Z) : Z := x / 2 ^ n.
Definition Ch (x y z : Z) : Z := Z.lxor (Z.land x y) (Z.land (2 ^ 32 - 1 - x) z).
Definition Maj (x y z : Z) : Z := Z.lxor (Z.lxor (Z.land x y) (Z.land x z)) (Z.land y z).
Definition Sigma0 (x : Z) : Z := Z.lxor (Z.lxor (ROTR 2 x) (ROTR 13 x)) (ROTR 22 x).
Definition Sigma1 (x : Z) : Z := Z.lxor (Z.lxor (ROTR 6 x) (ROTR 11 x)) (ROTR 25 x).
Definition sigma0 (x : Z) : Z := Z.lxor (Z.lxor (ROTR 7 x) (ROTR 18 x)) (SHR 3 x).
Definition sigma1 (x : Z) : Z := Z.lxor (Z.lxor (ROTR 17 x) (ROTR 19 x)) (SHR 10 x).

(** The constants are the first 32 bits of the fractional parts of the cube
    roots (square roots) of the first 64 (8) primes. *)
Definition is_prime (n : nat) : bool :=
  forallb (λ d, negb (n mod d =? 0)%nat) (seq 2 (n - 2)).
Definition primes (n : nat) : list Z :=
  Z.of_nat <$> take n (List.filter is_prime (seq 2 310)).
Fixpoint root_search (k n : Z) (bits : nat) (acc : Z) : Z :=
  match bits with
  | O => acc
  | S b =>
      let t := acc + 2 ^ Z.of_nat b in
      root_search k n b (if t ^ k <=? n then t else acc)
  end.
Definition root_fraction (k p : Z) : Z := root_search k (p * 2 ^ (32 * k)) 40 0 mod 2 ^ 32.
Definition K : list Z := root_fraction 3 <$> primes 64.
Definition H0 : list Z := root_fraction 2 <$> primes 8.

Definition pad (m : bytes) : bytes :=
  m ++ x80 :: replicate (Z.to_nat ((55 - zlen m) mod 64)) x00 ++ be_split 8 (8 * zlen m).

Definition words (block : bytes) : list Z := be_combine <$> reshape (replicate 16 4%nat) block.

(** The schedule, with a window of the last 16 words. *)
Definition next_word (win : list Z) : Z :=
  (sigma1 (win !!! 14%nat) + win !!! 9%nat + sigma0 (win !!! 1%nat) + win !!! 0%nat) mod 2 ^ 32.
Fixpoint extend (n : nat) (win : list Z) : list Z :=
  match n with
  | O => win
  | S n' =>
      match win with
      | [] => []
      | w0 :: win' => w0 :: extend n' (win' ++ [next_word win])
      end
  end.
Definition W (block : bytes) : list Z := extend 48 (words block).

Definition round (s : hash_state) (k w : Z) : hash_state :=
  let '(mkHash a b c d e f g h) := s in
  let T1 := (h + Sigma1 e + Ch e f g + k + w) mod 2 ^ 32 in
  let T2 := (Sigma0 a + Maj a b c) mod 2 ^ 32 in
  mkHash ((T1 + T2) mod 2 ^ 32) a b c ((d + T1) mod 2 ^ 32) e f g.

Definition compress (h : hash_state) (block : bytes) : hash_state :=
  add_state h (fold_left (λ s '(k, w), round s k w) (zip K (W block)) h).

Definition start : hash_state :=
  match H0 with
  | [a; b; c; d; e; f; g; h] => mkHash a b c d e f g h
  | _ => mkHash 0 0 0 0 0 0 0 0
  end.

Definition sha256 (m : bytes) : bytes :=
  let p := pad m in
  concat (be_split 4 <$> hash_words
    (fold_left compress (reshape (replicate (length p / 64) 64%nat) p) start)).

End Fips.

(** * The code computes the reference *)

Definition is_word (x : Z) : Prop := 0 <= x < 2 ^ 32.
Definition wf_hash (h : hash_state) : Prop := is_word (st_a h) ∧ is_word (st_e h) ∧
  is_word (st_b h) ∧ is_word (st_c h) ∧ is_word (st_d h) ∧ is_word (st_f h) ∧
  is_word (st_g h) ∧ is_word (st_h h).

Lemma K_correct : Fips.K = SHA256_K.
Proof. vm_compute. reflexivity. Qed.

Lemma start_correct : Fips.start = initial_hash.
Proof. vm_compute. reflexivity. Qed.

Lemma rotr_correct x n : is_word x → 0 < n < 32 → rotr x n = Fips.ROTR n x.
Proof.
  intros Hx Hn. unfold rotr, Fips.ROTR, is_word in *.
  rewrite Z.shiftr_div_pow2, Z.shiftl_mul_pow2 by lia.
  assert (u32 (x * 2 ^ (32 - n)) = (x mod 2 ^ n) * 2 ^ (32 - n)) as ->.
  { unfold u32. replace (2 ^ 32) with (2 ^ n * 2 ^ (32 - n))
      by (rewrite <- Z.pow_add_r by lia; f_equal; lia).
    apply Z.mul_mod_distr_r; apply Z.pow_nonzero; lia. }
  apply lor_disjoint; [lia|]. split; [apply Z.div_pos; lia|].
  apply Z.div_lt_upper_bound; [lia|]. rewrite <- Z.pow_add_r by lia.
  replace (n + (32 - n)) with 32; lia.
Qed.

Lemma not32_correct x : is_word x → not32 x = 2 ^ 32 - 1 - x.
Proof.
  intros Hx. unfold not32, is_word in *.
  change 0xFFFFFFFF with (Z.ones 32). change (2 ^ 32 - 1) with (Z.ones 32).
  assert (Z.log2 x < 32) by (destruct (decide (x = 0)) as [->|]; [done|apply Z.log2_lt_pow2; lia]).
  rewrite <- Z.ldiff_ones_l_low, Z.sub_nocarry_ldiff by (done || lia || apply Z.ldiff_ones_r_low; lia).
  done.
Qed.

Lemma put_be32_correct v : put_be32 v = be_split 4 v.
Proof.
  unfold put_be32, be_split. reflexivity.
Qed.

(** ** Padding *)

Lemma put_length_app x l8 v :
  length l8 = 8%nat → put_length v (x ++ l8) = x ++ be_split 8 v.
Proof.
  intros H8. do 8 (destruct l8 as [|? l8]; [done|]). destruct l8; [|done].
  unfold put_length. rewrite length_app. simpl length. cbn [seq fold_left].
  repeat match goal with
  | |- context [<[(length x + 8 - 1 - ?i)%nat := _]> _] =>
      replace (length x + 8 - 1 - i)%nat with (length x + (7 - i))%nat by lia
  end.
  by rewrite !insert_app_r.
Qed.

Lemma padded_length_correct len :
  0 <= len < 2 ^ 61 → padded_length len = len + 1 + (55 - len) mod 64 + 8.
Proof. intros. unfold padded_length. wrap_lia. Qed.

Lemma sha256_pad_correct data : zlen data < 2 ^ 61 → sha256_pad data = Fips.pad data.
Proof.
  intros Hlen. pose proof (zlen_nonneg data). unfold sha256_pad, Fips.pad.
  rewrite padded_length_correct, u64_small, (Z.mul_comm _ 8) by lia.
  pose proof (Z.mod_pos_bound (55 - zlen data) 64).
  set (k := Z.to_nat ((55 - zlen data) mod 64)).
  replace (Z.to_nat (zlen data + 1 + (55 - zlen data) mod 64 + 8))
    with (length data + S (k + 8))%nat by (unfold k, zlen in *; lia).
  rewrite !replicate_add. cbn [replicate].
  rewrite list_inserts_0_r by (by rewrite length_replicate).
  rewrite insert_app_r_alt, Nat.sub_diag by lia. cbn [insert list_insert].
  rewrite replicate_add, app_comm_cons, app_assoc, put_length_app by done.
  by rewrite <- app_assoc.
Qed.

Lemma length_pad data : (64 | Z.of_nat (length (Fips.pad data))).
Proof.
  unfold Fips.pad. rewrite length_app. simpl. rewrite length_app, length_replicate, length_be_split.
  exists ((zlen data + 1 + (55 - zlen data) mod 64 + 8) / 64).
  unfold zlen. Z.div_mod_to_equations. lia.
Qed.

(** ** The message schedule *)

Lemma byte_shift_u32 b k : 0 <= k <= 24 →
  u32 (Z.shiftl (byte.unsigned b) k) = Z.shiftl (byte.unsigned b) k.
Proof.
  intros Hk. pose proof (byte.unsigned_range b). rewrite Z.shiftl_mul_pow2 by lia.
  apply u32_small. split; [lia|].
  apply Z.lt_le_trans with (2 ^ 8 * 2 ^ k); [apply Z.mul_lt_mono_pos_r; lia|].
  rewrite <- Z.pow_add_r by lia. apply Z.pow_le_mono_r; lia.
Qed.

Lemma take4_lookup (l : bytes) pos : (pos + 4 <= length l)%nat →
  take 4 (drop pos l) = (λ i, default x00 (l !! (pos + i)%nat)) <$> [0; 1; 2; 3]%nat.
Proof.
  intros Hlen. assert (4 <= length (drop pos l))%nat as Hd by (rewrite length_drop; lia).
  destruct (drop pos l) as [|b0 [|b1 [|b2 [|b3 l']]]] eqn:He; simpl in Hd; try lia.
  cbn [fmap list_fmap]. rewrite <- !lookup_drop, He. reflexivity.
Qed.

Lemma word_at_correct padded pos : (pos + 4 <= length padded)%nat →
  word_at padded pos = be_combine (take 4 (drop pos padded)).
Proof.
  intros Hlen. rewrite take4_lookup by done. unfold word_at.
  rewrite !byte_shift_u32 by lia. unfold be_combine. cbn [fmap list_fmap].
  set (b0 := default _ _). set (b1 := default x00 _). set (b2 := default x00 _).
  set (b3 := default x00 _). change (reverse [b0; b1; b2; b3]) with [b3; b2; b1; b0].
  cbv [le_combine]. rewrite Z.shiftl_0_l, Z.lor_0_r, !Z.shiftl_lor, !Z.shiftl_shiftl by lia.
  rewrite (Z.lor_comm _ (byte.unsigned b3)). f_equal.
  rewrite (Z.lor_comm _ (Z.shiftl (byte.unsigned b2) 8)). f_equal. apply Z.lor_comm.
Qed.

Lemma be_combine_word bs : length bs = 4%nat → is_word (be_combine bs).
Proof. intros Hb. apply (be_combine_bound bs 4 Hb). Qed.

Lemma schedule_first_correct padded off : (off + 64 <= length padded)%nat →
  schedule_first padded off = Fips.words (take 64 (drop off padded)).
Proof.
  intros Hlen. unfold schedule_first, Fips.words. rewrite reshape_blocks, <- list_fmap_compose.
  apply Forall_fmap_ext_1, Forall_seq. intros i Hi. simpl.
  rewrite word_at_correct by lia. f_equal.
  rewrite <- drop_drop, skipn_firstn_comm, take_take. f_equal. lia.
Qed.

Lemma words_are_words block : length block = 64%nat → Forall is_word (Fips.words block).
Proof.
  intros Hb. unfold Fips.words. rewrite reshape_blocks.
  apply Forall_fmap, Forall_fmap, Forall_seq. intros i Hi. apply be_combine_word.
  rewrite length_take, length_drop. lia.
Qed.

Lemma length_words block : length (Fips.words block) = 16%nat.
Proof. unfold Fips.words. by rewrite reshape_blocks, !length_fmap. Qed.

Lemma schedule_step_window pre win :
  length win = 16%nat → Forall is_word win →
  schedule_step (pre ++ win) (length pre + 16) = pre ++ win ++ [Fips.next_word win].
Proof.
  intros Hlen Hw. unfold schedule_step, Fips.next_word. rewrite <- app_assoc. do 3 f_equal.
  rewrite !lookup_total_app_r by lia.
  replace (length pre + 16 - 15 - length pre)%nat with 1%nat by lia.
  replace (length pre + 16 - 2 - length pre)%nat with 14%nat by lia.
  replace (length pre + 16 - 16 - length pre)%nat with 0%nat by lia.
  replace (length pre + 16 - 7 - length pre)%nat with 9%nat by lia.
  assert (∀ i, (i < 16)%nat → is_word (win !!! i)) as Hi.
  { intros i Hi. rewrite Forall_lookup_total in Hw. apply Hw. lia. }
  rewrite !rotr_correct by first [lia | apply Hi; lia].
  rewrite !Z.shiftr_div_pow2 by lia. autorewrite with u32_flat.
  unfold u32, Fips.sigma0, Fips.sigma1, Fips.SHR. f_equal. lia.
Qed.

Lemma next_word_is_word win : is_word (Fips.next_word win).
Proof. apply Z.mod_pos_bound. lia. Qed.

Lemma schedule_extend m : ∀ pre win,
  length win = 16%nat → Forall is_word win →
  fold_left schedule_step (seq (length pre + 16) m) (pre ++ win) = pre ++ Fips.extend m win.
Proof.
  induction m as [|m IH]; intros pre win Hlen Hw; [done|].
  cbn [seq fold_left]. rewrite schedule_step_window by done.
  destruct win as [|w0 win]; [done|]. inversion_clear Hw.
  specialize (IH (pre ++ [w0]) (win ++ [Fips.next_word (w0 :: win)])).
  rewrite (length_app pre), length_app in IH. simpl in IH.
  replace (length pre + 1 + 16)%nat with (S (length pre + 16)) in IH by lia.
  rewrite <- !app_assoc in IH. cbn [app] in *. apply IH.
  - simpl in *. lia.
  - apply Forall_app; split; [done|]. repeat constructor; apply next_word_is_word.
Qed.

Lemma schedule_correct padded off : (off + 64 <= length padded)%nat →
  schedule padded off = Fips.W (take 64 (drop off padded)).
Proof.
  intros Hlen. unfold schedule, Fips.W. rewrite schedule_first_correct by done.
  apply (schedule_extend 48 []); [apply length_words|].
  apply words_are_words. rewrite length_take, length_drop. lia.
Qed.

Lemma length_extend m : ∀ win, length win ≠ 0%nat → length (Fips.extend m win) = (m + length win)%nat.
Proof.
  induction m as [|m IH]; intros win Hlen; [done|].
  destruct win as [|w0 win]; [done|]. cbn [Fips.extend length].
  rewrite IH; rewrite length_app; simpl; lia.
Qed.

(** ** Rounds, blocks and the digest *)

Lemma sha256_round_correct w s i : wf_hash s →
  sha256_round w s i = Fips.round s (SHA256_K !!! i) (w !!! i) ∧ wf_hash (sha256_round w s i).
Proof.
  destruct s as [a b c d e f g h]. intros (Ha & He & Hb & Hc & Hd & Hf & Hg & Hh). simpl in *.
  split.
  - rewrite !rotr_correct, not32_correct by (done || lia).
    by rewrite (u32_sum5 h).
  - repeat split; simpl; try apply u32_bound; try apply Ha; try apply Hb; try apply Hc;
      try apply He; try apply Hf; apply Hg.
Qed.

Lemma add_state_wf s t : wf_hash (add_state s t).
Proof. repeat split; simpl; apply u32_bound. Qed.

Lemma sha256_block_correct padded h off :
  wf_hash h → (off + 64 <= length padded)%nat →
  sha256_block padded h off = Fips.compress h (take 64 (drop off padded)).
Proof.
  intros Hh Hlen. unfold sha256_block, Fips.compress. f_equal.
  rewrite schedule_correct by done. set (w := Fips.W _).
  destruct (fold_left_ext_in (sha256_round w)
    (λ s i, Fips.round s (SHA256_K !!! i) (w !!! i)) wf_hash (seq 0 64)) with (a := h) as [-> _];
    [intros; by apply sha256_round_correct..|done|].
  rewrite K_correct. apply (fold_left_zip Fips.round SHA256_K w).
  unfold w, Fips.W. rewrite length_extend; rewrite length_words; done.
Qed.

Lemma sha256_blocks_correct padded n : length padded = (n * 64)%nat →
  sha256_blocks padded = fold_left Fips.compress (reshape (replicate n 64%nat) padded) Fips.start.
Proof.
  intros Hn. unfold sha256_blocks.
  rewrite Hn, Nat.div_mul, reshape_blocks, start_correct by lia.
  assert (wf_hash initial_hash) as Hwf by (repeat split; simpl; lia).
  revert Hwf. generalize initial_hash.
  assert (Forall (λ k, k * 64 + 64 <= length padded)%nat (seq 0 n)) as Hin
    by (apply Forall_seq; lia).
  induction Hin as [|k ks Hk _ IH]; intros h Hwf; [done|].
  cbn [fmap list_fmap fold_left]. rewrite sha256_block_correct by done.
  apply IH, add_state_wf.
Qed.

Lemma sha256_raw_fips data : zlen data < 2 ^ 61 → sha256_raw data = Fips.sha256 data.
Proof.
  intros Hlen. unfold sha256_raw, Fips.sha256. rewrite sha256_pad_correct by done.
  destruct (length_pad data) as [q Hq].
  rewrite (sha256_blocks_correct _ (length (Fips.pad data) / 64)).
  - cbn [hash_words fmap list_fmap concat]. by rewrite !put_be32_correct.
  - assert (0 <= q) by lia. assert (length (Fips.pad data) = Z.to_nat q * 64)%nat as -> by lia.
    by rewrite Nat.div_mul by lia.
Qed.

Lemma length_sha256_raw data : length (sha256_raw data) = 32%nat.
Proof. reflexivity. Qed.

Lemma length_to_hex data : String.length (to_hex data) = (2 * length data)%nat.
Proof. induction data as [|b data IH]; simpl in *; [done|]. rewrite IH. lia. Qed.

(** * Properties *)

(** C16: the embedded SHA-256 computes FIPS 180-4 on every input of less than
    2^61 bytes: the padding written in place, the schedule and round loops, the
    constants (the roots of the first primes) and the big-endian digest agree
    with the standard, and the digest has 32 bytes. *)
Theorem sha256_raw_correct (data : bytes) :
  zlen data < 2 ^ 61 →
  sha256_raw data = Fips.sha256 data ∧ length (sha256_raw data) = 32%nat.
Proof. intros. split; [by apply sha256_raw_fips|apply length_sha256_raw]. Qed.

Lemma sha256_raw_correct_witness :
  sha256_raw [x61; x62; x63] = Fips.sha256 [x61; x62; x63] ∧
  length (sha256_raw [x61; x62; x63]) = 32%nat.
Proof. apply (sha256_raw_correct [x61; x62; x63]). reflexivity. Defined.

(** The two vectors of the client's test suite. *)
Example sha256_empty :
  to_hex (sha256_raw []) = "e3b0c44298fc1c149afbf4c8996fb92427ae41e4649b934ca495991b7852b855".
Proof. vm_compute. reflexivity. Qed.
Example sha256_abc :
  to_hex (sha256_raw [x61; x62; x63]) =
  "ba7816bf8f01cfea414140de5dae2223b00361a396177a9cb410ff61f20015ad".
Proof. vm_compute. reflexivity. Qed.
