(* ===== verification/Paths.v ===== *)
(** Paths: the part of [std::filesystem::path] (POSIX format) that the server
    uses, and the path helpers of src/server/src/file_manager.cpp
    ([resolve_path], [tmp_path_for]).  [locate] is how the operating system
    walks a path name from the working directory; the properties say where the
    resolved paths can lead. *)
From S2P Require Import Prelude.
From Stdlib Require Import Ascii.

(** * Path names *)

Definition slash : ascii := "/"%char.
Definition dot : string := ".".
Definition dotdot : string := "..".

(** The names between the separators: "a//b/" gives a, "", b, "". *)
Fixpoint split_slash (s : string) : list string :=
  match s with
  | EmptyString => [EmptyString]
  | String c s' =>
      if Ascii.eqb c slash then EmptyString :: split_slash s'
      else match split_slash s' with
           | [] => [String c EmptyString]
           | n :: ns => String c n :: ns
           end
  end.

Fixpoint join_slash (ns : list string) : string :=
  match ns with
  | [] => EmptyString
  | [n] => n
  | n :: ns' => n +:+ String slash (join_slash ns')
  end.

Definition is_absolute (s : string) : bool :=
  match s with String c _ => Ascii.eqb c slash | EmptyString => false end.

Fixpoint ends_with_slash (s : string) : bool :=
  match s with
  | EmptyString => false
  | String c EmptyString => Ascii.eqb c slash
  | String _ s' => ends_with_slash s'
  end.

(** One name of a path walked with a stack of the names entered so far.
    [clamp]: at the bottom of the stack ".." stays where it is (the root). *)
Definition push_name (clamp : bool) (stack : list string) (n : string) : list string :=
  if decide (n = EmptyString ∨ n = dot) then stack
  else if decide (n = dotdot) then
    match stack with
    | [] => if clamp then [] else [dotdot]
    | m :: stack' => if decide (m = dotdot) then dotdot :: stack else stack'
    end
  else n :: stack.

Definition walk (clamp : bool) (ns : list string) (stack : list string) : list string :=
  fold_left (push_name clamp) ns stack.

(** [path::lexically_normal] (normal form, [fs.path.generic]). *)
Definition lexically_normal (s : string) : string :=
  if decide (s = EmptyString) then s else
  let abs := is_absolute s in
  let names := split_slash s in
  let stack := walk abs names [] in
  let final := default EmptyString (last names) in
  let slash_after :=
    if decide (final = EmptyString ∨ final = dot ∨ final = dotdot) then
      match stack with
      | [] => EmptyString
      | m :: _ => if decide (m = dotdot) then EmptyString else String slash EmptyString
      end
    else EmptyString in
  let body := join_slash (reverse stack) +:+ slash_after in
  if abs then String slash body
  else match stack with [] => dot | _ => body end.

(** [operator/]. *)
Definition path_append (p q : string) : string :=
  if is_absolute q then q
  else if decide (p = EmptyString) then q
  else if ends_with_slash p then p +:+ q
  else p +:+ String slash q.

(** [path::parent_path]: the name without its last component. *)
Definition parent_path (s : string) : string :=
  let names := List.filter (λ n, negb (bool_decide (n = EmptyString))) (split_slash s) in
  let names := if ends_with_slash s then names else removelast names in
  if is_absolute s then String slash (join_slash names) else join_slash names.

(** [path::extension]: from the last dot of the last component, if any name is
    left before it. *)
Fixpoint after_last_dot (s : string) : option string :=
  match s with
  | EmptyString => None
  | String c s' =>
      match after_last_dot s' with
      | Some e => Some e
      | None => if Ascii.eqb c "."%char then Some s else None
      end
  end.

Definition extension (s : string) : string :=
  let name := default EmptyString (last (split_slash s)) in
  if decide (name = dot ∨ name = dotdot) then EmptyString else
  match name with
  | EmptyString => EmptyString
  | String _ rest => default EmptyString (after_last_dot rest)
  end.

(** * The path helpers of FileManager *)

Record FileManager := mkFileManager { storage_root : string }.

Definition resolve_path (fm : FileManager) (relative_path : string) : outcome string :=
  let clean := lexically_normal relative_path in
  if decide (String.substring 0 2 clean = dotdot) then
    Throw (RuntimeError ("Directory traversal detected: " +:+ relative_path))
  else Ret (path_append (storage_root fm) clean).

Definition tmp_path_for (fm : FileManager) (relative_path : string) : outcome string :=
  p ← resolve_path fm relative_path;
  mret (p +:+ ".tmp").

(** * What the operating system makes of a path name *)

(** The names of the directories from the root to the file, without symbolic
    links; innermost first while walking. *)
Definition locate (cwd : list string) (s : string) : list string :=
  reverse (walk true (split_slash s) (if is_absolute s then [] else reverse cwd)).

(** A name that ends in "/" or "/." can only be a directory. *)
Definition names_directory (s : string) : bool :=
  match last (split_slash s) with
  | Some n => bool_decide (n = EmptyString ∨ n = dot ∨ n = dotdot)
  | None => true
  end.

(** * Specification vocabulary *)

Fixpoint no_slash (s : string) : bool :=
  match s with
  | EmptyString => true
  | String c s' => negb (Ascii.eqb c slash) && no_slash s'
  end.

(** A name that enters something: not empty, not "." and not "..". *)
Definition proper (n : string) : Prop :=
  n ≠ EmptyString ∧ n ≠ dot ∧ n ≠ dotdot ∧ no_slash n = true.

(** The names a relative path enters, outermost first. *)
Definition normal_names (s : string) : list string := reverse (walk false (split_slash s) []).

(** * Splitting and joining *)

Lemma string_app_nil_r (s : string) : s +:+ "" = s.
Proof. induction s as [|c s IH]; [done|]. change (String c (s +:+ "") = String c s). by rewrite IH. Qed.

Lemma string_app_assoc (a b c : string) : (a +:+ b) +:+ c = a +:+ (b +:+ c).
Proof.
  induction a as [|x a IH]; [done|].
  change (String x ((a +:+ b) +:+ c) = String x (a +:+ (b +:+ c))). by rewrite IH.
Qed.

Lemma split_slash_ne s : split_slash s ≠ [].
Proof.
  destruct s as [|c s]; simpl; [done|]. destruct (Ascii.eqb c slash); [done|].
  by destruct (split_slash s).
Qed.

Lemma split_slash_app a b :
  split_slash (a +:+ String slash b) = split_slash a ++ split_slash b.
Proof.
  induction a as [|c a IH]; simpl; [done|]. rewrite IH.
  destruct (Ascii.eqb c slash); [done|].
  pose proof (split_slash_ne a). by destruct (split_slash a).
Qed.

Lemma split_slash_no_slash s : Forall (λ n, no_slash n = true) (split_slash s).
Proof.
  induction s as [|c s IH]; simpl; [by repeat constructor|].
  destruct (Ascii.eqb c slash) eqn:Hc; [by constructor|].
  destruct (split_slash s) as [|n ns]; inversion_clear IH;
    constructor; simpl; rewrite ?Hc; simpl; done.
Qed.

Lemma split_slash_name n : no_slash n = true → split_slash n = [n].
Proof.
  induction n as [|c n IH]; simpl; [done|]. intros [Hc Hn]%andb_prop.
  destruct (Ascii.eqb c slash); [done|]. by rewrite IH.
Qed.

Lemma join_slash_cons n ns : ns ≠ [] → join_slash (n :: ns) = n +:+ String slash (join_slash ns).
Proof. by destruct ns. Qed.

Lemma split_join ns : ns ≠ [] → Forall (λ n, no_slash n = true) ns →
  split_slash (join_slash ns) = ns.
Proof.
  intros Hne Hns. induction Hns as [|n ns Hn _ IH]; [done|].
  destruct (decide (ns = [])) as [->|Hne']; [by apply split_slash_name|].
  rewrite join_slash_cons, split_slash_app, IH, split_slash_name by done. done.
Qed.

Lemma ends_with_slash_split s : ends_with_slash s = true → ∃ r, s = r +:+ "/".
Proof.
  induction s as [|c [|c' s] IH]; [done| |].
  - simpl. intros ->%Ascii.eqb_eq. by exists "".
  - intros H. destruct IH as [r Hr]; [done|]. exists (String c r). by rewrite Hr.
Qed.

(** * Walking *)

Lemma push_proper clamp stack n : proper n → push_name clamp stack n = n :: stack.
Proof.
  intros (Hn1 & Hn2 & Hn3 & _). unfold push_name.
  rewrite decide_False by tauto. by rewrite decide_False.
Qed.

Lemma push_idle clamp stack n : n = EmptyString ∨ n = dot → push_name clamp stack n = stack.
Proof. intros Hn. unfold push_name. by rewrite decide_True. Qed.

Lemma walk_app clamp ns ms stack : walk clamp (ns ++ ms) stack = walk clamp ms (walk clamp ns stack).
Proof. apply fold_left_app. Qed.

Lemma walk_proper clamp ns stack : Forall proper ns → walk clamp ns stack = reverse ns ++ stack.
Proof.
  intros Hns. revert stack. induction Hns as [|n ns Hn _ IH]; intros stack; [done|].
  unfold walk in *. cbn [fold_left]. rewrite push_proper by done.
  rewrite IH, reverse_cons, <- app_assoc. done.
Qed.

(** The stack of a relative walk: names entered, over the ".." that lead out. *)
Definition out_then_in (stack : list string) : Prop :=
  ∃ ns k, stack = ns ++ replicate k dotdot ∧ Forall proper ns.

Lemma push_shape stack n : no_slash n = true → out_then_in stack → out_then_in (push_name false stack n).
Proof.
  intros Hn (ns & k & -> & Hns). unfold push_name.
  case_decide as Hi; [by exists ns, k|]. case_decide as Hd.
  - destruct ns as [|m ns]; simpl.
    + destruct k as [|k]; simpl; [by exists [], 1%nat|].
      by exists [], (S (S k)).
    + inversion_clear Hns as [|?? (Hm1 & Hm2 & Hm3 & _) Hns']. rewrite decide_False by done.
      by exists ns, k.
  - exists (n :: ns), k. split; [done|]. constructor; [|done].
    unfold proper. tauto.
Qed.

Lemma walk_shape ns stack : Forall (λ n, no_slash n = true) ns →
  out_then_in stack → out_then_in (walk false ns stack).
Proof.
  intros Hns. revert stack. induction Hns as [|n ns Hn _ IH]; intros stack Hst; [done|].
  apply IH. by apply push_shape.
Qed.

Lemma normal_names_shape s : ∃ ns k, normal_names s = replicate k dotdot ++ ns ∧ Forall proper ns.
Proof.
  destruct (walk_shape (split_slash s) []) as (ns & k & Hw & Hns);
    [apply split_slash_no_slash|by exists [], 0%nat|].
  exists (reverse ns), k. unfold normal_names. rewrite Hw, reverse_app, reverse_replicate.
  split; [done|]. by apply Forall_reverse.
Qed.

(** * Normal forms of relative paths *)

Definition idle (n : string) : Prop := n = EmptyString ∨ n = dot.

Lemma walk_idle clamp ns stack : Forall idle ns → walk clamp ns stack = stack.
Proof.
  intros Hns. revert stack. induction Hns as [|n ns Hn _ IH]; intros stack; [done|].
  unfold walk in *. cbn [fold_left]. by rewrite push_idle, IH.
Qed.

Lemma normal_names_ne s : Forall (λ n, n ≠ EmptyString ∧ no_slash n = true) (normal_names s).
Proof.
  destruct (normal_names_shape s) as (ns & k & -> & Hns). apply Forall_app. split.
  - by apply Forall_replicate.
  - eapply Forall_impl; [exact Hns|]. unfold proper. simpl. tauto.
Qed.

Lemma clean_relative s : is_absolute s = false → normal_names s ≠ [] →
  ∃ after, lexically_normal s = join_slash (normal_names s) +:+ after ∧
           (after = "" ∨ after = "/").
Proof.
  intros Habs Hne. unfold lexically_normal.
  rewrite decide_False by (intros ->; by apply Hne).
  rewrite Habs. unfold normal_names in *. destruct (walk false _ []) as [|m stack]; [done|].
  eexists; split; [done|]. repeat case_decide; tauto.
Qed.

Lemma clean_empty s : is_absolute s = false → normal_names s = [] →
  lexically_normal s = "" ∨ lexically_normal s = ".".
Proof.
  intros Habs Hnil. unfold lexically_normal. case_decide; [by left|]. rewrite Habs.
  unfold normal_names in Hnil. apply (f_equal reverse) in Hnil.
  rewrite reverse_involutive in Hnil. change (reverse []) with (@nil string) in Hnil.
  rewrite Hnil. by right.
Qed.

Lemma split_clean s : is_absolute s = false →
  ∃ extra, split_slash (lexically_normal s) = normal_names s ++ extra ∧ Forall idle extra.
Proof.
  intros Habs. destruct (decide (normal_names s = [])) as [Hnil|Hne].
  - rewrite Hnil. destruct (clean_empty s Habs Hnil) as [-> | ->].
    + exists [""]. split; [done|]. by repeat constructor.
    + exists ["."]. split; [done|]. by repeat constructor.
  - destruct (clean_relative s Habs Hne) as (after & -> & Ha).
    assert (Forall (λ n, no_slash n = true) (normal_names s)).
    { eapply Forall_impl; [apply normal_names_ne|]. simpl. tauto. }
    destruct Ha as [-> | ->].
    + exists []. by rewrite string_app_nil_r, split_join, app_nil_r.
    + exists [""]. rewrite split_slash_app, split_join by done. split; [done|]. by repeat constructor.
Qed.

Lemma absolute_split s : is_absolute s = true → ∃ ns, split_slash s = "" :: ns.
Proof. destruct s as [|c s]; simpl; [done|]. intros ->. by exists (split_slash s). Qed.

Lemma clean_not_absolute s : is_absolute s = false → is_absolute (lexically_normal s) = false.
Proof.
  intros Habs. destruct (is_absolute (lexically_normal s)) eqn:Hc; [|done].
  destruct (absolute_split _ Hc) as [ns Hns].
  destruct (split_clean s Habs) as (extra & He & _). rewrite Hns in He.
  pose proof (normal_names_ne s) as Hne.
  destruct (normal_names s) as [|n l] eqn:Hnn.
  - destruct (clean_empty s Habs Hnn) as [Hx | Hx]; by rewrite Hx in Hc.
  - simpl in He. inversion_clear Hne as [|?? [Hn _] _]. congruence.
Qed.

(** The check of [resolve_path] sees every ".." that is left after
    normalisation. *)
Lemma dotdot_detected s ns : is_absolute s = false → normal_names s = dotdot :: ns →
  String.substring 0 2 (lexically_normal s) = dotdot.
Proof.
  intros Habs Hn. destruct (clean_relative s Habs) as (after & -> & _); [by rewrite Hn|].
  rewrite Hn. destruct ns as [|m ns]; simpl; [by destruct after|].
  done.
Qed.

Lemma resolved_names_proper fm s p : is_absolute s = false →
  resolve_path fm s = Ret p →
  p = path_append (storage_root fm) (lexically_normal s) ∧ Forall proper (normal_names s).
Proof.
  intros Habs. unfold resolve_path. case_decide as Hd; [done|]. intros [= <-]. split; [done|].
  destruct (normal_names_shape s) as (ns & [|k] & Hn & Hns); [by rewrite Hn|].
  destruct Hd. eapply dotdot_detected; [exact Habs|exact Hn].
Qed.

Lemma locate_empty cwd : locate cwd "" = cwd.
Proof.
  change (reverse (walk true [""] (reverse cwd)) = cwd).
  rewrite walk_idle by (repeat constructor). apply reverse_involutive.
Qed.

Lemma locate_under cwd root clean ns extra :
  is_absolute clean = false → split_slash clean = ns ++ extra → Forall proper ns → Forall idle extra →
  locate cwd (path_append root clean) = locate cwd root ++ ns.
Proof.
  intros Habs Hs Hns He.
  assert (∀ stack, walk true (split_slash clean) stack = reverse ns ++ stack) as Hw.
  { intros stack. by rewrite Hs, walk_app, (walk_idle _ extra), walk_proper. }
  unfold path_append. rewrite Habs. case_decide as Hr.
  { rewrite Hr, locate_empty. unfold locate. rewrite Habs, Hw, reverse_app. by rewrite !reverse_involutive. }
  destruct (ends_with_slash root) eqn:Hsl.
  - destruct (ends_with_slash_split _ Hsl) as [r ->].
    rewrite string_app_assoc. change ("/" +:+ clean) with (String slash clean). unfold locate.
    assert (∀ x, is_absolute (r +:+ String slash x) = is_absolute (r +:+ "/")) as -> by (by destruct r).
    rewrite !split_slash_app, !walk_app, Hw, reverse_app, reverse_involutive. done.
  - unfold locate.
    assert (is_absolute (root +:+ String slash clean) = is_absolute root) as -> by (by destruct root).
    by rewrite split_slash_app, walk_app, Hw, reverse_app, reverse_involutive.
Qed.

Lemma resolve_under fm s p : is_absolute s = false → resolve_path fm s = Ret p →
  Forall proper (normal_names s) ∧
  ∀ cwd, locate cwd p = locate cwd (storage_root fm) ++ normal_names s.
Proof.
  intros Habs [-> Hp]%resolved_names_proper; [|done]. split; [done|]. intros cwd.
  destruct (split_clean s Habs) as (extra & Hs & He).
  eapply locate_under; [by apply clean_not_absolute|done..].
Qed.

(** * The temporary file of a path *)

Lemma string_app_length (a b : string) :
  String.length (a +:+ b) = (String.length a + String.length b)%nat.
Proof.
  induction a as [|c a IH]; [done|].
  change (S (String.length (a +:+ b)) = S (String.length a) + String.length b)%nat.
  rewrite IH. lia.
Qed.

Lemma no_slash_app (a b : string) : no_slash (a +:+ b) = no_slash a && no_slash b.
Proof.
  induction a as [|c a IH]; [done|].
  change (negb (Ascii.eqb c slash) && no_slash (a +:+ b) =
          negb (Ascii.eqb c slash) && no_slash a && no_slash b).
  rewrite IH. by rewrite andb_assoc.
Qed.

(** Appending to the name appends to its last component. *)
Lemma split_slash_snoc s : ∃ init l, split_slash s = init ++ [l] ∧ no_slash l = true ∧
  ∀ t, no_slash t = true → split_slash (s +:+ t) = init ++ [l +:+ t].
Proof.
  induction s as [|c s (init & l & Hs & Hl & Ht)].
  { exists [], "". split; [done|]. split; [done|]. intros t Hn. by apply split_slash_name. }
  cbn [split_slash]. destruct (Ascii.eqb c slash) eqn:Hc.
  - exists ("" :: init), l. rewrite Hs. split; [done|]. split; [done|].
    intros t Hn. change (String c s +:+ t) with (String c (s +:+ t)). cbn [split_slash].
    by rewrite Hc, Ht.
  - destruct init as [|n init]; rewrite Hs.
    + exists [], (String c l). split; [done|]. split; [cbn [no_slash]; by rewrite Hc, Hl|].
      intros t Hn. change (String c s +:+ t) with (String c (s +:+ t)). cbn [split_slash].
      by rewrite Hc, Ht.
    + exists (String c n :: init), l. split; [done|]. split; [done|].
      intros t Hn. change (String c s +:+ t) with (String c (s +:+ t)). cbn [split_slash].
      by rewrite Hc, Ht.
Qed.

Lemma tmp_name_proper l : no_slash l = true → proper (l +:+ ".tmp").
Proof.
  intros Hl. assert (∀ s, l +:+ ".tmp" = s → (4 <= String.length s)%nat) as H4.
  { intros s <-. rewrite string_app_length. simpl. lia. }
  repeat split; [intros H%H4..|rewrite no_slash_app, Hl; done];
    unfold dot, dotdot in H; simpl in H; lia.
Qed.

Lemma is_absolute_tmp p : is_absolute (p +:+ ".tmp") = is_absolute p.
Proof. by destruct p. Qed.

(** The temporary name never designates the file it stands in for. *)
Lemma locate_tmp_ne cwd p : locate cwd (p +:+ ".tmp") ≠ locate cwd p.
Proof.
  destruct (split_slash_snoc p) as (init & l & Hp & Hl & Ht).
  unfold locate. rewrite is_absolute_tmp, Hp, Ht, !walk_app by done.
  set (st := walk true init _). intros H%(inj reverse). unfold walk in H. cbn [fold_left] in H.
  rewrite push_proper in H by (by apply tmp_name_proper).
  assert (length (push_name true st l) = S (length st) → push_name true st l = l :: st) as Hpush.
  { unfold push_name. destruct st as [|m st]; repeat case_decide; simpl; intros; subst;
      first [done | lia]. }
  rewrite <- H in Hpush. specialize (Hpush eq_refl). injection Hpush as Heq.
  apply (f_equal String.length) in Heq. rewrite string_app_length in Heq. simpl in Heq. lia.
Qed.

(** * Properties *)


(** A relative path that leads out of the directory it starts in (its
    normal form begins with "..") is refused with the traversal error, and the
    refusal reaches the temporary path as well. *)
Theorem traversal_rejected (fm : FileManager) (rel : string) (ns : list string) :
  is_absolute rel = false → normal_names rel = dotdot :: ns →
  resolve_path fm rel = Throw (RuntimeError ("Directory traversal detected: " +:+ rel)) ∧
  tmp_path_for fm rel = Throw (RuntimeError ("Directory traversal detected: " +:+ rel)).
Proof.
  intros Habs Hn. pose proof (dotdot_detected rel ns Habs Hn) as Hd.
  unfold tmp_path_for, resolve_path. by rewrite decide_True.
Qed.

(** The traversal check does not cover absolute paths: [operator/] drops the
    storage root, so an absolute path is accepted for every storage root and
    designates the same file under all of them. *)
Theorem absolute_path_escapes (fm fm' : FileManager) (rel : string) :
  is_absolute rel = true →
  resolve_path fm rel = Ret (lexically_normal rel) ∧ resolve_path fm' rel = resolve_path fm rel.
Proof.
  intros Habs.
  assert (∃ s, lexically_normal rel = String slash s) as [s Hs].
  { unfold lexically_normal. rewrite decide_False by (by intros ->). rewrite Habs. eauto. }
  unfold resolve_path. rewrite Hs. rewrite decide_False by (by destruct s).
  unfold path_append. done.
Qed.

(** * Witnesses *)

Definition storage : FileManager := mkFileManager "./storage".


Lemma traversal_rejected_witness :
  resolve_path storage "a/../../etc/passwd" =
    Throw (RuntimeError "Directory traversal detected: a/../../etc/passwd") ∧
  tmp_path_for storage "a/../../etc/passwd" =
    Throw (RuntimeError "Directory traversal detected: a/../../etc/passwd").
Proof. apply (traversal_rejected storage _ ["etc"; "passwd"]); reflexivity. Defined.

Lemma absolute_path_escapes_witness :
  resolve_path storage "/etc/passwd" = Ret "/etc/passwd" ∧
  resolve_path (mkFileManager "/data/sync") "/etc/passwd" = resolve_path storage "/etc/passwd".
Proof. apply (absolute_path_escapes storage (mkFileManager "/data/sync") "/etc/passwd"). reflexivity. Defined.

(** An ordinary file name that merely starts with two dots is refused too. *)
Example dotdot_prefix_rejected :
  resolve_path storage "..notes.txt" =
  Throw (RuntimeError "Directory traversal detected: ..notes.txt").
Proof. reflexivity. Qed.
