(* ===== verification/FileSystem.v ===== *)
(** The file system the server works on: what the C++ streams and
    [std::filesystem] calls of the source do to a tree of files and directories.
    A script of faults says which of the operating system's calls fail, so that
    the error branches of the callers are reached. *)
From S2P Require Import Prelude Paths.

Inductive node :=
| File (content : bytes) (mtime : Z)
| Dir.

(** The answer of the operating system to a call that may fail. *)
Inductive fault :=
| Works
| Fails
| Partial (n : nat).   (* a write that stops after [n] bytes *)

Record filesystem := mkFs {
  nodes : gmap (list string) node;    (* by location, the root directory left out *)
  cwd : list string;                  (* the server's working directory *)
  faults : list fault;                (* none left: every call works *)
  file_clock : Z;                     (* now, in nanoseconds, of the file clock *)
  system_clock : Z;                   (* and of the system clock *)
  dir_mtime : list string → Z
}.

Definition set_nodes (ns : gmap (list string) node) (fs : filesystem) : filesystem :=
  mkFs ns (cwd fs) (faults fs) (file_clock fs) (system_clock fs) (dir_mtime fs).

Definition loc (fs : filesystem) (p : string) : list string := locate (cwd fs) p.

Definition node_at (ns : gmap (list string) node) (l : list string) : option node :=
  if decide (l = []) then Some Dir else ns !! l.

(** What a path name designates. *)
Definition lookup_node (fs : filesystem) (p : string) : option node :=
  match node_at (nodes fs) (loc fs p) with
  | Some (File c t) => if names_directory p then None else Some (File c t)
  | o => o
  end.

Definition next_fault : SM filesystem fault := λ fs,
  match faults fs with
  | [] => (Ret Works, fs)
  | f :: rest =>
      (Ret f, mkFs (nodes fs) (cwd fs) rest (file_clock fs) (system_clock fs) (dir_mtime fs))
  end.

(** [std::filesystem::exists], [file_size], [last_write_time]. *)
Definition fs_exists (fs : filesystem) (p : string) : bool :=
  match lookup_node fs p with Some _ => true | None => false end.

Definition fs_file_size (fs : filesystem) (p : string) : outcome Z :=
  match lookup_node fs p with
  | Some (File c _) => Ret (zlen c)
  | Some Dir => Throw (FilesystemError "cannot get file size: Is a directory")
  | None => Throw (FilesystemError "cannot get file size: No such file or directory")
  end.

Definition fs_last_write_time (fs : filesystem) (p : string) : outcome Z :=
  match lookup_node fs p with
  | Some (File _ t) => Ret t
  | Some Dir => Ret (dir_mtime fs (loc fs p))
  | None => Throw (FilesystemError "cannot get file time: No such file or directory")
  end.

(** Reading a whole stream through [istreambuf_iterator]: [None] if the file
    does not open; a directory opens but its first read fails. *)
Definition read_stream (fs : filesystem) (p : string) : outcome (option bytes) :=
  match lookup_node fs p with
  | Some (File c _) => Ret (Some c)
  | Some Dir => Throw (FilesystemError "basic_filebuf::underflow error reading the file: Is a directory")
  | None => Ret None
  end.

(** [create_directories(p, ec)]: [true] is no error. *)
Fixpoint mkdirs (ns : gmap (list string) node) (above todo : list string)
  : gmap (list string) node * bool :=
  match todo with
  | [] => (ns, true)
  | n :: todo' =>
      let l := above ++ [n] in
      match ns !! l with
      | Some Dir => mkdirs ns l todo'
      | Some (File _ _) => (ns, false)
      | None => mkdirs (<[l := Dir]> ns) l todo'
      end
  end.

Definition create_directories (p : string) : SM filesystem bool :=
  f ← next_fault;
  match f with
  | Works =>
      fs ← get_st;
      let '(ns, ok) := mkdirs (nodes fs) [] (loc fs p) in
      _ ← put_st (set_nodes ns fs);
      mret ok
  | _ => mret false
  end.

Definition parent_is_dir (ns : gmap (list string) node) (l : list string) : bool :=
  match node_at ns (removelast l) with Some Dir => true | _ => false end.

(** [open(p, out | binary)]: creates or truncates. *)
Definition open_truncate (p : string) : SM filesystem bool :=
  f ← next_fault;
  fs ← get_st;
  let l := loc fs p in
  match f, node_at (nodes fs) l with
  | Works, Some Dir => mret false
  | Works, _ =>
      if names_directory p || negb (parent_is_dir (nodes fs) l) then mret false
      else _ ← put_st (set_nodes (<[l := File [] (file_clock fs)]> (nodes fs)) fs); mret true
  | _, _ => mret false
  end.

(** [open(p, in | out | binary)]: the file has to be there. *)
Definition open_update (p : string) : SM filesystem bool :=
  f ← next_fault;
  fs ← get_st;
  match f, lookup_node fs p with
  | Works, Some (File _ _) => mret true
  | _, _ => mret false
  end.

(** Bytes written at an offset; a gap is filled with zeros. *)
Definition overlay (c : bytes) (off : nat) (d : bytes) : bytes :=
  match d with
  | [] => c
  | _ => take off (c ++ replicate (off - length c) x00) ++ d ++ drop (off + length d) c
  end.

(** Write and flush on the open stream of the file at [l], or of [p]; [true] is
    [good()]. *)
Definition write_node (l : list string) (off : nat) (data : bytes) : SM filesystem bool :=
  f ← next_fault;
  fs ← get_st;
  match node_at (nodes fs) l with
  | Some (File c _) =>
      let written := match f with Works => data | Fails => [] | Partial n => take n data end in
      _ ← put_st (set_nodes (<[l := File (overlay c off written) (file_clock fs)]> (nodes fs)) fs);
      mret (match f with Works => true | _ => false end)
  | _ => mret false
  end.
Definition write_at (p : string) (off : nat) (data : bytes) : SM filesystem bool :=
  fs ← get_st; write_node (loc fs p) off data.

(** Everything below [src], moved below [dst]. *)
Definition move_tree (src dst : list string) (ns : gmap (list string) node)
  : gmap (list string) node :=
  list_to_map ((λ '(l, x), (if decide (take (length src) l = src)
                            then dst ++ drop (length src) l else l, x)) <$> map_to_list ns).

(** [rename(src, dst, ec)]: [true] is no error. *)
Definition rename (src dst : string) : SM filesystem bool :=
  f ← next_fault;
  fs ← get_st;
  let ls := loc fs src in
  let ld := loc fs dst in
  match f with
  | Works =>
      if negb (parent_is_dir (nodes fs) ld) then mret false else
      match lookup_node fs src, node_at (nodes fs) ld with
      | None, _ => mret false
      | Some (File _ _), Some Dir => mret false
      | Some (File c t), _ =>
          if names_directory dst then mret false
          else _ ← put_st (set_nodes (<[ld := File c t]> (delete ls (nodes fs))) fs); mret true
      | Some Dir, None => _ ← put_st (set_nodes (move_tree ls ld (nodes fs)) fs); mret true
      | Some Dir, Some _ => mret (bool_decide (ls = ld))
      end
  | _ => mret false
  end.

(** * Contents *)

(** The content of the regular file at a location. *)
Definition is_file (o : option node) : option bytes :=
  match o with Some (File c _) => Some c | _ => None end.
Definition file_at (fs : filesystem) (l : list string) : option bytes :=
  is_file (node_at (nodes fs) l).

(** The same files with the same contents, but for one location. *)
Definition same_files_but (l : list string) (fs fs' : filesystem) : Prop :=
  cwd fs' = cwd fs ∧ ∀ l', l' ≠ l → file_at fs' l' = file_at fs l'.

Definition same_files (fs fs' : filesystem) : Prop :=
  cwd fs' = cwd fs ∧ ∀ l, file_at fs' l = file_at fs l.

(** * Lemmas *)

#[export] Instance same_files_preorder : PreOrder same_files.
Proof.
  split; [done|]. intros a b c [Hab Hab'] [Hbc Hbc'].
  split; [by rewrite Hbc|]. intros l. by rewrite Hbc'.
Qed.

#[export] Instance same_files_but_preorder l : PreOrder (same_files_but l).
Proof.
  split; [done|]. intros a b c [Hab Hab'] [Hbc Hbc'].
  split; [by rewrite Hbc|]. intros l' Hl. by rewrite Hbc', Hab'.
Qed.

Lemma same_files_weaken l fs fs' : same_files fs fs' → same_files_but l fs fs'.
Proof. intros [? Hf]. by split; [|intros; apply Hf]. Qed.

Lemma same_files_loc fs fs' p : same_files fs fs' → loc fs' p = loc fs p.
Proof. intros [Hc _]. unfold loc. by rewrite Hc. Qed.

Lemma same_files_but_loc l fs fs' p : same_files_but l fs fs' → loc fs' p = loc fs p.
Proof. intros [Hc _]. unfold loc. by rewrite Hc. Qed.

Lemma next_fault_spec fs :
  wp next_fault (λ r fs', ∃ f, r = Ret f ∧ nodes fs' = nodes fs ∧ cwd fs' = cwd fs ∧
                   (faults fs = [] → f = Works ∧ faults fs' = [])) fs.
Proof. unfold wp, next_fault. destruct fs as [ns c [|f fl] fc sc dm]; simpl; by eexists. Qed.

(** Two file systems with the same nodes and working directory. *)
Lemma same_nodes fs fs' : nodes fs' = nodes fs → cwd fs' = cwd fs → same_files fs fs'.
Proof. intros Hn Hc. split; [done|]. intros l. unfold file_at. by rewrite Hn. Qed.

Lemma node_at_insert ns l x l' : l ≠ [] →
  node_at (<[l := x]> ns) l' = if decide (l = l') then Some x else node_at ns l'.
Proof.
  intros Hl. unfold node_at. case_decide; case_decide; subst; try done.
  - by rewrite lookup_insert_eq.
  - by rewrite lookup_insert_ne.
Qed.

Lemma node_at_delete ns l l' : l ≠ [] →
  node_at (delete l ns) l' = if decide (l = l') then None else node_at ns l'.
Proof.
  intros Hl. unfold node_at. case_decide; case_decide; subst; try done.
  - by rewrite lookup_delete_eq.
  - by rewrite lookup_delete_ne.
Qed.

Lemma mkdirs_files todo : ∀ ns above l,
  is_file (node_at (mkdirs ns above todo).1 l) = is_file (node_at ns l).
Proof.
  induction todo as [|n todo IH]; intros ns above l; simpl; [done|].
  destruct (ns !! (above ++ [n])) as [[c t|]|] eqn:Hn; [done|apply IH|].
  rewrite IH, node_at_insert by (by destruct above). case_decide as Hd; [|done].
  unfold node_at. rewrite <- Hd, Hn. by rewrite decide_False by (by destruct above).
Qed.

Lemma file_at_insert fs l x l' : l ≠ [] →
  file_at (set_nodes (<[l := x]> (nodes fs)) fs) l' =
  if decide (l = l') then is_file (Some x) else file_at fs l'.
Proof. intros. unfold file_at. simpl. rewrite node_at_insert by done. by case_decide. Qed.

Lemma same_but_insert fs l x : l ≠ [] →
  same_files_but l fs (set_nodes (<[l := x]> (nodes fs)) fs).
Proof.
  split; [done|]. intros l' Hne. rewrite file_at_insert by done. by rewrite decide_False.
Qed.

Lemma node_at_ne ns l x : node_at ns l = x → x ≠ Some Dir → l ≠ [].
Proof. intros <- Hx ->. by apply Hx. Qed.

Lemma file_at_some fs l c : file_at fs l = Some c →
  l ≠ [] ∧ ∃ t, node_at (nodes fs) l = Some (File c t).
Proof.
  unfold file_at. destruct (node_at (nodes fs) l) as [[c' t|]|] eqn:E; simpl; [|done..].
  intros [= ->]. split; [|eauto]. by eapply node_at_ne.
Qed.

(** No fault ahead. *)
Definition calm (fs : filesystem) : Prop := faults fs = [].

(** What every call of this file promises: it answers, it leaves the working
    directory alone, and if no fault is ahead none is ahead of its successor. *)
Definition answers {A} (fs : filesystem) (Q : A → filesystem → Prop) (r : outcome A) (fs' : filesystem)
  : Prop := ∃ a, r = Ret a ∧ cwd fs' = cwd fs ∧ (calm fs → calm fs') ∧ Q a fs'.

Lemma answers_mono {A} fs (Q Q' : A → filesystem → Prop) r fs' :
  answers fs Q r fs' → (∀ a, Q a fs' → Q' a fs') → answers fs Q' r fs'.
Proof. intros (a & ? & ? & ? & ?) HQ. exists a. auto. Qed.

(** Calls start by asking the script: either it says no and nothing happens, or
    the call goes on from the same tree. *)
Lemma fault_bind {A} (k : fault → SM filesystem A) (Q : A → filesystem → Prop) fs :
  (∀ f s, nodes s = nodes fs → cwd s = cwd fs → (calm fs → f = Works ∧ calm s) →
     wp (k f) (answers s Q) s) →
  wp (f ← next_fault; k f) (answers fs Q) fs.
Proof.
  intros Hk. eapply wp_bind_ret; [apply next_fault_spec|]. intros f s (Hn & Hc & Hf).
  eapply wp_mono; [by apply Hk|]. intros r s' (a & -> & Hc' & Hcalm & HQ).
  exists a. split; [done|]. split; [congruence|]. split; [|done].
  intros Hfs. by apply Hcalm, Hf.
Qed.

Lemma answers_ret {A} (a : A) fs (Q : A → filesystem → Prop) : Q a fs → wp (mret a) (answers fs Q) fs.
Proof. intros HQ. by exists a. Qed.

Lemma answers_put {A} (a : A) ns fs (Q : A → filesystem → Prop) :
  Q a (set_nodes ns fs) → wp (_ ← put_st (set_nodes ns fs); mret a) (answers fs Q) fs.
Proof. intros HQ. by exists a. Qed.

Lemma create_directories_spec p fs :
  wp (create_directories p) (answers fs (λ b fs',
    (nodes fs' = (mkdirs (nodes fs) [] (loc fs p)).1 ∧ b = (mkdirs (nodes fs) [] (loc fs p)).2) ∨
    (nodes fs' = nodes fs ∧ b = false ∧ ~ calm fs))) fs.
Proof.
  apply fault_bind. intros f s Hn Hc Hf. destruct f.
  - apply wp_bind. change (wp (let '(ns, ok) := mkdirs (nodes s) [] (loc s p) in
      _ ← put_st (set_nodes ns s); mret ok) (answers s (λ b fs',
      (nodes fs' = (mkdirs (nodes fs) [] (loc fs p)).1 ∧ b = (mkdirs (nodes fs) [] (loc fs p)).2) ∨
      (nodes fs' = nodes fs ∧ b = false ∧ ~ calm fs))) s).
    unfold loc. rewrite Hn, Hc. destruct (mkdirs _ _ _) as [ns ok]. apply answers_put. by left.
  - apply answers_ret. right. split; [done|]. split; [done|]. intros H. by destruct (Hf H).
  - apply answers_ret. right. split; [done|]. split; [done|]. intros H. by destruct (Hf H).
Qed.

Lemma wp_get {A} (k : filesystem → SM filesystem A) Q fs : wp (k fs) Q fs → wp (x ← get_st; k x) Q fs.
Proof. done. Qed.

Lemma answers_bind {A B} (m : SM filesystem A) (k : A → SM filesystem B)
    (R : A → filesystem → Prop) (Q : B → filesystem → Prop) fs :
  wp m (answers fs R) fs →
  (∀ a fs', R a fs' → cwd fs' = cwd fs → (calm fs → calm fs') → wp (k a) (answers fs' Q) fs') →
  wp (m ≫= k) (answers fs Q) fs.
Proof.
  intros Hm Hk. eapply wp_bind_ret; [exact Hm|]. intros a fs' (Hc & Hcalm & HR).
  eapply wp_mono; [by apply Hk|]. intros r fs'' (b & -> & Hc' & Hcalm' & HQ).
  exists b. split; [done|]. split; [congruence|]. auto.
Qed.

Lemma loc_cwd fs fs' p : cwd fs' = cwd fs → loc fs' p = loc fs p.
Proof. intros Hc. unfold loc. by rewrite Hc. Qed.

(** Why a file cannot be created at [p] when the system is otherwise fine. *)
Definition cannot_create (fs : filesystem) (p : string) : Prop :=
  node_at (nodes fs) (loc fs p) = Some Dir ∨ names_directory p = true ∨
  parent_is_dir (nodes fs) (loc fs p) = false.

Lemma open_truncate_spec p fs :
  wp (open_truncate p) (answers fs (λ b fs',
    if b : bool then
      names_directory p = false ∧ loc fs p ≠ [] ∧
      ∃ t, nodes fs' = <[loc fs p := File [] t]> (nodes fs)
    else nodes fs' = nodes fs ∧ (calm fs → cannot_create fs p))) fs.
Proof.
  apply fault_bind. intros f s Hn Hc Hf. apply wp_get.
  assert (loc s p = loc fs p) as -> by (unfold loc; by rewrite Hc). rewrite Hn.
  assert (∀ Q : Prop, (f = Works → Q) → nodes s = nodes fs ∧ (calm fs → Q)) as Hno.
  { intros Q HQ. split; [done|]. intros H. apply HQ, Hf, H. }
  destruct f; [|by apply answers_ret, Hno..].
  destruct (node_at (nodes fs) (loc fs p)) as [[c t|]|] eqn:Hnode;
    [|by apply answers_ret, Hno; left|];
    (destruct (names_directory p) eqn:Hd; simpl; [by apply answers_ret, Hno; right; left|]);
    (destruct (parent_is_dir (nodes fs) (loc fs p)) eqn:Hp; simpl;
      [|by apply answers_ret, Hno; right; right]);
    apply answers_put; (split; [done|]); (split; [by eapply node_at_ne|]); simpl; eauto.
Qed.

Lemma open_update_spec p fs :
  wp (open_update p) (answers fs (λ b fs', nodes fs' = nodes fs ∧
    if b : bool then ∃ c t, lookup_node fs p = Some (File c t)
    else calm fs → ∀ c t, lookup_node fs p ≠ Some (File c t))) fs.
Proof.
  apply fault_bind. intros f s Hn Hc Hf. apply wp_get.
  assert (lookup_node s p = lookup_node fs p) as -> by (unfold lookup_node, loc; by rewrite Hc, Hn).
  destruct f; [destruct (lookup_node fs p) as [[c t|]|] eqn:E|..];
    apply answers_ret; (split; [done|]); eauto; intros H; by destruct (Hf H).
Qed.

Lemma lookup_file fs p c t : lookup_node fs p = Some (File c t) →
  node_at (nodes fs) (loc fs p) = Some (File c t) ∧ names_directory p = false.
Proof.
  unfold lookup_node. destruct (node_at (nodes fs) (loc fs p)) as [[c' t'|]|]; [|done..].
  by destruct (names_directory p).
Qed.

Lemma write_at_spec p off data fs c :
  file_at fs (loc fs p) = Some c →
  wp (write_at p off data) (answers fs (λ b fs', ∃ d t,
    nodes fs' = <[loc fs p := File (overlay c off d) t]> (nodes fs) ∧ d `prefix_of` data ∧
    (b = true → d = data) ∧ (calm fs → b = true))) fs.
Proof.
  intros [_ [t Hfile]]%file_at_some. apply wp_get, fault_bind. intros f s Hn Hc Hf. apply wp_get. rewrite Hn, Hfile.
  apply answers_put. simpl. eexists _, _. split; [done|].
  destruct f; (split; [try done; first [apply prefix_nil | apply prefix_take]|]); (split; [done|]);
    intros H; by destruct (Hf H).
Qed.

Lemma rename_file_spec src dst fs c t :
  lookup_node fs src = Some (File c t) →
  wp (rename src dst) (answers fs (λ b fs',
    if b : bool then names_directory dst = false ∧ loc fs dst ≠ [] ∧
      nodes fs' = <[loc fs dst := File c t]> (delete (loc fs src) (nodes fs))
    else nodes fs' = nodes fs ∧ (calm fs → cannot_create fs dst))) fs.
Proof.
  intros Hfile. apply fault_bind. intros f s Hn Hc Hf. apply wp_get.
  assert (∀ q, loc s q = loc fs q) as Hl by (intros; unfold loc; by rewrite Hc). rewrite !Hl.
  assert (lookup_node s src = Some (File c t)) as ->
    by (unfold lookup_node in *; by rewrite Hl, Hn). rewrite Hn.
  assert (∀ Q : Prop, (f = Works → Q) → nodes s = nodes fs ∧ (calm fs → Q)) as Hno.
  { intros Q HQ. split; [done|]. intros H. apply HQ, Hf, H. }
  destruct f; [|by apply answers_ret, Hno..].
  destruct (parent_is_dir _ _) eqn:Hp; simpl; [|by apply answers_ret, Hno; right; right].
  destruct (node_at (nodes fs) (loc fs dst)) as [[c' t'|]|] eqn:Hnode;
    [|by apply answers_ret, Hno; left|];
    (destruct (names_directory dst) eqn:Hd; [by apply answers_ret, Hno; right; left|]);
    apply answers_put; (split; [done|]); (split; [by eapply node_at_ne|done]).
Qed.

(** * Directories above a file *)

Lemma mkdirs_dir todo : ∀ ns above, node_at ns above = Some Dir → (mkdirs ns above todo).2 = true →
  node_at (mkdirs ns above todo).1 (above ++ todo) = Some Dir.
Proof.
  induction todo as [|n todo IH]; intros ns above Hd Hok; simpl in *; [by rewrite app_nil_r|].
  replace (above ++ n :: todo) with ((above ++ [n]) ++ todo) by (by rewrite <- app_assoc).
  destruct (ns !! (above ++ [n])) as [[c t|]|] eqn:Hn; [done|apply IH; [|done]..].
  - unfold node_at. rewrite Hn. by case_decide.
  - rewrite node_at_insert by (by destruct above). by rewrite decide_True.
Qed.

Lemma mkdirs_ok todo : ∀ ns above,
  (∀ k, is_file (node_at ns (above ++ take k todo)) = None) → (mkdirs ns above todo).2 = true.
Proof.
  induction todo as [|n todo IH]; intros ns above Hno; simpl in *; [done|].
  assert (∀ k, is_file (node_at ns ((above ++ [n]) ++ take k todo)) = None) as Hno'.
  { intros k. rewrite <- app_assoc. apply (Hno (S k)). }
  destruct (ns !! (above ++ [n])) as [[c t|]|] eqn:Hn; [|by apply IH|].
  - specialize (Hno' 0%nat). rewrite take_0, app_nil_r in Hno'. unfold node_at in Hno'.
    rewrite decide_False, Hn in Hno' by (by destruct above). done.
  - apply IH. intros k. rewrite node_at_insert by (by destruct above). by case_decide.
Qed.

Lemma mkdirs_keeps_dirs todo : ∀ ns above l, node_at ns l = Some Dir →
  node_at (mkdirs ns above todo).1 l = Some Dir.
Proof.
  induction todo as [|n todo IH]; intros ns above l Hl; simpl; [done|].
  destruct (ns !! (above ++ [n])) as [[c t|]|]; [done|by apply IH|]. apply IH.
  rewrite node_at_insert by (by destruct above). by case_decide.
Qed.

Lemma mkdirs_deeper todo : ∀ ns above l, (length (above ++ todo) < length l)%nat →
  node_at (mkdirs ns above todo).1 l = node_at ns l.
Proof.
  induction todo as [|n todo IH]; intros ns above l Hlen; simpl in *; [done|].
  rewrite length_app in Hlen. simpl in Hlen.
  destruct (ns !! (above ++ [n])) as [[c t|]|] eqn:Hn; [done|..];
    rewrite IH by (rewrite !length_app; simpl; lia); [done|].
  rewrite node_at_insert by (by destruct above). rewrite decide_False; [done|].
  intros <-. rewrite length_app in Hlen. simpl in Hlen. lia.
Qed.

Lemma filter_idle clamp ns : ∀ stack,
  walk clamp (List.filter (λ n, negb (bool_decide (n = ""))) ns) stack = walk clamp ns stack.
Proof.
  induction ns as [|n ns IH]; intros stack; [done|]. simpl.
  case_bool_decide; subst; simpl; [|by apply IH].
  unfold walk in *. simpl. rewrite IH, push_idle by (by left). done.
Qed.

Lemma ends_with_slash_last s init l : split_slash s = init ++ [l] → l ≠ "" → ends_with_slash s = false.
Proof.
  intros Hs Hl. destruct (ends_with_slash s) eqn:He; [|done].
  destruct (ends_with_slash_split _ He) as [r ->].
  change "/" with (String slash "") in Hs. rewrite split_slash_app in Hs.
  apply app_inj_tail in Hs as [_ Hx]. congruence.
Qed.

Lemma names_directory_proper p init l : split_slash p = init ++ [l] →
  names_directory p = false → proper l.
Proof.
  intros Hs. unfold names_directory. rewrite Hs, last_snoc. intros Hd%bool_decide_eq_false.
  pose proof (split_slash_no_slash p) as Hns. rewrite Hs in Hns.
  apply Forall_app in Hns as [_ Hns]. inversion_clear Hns. unfold proper. tauto.
Qed.

(** A file name, its temporary name and its parent, as locations. *)
Lemma file_locations cwd p : names_directory p = false →
  ∃ above l, locate cwd p = above ++ [l] ∧ locate cwd (p +:+ ".tmp") = above ++ [l +:+ ".tmp"] ∧
    (if decide (parent_path p = "") then above = cwd
     else locate cwd (parent_path p) = above).
Proof.
  intros Hd. destruct (split_slash_snoc p) as (init & l & Hs & Hl & Ht).
  pose proof (names_directory_proper p init l Hs Hd) as Hp.
  exists (reverse (walk true init (if is_absolute p then [] else reverse cwd))), l.
  unfold locate at 1 2. rewrite is_absolute_tmp, Hs, Ht, !walk_app by done.
  set (st := walk true init _). unfold walk at 1 2. cbn [fold_left].
  rewrite !push_proper by (done || by apply tmp_name_proper). rewrite !reverse_cons.
  split; [done|]. split; [done|].
  unfold parent_path. rewrite (ends_with_slash_last p init l Hs) by apply Hp.
  rewrite Hs, List.filter_app. simpl. rewrite bool_decide_eq_false_2 by apply Hp. simpl.
  rewrite removelast_last. set (ns := List.filter _ init).
  assert (walk true ns (if is_absolute p then [] else reverse cwd) = st) as Hw by apply filter_idle.
  assert (Forall (λ n, no_slash n = true ∧ n ≠ "") ns) as Hns.
  { pose proof (split_slash_no_slash p) as Hall. rewrite Hs in Hall. apply Forall_app in Hall as [Hi _].
    rewrite List.Forall_forall in *. unfold ns. intros n [Hin Hb]%filter_In. split; [by apply Hi|].
    by case_bool_decide. }
  assert (ns ≠ [] → split_slash (join_slash ns) = ns) as Hj.
  { intros. apply split_join; [done|]. eapply Forall_impl; [exact Hns|]. simpl. tauto. }
  destruct (is_absolute p); unfold locate; simpl.
  - destruct (decide (ns = [])) as [He|Hne].
    + rewrite He in *. simpl. by rewrite <- Hw.
    + rewrite (Hj Hne). unfold walk in *. simpl. rewrite push_idle by (by left). by rewrite Hw.
  - case_decide as He.
    + assert (ns = []) as Hnil.
      { destruct ns as [|n ns']; [done|]. specialize (Hj ltac:(done)). rewrite He in Hj.
        inversion_clear Hns as [|?? [_ Hn] _]. simpl in Hj. congruence. }
      rewrite Hnil in Hw. simpl in Hw. by rewrite <- Hw, reverse_involutive.
    + assert (ns ≠ []) as Hne by (by intros Hnil; rewrite Hnil in He).
      rewrite (Hj Hne). replace (is_absolute (join_slash ns)) with false; [by rewrite Hw|].
      destruct (is_absolute (join_slash ns)) eqn:Ha; [|done].
      destruct (absolute_split _ Ha) as [ms Hms]. rewrite (Hj Hne) in Hms. rewrite Hms in Hns.
      by inversion_clear Hns as [|?? [_ Hn] _].
Qed.

Lemma names_directory_tmp p : names_directory (p +:+ ".tmp") = false.
Proof.
  destruct (split_slash_snoc p) as (init & l & Hs & Hl & Ht).
  unfold names_directory. rewrite Ht, last_snoc by done.
  destruct (tmp_name_proper l Hl) as (? & ? & ? & _). apply bool_decide_eq_false. tauto.
Qed.

Lemma lookup_node_tmp fs p :
  lookup_node fs (p +:+ ".tmp") = node_at (nodes fs) (loc fs (p +:+ ".tmp")).
Proof.
  unfold lookup_node. rewrite names_directory_tmp.
  by destruct (node_at (nodes fs) (loc fs (p +:+ ".tmp"))) as [[]|].
Qed.

Lemma overlay_fresh d : overlay [] 0 d = d.
Proof. destruct d as [|b d]; [done|]. simpl. by rewrite app_nil_r. Qed.

Lemma length_overlay c off d : d ≠ [] → length (overlay c off d) = Nat.max (length c) (off + length d).
Proof.
  intros Hd. destruct d as [|b d]; [done|]. unfold overlay.
  rewrite !length_app, length_take, length_app, length_replicate, length_drop. simpl. lia.
Qed.

(** Reading back an overlay: inside the new bytes, outside them, in the gap. *)
Lemma overlay_lookup_in c off d k : (off <= k < off + length d)%nat →
  overlay c off d !! k = d !! (k - off)%nat.
Proof.
  intros Hk. destruct d as [|b d]; [simpl in Hk; lia|]. unfold overlay.
  assert (length (take off (c ++ replicate (off - length c) x00)) = off) as Hlen
    by (rewrite length_take, length_app, length_replicate; lia).
  rewrite lookup_app_r, Hlen by lia. by rewrite lookup_app_l by lia.
Qed.

Lemma overlay_lookup_keep c off d k : (k < off ∨ off + length d <= k)%nat → (k < length c)%nat →
  overlay c off d !! k = c !! k.
Proof.
  intros Hk Hc. destruct d as [|b d]; [done|]. unfold overlay.
  assert (length (take off (c ++ replicate (off - length c) x00)) = off) as Hlen
    by (rewrite length_take, length_app, length_replicate; lia).
  destruct Hk as [Hk|Hk].
  - rewrite lookup_app_l, lookup_take_lt by lia. by rewrite lookup_app_l.
  - rewrite lookup_app_r, Hlen, lookup_app_r, lookup_drop by lia. f_equal. lia.
Qed.
