(* ===== verification/FileManager.v ===== *)
(** File manager: the operations of src/server/src/file_manager.cpp on the file
    system of [FileSystem]. *)
From S2P Require Import Prelude Paths FileSystem Sha256.

Record FileInfo := mkFileInfo {
  relative_path : string;
  file_size : Z;
  last_modified_ns : Z;
  sha256_hex : string
}.

(** * Constructor and queries *)

Definition FileManager_new (root : string) : SM filesystem FileManager :=
  ok ← create_directories root;
  if (ok : bool) then mret (mkFileManager root)
  else throw (FilesystemError "cannot create directories").

Definition file_exists (fm : FileManager) (rel : string) : SM filesystem bool :=
  p ← lift (resolve_path fm rel);
  gets_st (λ fs, fs_exists fs p).

Definition get_file_size (fm : FileManager) (rel : string) : SM filesystem Z :=
  p ← lift (resolve_path fm rel);
  fs ← get_st;
  if negb (fs_exists fs p) then mret 0
  else n ← lift (fs_file_size fs p); mret (u64 n).

Definition get_last_modified_ns (fm : FileManager) (rel : string) : SM filesystem Z :=
  p ← lift (resolve_path fm rel);
  fs ← get_st;
  if negb (fs_exists fs p) then mret 0
  else
    ftime ← lift (fs_last_write_time fs p);
    let sctp := ftime - file_clock fs + system_clock fs in
    mret (u64 sctp).

Definition compute_sha256 (fm : FileManager) (rel : string) : SM filesystem string :=
  p ← lift (resolve_path fm rel);
  fs ← get_st;
  buffer ← lift (read_stream fs p);
  match buffer with
  | None => mret ""
  | Some buffer => mret (to_hex (sha256_raw buffer))
  end.

Definition get_file_info (fm : FileManager) (rel : string) : SM filesystem (option FileInfo) :=
  there ← file_exists fm rel;
  if negb there then mret None
  else
    size ← get_file_size fm rel;
    modified ← get_last_modified_ns fm rel;
    hash ← compute_sha256 fm rel;
    mret (Some (mkFileInfo rel size modified hash)).

(** * Block I/O *)

Definition read_block (fm : FileManager) (rel : string) (offset size : Z) : SM filesystem bytes :=
  p ← lift (resolve_path fm rel);
  fs ← get_st;
  match lookup_node fs p with
  | None => mret []
  | Some Dir => mret []
  | Some (File c _) =>
      if i64 offset <? 0 then mret []
      else mret (take (Z.to_nat size) (drop (Z.to_nat offset) c))
  end.

Definition ensure_parent_dirs (fm : FileManager) (rel : string) : SM filesystem bool :=
  r ← lift (resolve_path fm rel);
  let p := parent_path r in
  if decide (p = "") then mret true else create_directories p.

Definition write_block_atomic (fm : FileManager) (rel : string) (offset : Z) (data : bytes)
  : SM filesystem bool :=
  tmp ← lift (tmp_path_for fm rel);
  _ ← ensure_parent_dirs fm rel;
  is_open ← open_update tmp;
  created ← (if is_open : bool then mret true else open_truncate tmp);
  if negb created then mret false
  else
    is_open ← (if is_open : bool then mret true else open_update tmp);
    if negb is_open then mret false
    else if i64 offset <? 0 then mret false
    else write_at tmp (Z.to_nat offset) data.

Definition write_file_atomic (fm : FileManager) (rel : string) (data : bytes) : SM filesystem bool :=
  tmp ← lift (tmp_path_for fm rel);
  _ ← ensure_parent_dirs fm rel;
  is_open ← open_truncate tmp;
  if negb is_open then mret false
  else write_at tmp 0 data.

Definition atomic_rename_tmp (fm : FileManager) (rel : string) : SM filesystem bool :=
  tmp ← lift (tmp_path_for fm rel);
  target ← lift (resolve_path fm rel);
  there ← gets_st (λ fs, fs_exists fs tmp);
  if negb there then mret false else rename tmp target.

(** * Listing *)

(** The regular files below the directory [dir], with their sizes: the order of
    a directory iterator is not specified. *)
Definition files_below (recursive : bool) (fs : filesystem) (dir : list string)
  : list (list string * Z) :=
  omap (λ '(l, x),
    match x with
    | File c _ =>
        if decide (take (length dir) l = dir ∧ length dir < length l)%nat then
          if recursive || (length l =? S (length dir))%nat
          then Some (drop (length dir) l, zlen c) else None
        else None
    | Dir => None
    end) (map_to_list (nodes fs)).

(** [rel.substr(0, prefix.size()) != prefix]. *)
Definition has_prefix (prefix rel : string) : bool :=
  bool_decide (String.substring 0 (String.length prefix) rel = prefix).

Fixpoint list_entries (fm : FileManager) (prefix : string) (recursive : bool)
  (entries : list (list string * Z)) : SM filesystem (list FileInfo) :=
  match entries with
  | [] => mret []
  | (names, size) :: entries' =>
      let rel := join_slash names in
      if recursive && bool_decide (extension rel = ".tmp") then
        list_entries fm prefix recursive entries'
      else if negb (bool_decide (prefix = "")) && negb (has_prefix prefix rel) then
        list_entries fm prefix recursive entries'
      else
        modified ← get_last_modified_ns fm rel;
        hash ← (if recursive then mret "" else compute_sha256 fm rel);
        infos ← list_entries fm prefix recursive entries';
        mret (mkFileInfo rel (u64 size) modified hash :: infos)
  end.

Definition list_files (fm : FileManager) (prefix : string) (recursive : bool)
  : SM filesystem (list FileInfo) :=
  fs ← get_st;
  match lookup_node fs (storage_root fm) with
  | None => mret []
  | Some (File _ _) => throw (FilesystemError "directory iterator cannot open directory: Not a directory")
  | Some Dir =>
      list_entries fm prefix recursive
        (files_below recursive fs (loc fs (storage_root fm)))
  end.

(** * Specification vocabulary *)

(** The locations of a path's file and of its temporary file. *)
Definition target_loc (fs : filesystem) (p : string) : list string := loc fs p.
Definition tmp_loc (fs : filesystem) (p : string) : list string := loc fs (p +:+ ".tmp").

(** Nothing stands in the way of creating the file [p] (and its temporary file):
    it does not name a directory, no directory has its name, no file has the
    name of a directory above it, and the working directory is there. *)
Definition room_for (fs : filesystem) (p : string) : Prop :=
  names_directory p = false ∧ node_at (nodes fs) (cwd fs) = Some Dir ∧
  (∀ k, file_at fs (take k (removelast (loc fs p))) = None) ∧
  node_at (nodes fs) (target_loc fs p) ≠ Some Dir ∧ node_at (nodes fs) (tmp_loc fs p) ≠ Some Dir.

(** * Lemmas *)

Lemma tmp_target_ne fs p : tmp_loc fs p ≠ target_loc fs p.
Proof. apply locate_tmp_ne. Qed.

Lemma wp_resolve {A} fm rel p (k : string → SM filesystem A) Q fs :
  resolve_path fm rel = Ret p → wp (k p) Q fs → wp (x ← lift (resolve_path fm rel); k x) Q fs.
Proof. intros Hr Hk. apply wp_bind. rewrite Hr. exact Hk. Qed.

Lemma wp_tmp {A} fm rel p (k : string → SM filesystem A) Q fs :
  resolve_path fm rel = Ret p → wp (k (p +:+ ".tmp")) Q fs →
  wp (x ← lift (tmp_path_for fm rel); k x) Q fs.
Proof. intros Hr Hk. apply wp_bind. unfold tmp_path_for. rewrite Hr. exact Hk. Qed.

Lemma ensure_parent_dirs_spec fm rel p fs :
  resolve_path fm rel = Ret p →
  wp (ensure_parent_dirs fm rel) (answers fs (λ _ fs',
    same_files fs fs' ∧
    (calm fs → room_for fs p →
       parent_is_dir (nodes fs') (target_loc fs p) = true ∧
       parent_is_dir (nodes fs') (tmp_loc fs p) = true ∧
       node_at (nodes fs') (target_loc fs p) = node_at (nodes fs) (target_loc fs p) ∧
       node_at (nodes fs') (tmp_loc fs p) = node_at (nodes fs) (tmp_loc fs p) ∧
       node_at (nodes fs') (cwd fs) = Some Dir))) fs.
Proof.
  intros Hr. apply (wp_resolve _ _ _ _ _ _ Hr).
  destruct (decide (parent_path p = "")) as [He|Hne].
  - apply answers_ret. split; [done|]. intros _ (Hd & Hcwd & _).
    destruct (file_locations (cwd fs) p Hd) as (above & l & Hp & Ht & Ha).
    rewrite decide_True in Ha by done. subst above.
    unfold parent_is_dir, target_loc, tmp_loc, loc. rewrite Hp, Ht, !removelast_last. by rewrite Hcwd.
  - eapply wp_mono; [apply create_directories_spec|]. intros r fs' Ha.
    assert (cwd fs' = cwd fs) as Hc by (by destruct Ha as (? & _ & ? & _)).
    eapply answers_mono; [exact Ha|]. intros b [[Hn Hb]|(Hn & _ & Hcalm)].
    + split; [split; [done|]; intros l; unfold file_at; rewrite Hn; apply mkdirs_files|].
      intros _ (Hd & Hcwd & Hno & _).
      destruct (file_locations (cwd fs) p Hd) as (above & l & Hp & Ht & Hab).
      rewrite decide_False in Hab by done.
      unfold target_loc, tmp_loc, loc in *. rewrite Hp, Ht, Hab, ?removelast_last in *.
      unfold parent_is_dir. rewrite !removelast_last, Hn.
      pose proof (mkdirs_dir above (nodes fs) []) as Hmd. rewrite app_nil_l in Hmd.
      rewrite Hmd by (done || by apply mkdirs_ok).
      rewrite !mkdirs_deeper by (rewrite !length_app; simpl; lia).
      by rewrite mkdirs_keeps_dirs.
    + split; [by apply same_nodes|]. intros Hc'. by destruct Hcalm.
Qed.

Lemma file_at_inserted ns fs' l c t : l ≠ [] →
  nodes fs' = <[l := File c t]> ns → file_at fs' l = Some c.
Proof. intros Hl Hn. unfold file_at. rewrite Hn, node_at_insert by done. by rewrite decide_True. Qed.

Lemma same_but_inserted fs fs' l x : l ≠ [] → cwd fs' = cwd fs →
  nodes fs' = <[l := x]> (nodes fs) → same_files_but l fs fs'.
Proof.
  intros Hl Hc Hn. split; [done|]. intros l' Hne. unfold file_at.
  rewrite Hn, node_at_insert by done. by rewrite decide_False.
Qed.

(** Inserting at one place does not make or unmake a parent elsewhere. *)
Lemma parent_is_dir_insert ns l x l' : l ≠ [] → l ≠ removelast l' →
  parent_is_dir (<[l := x]> ns) l' = parent_is_dir ns l'.
Proof. intros Hl Hne. unfold parent_is_dir. rewrite node_at_insert by done. by rewrite decide_False. Qed.

Lemma tmp_not_parent fs p : names_directory p = false → tmp_loc fs p ≠ removelast (target_loc fs p).
Proof.
  intros Hd. destruct (file_locations (cwd fs) p Hd) as (above & l & Hp & Ht & _).
  unfold tmp_loc, target_loc, loc. rewrite Hp, Ht, removelast_last.
  intros H%(f_equal length). rewrite length_app in H. simpl in H. lia.
Qed.

(** The state in which a temporary file waits to be published (or to be
    extended by the next block). *)
Definition publishable (fs : filesystem) (p : string) : Prop :=
  calm fs ∧ room_for fs p ∧ parent_is_dir (nodes fs) (target_loc fs p) = true.

Lemma room_for_insert fs fs' p c t : cwd fs' = cwd fs → tmp_loc fs p ≠ [] →
  nodes fs' = <[tmp_loc fs p := File c t]> (nodes fs) → room_for fs p → room_for fs' p.
Proof.
  intros Hc Hne Hn (Hd & Hcwd & Hno & Hnt & Hnm). unfold room_for, file_at, target_loc, tmp_loc in *.
  rewrite !(loc_cwd fs fs' _ Hc), Hc, Hn. split; [done|].
  destruct (file_locations (cwd fs) p Hd) as (above & l & Hp & Ht & _).
  pose proof (tmp_target_ne fs p) as Htt. unfold target_loc, tmp_loc in Htt.
  rewrite !node_at_insert by done. split; [|split; [|split]].
  - rewrite decide_False; [done|]. intros Heq. by rewrite <- Heq in Hcwd.
  - intros k. rewrite node_at_insert by done. rewrite decide_False; [apply Hno|].
    unfold loc. rewrite Hp, Ht, removelast_last. intros H%(f_equal length).
    rewrite length_app, length_take in H. simpl in H. lia.
  - by rewrite decide_False.
  - by rewrite decide_True.
Qed.

Lemma publishable_insert fs fs' p c t : cwd fs' = cwd fs → (calm fs → calm fs') → tmp_loc fs p ≠ [] →
  nodes fs' = <[tmp_loc fs p := File c t]> (nodes fs) → publishable fs p → publishable fs' p.
Proof.
  intros Hc Hcalm Hne Hn (Hca & Hroom & Hp). split; [auto|].
  split; [by eapply room_for_insert|]. unfold target_loc in *.
  rewrite (loc_cwd fs fs' p Hc), Hn. rewrite parent_is_dir_insert; [done|done|].
  by apply tmp_not_parent, Hroom.
Qed.

Lemma publishable_same fs fs' p : cwd fs' = cwd fs → (calm fs → calm fs') →
  nodes fs' = nodes fs → publishable fs p → publishable fs' p.
Proof.
  intros Hc Hcalm Hn (Hca & Hroom & Hp). unfold publishable, room_for, target_loc, tmp_loc, file_at in *.
  rewrite !(loc_cwd fs fs' _ Hc), Hc, Hn. auto.
Qed.

(** The parent directories are in place: what both writers start from. *)
Lemma prepare_spec fm rel p fs :
  resolve_path fm rel = Ret p →
  wp (ensure_parent_dirs fm rel) (answers fs (λ _ fs',
    same_files fs fs' ∧ (calm fs → room_for fs p →
      publishable fs' p ∧ ~ cannot_create fs' (p +:+ ".tmp")))) fs.
Proof.
  intros Hr. eapply wp_mono; [by apply ensure_parent_dirs_spec|]. intros r fs' Ha.
  assert (cwd fs' = cwd fs) as Hc by (by destruct Ha as (? & _ & ? & _)).
  assert (calm fs → calm fs') as Hcalm by (by destruct Ha as (? & _ & _ & ? & _)).
  eapply answers_mono; [exact Ha|]. intros _ [Hs Hlive]. split; [done|]. intros Hca Hroom.
  destruct (Hlive Hca Hroom) as (Hpar & Hpart & Hnt & Hntm & Hcwd).
  destruct Hroom as (Hd & _ & Hno & Hnd & Hndt).
  assert (tmp_loc fs' p = tmp_loc fs p ∧ target_loc fs' p = target_loc fs p) as [Ht Hg]
    by (by split; apply loc_cwd).
  split.
  - unfold publishable, room_for. rewrite Hg, Ht, Hnt, Hntm, Hc, (loc_cwd fs fs' p Hc).
    split; [by auto|]. split; [|done]. do 2 (split; [done|]). split; [|done].
    intros k. by rewrite (proj2 Hs).
  - unfold cannot_create. change (loc fs' (p +:+ ".tmp")) with (tmp_loc fs' p).
    rewrite Ht, names_directory_tmp, Hpart, Hntm. intros [?|[?|?]]; done.
Qed.

(** Writing into a temporary file that is there. *)
Lemma write_tmp_spec p off data c fs :
  file_at fs (tmp_loc fs p) = Some c →
  wp (write_at (p +:+ ".tmp") off data) (answers fs (λ b fs',
    same_files_but (tmp_loc fs p) fs fs' ∧
    (b = true → file_at fs' (tmp_loc fs p) = Some (overlay c off data)) ∧
    (calm fs → b = true) ∧ (publishable fs p → publishable fs' p))) fs.
Proof.
  intros Hfile. destruct (file_at_some _ _ _ Hfile) as [Hne _].
  eapply wp_mono; [by apply (write_at_spec _ _ _ _ c)|]. intros r fs' Ha.
  assert (cwd fs' = cwd fs) as Hc by (by destruct Ha as (? & _ & ? & _)).
  assert (calm fs → calm fs') as Hcalm by (by destruct Ha as (? & _ & _ & ? & _)).
  eapply answers_mono; [exact Ha|]. intros b (d & t & Hn & _ & Hd & Hlive).
  split; [by eapply same_but_inserted|]. split; [|split; [done|]].
  - intros Hb. erewrite file_at_inserted by done. by rewrite Hd.
  - by eapply publishable_insert.
Qed.

(** Creating (or truncating) the temporary file. *)
Lemma create_tmp_spec p fs :
  wp (open_truncate (p +:+ ".tmp")) (answers fs (λ b fs',
    same_files_but (tmp_loc fs p) fs fs' ∧
    (b = true → file_at fs' (tmp_loc fs p) = Some []) ∧ (b = false → nodes fs' = nodes fs) ∧
    (calm fs → ~ cannot_create fs (p +:+ ".tmp") → b = true) ∧
    (publishable fs p → publishable fs' p))) fs.
Proof.
  eapply wp_mono; [apply open_truncate_spec|]. intros r fs' Ha.
  assert (cwd fs' = cwd fs) as Hc by (by destruct Ha as (? & _ & ? & _)).
  assert (calm fs → calm fs') as Hcalm by (by destruct Ha as (? & _ & _ & ? & _)).
  eapply answers_mono; [exact Ha|]. intros [|] Hb.
  - destruct Hb as (_ & Hne & t & Hn). split; [by eapply same_but_inserted|].
    split; [intros _; by eapply file_at_inserted|]. split; [done|]. split; [done|].
    by eapply publishable_insert.
  - destruct Hb as [Hn Hcan]. split; [by apply same_files_weaken, same_nodes|].
    split; [done|]. split; [done|]. split; [intros Hca Hno; by destruct Hno; apply Hcan|].
    by apply publishable_same.
Qed.

Lemma write_file_spec fm rel p data fs :
  resolve_path fm rel = Ret p →
  wp (write_file_atomic fm rel data) (answers fs (λ b fs',
    same_files_but (tmp_loc fs p) fs fs' ∧
    (b = true → file_at fs' (tmp_loc fs p) = Some data) ∧
    (calm fs → room_for fs p → b = true ∧ publishable fs' p))) fs.
Proof.
  intros Hr. apply (wp_tmp _ _ _ _ _ _ Hr).
  eapply answers_bind; [by apply prepare_spec|]. intros _ fs1 (Hs1 & Hready) Hc1 Hcalm1.
  assert (tmp_loc fs1 p = tmp_loc fs p) as Ht1 by (by apply loc_cwd).
  eapply answers_bind; [apply create_tmp_spec|]. intros b fs2 (Hs2 & Hb & _ & Hlive2 & Hpub2) Hc2 Hcalm2.
  assert (tmp_loc fs2 p = tmp_loc fs1 p) as Ht2 by (by apply loc_cwd).
  rewrite Ht1 in *. apply (same_files_weaken (tmp_loc fs p)) in Hs1.
  destruct b; simpl.
  - eapply wp_mono; [apply (write_tmp_spec _ _ _ []); rewrite Ht2; auto|]. intros r fs3 Ha.
    eapply answers_mono; [exact Ha|]. rewrite Ht2. intros b (Hs3 & Hb3 & Hlive3 & Hpub3).
    split; [do 2 (etransitivity; [eassumption|]); done|]. split.
    + intros Hbt. by rewrite Hb3, overlay_fresh.
    + intros Hca Hroom. destruct (Hready Hca Hroom) as [Hpub _]. auto.
  - apply answers_ret. split; [by etransitivity|]. split; [done|].
    intros Hca Hroom. destruct (Hready Hca Hroom) as [Hpub Hno].
    specialize (Hlive2 (Hcalm1 Hca) Hno). done.
Qed.

Lemma node_of_tmp fs p c : file_at fs (tmp_loc fs p) = Some c →
  ∃ t, lookup_node fs (p +:+ ".tmp") = Some (File c t) ∧ tmp_loc fs p ≠ [].
Proof. intros (Hne & t & Ht)%file_at_some. exists t. by rewrite lookup_node_tmp. Qed.

(** Publishing: the temporary file becomes the file, or nothing changes. *)
Lemma rename_tmp_spec fm rel p c fs :
  resolve_path fm rel = Ret p → file_at fs (tmp_loc fs p) = Some c →
  wp (atomic_rename_tmp fm rel) (answers fs (λ b fs',
    (if b : bool then
       file_at fs' (target_loc fs p) = Some c ∧ file_at fs' (tmp_loc fs p) = None ∧
       ∀ l, l ≠ target_loc fs p → l ≠ tmp_loc fs p → file_at fs' l = file_at fs l
     else same_files fs fs') ∧
    (publishable fs p → b = true))) fs.
Proof.
  intros Hr (t & Hlook & Hne)%node_of_tmp.
  apply (wp_tmp _ _ _ _ _ _ Hr), (wp_resolve _ _ _ _ _ _ Hr).
  apply wp_bind. unfold wp at 1, gets_st, fs_exists. rewrite Hlook. simpl.
  eapply wp_mono; [by apply rename_file_spec|]. intros r fs' Ha.
  assert (cwd fs' = cwd fs) as Hc by (by destruct Ha as (? & _ & ? & _)).
  eapply answers_mono; [exact Ha|]. intros [|] Hb; simpl in Hb.
  - destruct Hb as (_ & Hned & Hn). split; [|done].
    pose proof (tmp_target_ne fs p). unfold target_loc, tmp_loc in *.
    unfold file_at. rewrite Hn.
    assert (∀ l, node_at (<[loc fs p := File c t]> (delete (loc fs (p +:+ ".tmp")) (nodes fs))) l =
      if decide (loc fs p = l) then Some (File c t)
      else if decide (loc fs (p +:+ ".tmp") = l) then None else node_at (nodes fs) l) as Hat.
    { intros l. by rewrite node_at_insert, node_at_delete by done. }
    rewrite !Hat, decide_True, decide_False, decide_True by done. split; [done|]. split; [done|].
    intros l Hl1 Hl2. by rewrite Hat, decide_False, decide_False.
  - destruct Hb as [Hn Hcan]. split; [by apply same_nodes|].
    intros (Hca & (Hd & _ & _ & Hnd & _) & Hp).
    destruct (Hcan Hca) as [?|[?|?]]; unfold target_loc in *; congruence.
Qed.

Lemma open_tmp_spec p fs :
  wp (open_update (p +:+ ".tmp")) (answers fs (λ b fs', nodes fs' = nodes fs ∧
    if b : bool then ∃ c, file_at fs (tmp_loc fs p) = Some c
    else calm fs → file_at fs (tmp_loc fs p) = None)) fs.
Proof.
  eapply wp_mono; [apply open_update_spec|]. intros r fs' Ha.
  eapply answers_mono; [exact Ha|]. rewrite lookup_node_tmp. unfold file_at, tmp_loc.
  intros b [Hn Hb]. split; [done|]. destruct b.
  - destruct Hb as (c & t & ->). by exists c.
  - intros Hca. specialize (Hb Hca).
    by destruct (node_at (nodes fs) (loc fs (p +:+ ".tmp"))) as [[c t|]|]; [destruct (Hb c t)|..].
Qed.

(** What a block write does to the temporary file: the block is laid over what
    was there before; only if a fault hits the first [open] does it start from
    an empty file although one was there. *)
Definition block_written (fs fs' : filesystem) (p : string) (off : Z) (data : bytes) : Prop :=
  ∃ base, file_at fs' (tmp_loc fs p) = Some (overlay base (Z.to_nat off) data) ∧
    (base = default [] (file_at fs (tmp_loc fs p)) ∨ base = [] ∧ ~ calm fs).

Lemma write_tail_spec p off data base fs :
  file_at fs (tmp_loc fs p) = Some base →
  wp (if i64 off <? 0 then mret false else write_at (p +:+ ".tmp") (Z.to_nat off) data)
    (answers fs (λ b fs',
      same_files_but (tmp_loc fs p) fs fs' ∧
      (b = true → 0 <= i64 off ∧ file_at fs' (tmp_loc fs p) = Some (overlay base (Z.to_nat off) data)) ∧
      (calm fs → publishable fs p → 0 <= i64 off → b = true ∧ publishable fs' p))) fs.
Proof.
  intros Hbase. destruct (Z.ltb_spec (i64 off) 0).
  - apply answers_ret. split; [done|]. split; [done|]. intros _ _ ?. lia.
  - eapply wp_mono; [by apply (write_tmp_spec _ _ _ base)|]. intros r fs' Ha.
    eapply answers_mono; [exact Ha|]. intros b (Hs & Hb & Hlive & Hpub). auto.
Qed.

Lemma write_block_spec fm rel p off data fs :
  resolve_path fm rel = Ret p →
  wp (write_block_atomic fm rel off data) (answers fs (λ b fs',
    same_files_but (tmp_loc fs p) fs fs' ∧
    (b = true → 0 <= i64 off ∧ block_written fs fs' p off data) ∧
    (calm fs → room_for fs p → 0 <= i64 off → b = true ∧ publishable fs' p))) fs.
Proof.
  intros Hr. apply (wp_tmp _ _ _ _ _ _ Hr).
  eapply answers_bind; [by apply prepare_spec|]. intros _ fs1 (Hs1 & Hready) Hc1 Hcalm1.
  assert (tmp_loc fs1 p = tmp_loc fs p) as Ht1 by (by apply loc_cwd).
  eapply answers_bind; [apply open_tmp_spec|]. intros b fs2 [Hn2 Hb2] Hc2 Hcalm2.
  assert (tmp_loc fs2 p = tmp_loc fs p) as Ht2 by (rewrite <- Ht1; by apply loc_cwd).
  assert (same_files fs fs2) as Hs2 by (etransitivity; [exact Hs1|by apply same_nodes]).
  rewrite Ht1 in *. rewrite (proj2 Hs1) in Hb2.
  destruct b.
  - destruct Hb2 as [base Hbase].
    eapply wp_mono; [apply (write_tail_spec p off data base); by rewrite Ht2, (proj2 Hs2)|].
    intros r fs3 Ha. eapply answers_mono; [exact Ha|]. rewrite Ht2. intros b (Hs3 & Hb3 & Hlive3).
    split; [etransitivity; [by apply same_files_weaken|done]|]. split.
    + intros Hbt. destruct (Hb3 Hbt) as [? Hc3]. split; [done|].
      exists base. rewrite Hbase. auto.
    + intros Hca Hroom Hoff. destruct (Hready Hca Hroom) as [Hpub _].
      apply Hlive3; auto. by eapply publishable_same.
  - eapply answers_bind; [apply create_tmp_spec|]. rewrite Ht2.
    intros b fs3 (Hs3 & Hb3 & Hf3 & Hlive3 & Hpub3) Hc3 Hcalm3.
    assert (tmp_loc fs3 p = tmp_loc fs p) as Ht3 by (rewrite <- Ht2; by apply loc_cwd).
    assert (same_files_but (tmp_loc fs p) fs fs3) as Hs03
      by (etransitivity; [by apply same_files_weaken|done]).
    assert (calm fs → room_for fs p → b = true ∧ publishable fs3 p) as Hgo.
    { intros Hca Hroom. destruct (Hready Hca Hroom) as [Hpub Hno]. split.
      - apply Hlive3; [auto|]. unfold cannot_create in *. by rewrite (loc_cwd fs1 fs2), Hn2.
      - apply Hpub3. by eapply publishable_same. }
    destruct b; simpl; cycle 1.
    { apply answers_ret. split; [done|]. split; [done|]. intros Hca Hroom. by destruct (Hgo Hca Hroom). }
    eapply answers_bind; [apply open_tmp_spec|]. rewrite Ht3.
    intros b fs4 [Hn4 Hb4] Hc4 Hcalm4.
    assert (tmp_loc fs4 p = tmp_loc fs p) as Ht4 by (rewrite <- Ht3; by apply loc_cwd).
    assert (same_files fs3 fs4) as Hs4 by (by apply same_nodes).
    destruct b; simpl; cycle 1.
    { apply answers_ret. split; [etransitivity; [done|by apply same_files_weaken]|]. split; [done|].
      intros Hca Hroom. rewrite Hb3 in Hb4 by done. specialize (Hb4 ltac:(auto)). done. }
    eapply wp_mono; [apply (write_tail_spec p off data []); by rewrite Ht4, (proj2 Hs4); auto|].
    intros r fs5 Ha. eapply answers_mono; [exact Ha|]. rewrite Ht4. intros b (Hs5 & Hb5 & Hlive5).
    split; [etransitivity; [done|]; etransitivity; [by apply same_files_weaken|done]|]. split.
    + intros Hbt. destruct (Hb5 Hbt) as [? Hc5]. split; [done|]. exists []. split; [done|].
      destruct (decide (faults fs = [])) as [Hca|Hca]; [left|by right].
      by rewrite Hb2 by auto.
    + intros Hca Hroom Hoff. destruct (Hgo Hca Hroom) as [_ Hpub].
      apply Hlive5; auto. by eapply publishable_same.
Qed.

(** * Reading back *)

Lemma i64_small z : 0 <= z < 2 ^ 63 → i64 z = z.
Proof. intros. unfold i64. rewrite Z.mod_small; lia. Qed.

Lemma read_block_file fm rel p fs c t off size :
  resolve_path fm rel = Ret p → lookup_node fs p = Some (File c t) → 0 <= off < 2 ^ 63 →
  read_block fm rel off size fs = (Ret (take (Z.to_nat size) (drop (Z.to_nat off) c)), fs).
Proof.
  intros Hr Hl Hoff. unfold read_block. rewrite SM_bind_unfold, Hr. simpl.
  rewrite SM_bind_unfold. simpl. rewrite Hl.
  replace (i64 off) with off by (wrap_unfold; rewrite Z.mod_small; lia).
  by rewrite (proj2 (Z.ltb_ge off 0)) by lia.
Qed.

Lemma overlay_read c off d : take (length d) (drop off (overlay c off d)) = d.
Proof.
  destruct d as [|b d]; [done|]. unfold overlay.
  assert (length (take off (c ++ replicate (off - length c) x00)) = off) as Hl
    by (rewrite length_take, length_app, length_replicate; lia).
  by rewrite (drop_app_length' _ _ off), take_app_length.
Qed.

Lemma lookup_target fs p c : names_directory p = false → file_at fs (target_loc fs p) = Some c →
  ∃ t, lookup_node fs p = Some (File c t).
Proof.
  intros Hd (_ & t & Ht)%file_at_some. exists t. unfold lookup_node, target_loc in *. by rewrite Ht, Hd.
Qed.

(** A block written, published and read back is the block.  Without faults
    and with nothing in the way of the file, [write_block_atomic] at any offset
    succeeds, [atomic_rename_tmp] succeeds, and [read_block] of the same range of
    the published file returns exactly the bytes written. *)
Theorem block_write_read_back fm rel p off data fs :
  resolve_path fm rel = Ret p → calm fs → room_for fs p → 0 <= off < 2 ^ 63 →
  ∃ fs1 fs2, write_block_atomic fm rel off data fs = (Ret true, fs1) ∧
    atomic_rename_tmp fm rel fs1 = (Ret true, fs2) ∧
    read_block fm rel off (zlen data) fs2 = (Ret data, fs2).
Proof.
  intros Hr Hcalm Hroom Hoff.
  pose proof (write_block_spec fm rel p off data fs Hr) as Hw. unfold wp in Hw.
  destruct (write_block_atomic fm rel off data fs) as [r fs1].
  destruct Hw as (b & -> & Hc1 & _ & _ & Hb & Hlive).
  destruct (Hlive Hcalm Hroom) as [-> Hpub]; [rewrite i64_small; lia|].
  destruct (Hb eq_refl) as (_ & base & Hbase & _).
  assert (tmp_loc fs1 p = tmp_loc fs p) as Ht by (by apply loc_cwd). rewrite <- Ht in Hbase.
  pose proof (rename_tmp_spec fm rel p _ fs1 Hr Hbase) as Hn. unfold wp in Hn.
  destruct (atomic_rename_tmp fm rel fs1) as [r fs2] eqn:Hrun.
  destruct Hn as (b & -> & Hc2 & _ & Hn & Hgo). specialize (Hgo Hpub) as ->. destruct Hn as (Hfile & _).
  assert (target_loc fs2 p = target_loc fs1 p) as Hg by (by apply loc_cwd). rewrite <- Hg in Hfile.
  destruct (lookup_target fs2 p _ ltac:(apply Hroom) Hfile) as [t Hl].
  exists fs1, fs2. split; [done|]. split; [done|].
  rewrite (read_block_file fm rel p fs2 _ t off (zlen data) Hr Hl Hoff). by rewrite to_nat_zlen, overlay_read.
Qed.

(** * Listing *)

Lemma lexically_normal_join ns : ns ≠ [] → Forall proper ns →
  lexically_normal (join_slash ns) = join_slash ns ∧ is_absolute (join_slash ns) = false ∧
  split_slash (join_slash ns) = ns ∧ normal_names (join_slash ns) = ns.
Proof.
  intros Hne Hp.
  assert (split_slash (join_slash ns) = ns) as Hs.
  { apply split_join; [done|]. eapply Forall_impl; [exact Hp|]. intros n Hn. apply Hn. }
  assert (walk false ns [] = reverse ns) as Hw by (by rewrite walk_proper, app_nil_r).
  assert (is_absolute (join_slash ns) = false) as Ha.
  { destruct (is_absolute (join_slash ns)) eqn:Ha; [|done].
    destruct (absolute_split _ Ha) as [ms Hms]. rewrite Hs in Hms. subst ns.
    inversion_clear Hp as [|?? Hn _]. by destruct Hn. }
  split; [|by split; [|split; [|unfold normal_names; rewrite Hs, Hw, reverse_involutive]]].
  unfold lexically_normal. rewrite Ha, Hs, Hw, reverse_involutive. case_decide as He; [by rewrite He|].
  destruct (exists_last Hne) as (init & l & ->). rewrite last_snoc. simpl.
  apply Forall_app in Hp as [_ Hl]. inversion_clear Hl as [|?? Hl' _].
  rewrite decide_False by (destruct Hl' as (? & ? & ? & _); tauto).
  rewrite string_app_nil_r. destruct (reverse (init ++ [l])) eqn:Hrev; [|done].
  apply (f_equal length) in Hrev. rewrite length_reverse, length_app in Hrev. simpl in Hrev. lia.
Qed.

Lemma names_directory_append root q : is_absolute q = false → split_slash q ≠ [] →
  names_directory (path_append root q) = names_directory q.
Proof.
  intros Ha Hq. unfold names_directory, path_append. rewrite Ha. case_decide; [done|].
  assert (∀ l, last (l ++ split_slash q) = last (split_slash q)) as Hlast.
  { intros l. rewrite last_app. by destruct (last (split_slash q)) eqn:E; [|apply last_None in E]. }
  destruct (ends_with_slash root) eqn:Hsl.
  - destruct (ends_with_slash_split _ Hsl) as [r ->]. rewrite string_app_assoc.
    change ("/" +:+ q) with (String slash q). by rewrite split_slash_app, Hlast.
  - by rewrite split_slash_app, Hlast.
Qed.

(** The file a listed name designates. *)
Lemma lookup_listed fm fs ns p c t : ns ≠ [] → Forall proper ns →
  resolve_path fm (join_slash ns) = Ret p →
  nodes fs !! (loc fs (storage_root fm) ++ ns) = Some (File c t) → lookup_node fs p = Some (File c t).
Proof.
  intros Hne Hp Hr Hn. destruct (lexically_normal_join ns Hne Hp) as (Hlex & Ha & Hs & Hnn).
  destruct (resolve_under fm _ p Ha Hr) as [_ Hloc].
  destruct (resolved_names_proper fm _ p Ha Hr) as [Hpath _].
  unfold lookup_node, loc, node_at in *. rewrite Hloc, Hnn.
  rewrite decide_False by (by destruct (locate (cwd fs) (storage_root fm))). rewrite Hn.
  rewrite Hpath, Hlex, names_directory_append by (done || by rewrite Hs).
  unfold names_directory. rewrite Hs. destruct (exists_last Hne) as (init & l & ->). rewrite last_snoc.
  apply Forall_app in Hp as [_ Hl]. inversion_clear Hl as [|?? Hl' _].
  rewrite bool_decide_eq_false_2; [done|]. destruct Hl' as (? & ? & ? & _). tauto.
Qed.

Lemma get_last_modified_run fm rel p fs c t : resolve_path fm rel = Ret p →
  lookup_node fs p = Some (File c t) →
  get_last_modified_ns fm rel fs = (Ret (u64 (t - file_clock fs + system_clock fs)), fs).
Proof.
  intros Hr Hl. unfold get_last_modified_ns. rewrite SM_bind_unfold, Hr. simpl.
  rewrite SM_bind_unfold. simpl. unfold fs_exists. rewrite Hl. simpl.
  rewrite SM_bind_unfold. unfold fs_last_write_time. by rewrite Hl.
Qed.

Lemma compute_sha256_run fm rel p fs c t : resolve_path fm rel = Ret p →
  lookup_node fs p = Some (File c t) → compute_sha256 fm rel fs = (Ret (to_hex (sha256_raw c)), fs).
Proof.
  intros Hr Hl. unfold compute_sha256. rewrite Hr, SM_lift_bind.
  erewrite SM_bind_ret by done. unfold read_stream. by rewrite Hl.
Qed.

Lemma files_below_spec recursive fs dir ns size : (ns, size) ∈ files_below recursive fs dir ↔
  ns ≠ [] ∧ (recursive = false → length ns = 1%nat) ∧ ∃ c t, nodes fs !! (dir ++ ns) = Some (File c t) ∧ size = zlen c.
Proof.
  unfold files_below. rewrite list_elem_of_omap. split.
  - intros ([l x] & Hin%elem_of_map_to_list & Hx). destruct x as [c t|]; [|done].
    case_decide as Hd; [|done]. destruct Hd as [Hpre Hlen].
    destruct (recursive || _) eqn:Hdepth; [|done]. injection Hx as <- <-.
    split; [intros Hnil%(f_equal length); rewrite length_drop in Hnil; simpl in Hnil; lia|].
    split; [intros ->; apply Nat.eqb_eq in Hdepth; rewrite length_drop; lia|].
    exists c, t. split; [|done]. rewrite <- Hin. f_equal. rewrite <- Hpre at 1. apply take_drop.
  - intros (Hne & Hone & c & t & Hn & ->). exists (dir ++ ns, File c t). split; [by apply elem_of_map_to_list|].
    rewrite take_app_length, drop_app_length, length_app.
    rewrite decide_True by (split; [done|destruct ns; [done|simpl; lia]]).
    destruct recursive; [done|]. rewrite Hone by done. cbn [orb].
    by rewrite (proj2 (Nat.eqb_eq _ _)) by lia.
Qed.

(** The names a listing with a prefix shows. *)
Definition shown (recursive : bool) (prefix rel : string) : bool :=
  negb (recursive && bool_decide (extension rel = ".tmp")) && (bool_decide (prefix = "") || has_prefix prefix rel).

(** What it says about a file: the digest only if it is not recursive. *)
Definition entry_info (fm : FileManager) (prefix : string) (recursive : bool) (fs : filesystem) (e : list string * Z)
  : option FileInfo :=
  match nodes fs !! (loc fs (storage_root fm) ++ e.1) with
  | Some (File c t) =>
      if shown recursive prefix (join_slash e.1) then
        Some (mkFileInfo (join_slash e.1) (u64 e.2) (u64 (t - file_clock fs + system_clock fs))
          (if recursive then "" else to_hex (sha256_raw c)))
      else None
  | _ => None
  end.

(** Every stored name is one the operating system makes and the server accepts. *)
Definition names_accepted (fm : FileManager) (fs : filesystem) : Prop :=
  ∀ ns c t, ns ≠ [] → nodes fs !! (loc fs (storage_root fm) ++ ns) = Some (File c t) →
    Forall proper ns ∧ ∃ p, resolve_path fm (join_slash ns) = Ret p.

Lemma list_entries_run fm prefix recursive fs entries : names_accepted fm fs →
  Forall (λ e, e ∈ files_below recursive fs (loc fs (storage_root fm))) entries →
  list_entries fm prefix recursive entries fs = (Ret (omap (entry_info fm prefix recursive fs) entries), fs).
Proof.
  intros Hacc. induction 1 as [|[ns size] entries He _ IH]; [done|].
  apply files_below_spec in He as (Hne & _ & c & t & Hn & ->).
  destruct (Hacc ns c t Hne Hn) as (Hp & p & Hr). cbn [list_entries omap list_omap].
  unfold entry_info at 1. cbn [fst snd]. rewrite Hn. unfold shown. cbv zeta.
  destruct (recursive && bool_decide (extension (join_slash ns) = ".tmp")); cbn [negb andb]; [exact IH|].
  pose proof (lookup_listed fm fs ns p c t Hne Hp Hr Hn) as Hl.
  destruct (bool_decide (prefix = "")), (has_prefix prefix (join_slash ns)); cbn [negb andb orb]; try exact IH.
  all: erewrite SM_bind_ret by (by eapply get_last_modified_run).
  all: destruct recursive; [cbv iota; by rewrite SM_bind_unfold; cbn; rewrite SM_bind_unfold, IH|].
  all: erewrite SM_bind_ret by (by eapply compute_sha256_run).
  all: by rewrite SM_bind_unfold, IH.
Qed.

(** C30: listings are complete and exact.  In a storage tree whose names the
    server accepts, a listing shows each regular file below the storage root (of
    the root itself, if it is not recursive) whose name starts with the given
    prefix, with its relative name, size and modification time, and nothing else;
    it changes nothing.  The recursive one leaves out names that end in ".tmp" and
    gives no digests, the other one shows them and gives the digests. *)
Theorem list_files_exact fm prefix recursive fs :
  lookup_node fs (storage_root fm) = Some Dir → names_accepted fm fs →
  ∃ infos, list_files fm prefix recursive fs = (Ret infos, fs) ∧
    ∀ info, info ∈ infos ↔ ∃ ns c t,
      ns ≠ [] ∧ (recursive = false → length ns = 1%nat) ∧
      nodes fs !! (loc fs (storage_root fm) ++ ns) = Some (File c t) ∧
      ~ (recursive = true ∧ extension (join_slash ns) = ".tmp") ∧
      (prefix = "" ∨ String.substring 0 (String.length prefix) (join_slash ns) = prefix) ∧
      info = mkFileInfo (join_slash ns) (u64 (zlen c)) (u64 (t - file_clock fs + system_clock fs))
               (if recursive then "" else to_hex (sha256_raw c)).
Proof.
  intros Hd Hacc. unfold list_files. rewrite SM_bind_unfold. cbn [get_st]. rewrite Hd.
  rewrite list_entries_run by (done || by apply Forall_forall). eexists. split; [done|].
  assert (∀ rel, shown recursive prefix rel = true ↔ ~ (recursive = true ∧ extension rel = ".tmp") ∧
    (prefix = "" ∨ String.substring 0 (String.length prefix) rel = prefix)) as Hshown.
  { intros rel. unfold shown, has_prefix.
    rewrite andb_true_iff, negb_true_iff, orb_true_iff, <- not_true_iff_false, andb_true_iff, !bool_decide_eq_true.
    done. }
  intros info. rewrite list_elem_of_omap. split.
  - intros ([ns size] & He & Hi). apply files_below_spec in He as (Hne & Hone & c & t & Hn & ->).
    unfold entry_info in Hi. cbn [fst snd] in Hi. rewrite Hn in Hi.
    destruct (shown recursive prefix (join_slash ns)) eqn:Hs; [|done]. apply Hshown in Hs as [? ?].
    exists ns, c, t. injection Hi as <-. auto 8.
  - intros (ns & c & t & Hne & Hone & Hn & Hext & Hpre & ->). exists (ns, zlen c).
    split; [apply files_below_spec; split; [done|]; split; [done|]; by exists c, t|]. unfold entry_info. cbn [fst snd]. rewrite Hn.
    by rewrite (proj2 (Hshown _)).
Qed.

(** * Witnesses *)

Definition small_root : FileManager := mkFileManager "/s".
Definition small_fs : filesystem :=
  mkFs {[ ["s"] := Dir; ["s"; "a"] := File [x61] 5; ["s"; "a.tmp"] := File [x62] 6 ]} [] [] 1 10 (λ _, 0).

Lemma block_write_read_back_witness :
  ∃ fs1 fs2, write_block_atomic small_root "b" 3 [x61; x62] small_fs = (Ret true, fs1) ∧
    atomic_rename_tmp small_root "b" fs1 = (Ret true, fs2) ∧
    read_block small_root "b" 3 2 fs2 = (Ret [x61; x62], fs2).
Proof.
  apply (block_write_read_back small_root "b" "/s/b" 3 [x61; x62] small_fs);
    [reflexivity|reflexivity| |lia].
  split; [reflexivity|]. split; [reflexivity|]. split; [|split; discriminate].
  intros [|[|k]]; [reflexivity..|]. by destruct k.
Defined.

Lemma small_names : names_accepted small_root small_fs.
Proof.
  intros ns c t Hne Hn. change (loc small_fs (storage_root small_root)) with ["s"] in Hn.
  unfold small_fs in Hn. cbn [nodes] in Hn. rewrite !lookup_insert in Hn.
  rewrite lookup_singleton in Hn. repeat case_decide; simplify_eq; simpl in *; simplify_eq.
  all: split; [|eexists; reflexivity]; constructor; [|constructor].
  all: split; [discriminate|]; split; [discriminate|]; split; [discriminate|reflexivity].
Qed.

Lemma list_files_exact_witness :
  ∃ infos, list_files small_root "" true small_fs = (Ret infos, small_fs) ∧ mkFileInfo "a" 1 14 "" ∈ infos.
Proof.
  destruct (list_files_exact small_root "" true small_fs eq_refl small_names) as (infos & Hr & Hin).
  exists infos. split; [exact Hr|]. apply Hin. exists ["a"], [x61], 5.
  split; [discriminate|]. split; [discriminate|]. split; [reflexivity|].
  split; [by intros [_ [=]]|]. split; [by left|reflexivity].
Defined.
