(* ===== verification/FileMutex.v ===== *)
(** File mutex: the per-path reader/writer locks of
    src/server/src/file_mutex.cpp.

    The object holds a map from paths to entries (a shared pointer to a
    [std::shared_mutex] and a use count).  The mutex objects live in a heap and
    the entries alias them, since a thread keeps the pointer it was given while
    it waits.  The member functions that run under [map_mutex_] are atomic; the
    two halves of an [acquire] (fetch the pointer, lock it) are separate steps
    of the thread relation below, so every interleaving is covered. *)
From S2P Require Import Prelude.

(** * The object *)

(** [std::shared_mutex]. *)
Record shared_mutex := mkShared { readers : nat; writer : bool }.

Definition try_lock_shared (m : shared_mutex) : option shared_mutex :=
  if writer m then None else Some (mkShared (S (readers m)) false).
Definition try_lock (m : shared_mutex) : option shared_mutex :=
  if writer m || negb (readers m =? 0)%nat then None else Some (mkShared 0 true).
Definition unlock_shared (m : shared_mutex) : shared_mutex := mkShared (pred (readers m)) (writer m).
Definition unlock (m : shared_mutex) : shared_mutex := mkShared (readers m) false.

Record MutexEntry := mkEntry { mtx : nat; active_count : Z }.

Record FileMutex := mkFileMutex {
  mutex_map : gmap string MutexEntry;
  heap : gmap nat shared_mutex;
  fresh : nat                          (* the next [make_shared] *)
}.

Definition FileMutex_new : FileMutex := mkFileMutex ∅ ∅ 0.

Definition get_or_create (path : string) (fm : FileMutex) : nat * FileMutex :=
  match mutex_map fm !! path with
  | Some e =>
      (mtx e, mkFileMutex (<[path := mkEntry (mtx e) (active_count e + 1)]> (mutex_map fm))
                (heap fm) (fresh fm))
  | None =>
      (fresh fm, mkFileMutex (<[path := mkEntry (fresh fm) 1]> (mutex_map fm))
                   (<[fresh fm := mkShared 0 false]> (heap fm)) (S (fresh fm)))
  end.

(** [mtx->lock_shared()] / [mtx->lock()]: [None] while the call blocks. *)
Definition lock_object (write : bool) (id : nat) (fm : FileMutex) : option FileMutex :=
  m ← heap fm !! id;
  m' ← (if write then try_lock m else try_lock_shared m);
  mret (mkFileMutex (mutex_map fm) (<[id := m']> (heap fm)) (fresh fm)).

Definition release (write : bool) (path : string) (fm : FileMutex) : FileMutex :=
  match mutex_map fm !! path with
  | Some e =>
      mkFileMutex (<[path := mkEntry (mtx e) (active_count e - 1)]> (mutex_map fm))
        (alter (if write then unlock else unlock_shared) (mtx e) (heap fm)) (fresh fm)
  | None => fm
  end.
Definition release_read : string → FileMutex → FileMutex := release false.
Definition release_write : string → FileMutex → FileMutex := release true.

Definition cleanup_unused (fm : FileMutex) : FileMutex :=
  mkFileMutex (filter (λ kv, ~ (active_count kv.2 <= 0)) (mutex_map fm)) (heap fm) (fresh fm).

(** An acquire that does not have to wait: what a single thread sees. *)
Definition acquire (write : bool) (path : string) (fm : FileMutex) : option FileMutex :=
  let '(id, fm') := get_or_create path fm in lock_object write id fm'.
Definition acquire_read : string → FileMutex → option FileMutex := acquire false.
Definition acquire_write : string → FileMutex → option FileMutex := acquire true.

(** * Threads *)

(** A thread uses one path at a time, as the handlers of the server do. *)
Inductive thread :=
| Idle
| Waiting (write : bool) (path : string) (id : nat)   (* inside an acquire, pointer fetched *)
| Holding (write : bool) (path : string).

Record config := mkConfig { table : FileMutex; threads : gmap nat thread }.

Inductive step : config → config → Prop :=
| step_fetch c t write path id fm' :
    threads c !! t = Some Idle → get_or_create path (table c) = (id, fm') →
    step c (mkConfig fm' (<[t := Waiting write path id]> (threads c)))
| step_lock c t write path id fm' :
    threads c !! t = Some (Waiting write path id) → lock_object write id (table c) = Some fm' →
    step c (mkConfig fm' (<[t := Holding write path]> (threads c)))
| step_release c t write path :
    threads c !! t = Some (Holding write path) →
    step c (mkConfig (release write path (table c)) (<[t := Idle]> (threads c)))
| step_cleanup c :
    step c (mkConfig (cleanup_unused (table c)) (threads c))
| step_spawn c t :
    threads c !! t = None → step c (mkConfig (table c) (<[t := Idle]> (threads c))).

Definition reachable (c : config) : Prop := rtc step (mkConfig FileMutex_new ∅) c.

(** * Specification vocabulary *)

Definition uses (path : string) (th : thread) : bool :=
  match th with
  | Idle => false
  | Waiting _ p _ | Holding _ p => bool_decide (p = path)
  end.
Definition holds (write : bool) (path : string) (th : thread) : bool :=
  match th with
  | Holding w p => Bool.eqb w write && bool_decide (p = path)
  | _ => false
  end.

Definition count (P : thread → bool) (ths : gmap nat thread) : nat :=
  size (filter (λ kv, P kv.2 = true) ths).

(** The entry of a path counts its users, and its mutex object agrees with the
    threads that hold the path. *)
Definition entry_ok (c : config) (path : string) (e : MutexEntry) : Prop :=
  active_count e = Z.of_nat (count (uses path) (threads c)) ∧
  (mtx e < fresh (table c))%nat ∧
  ∃ m, heap (table c) !! mtx e = Some m ∧
    readers m = count (holds false path) (threads c) ∧
    (if writer m then count (holds true path) (threads c) = 1%nat ∧ readers m = 0%nat
     else count (holds true path) (threads c) = 0%nat).

Record inv (c : config) : Prop := mkInv {
  inv_entries : ∀ path e, mutex_map (table c) !! path = Some e → entry_ok c path e;
  inv_used : ∀ t th path, threads c !! t = Some th → uses path th = true →
    is_Some (mutex_map (table c) !! path);
  inv_pointer : ∀ t w path id, threads c !! t = Some (Waiting w path id) →
    ∀ e, mutex_map (table c) !! path = Some e → mtx e = id;
  inv_inj : ∀ p q e f, mutex_map (table c) !! p = Some e → mutex_map (table c) !! q = Some f →
    mtx e = mtx f → p = q
}.

(** * Counting threads *)

Definition weight (b : bool) : nat := if b then 1%nat else 0%nat.

Lemma count_insert_new P ths t th : ths !! t = None →
  count P (<[t := th]> ths) = (count P ths + weight (P th))%nat.
Proof.
  intros Hn. unfold count. destruct (P th) eqn:HP; simpl.
  - rewrite map_filter_insert_True by done.
    rewrite map_size_insert_None by (by apply map_lookup_filter_None; left). lia.
  - rewrite map_filter_insert_not'; simpl; [lia|congruence|congruence].
Qed.

Lemma count_update P ths t old new : ths !! t = Some old →
  (count P (<[t := new]> ths) + weight (P old) = count P ths + weight (P new))%nat.
Proof.
  intros Ho. rewrite <- (insert_delete_id ths t old Ho) at 2.
  rewrite <- insert_delete_eq. rewrite !count_insert_new by apply lookup_delete_eq. lia.
Qed.

Lemma count_pos P ths t th : ths !! t = Some th → P th = true → (0 < count P ths)%nat.
Proof.
  intros Ht HP.
  rewrite <- (insert_delete_id ths t th Ht), count_insert_new, HP by apply lookup_delete_eq.
  simpl. lia.
Qed.

Lemma count_zero P ths : (∀ t th, ths !! t = Some th → P th = false) → count P ths = 0%nat.
Proof.
  intros Hno. unfold count. apply map_size_empty_iff, map_empty. intros t.
  apply map_lookup_filter_None. right. intros th Ht. simpl. by rewrite (Hno t th Ht).
Qed.

Lemma count_mono P Q ths : (∀ th, P th = true → Q th = true) → (count P ths <= count Q ths)%nat.
Proof.
  intros HPQ. induction ths as [|t th ths Ht IH] using map_ind.
  - done.
  - rewrite !count_insert_new by done. specialize (HPQ th).
    destruct (P th), (Q th); simpl; try lia.
Qed.

Lemma count_le_size P ths : (count P ths <= size ths)%nat.
Proof. apply map_subseteq_size, map_filter_subseteq. Qed.

(** Two different threads that satisfy [P] make the count at least two. *)
Lemma count_two P ths t u th uh : t ≠ u → ths !! t = Some th → ths !! u = Some uh →
  P th = true → P uh = true → (2 <= count P ths)%nat.
Proof.
  intros Hne Ht Hu HP HQ.
  rewrite <- (insert_delete_id ths t th Ht), count_insert_new, HP by apply lookup_delete_eq.
  assert (0 < count P (delete t ths))%nat; [|simpl; lia].
  apply (count_pos _ _ u uh); [|done]. by rewrite lookup_delete_ne.
Qed.

(** * The invariant holds in every reachable state *)

Lemma uses_holds w path th : holds w path th = true → uses path th = true.
Proof. destruct th; simpl; [done..|]. intros [_ ?]%andb_prop. done. Qed.

Lemma uses_waiting path w p id : uses path (Waiting w p id) = bool_decide (p = path).
Proof. done. Qed.

Lemma unused_counts c path : mutex_map (table c) !! path = None → inv c →
  count (uses path) (threads c) = 0%nat ∧ ∀ w, count (holds w path) (threads c) = 0%nat.
Proof.
  intros Hn Hinv.
  assert (count (uses path) (threads c) = 0%nat) as Hu.
  { apply count_zero. intros t th Ht. destruct (uses path th) eqn:Hu; [|done].
    destruct (inv_used c Hinv t th path Ht Hu) as [e He]. congruence. }
  split; [done|]. intros w.
  pose proof (count_mono (holds w path) (uses path) (threads c) (uses_holds w path)). lia.
Qed.

Lemma count_same P ths t old new : ths !! t = Some old → P new = P old →
  count P (<[t := new]> ths) = count P ths.
Proof. intros Ho Hn. pose proof (count_update P ths t old new Ho). rewrite Hn in *. lia. Qed.

(** The part of a path that a state change leaves alone. *)
Definition same_counts (path : string) (ths ths' : gmap nat thread) : Prop :=
  count (uses path) ths' = count (uses path) ths ∧
  ∀ w, count (holds w path) ths' = count (holds w path) ths.

Lemma same_counts_other path q ths t old new : ths !! t = Some old → q ≠ path →
  uses path old = true ∨ old = Idle → uses path new = true ∨ new = Idle →
  same_counts q ths (<[t := new]> ths).
Proof.
  intros Ht Hne Ho Hn.
  assert (∀ th, uses path th = true ∨ th = Idle → uses q th = false) as Hu.
  { intros th [Hth| ->]; [|done]. destruct th; simpl in *; [done|..]; rewrite bool_decide_eq_true in Hth;
      apply bool_decide_eq_false; congruence. }
  assert (∀ w th, uses path th = true ∨ th = Idle → holds w q th = false) as Hh.
  { intros w th Hth. destruct (holds w q th) eqn:E; [|done].
    apply uses_holds in E. by rewrite Hu in E. }
  split; [|intros w]; (eapply count_same; [done|]); by rewrite ?Hu, ?Hh.
Qed.

Lemma entry_ok_frame c c' path e : entry_ok c path e → same_counts path (threads c) (threads c') →
  heap (table c') !! mtx e = heap (table c) !! mtx e → (fresh (table c) <= fresh (table c'))%nat →
  entry_ok c' path e.
Proof.
  intros (Ha & Hlt & m & Hm & Hr & Hw) [Hu Hh] Hheap Hf. split; [by rewrite Hu|]. split; [lia|].
  exists m. rewrite Hheap, !Hh. done.
Qed.

Lemma inv_fetch c t write path id fm' :
  inv c → threads c !! t = Some Idle → get_or_create path (table c) = (id, fm') →
  inv (mkConfig fm' (<[t := Waiting write path id]> (threads c))).
Proof.
  intros Hinv Ht Hg. pose proof Hinv as [He Hu Hp Hi].
  set (new := Waiting write path id).
  pose proof (count_update (uses path) _ _ _ new Ht) as Hcu.
  assert (uses path new = true) as Hnew by (by apply bool_decide_eq_true).
  rewrite Hnew in Hcu. simpl in Hcu.
  assert (∀ w, count (holds w path) (<[t := new]> (threads c)) = count (holds w path) (threads c)) as Hch
    by (intros; by eapply count_same).
  unfold get_or_create in Hg.
  destruct (mutex_map (table c) !! path) as [e|] eqn:Hpath; simplify_eq.
  - constructor; simpl.
    + intros q f Hq. rewrite lookup_insert in Hq. case_decide; simplify_eq.
      * destruct (He q e Hpath) as (Ha & Hlt & m & Hm & Hr & Hw).
        split; simpl; [lia|]. split; [done|]. exists m. by rewrite !Hch.
      * eapply entry_ok_frame; [by apply He|simpl|done|done].
        eapply same_counts_other; [done|..|by left]; [congruence|by right].
    + intros u th q Huth Huse. rewrite lookup_insert. case_decide; [done|].
      rewrite lookup_insert in Huth. case_decide; simplify_eq; [|by eapply Hu].
      simpl in Huse. by apply bool_decide_eq_true in Huse.
    + intros u w q id Huth f Hq. rewrite lookup_insert in Huth. rewrite lookup_insert in Hq. repeat case_decide; simplify_eq; eauto.
      by apply (Hp u w q id Huth e).
    + intros p q f g Hf Hg Heq. rewrite lookup_insert in Hf. rewrite lookup_insert in Hg. repeat case_decide; simplify_eq; simpl in *; eauto.
  - destruct (unused_counts c path Hpath Hinv) as [Hcu0 Hch0].
    assert (∀ q f, mutex_map (table c) !! q = Some f → (mtx f < fresh (table c))%nat) as Hfr
      by (intros q f Hq; by destruct (He q f Hq) as (_ & ? & _)).
    constructor; simpl.
    + intros q f Hq. rewrite lookup_insert in Hq. case_decide; simplify_eq.
      * split; simpl; [lia|]. split; [lia|]. exists (mkShared 0 false).
        rewrite lookup_insert_eq, !Hch, !Hch0. done.
      * pose proof (Hfr _ _ Hq). eapply entry_ok_frame; [by apply He|simpl|simpl|simpl; lia].
        -- eapply same_counts_other; [done|..|by left]; [congruence|by right].
        -- rewrite lookup_insert_ne by lia. done.
    + intros u th q Huth Huse. rewrite lookup_insert. case_decide; [done|].
      rewrite lookup_insert in Huth. case_decide; simplify_eq; [|by eapply Hu].
      simpl in Huse. by apply bool_decide_eq_true in Huse.
    + intros u w q id Huth f Hq. rewrite lookup_insert in Huth. rewrite lookup_insert in Hq. repeat case_decide; simplify_eq; eauto.
      exfalso. destruct (Hu u _ q Huth) as [e0 He0]; [by apply bool_decide_eq_true|congruence].
    + intros p q f g Hf Hg Heq. rewrite lookup_insert in Hf. rewrite lookup_insert in Hg.
      repeat case_decide; simplify_eq; simpl in *; eauto.
      all: match goal with Hx : mutex_map _ !! _ = Some _ |- _ => pose proof (Hfr _ _ Hx); lia end.
Qed.

(** The state of a used path, ready for a change of its mutex object. *)
Lemma used_entry c t th path : inv c → threads c !! t = Some th → uses path th = true →
  ∃ e m, mutex_map (table c) !! path = Some e ∧ heap (table c) !! mtx e = Some m ∧
    entry_ok c path e ∧ readers m = count (holds false path) (threads c) ∧
    (if writer m then count (holds true path) (threads c) = 1%nat ∧ readers m = 0%nat
     else count (holds true path) (threads c) = 0%nat).
Proof.
  intros Hinv Ht Hu. destruct (inv_used c Hinv t th path Ht Hu) as [e He].
  pose proof (inv_entries c Hinv path e He) as Hok. pose proof Hok as (_ & _ & m & Hm & Hr & Hw). eauto 10.
Qed.

(** A step that changes one mutex object and the thread that uses its path. *)
Lemma inv_object c t old new path e m' e' :
  inv c → threads c !! t = Some old → uses path old = true →
  uses path new = true ∨ new = Idle → (∀ w p id, new ≠ Waiting w p id) →
  mutex_map (table c) !! path = Some e → mtx e' = mtx e →
  entry_ok (mkConfig (mkFileMutex (<[path := e']> (mutex_map (table c)))
    (<[mtx e := m']> (heap (table c))) (fresh (table c))) (<[t := new]> (threads c))) path e' →
  inv (mkConfig (mkFileMutex (<[path := e']> (mutex_map (table c)))
    (<[mtx e := m']> (heap (table c))) (fresh (table c))) (<[t := new]> (threads c))).
Proof.
  intros Hinv Ht Hold Hnew Hnw Hpath Hid Hok. pose proof Hinv as [He Hu Hp Hi]. constructor; simpl.
  - intros q f Hq. rewrite lookup_insert in Hq. case_decide; simplify_eq; [done|].
    eapply entry_ok_frame; [by apply He| |simpl|simpl; lia].
    + eapply same_counts_other; [done|..|done]; [congruence|by left].
    + rewrite lookup_insert_ne; [done|]. intros Heq. by specialize (Hi _ _ _ _ Hpath Hq Heq).
  - intros u th q Huth Huse. rewrite lookup_insert. case_decide; [done|].
    rewrite lookup_insert in Huth. case_decide; simplify_eq; [|by eapply Hu].
    destruct Hnew as [Hn| ->]; [|done].
    destruct th; simpl in *; [done|..]; apply bool_decide_eq_true in Hn, Huse; congruence.
  - intros u w q id Huth f Hq. rewrite lookup_insert in Huth. case_decide; simplify_eq; [by destruct (Hnw w q id)|].
    rewrite lookup_insert in Hq. case_decide; simplify_eq; [|by eapply Hp].
    rewrite Hid. by eapply Hp.
  - intros p q f g Hf Hg Heq. rewrite lookup_insert in Hf. rewrite lookup_insert in Hg.
    repeat case_decide; simplify_eq; eauto.
    + by symmetry; eapply Hi; [exact Hpath|eassumption|congruence].
    + by eapply Hi; [exact Hpath|eassumption|congruence].
Qed.

Lemma holds_holding w w' path : holds w path (Holding w' path) = Bool.eqb w' w.
Proof. simpl. rewrite bool_decide_eq_true_2 by done. by rewrite andb_true_r. Qed.

Lemma inv_lock c t write path id fm' :
  inv c → threads c !! t = Some (Waiting write path id) → lock_object write id (table c) = Some fm' →
  inv (mkConfig fm' (<[t := Holding write path]> (threads c))).
Proof.
  intros Hinv Ht Hl. assert (uses path (Waiting write path id) = true) as Hold by (by apply bool_decide_eq_true).
  destruct (used_entry c t _ path Hinv Ht Hold) as (e & m & Hpath & Hm & (Ha & Hlt & _) & Hr & Hw).
  pose proof (inv_pointer c Hinv t write path id Ht e Hpath) as <-.
  unfold lock_object in Hl. rewrite Hm in Hl. simpl in Hl.
  destruct (if write then try_lock m else try_lock_shared m) as [m'|] eqn:Hm'; [|done].
  injection Hl as <-. rewrite <- (insert_id (mutex_map (table c)) path e) by done.
  eapply inv_object; try done; [left; by apply bool_decide_eq_true|].
  pose proof (count_update (uses path) _ _ _ (Holding write path) Ht) as Hcu.
  pose proof (count_update (holds false path) _ _ _ (Holding write path) Ht) as Hcr.
  pose proof (count_update (holds true path) _ _ _ (Holding write path) Ht) as Hcw.
  rewrite Hold in Hcu. rewrite !holds_holding in Hcr, Hcw.
  assert (uses path (Holding write path) = true) as Hnew by (by apply bool_decide_eq_true).
  rewrite Hnew in Hcu. simpl in *.
  split; simpl; [lia|]. split; [done|]. exists m'. rewrite lookup_insert_eq. split; [done|].
  unfold try_lock, try_lock_shared in Hm'.
  destruct write, (writer m); simpl in *; try done; [destruct (Nat.eqb_spec (readers m) 0)|];
    simpl in *; simplify_eq; simpl; lia.
Qed.

Lemma inv_release c t write path :
  inv c → threads c !! t = Some (Holding write path) →
  inv (mkConfig (release write path (table c)) (<[t := Idle]> (threads c))).
Proof.
  intros Hinv Ht. assert (uses path (Holding write path) = true) as Hold by (by apply bool_decide_eq_true).
  destruct (used_entry c t _ path Hinv Ht Hold) as (e & m & Hpath & Hm & (Ha & Hlt & _) & Hr & Hw).
  unfold release. rewrite Hpath.
  assert (∀ f, alter f (mtx e) (heap (table c)) = <[mtx e := f m]> (heap (table c))) as Halt.
  { intros f. apply map_eq. intros i. rewrite lookup_alter, lookup_insert.
    repeat case_decide; simplify_eq; [by rewrite Hm|done]. }
  rewrite Halt. eapply inv_object; try done; [by right|].
  pose proof (count_update (uses path) _ _ _ Idle Ht) as Hcu.
  pose proof (count_update (holds false path) _ _ _ Idle Ht) as Hcr.
  pose proof (count_update (holds true path) _ _ _ Idle Ht) as Hcw.
  rewrite Hold in Hcu. rewrite !holds_holding in Hcr, Hcw. simpl in *.
  split; simpl; [lia|]. split; [done|]. eexists. rewrite lookup_insert_eq. split; [done|].
  destruct write, (writer m) eqn:Hwm; simpl in *; rewrite ?Hwm in *; lia.
Qed.

Lemma inv_cleanup c : inv c → inv (mkConfig (cleanup_unused (table c)) (threads c)).
Proof.
  intros [He Hu Hp Hi].
  assert (∀ q f, mutex_map (cleanup_unused (table c)) !! q = Some f → mutex_map (table c) !! q = Some f) as Hsub.
  { intros q f Hq. by apply map_lookup_filter_Some in Hq as [? _]. }
  constructor; simpl.
  - intros q f Hq. by apply Hsub, He in Hq.
  - intros t th q Ht Hq. destruct (Hu t th q Ht Hq) as [e Hqe]. exists e.
    apply map_lookup_filter_Some. split; [done|]. simpl.
    destruct (He q e Hqe) as (-> & _). pose proof (count_pos _ _ _ _ Ht Hq). lia.
  - intros t w q id Ht f Hq. by eapply Hp; eauto.
  - intros p q f g Hf Hg. eauto.
Qed.

Lemma inv_spawn c t : inv c → threads c !! t = None →
  inv (mkConfig (table c) (<[t := Idle]> (threads c))).
Proof.
  intros [He Hu Hp Hi] Ht. constructor; simpl; [..|done].
  - intros q e Hq. eapply entry_ok_frame; [by apply He| |done|done].
    split; [|intros w]; simpl; rewrite count_insert_new by done; simpl; lia.
  - intros u th q Huth Huse. rewrite lookup_insert in Huth. case_decide; simplify_eq; eauto.
  - intros u w q id Huth f Hq. rewrite lookup_insert in Huth. case_decide; simplify_eq; eauto.
Qed.

Lemma inv_step c c' : inv c → step c c' → inv c'.
Proof. intros Hinv. inversion 1; subst; eauto using inv_fetch, inv_lock, inv_release, inv_cleanup, inv_spawn. Qed.

Lemma inv_initial : inv (mkConfig FileMutex_new ∅).
Proof. by constructor. Qed.

Lemma reachable_inv c : reachable c → inv c.
Proof. intros Hr. refine (rtc_ind_r _ _ inv_initial _ c Hr); eauto using inv_step. Qed.

(** * What the locks promise *)

Lemma holder_state c t w path : reachable c → threads c !! t = Some (Holding w path) →
  ∃ e m, mutex_map (table c) !! path = Some e ∧ heap (table c) !! mtx e = Some m ∧
    writer m = w ∧ (if w then readers m = 0%nat else 0 < readers m)%nat ∧
    readers m = count (holds false path) (threads c) ∧
    (count (holds true path) (threads c) = if w then 1%nat else 0%nat).
Proof.
  intros Hr Ht. apply reachable_inv in Hr.
  assert (uses path (Holding w path) = true) as Hold by (by apply bool_decide_eq_true).
  destruct (used_entry c t _ path Hr Ht Hold) as (e & m & Hpath & Hm & _ & Hrd & Hw).
  pose proof (count_pos (holds w path) _ _ _ Ht) as Hpos.
  rewrite holds_holding, eqb_reflx in Hpos. specialize (Hpos eq_refl).
  exists e, m. destruct w, (writer m); repeat split; try done; lia.
Qed.

Definition threads_demo : config :=
  mkConfig (mkFileMutex {["a" := mkEntry 0 2]} {[0%nat := mkShared 0 true]} 1)
    (<[2%nat := Waiting false "a" 0%nat]> {[1%nat := Holding true "a"]}).

Lemma threads_demo_reachable : reachable threads_demo.
Proof.
  unfold reachable.
  eapply rtc_l. { by apply (step_spawn _ 1). }
  eapply rtc_l. { by apply (step_fetch _ 1 true "a"). }
  eapply rtc_l. { by apply (step_lock _ 1 true "a" 0). }
  eapply rtc_l. { by apply (step_spawn _ 2). }
  eapply rtc_l. { by apply (step_fetch _ 2 false "a"). }
  apply rtc_refl.
Qed.

(** C1: mutual exclusion.  Whatever the interleaving of the threads, a thread
    between [acquire_write] and [release_write] of a path is the only thread
    between the acquire and the release, shared or exclusive, of that path. *)
Theorem mutual_exclusion c t u w path :
  reachable c → threads c !! t = Some (Holding true path) →
  threads c !! u = Some (Holding w path) → u = t.
Proof.
  intros Hr Ht Hu. destruct (decide (u = t)) as [|Hne]; [done|exfalso].
  destruct (holder_state c t true path Hr Ht) as (_ & m & _ & _ & _ & Hm & Hrd & Hcw).
  destruct w.
  - pose proof (count_two (holds true path) _ u t _ _ Hne Hu Ht) as H2.
    rewrite !holds_holding in H2. specialize (H2 eq_refl eq_refl). lia.
  - pose proof (count_pos (holds false path) _ _ _ Hu) as H1.
    rewrite holds_holding in H1. specialize (H1 eq_refl). lia.
Qed.

Lemma mutual_exclusion_witness :
  reachable threads_demo ∧
  ∀ u w, threads threads_demo !! u = Some (Holding w "a") → u = 1%nat.
Proof.
  split; [exact threads_demo_reachable|]. intros u w.
  by apply (mutual_exclusion threads_demo 1 u w "a" threads_demo_reachable).
Defined.

(** The use counts are exact.  In every reachable state the count of an
    entry is the number of threads inside an acquire or a critical section of
    its path, so the [int] neither underflows nor exceeds the number of
    threads, and a path some thread uses always has its entry. *)
Theorem active_count_exact c path :
  reachable c →
  match mutex_map (table c) !! path with
  | Some e => active_count e = Z.of_nat (count (uses path) (threads c)) ∧
              0 <= active_count e <= Z.of_nat (size (threads c))
  | None => ∀ t th, threads c !! t = Some th → uses path th = false
  end.
Proof.
  intros Hr%reachable_inv. destruct (mutex_map (table c) !! path) as [e|] eqn:He.
  - destruct (inv_entries c Hr path e He) as (-> & _).
    pose proof (count_le_size (uses path) (threads c)). lia.
  - intros t th Ht. destruct (uses path th) eqn:Hu; [|done].
    destruct (inv_used c Hr t th path Ht Hu). congruence.
Qed.

Lemma active_count_exact_witness :
  reachable threads_demo ∧ 2 = Z.of_nat (count (uses "a") (threads threads_demo)).
Proof.
  split; [exact threads_demo_reachable|].
  exact (proj1 (active_count_exact threads_demo "a" threads_demo_reachable)).
Defined.

(** Cleaning up is invisible to the threads.  [cleanup_unused] may run at
    any moment: it removes exactly the entries of the paths no thread uses, and
    what it keeps it keeps unchanged, so no thread loses the mutex it waits on
    or holds. *)
Theorem cleanup_drops_unused c path e :
  reachable c →
  (mutex_map (cleanup_unused (table c)) !! path = Some e ↔
   mutex_map (table c) !! path = Some e ∧ ∃ t th, threads c !! t = Some th ∧ uses path th = true) ∧
  heap (cleanup_unused (table c)) = heap (table c).
Proof.
  intros Hr%reachable_inv. split; [|done]. simpl. rewrite map_lookup_filter_Some. simpl.
  split; intros [He Hx]; (split; [done|]); destruct (inv_entries c Hr path e He) as (Ha & _).
  - rewrite Ha in Hx. apply dec_stable. intros Hno. apply Hx.
    rewrite (count_zero (uses path) (threads c)); [done|].
    intros t th Ht. destruct (uses path th) eqn:Hu; [|done]. destruct Hno; eauto.
  - destruct Hx as (t & th & Ht & Hu). pose proof (count_pos _ _ _ _ Ht Hu). lia.
Qed.

Lemma cleanup_drops_unused_witness :
  reachable threads_demo ∧ is_Some (mutex_map (cleanup_unused (table threads_demo)) !! "a").
Proof.
  split; [exact threads_demo_reachable|]. exists (mkEntry 0 2).
  apply (cleanup_drops_unused threads_demo "a" (mkEntry 0 2) threads_demo_reachable).
  split; [reflexivity|]. exists 1%nat, (Holding true "a"). split; reflexivity.
Defined.

(** Releases are well paired.  When a thread that holds a path releases it,
    the entry found in the map still refers to the mutex this thread locked, in
    the mode it locked it: [unlock] and [unlock_shared] are never called on a
    mutex that is not held that way. *)
Theorem release_pairs_with_acquire c t w path :
  reachable c → threads c !! t = Some (Holding w path) →
  ∃ e m, mutex_map (table c) !! path = Some e ∧ heap (table c) !! mtx e = Some m ∧
    writer m = w ∧ (if w then readers m = 0 else 0 < readers m)%nat.
Proof.
  intros Hr Ht. destruct (holder_state c t w path Hr Ht) as (e & m & ? & ? & ? & ? & _). eauto 6.
Qed.

Lemma release_pairs_with_acquire_witness :
  ∃ e m, mutex_map (table threads_demo) !! "a" = Some e ∧
    heap (table threads_demo) !! mtx e = Some m ∧ writer m = true ∧ readers m = 0%nat.
Proof.
  exact (release_pairs_with_acquire threads_demo 1 true "a" threads_demo_reachable eq_refl).
Defined.

(** A waiting thread can lock once nobody holds its path. *)
Lemma free_path_lockable c t w path id :
  inv c → threads c !! t = Some (Waiting w path id) →
  (∀ w', count (holds w' path) (threads c) = 0%nat) →
  is_Some (lock_object w id (table c)).
Proof.
  intros Hinv Ht Hfree. assert (uses path (Waiting w path id) = true) as Hold by (by apply bool_decide_eq_true).
  destruct (used_entry c t _ path Hinv Ht Hold) as (e & m & Hpath & Hm & _ & Hr & Hw).
  pose proof (inv_pointer c Hinv t w path id Ht e Hpath) as <-.
  rewrite !Hfree in *. unfold lock_object. rewrite Hm. simpl.
  unfold try_lock, try_lock_shared. destruct (writer m); [lia|]. rewrite Hr. destruct w; simpl; eauto.
Qed.

Lemma count_witness P ths : count P ths ≠ 0%nat → ∃ t th, ths !! t = Some th ∧ P th = true.
Proof.
  unfold count. intros Hne. destruct (map_choose (filter (λ kv, P kv.2 = true) ths)) as (t & th & Hth).
  { intros H0. rewrite H0 in Hne. by apply Hne. }
  apply map_lookup_filter_Some in Hth. eauto.
Qed.

Lemma drain_holders n : ∀ c t w path id,
  inv c → threads c !! t = Some (Waiting w path id) →
  (count (holds true path) (threads c) + count (holds false path) (threads c) = n)%nat →
  ∃ c', rtc step c c' ∧ threads c' !! t = Some (Holding w path).
Proof.
  induction n as [|n IH]; intros c t w path id Hinv Ht Hn.
  - destruct (free_path_lockable c t w path id Hinv Ht) as [fm' Hl]; [intros []; lia|].
    eexists. split; [apply rtc_once; by eapply step_lock|]. apply lookup_insert_eq.
  - assert (∃ u w', threads c !! u = Some (Holding w' path)) as (u & w' & Hu).
    { assert (∃ w', count (holds w' path) (threads c) ≠ 0%nat) as [w' Hw'].
      { destruct (decide (count (holds true path) (threads c) = 0%nat)); [exists false; lia|by exists true]. }
      apply count_witness in Hw' as (u & th & Hu & Hh). exists u, w'.
      destruct th as [| |w0 p]; simpl in Hh; try done.
      apply andb_prop in Hh as [Hw0%eqb_prop Hp%bool_decide_eq_true]. by subst. }
    assert (u ≠ t) as Hne by congruence.
    pose proof (count_update (holds true path) _ _ _ Idle Hu) as Hct.
    pose proof (count_update (holds false path) _ _ _ Idle Hu) as Hcf.
    rewrite !holds_holding in Hct, Hcf.
    destruct (IH (mkConfig (release w' path (table c)) (<[u := Idle]> (threads c))) t w path id)
      as (c' & Hsteps & Hc').
    + by apply inv_release.
    + simpl. by rewrite lookup_insert_ne.
    + simpl. destruct w'; simpl in *; lia.
    + exists c'. split; [|done]. eapply rtc_l; [by eapply step_release|done].
Qed.

(** C28: no deadlock.  From every reachable state, a thread waiting inside an
    acquire can still be granted its lock: releases by the current holders of
    the path (which are always possible) followed by the lock get it there. *)
Theorem waiting_can_be_granted c t w path id :
  reachable c → threads c !! t = Some (Waiting w path id) →
  ∃ c', rtc step c c' ∧ threads c' !! t = Some (Holding w path).
Proof. intros Hr%reachable_inv Ht. by eapply drain_holders. Qed.

Lemma waiting_can_be_granted_witness :
  ∃ c', rtc step threads_demo c' ∧ threads c' !! 2%nat = Some (Holding false "a").
Proof. exact (waiting_can_be_granted threads_demo 2 false "a" 0 threads_demo_reachable eq_refl). Defined.

(** * What a single thread sees *)

(** An uncontended acquire and release leave every other path alone; a path
    nobody uses is free. *)
Definition idle_mutex (fm : FileMutex) (path : string) : Prop :=
  (∀ e, mutex_map fm !! path = Some e → heap fm !! mtx e = Some (mkShared 0 false)).

Lemma acquire_idle w fm path : idle_mutex fm path →
  ∃ fm', acquire w path fm = Some fm' ∧ idle_mutex (release w path fm') path.
Proof.
  intros Hidle. unfold acquire, get_or_create, idle_mutex, release in *.
  destruct (mutex_map fm !! path) as [e|] eqn:He.
  - unfold lock_object. simpl. rewrite (Hidle e eq_refl). simpl.
    destruct w; simpl; (eexists; split; [done|]); simpl;
      rewrite lookup_insert_eq; simpl; intros e' He'; rewrite lookup_insert_eq in He'; simplify_eq; simpl;
      by rewrite lookup_alter_eq, lookup_insert_eq.
  - unfold lock_object. simpl. rewrite lookup_insert_eq. simpl.
    destruct w; simpl; (eexists; split; [done|]); simpl;
      rewrite lookup_insert_eq; simpl; intros e' He'; rewrite lookup_insert_eq in He'; simplify_eq; simpl;
      by rewrite lookup_alter_eq, lookup_insert_eq.
Qed.

(** While a thread holds the path for writing, nobody gets it. *)
Lemma write_lock_excludes fm path fm' : acquire true path fm = Some fm' →
  acquire_write path fm' = None ∧ acquire_read path fm' = None.
Proof.
  unfold acquire_write, acquire_read, acquire, get_or_create, lock_object.
  destruct (mutex_map fm !! path) as [e|] eqn:He; simpl.
  - destruct (heap fm !! mtx e) as [m|]; [|done]. simpl. unfold try_lock.
    destruct (writer m || negb (readers m =? 0)%nat); [done|]. intros [= <-]. simpl.
    rewrite lookup_insert_eq. simpl. by rewrite !lookup_insert_eq.
  - rewrite lookup_insert_eq. simpl. intros [= <-]. simpl.
    rewrite lookup_insert_eq. simpl. by rewrite !lookup_insert_eq.
Qed.
