(* ===== verification/DeltaSync.v ===== *)
(** Delta synchronisation: the block signatures, the comparison of a client's
    signatures with the server's file, and the reception of blocks of
    src/server/src/delta_sync_handler.cpp. *)
From Stdlib Require Import Sorting.Sorted.
From S2P Require Import Prelude Sha256 Paths FileSystem FileManager FileMutex.

(** * The two block hashes *)

Definition adler_mod : Z := 65521.

Definition adler32 (data : bytes) : Z :=
  let '(a, b) :=
    fold_left (λ '(a, b) x,
      let a := u32 (a + byte.unsigned x) mod adler_mod in
      let b := u32 (b + a) mod adler_mod in
      (a, b)) data (1, 0) in
  Z.lor (u32 (Z.shiftl b 16)) a.

Module BlockHash.

(** The handler carries its own copy of the SHA-256 code. *)
Definition BLOCK_SHA256_K : list Z := concat [
  [0x428a2f98; 0x71374491; 0xb5c0fbcf; 0xe9b5dba5];
  [0x3956c25b; 0x59f111f1; 0x923f82a4; 0xab1c5ed5];
  [0xd807aa98; 0x12835b01; 0x243185be; 0x550c7dc3];
  [0x72be5d74; 0x80deb1fe; 0x9bdc06a7; 0xc19bf174];
  [0xe49b69c1; 0xefbe4786; 0x0fc19dc6; 0x240ca1cc];
  [0x2de92c6f; 0x4a7484aa; 0x5cb0a9dc; 0x76f988da];
  [0x983e5152; 0xa831c66d; 0xb00327c8; 0xbf597fc7];
  [0xc6e00bf3; 0xd5a79147; 0x06ca6351; 0x14292967];
  [0x27b70a85; 0x2e1b2138; 0x4d2c6dfc; 0x53380d13];
  [0x650a7354; 0x766a0abb; 0x81c2c92e; 0x92722c85];
  [0xa2bfe8a1; 0xa81a664b; 0xc24b8b70; 0xc76c51a3];
  [0xd192e819; 0xd6990624; 0xf40e3585; 0x106aa070];
  [0x19a4c116; 0x1e376c08; 0x2748774c; 0x34b0bcb5];
  [0x391c0cb3; 0x4ed8aa4a; 0x5b9cca4f; 0x682e6ff3];
  [0x748f82ee; 0x78a5636f; 0x84c87814; 0x8cc70208];
  [0x90befffa; 0xa4506ceb; 0xbef9a3f7; 0xc67178f2] ].

Definition block_pad (data : bytes) : bytes :=
  let len := zlen data in
  let bit_len := u64 (len * 8) in
  let padded_len := u64 ((u64 (len + 8) / 64 + 1) * 64) in
  let padded := replicate (Z.to_nat padded_len) x00 in
  let padded := list_inserts 0 data padded in
  let padded := <[length data := x80]> padded in
  fold_left (λ p i, <[(Z.to_nat padded_len - 1 - i)%nat :=
                       byte.of_Z (Z.shiftr bit_len (Z.of_nat i * 8))]> p) (seq 0 8) padded.

Definition block_round (w : list Z) (s : hash_state) (i : nat) : hash_state :=
  let '(mkHash a b c d e f g hh) := s in
  let S1 := Z.lxor (Z.lxor (rotr e 6) (rotr e 11)) (rotr e 25) in
  let ch := Z.lxor (Z.land e f) (Z.land (not32 e) g) in
  let t1 := u32 (u32 (u32 (u32 (hh + S1) + ch) + BLOCK_SHA256_K !!! i) + w !!! i) in
  let S0 := Z.lxor (Z.lxor (rotr a 2) (rotr a 13)) (rotr a 22) in
  let maj := Z.lxor (Z.lxor (Z.land a b) (Z.land a c)) (Z.land b c) in
  let t2 := u32 (S0 + maj) in
  mkHash (u32 (t1 + t2)) a b c (u32 (d + t1)) e f g.

Definition block_compress (padded : bytes) (h : hash_state) (off : nat) : hash_state :=
  add_state h (fold_left (block_round (schedule padded off)) (seq 0 64) h).

(** Eight digits per word, most significant nibble first. *)
Definition hex_word (w : Z) : list Ascii.ascii :=
  (λ sh, hex_char (Z.land (Z.shiftr w sh) 0xF)) <$> [28; 24; 20; 16; 12; 8; 4; 0].

Definition sha256_hex (data : bytes) : string :=
  let padded := block_pad data in
  let h := fold_left (block_compress padded)
             ((λ k, (k * 64)%nat) <$> seq 0 (length padded / 64)) initial_hash in
  String.string_of_list_ascii (concat (hex_word <$> hash_words h)).

End BlockHash.

#[global] Arguments BlockHash.sha256_hex : simpl never.
#[global] Arguments adler32 : simpl never.

(** * Data *)

Record DeltaBlockSignature := mkSignature {
  block_index : Z;
  rolling_hash : Z;
  strong_hash : string;
  sig_block_offset : Z;
  sig_block_size : Z
}.

Record DeltaBlockRequest := mkRequest {
  req_relative_path : string;
  requested_indices : list Z
}.

(** What the handler works on: the file system, the locks it shares with the
    other sessions, and its own record of the blocks received. *)
Record delta_state := mkDelta {
  ds_fs : filesystem;
  ds_locks : FileMutex;
  in_progress : gmap string (gmap Z bool)
}.

Record DeltaSyncHandler := mkHandler {
  dh_file_manager : FileManager;
  dh_block_size : Z
}.

(** The constructor; the mutexes are part of [delta_state]. *)
Definition DeltaSyncHandler_new (file_manager : FileManager) (block_size : Z) : DeltaSyncHandler :=
  mkHandler file_manager block_size.

Definition on_fs {A} : SM filesystem A → SM delta_state A :=
  zoom ds_fs (λ fs s, mkDelta fs (ds_locks s) (in_progress s)).

(** The lock calls: an acquire that cannot proceed blocks the thread. *)
Definition ds_acquire (write : bool) (path : string) : SM delta_state unit := λ s,
  match acquire write path (ds_locks s) with
  | Some fm => (Ret tt, mkDelta (ds_fs s) fm (in_progress s))
  | None => (Trap Blocked, s)
  end.
Definition ds_release (write : bool) (path : string) : SM delta_state unit :=
  modify_st (λ s, mkDelta (ds_fs s) (release write path (ds_locks s)) (in_progress s)).

(** * Comparing signatures *)

(** [static_cast<uint32_t>((size + block_size - 1) / block_size)]: a zero
    divisor traps. *)
Definition block_count (size block_size : Z) : outcome Z :=
  if block_size =? 0 then Trap SigFpe
  else Ret (u32 (u64 (u64 (size + block_size) - 1) / block_size)).

(** [client_map[sig.block_index] = &sig]: the last signature of an index wins. *)
Definition client_map (sigs : list DeltaBlockSignature) : gmap Z DeltaBlockSignature :=
  fold_left (λ m sig, <[block_index sig := sig]> m) sigs ∅.

(** The body of the comparison loop: is block [i] to be requested? *)
Definition block_differs (cm : gmap Z DeltaBlockSignature) (i : Z) (block_data : bytes) : bool :=
  let server_rolling := adler32 block_data in
  let server_strong := BlockHash.sha256_hex block_data in
  match cm !! i with
  | None => true
  | Some sig =>
      negb (rolling_hash sig =? server_rolling) || negb (bool_decide (strong_hash sig = server_strong))
  end.

Fixpoint compare_blocks (h : DeltaSyncHandler) (rel : string) (block_size server_size : Z)
  (cm : gmap Z DeltaBlockSignature) (indices : list Z) : SM delta_state (list Z) :=
  match indices with
  | [] => mret []
  | i :: indices' =>
      let block_offset := u64 (i * block_size) in
      let actual_size := u32 (Z.min block_size (u64 (server_size - block_offset))) in
      block_data ← on_fs (read_block (dh_file_manager h) rel block_offset actual_size);
      let wanted := bool_decide (block_data = []) || block_differs cm i block_data in
      rest ← compare_blocks h rel block_size server_size cm indices';
      mret (if wanted then i :: rest else rest)
  end.

Definition handle_signature_request (h : DeltaSyncHandler) (rel : string)
  (client_file_size block_size : Z) (client_signatures : list DeltaBlockSignature)
  : SM delta_state DeltaBlockRequest :=
  there ← on_fs (file_exists (dh_file_manager h) rel);
  if negb there then
    total_blocks ← lift (block_count client_file_size block_size);
    mret (mkRequest rel (seqZ 0 total_blocks))
  else
    server_size ← on_fs (get_file_size (dh_file_manager h) rel);
    server_blocks ← lift (block_count server_size block_size);
    let cm := client_map client_signatures in
    _ ← ds_acquire false rel;
    differing ← compare_blocks h rel block_size server_size cm (seqZ 0 server_blocks);
    _ ← ds_release false rel;
    client_blocks ← lift (block_count client_file_size block_size);
    mret (mkRequest rel (differing ++ seqZ server_blocks (client_blocks - server_blocks))).

(** * Receiving blocks *)

Definition mark_received (rel : string) (i : Z) : SM delta_state unit :=
  modify_st (λ s, mkDelta (ds_fs s) (ds_locks s)
    (<[rel := <[i := true]> (default ∅ (in_progress s !! rel))]> (in_progress s))).
Definition forget (rel : string) : SM delta_state unit :=
  modify_st (λ s, mkDelta (ds_fs s) (ds_locks s) (delete rel (in_progress s))).

(** The finalisation: [false] is the error return. *)
Definition finalize (h : DeltaSyncHandler) (rel : string) : SM delta_state bool :=
  tmp_path ← lift (tmp_path_for (dh_file_manager h) rel);
  full_data ← on_fs (fs ← get_st; lift (read_stream fs tmp_path));
  match full_data with
  | Some _ => on_fs (atomic_rename_tmp (dh_file_manager h) rel)
  | None => mret true
  end.

Definition handle_block_data (h : DeltaSyncHandler) (rel : string) (index offset : Z)
  (data : bytes) (strong : string) (is_final_block : bool) : SM delta_state Z :=
  let computed_hash := BlockHash.sha256_hex data in
  if negb (bool_decide (computed_hash = strong)) then mret 5
  else
    _ ← ds_acquire true rel;
    ok ← on_fs (write_block_atomic (dh_file_manager h) rel offset data);
    _ ← ds_release true rel;
    if negb ok then mret 2
    else
      _ ← mark_received rel index;
      if is_final_block then
        done ← finalize h rel;
        if negb done then mret 2
        else _ ← forget rel; mret 1
      else mret 1.

#[global] Arguments handle_block_data : simpl never.

(** * The block hashes are the standard ones *)

Lemma hex_digit_high (w k : Z) : 0 <= k →
  Z.shiftr (byte.unsigned (byte.of_Z (Z.shiftr w k))) 4 = Z.land (Z.shiftr w (k + 4)) 0xF.
Proof.
  intros Hk. rewrite byte.unsigned_of_Z. unfold byte.wrap.
  rewrite <- (Z.shiftr_shiftr w k 4) by lia. change 0xF with (Z.ones 4).
  rewrite Z.land_ones by lia. apply Z.bits_inj'. intros i Hi.
  rewrite Z.shiftr_spec by lia.
  destruct (decide (i < 4)).
  - rewrite !Z.mod_pow2_bits_low by lia. by rewrite (Z.shiftr_spec (Z.shiftr w k)) by lia.
  - by rewrite !Z.mod_pow2_bits_high by lia.
Qed.

Lemma hex_digit_low (w k : Z) : 0 <= k →
  Z.land (byte.unsigned (byte.of_Z (Z.shiftr w k))) 0x0F = Z.land (Z.shiftr w k) 0xF.
Proof.
  intros Hk. rewrite byte.unsigned_of_Z. unfold byte.wrap. change 0x0F with (Z.ones 4).
  rewrite !Z.land_ones by lia.
  apply Z.mod_mod_divide. by exists (2 ^ 4).
Qed.

Lemma to_hex_word w rest :
  to_hex (put_be32 w ++ rest) = String.append (String.string_of_list_ascii (BlockHash.hex_word w)) (to_hex rest).
Proof.
  unfold put_be32, BlockHash.hex_word. rewrite <- (Z.shiftr_0_r w) at 4. simpl.
  rewrite !hex_digit_high, !hex_digit_low by lia. done.
Qed.

Lemma to_hex_words ws :
  to_hex (concat (put_be32 <$> ws)) =
  String.string_of_list_ascii (concat (BlockHash.hex_word <$> ws)).
Proof.
  induction ws as [|w ws IH]; [done|]. rewrite !fmap_cons, !List.concat_cons, to_hex_word, IH. done.
Qed.

#[global] Arguments to_hex : simpl never.

Lemma block_pad_same data : BlockHash.block_pad data = sha256_pad data.
Proof.
  unfold BlockHash.block_pad, sha256_pad, put_length, padded_length.
  rewrite length_insert, length_inserts, length_replicate. done.
Qed.

Lemma sha256_hex_same data : BlockHash.sha256_hex data = to_hex (sha256_raw data).
Proof.
  unfold BlockHash.sha256_hex, sha256_raw, sha256_blocks. rewrite to_hex_words, block_pad_same. done.
Qed.

(** Adler-32 as RFC 1950 defines it: [A] is one plus the sum of the bytes, [B]
    the sum of the successive values of [A]. *)
Module Rfc1950.
Definition sum (l : list Z) : Z := foldr Z.add 0 l.
Definition A (data : bytes) : Z := 1 + sum (byte.unsigned <$> data).
Definition B (data : bytes) : Z := sum ((λ k, A (take k data)) <$> seq 1 (length data)).
Definition checksum (data : bytes) : Z := B data mod 65521 * 65536 + A data mod 65521.
End Rfc1950.

Lemma sum_app l k : Rfc1950.sum (l ++ k) = Rfc1950.sum l + Rfc1950.sum k.
Proof. unfold Rfc1950.sum. induction l as [|x l IH]; simpl; lia. Qed.

Lemma adler_A_snoc data x : Rfc1950.A (data ++ [x]) = Rfc1950.A data + byte.unsigned x.
Proof. unfold Rfc1950.A. rewrite fmap_app, sum_app. simpl. lia. Qed.

Lemma adler_B_snoc data x : Rfc1950.B (data ++ [x]) = Rfc1950.B data + Rfc1950.A (data ++ [x]).
Proof.
  unfold Rfc1950.B. rewrite length_app, seq_app, fmap_app, sum_app. simpl.
  rewrite take_ge by (rewrite length_app; simpl; lia). f_equal; [|lia]. f_equal.
  apply list_fmap_ext. intros i k Hk. apply lookup_seq in Hk. by rewrite take_app_le by lia.
Qed.

Lemma adler_loop data :
  fold_left (λ '(a, b) x,
      let a := u32 (a + byte.unsigned x) mod adler_mod in
      let b := u32 (b + a) mod adler_mod in
      (a, b)) data (1, 0) = (Rfc1950.A data mod adler_mod, Rfc1950.B data mod adler_mod).
Proof.
  induction data as [|x data IH] using rev_ind; [done|].
  rewrite fold_left_app, IH. simpl.
  pose proof (byte.unsigned_range x). unfold adler_mod in *.
  rewrite adler_B_snoc, adler_A_snoc.
  rewrite !u32_small by (Z.div_mod_to_equations; lia).
  rewrite Z.add_mod_idemp_l, Z.add_mod_idemp_r, Z.add_mod_idemp_l by lia. done.
Qed.

Lemma adler32_rfc data : adler32 data = Rfc1950.checksum data.
Proof.
  unfold adler32, Rfc1950.checksum. rewrite adler_loop. unfold adler_mod.
  pose proof (Z.mod_pos_bound (Rfc1950.B data) 65521). pose proof (Z.mod_pos_bound (Rfc1950.A data) 65521).
  rewrite Z.shiftl_mul_pow2 by lia. rewrite u32_small by lia.
  rewrite Z.lor_comm, lor_disjoint by lia. lia.
Qed.

(** C33: the two hashes the blocks are compared by are the standard ones, on
    every input: the rolling hash is Adler-32 (RFC 1950), computed without
    overflow, and the strong hash, although the handler has its own copy of the
    code, is the digest [FileManager::compute_sha256] prints. *)
Theorem block_hashes_standard (data : bytes) :
  adler32 data = Rfc1950.checksum data ∧ BlockHash.sha256_hex data = to_hex (sha256_raw data).
Proof. split; [apply adler32_rfc|apply sha256_hex_same]. Qed.

(** * Which blocks are requested *)

Definition blocks_of (size block_size : Z) : Z := (size + block_size - 1) / block_size.
Definition block_of (block_size : Z) (c : bytes) (i : Z) : bytes :=
  take (Z.to_nat block_size) (drop (Z.to_nat (i * block_size)) c).

(** The signature the client sent last for an index. *)
Definition last_signature (sigs : list DeltaBlockSignature) (i : Z) (sig : DeltaBlockSignature) : Prop :=
  ∃ pre post, sigs = pre ++ sig :: post ∧ block_index sig = i ∧
    Forall (λ sig', block_index sig' ≠ i) post.

(** Block [i] of the server's file has both hashes of the client's block. *)
Definition same_block (sigs : list DeltaBlockSignature) (block_size : Z) (c : bytes) (i : Z) : Prop :=
  ∃ sig, last_signature sigs i sig ∧ rolling_hash sig = adler32 (block_of block_size c i) ∧
    strong_hash sig = BlockHash.sha256_hex (block_of block_size c i).

Lemma client_map_last sigs i sig :
  client_map sigs !! i = Some sig ↔ last_signature sigs i sig.
Proof.
  unfold client_map. induction sigs as [|x sigs IH] using rev_ind.
  { simpl. rewrite lookup_empty. split; [done|]. intros (pre & post & H & _). by destruct pre. }
  rewrite fold_left_app. simpl. rewrite lookup_insert. case_decide as Hx.
  - split.
    + intros [= <-]. by exists sigs, [].
    + intros (pre & post & Heq & Hi & Hpost). destruct post as [|y post _] using rev_ind.
      * apply app_inj_tail in Heq as [_ ->]. done.
      * rewrite app_comm_cons, app_assoc in Heq. apply app_inj_tail in Heq as [_ ->].
        apply Forall_app in Hpost as [_ Hy]. inversion Hy; congruence.
  - rewrite IH. split; intros (pre & post & Heq & Hi & Hpost).
    + exists pre, (post ++ [x]). rewrite Heq, <- app_assoc. split; [done|]. split; [done|].
      apply Forall_app. by split; [|constructor].
    + destruct post as [|y post _] using rev_ind.
      * apply app_inj_tail in Heq as [_ ->]. congruence.
      * rewrite app_comm_cons, app_assoc in Heq. apply app_inj_tail in Heq as [-> ->].
        apply Forall_app in Hpost as [Hpost _]. by exists pre, post.
Qed.

Lemma block_differs_spec sigs bs c i :
  block_differs (client_map sigs) i (block_of bs c i) = true ↔ ~ same_block sigs bs c i.
Proof.
  unfold block_differs, same_block. destruct (client_map sigs !! i) as [sig|] eqn:Hm.
  - assert (∀ sig', last_signature sigs i sig' ↔ sig' = sig) as Hl.
    { intros sig'. rewrite <- client_map_last, Hm. split; congruence. }
    rewrite orb_true_iff, !negb_true_iff, Z.eqb_neq, bool_decide_eq_false. split.
    + intros H (sig' & ->%Hl & ? & ?). tauto.
    + intros H. destruct (decide (rolling_hash sig = adler32 (block_of bs c i))); [right|by left].
      intros Hs. apply H. exists sig. by rewrite Hl.
  - split; [|done]. intros _ (sig & Hl%client_map_last & _). congruence.
Qed.

Lemma block_count_small size bs :
  0 < bs < 2 ^ 32 → 0 <= size → size + bs <= 2 ^ 64 - 1 → blocks_of size bs < 2 ^ 32 →
  block_count size bs = Ret (blocks_of size bs) ∧ 0 <= blocks_of size bs.
Proof.
  intros Hbs Hs Hlt Hc. unfold block_count, blocks_of in *.
  assert (0 <= (size + bs - 1) / bs) by (apply Z.div_pos; lia).
  rewrite (proj2 (Z.eqb_neq bs 0)) by lia.
  rewrite (u64_small (size + bs)), (u64_small (size + bs - 1)), u32_small by lia. done.
Qed.

(** Block [i] starts inside the file. *)
Lemma block_starts_inside size bs i : 0 < bs → 0 <= i < blocks_of size bs → 0 <= i * bs < size.
Proof.
  unfold blocks_of. intros Hbs [Hi Hlt]. split; [lia|].
  assert (i + 1 <= (size + bs - 1) / bs) as H by lia.
  pose proof (Z.mul_div_le (size + bs - 1) bs Hbs). nia.
Qed.

Lemma on_fs_run {A} (m : SM filesystem A) s o fs' : m (ds_fs s) = (o, fs') →
  on_fs m s = (o, mkDelta fs' (ds_locks s) (in_progress s)).
Proof. intros Hm. unfold on_fs, zoom. by rewrite Hm. Qed.

Lemma on_fs_pure {A} (m : SM filesystem A) s o : m (ds_fs s) = (o, ds_fs s) → on_fs m s = (o, s).
Proof. intros Hm. rewrite (on_fs_run _ _ _ _ Hm). by destruct s. Qed.

Lemma actual_block bs c i : 0 < bs → 0 <= i * bs < zlen c →
  take (Z.to_nat (Z.min bs (zlen c - i * bs))) (drop (Z.to_nat (i * bs)) c) = block_of bs c i ∧
  block_of bs c i ≠ [].
Proof.
  unfold zlen. intros Hbs Hi. split.
  - unfold block_of. rewrite <- (take_min_length (Z.to_nat bs)). f_equal. rewrite length_drop. lia.
  - intros H%(f_equal length). unfold block_of in H. rewrite length_take, length_drop in H. simpl in H. lia.
Qed.

Lemma compare_blocks_spec h rel p s c t bs cm indices :
  resolve_path (dh_file_manager h) rel = Ret p → lookup_node (ds_fs s) p = Some (File c t) →
  0 < bs < 2 ^ 32 → zlen c < 2 ^ 63 →
  Forall (λ i, 0 <= i < blocks_of (zlen c) bs) indices →
  compare_blocks h rel bs (zlen c) cm indices s =
  (Ret (filter (λ i, block_differs cm i (block_of bs c i) = true) indices), s).
Proof.
  intros Hr Hl Hbs Hc. induction 1 as [|i indices Hi _ IH]; [done|].
  pose proof (block_starts_inside _ _ _ (proj1 Hbs) Hi) as Hin. simpl.
  rewrite u64_small, u64_small, u32_small by lia.
  destruct (actual_block bs c i (proj1 Hbs) Hin) as [Hb Hne].
  erewrite SM_bind_ret; [|apply on_fs_pure; eapply read_block_file; [done..|lia]].
  erewrite SM_bind_ret; [|exact IH].
  rewrite Hb, bool_decide_eq_false_2 by done. simpl. rewrite filter_cons.
  by destruct (block_differs cm i (block_of bs c i)).
Qed.

Lemma file_exists_run fm rel p fs : resolve_path fm rel = Ret p →
  file_exists fm rel fs = (Ret (fs_exists fs p), fs).
Proof. intros Hr. unfold file_exists. by rewrite SM_bind_unfold, Hr. Qed.

Lemma get_file_size_u64 fm rel p fs c t : resolve_path fm rel = Ret p →
  lookup_node fs p = Some (File c t) → get_file_size fm rel fs = (Ret (u64 (zlen c)), fs).
Proof.
  intros Hr Hl. unfold get_file_size. rewrite SM_bind_unfold, Hr. simpl.
  rewrite SM_bind_unfold. simpl. unfold fs_exists. rewrite Hl. simpl.
  rewrite SM_bind_unfold. unfold fs_file_size. by rewrite Hl.
Qed.

Lemma get_file_size_run fm rel p fs c t : resolve_path fm rel = Ret p →
  lookup_node fs p = Some (File c t) → zlen c < 2 ^ 63 → get_file_size fm rel fs = (Ret (zlen c), fs).
Proof.
  intros Hr Hl Hc. pose proof (zlen_nonneg c).
  rewrite <- (u64_small (zlen c)) by lia. by eapply get_file_size_u64.
Qed.

Lemma ds_acquire_idle w path s : idle_mutex (ds_locks s) path →
  ∃ fm, ds_acquire w path s = (Ret tt, mkDelta (ds_fs s) fm (in_progress s)) ∧
    idle_mutex (release w path fm) path.
Proof.
  intros Hi. destruct (acquire_idle w _ _ Hi) as (fm & Ha & Hr). exists fm.
  unfold ds_acquire. by rewrite Ha.
Qed.

(** The answer to a signature request, computed. *)
Lemma signature_request_run h rel p s c t csize bs sigs :
  resolve_path (dh_file_manager h) rel = Ret p → lookup_node (ds_fs s) p = Some (File c t) →
  idle_mutex (ds_locks s) rel → 0 < bs < 2 ^ 32 → zlen c < 2 ^ 63 →
  0 <= csize → csize + bs <= 2 ^ 64 - 1 →
  blocks_of (zlen c) bs < 2 ^ 32 → blocks_of csize bs < 2 ^ 32 →
  ∃ locks, idle_mutex locks rel ∧
  handle_signature_request h rel csize bs sigs s =
    (Ret (mkRequest rel
       (filter (λ i, block_differs (client_map sigs) i (block_of bs c i) = true)
          (seqZ 0 (blocks_of (zlen c) bs)) ++
        seqZ (blocks_of (zlen c) bs) (blocks_of csize bs - blocks_of (zlen c) bs))),
     mkDelta (ds_fs s) locks (in_progress s)).
Proof.
  intros Hr Hl Hidle Hbs Hc Hcs Hcs' Hsb Hcb. pose proof (zlen_nonneg c).
  destruct (block_count_small (zlen c) bs) as [Hs1 Hs2]; [lia..|].
  destruct (block_count_small csize bs) as [Hk1 Hk2]; [lia..|].
  destruct (ds_acquire_idle false _ _ Hidle) as (fm & Ha & Hrel).
  exists (release false rel fm). split; [done|]. unfold handle_signature_request.
  erewrite SM_bind_ret; [|by apply on_fs_pure, file_exists_run].
  unfold fs_exists. rewrite Hl. change (negb true) with false. cbv iota zeta.
  erewrite SM_bind_ret; [|apply on_fs_pure; by eapply get_file_size_run].
  rewrite Hs1, Hk1, SM_lift_bind.
  erewrite SM_bind_ret; [|exact Ha].
  erewrite SM_bind_ret; [|eapply compare_blocks_spec; [done|exact Hl|done..|]].
  - done.
  - apply Forall_forall. intros i Hi%elem_of_seqZ. lia.
Qed.

Lemma seqZ_sorted m n : StronglySorted Z.lt (seqZ m n).
Proof.
  destruct (decide (n <= 0)); [by rewrite seqZ_nil by lia; constructor|].
  generalize (Z.to_nat n) (Z2Nat.id n ltac:(lia)). intros k. revert m n n0.
  induction k as [|k IH]; intros m n Hn Hk; [lia|].
  rewrite seqZ_cons by lia. constructor.
  - destruct (decide (n = 1)) as [->|]; [constructor|apply IH; lia].
  - apply Forall_forall. intros x Hx%elem_of_seqZ. lia.
Qed.

Lemma StronglySorted_filter {A} (R : A → A → Prop) (P : A → Prop) `{∀ x, Decision (P x)} l :
  StronglySorted R l → StronglySorted R (filter P l).
Proof.
  induction 1 as [|x l Hs IH Hx]; [constructor|]. rewrite filter_cons. case_decide; [|done].
  constructor; [done|]. apply Forall_forall. intros y [_ Hy]%list_elem_of_filter.
  by eapply Forall_forall in Hx.
Qed.

Lemma StronglySorted_app {A} (R : A → A → Prop) l k :
  StronglySorted R l → StronglySorted R k → (∀ x y, x ∈ l → y ∈ k → R x y) →
  StronglySorted R (l ++ k).
Proof.
  induction 1 as [|x l Hs IH Hx]; intros Hk Hlk; [done|]. simpl. constructor.
  - apply IH; [done|]. intros y z Hy Hz. apply Hlk; [by right|done].
  - apply Forall_app. split; [done|]. apply Forall_forall. intros z Hz. apply Hlk; [by left|done].
Qed.

(** C6: the server requests exactly the blocks that differ.  When the server has
    the file, the answer to a signature request names in increasing order, once
    each, the blocks below the larger of the two block counts, except those
    whose rolling and strong hashes equal the ones the client sent last for that
    index.  Neither file changes and the read lock is released. *)
Theorem signature_request_exact h rel p s c t csize bs sigs :
  resolve_path (dh_file_manager h) rel = Ret p → lookup_node (ds_fs s) p = Some (File c t) →
  idle_mutex (ds_locks s) rel → 0 < bs < 2 ^ 32 → zlen c < 2 ^ 63 →
  0 <= csize → csize + bs <= 2 ^ 64 - 1 →
  blocks_of (zlen c) bs < 2 ^ 32 → blocks_of csize bs < 2 ^ 32 →
  ∃ req s', handle_signature_request h rel csize bs sigs s = (Ret req, s') ∧
    ds_fs s' = ds_fs s ∧ in_progress s' = in_progress s ∧ idle_mutex (ds_locks s') rel ∧
    req_relative_path req = rel ∧ StronglySorted Z.lt (requested_indices req) ∧
    ∀ i, i ∈ requested_indices req ↔
      0 <= i < Z.max (blocks_of (zlen c) bs) (blocks_of csize bs) ∧
      ~ (i < blocks_of (zlen c) bs ∧ same_block sigs bs c i).
Proof.
  intros Hr Hl Hidle Hbs Hc Hcs Hcs' Hsb Hcb.
  destruct (signature_request_run h rel p s c t csize bs sigs) as (locks & Hlocks & Hrun); [done..|].
  do 2 eexists. split; [exact Hrun|]. simpl. do 4 (split; [done|]).
  pose proof (zlen_nonneg c).
  destruct (block_count_small (zlen c) bs) as [_ Hs2]; [lia..|].
  destruct (block_count_small csize bs) as [_ Hk2]; [lia..|]. split.
  - apply StronglySorted_app; [apply StronglySorted_filter|..]; try apply seqZ_sorted.
    intros x y [_ Hx%elem_of_seqZ]%list_elem_of_filter Hy%elem_of_seqZ. lia.
  - intros i. rewrite elem_of_app, list_elem_of_filter, !elem_of_seqZ, block_differs_spec.
    destruct (decide (i < blocks_of (zlen c) bs)); split; intros; intuition lia.
Qed.

(** A server with the six bytes "abcdef" stored as "f". *)
Definition demo_root : FileManager := mkFileManager "/s".
Definition demo_handler : DeltaSyncHandler := mkHandler demo_root 65536.
Definition demo_fs (files : list (string * bytes)) : filesystem :=
  mkFs (list_to_map ((["s"], Dir) :: ((λ '(n, c), (["s"; n], File c 0)) <$> files)))
    ["s"] [] 0 0 (λ _, 0).
Definition demo_state (files : list (string * bytes)) : delta_state :=
  mkDelta (demo_fs files) FileMutex_new ∅.
Definition demo_sig (i : Z) (block : bytes) : DeltaBlockSignature :=
  mkSignature i (adler32 block) (BlockHash.sha256_hex block) 0 0.

Lemma signature_request_exact_witness :
  ∃ req s', handle_signature_request demo_handler "f" 9 4
              [demo_sig 0 [x61; x62; x63; x64]; demo_sig 1 [x65; x66; x67; x68]; demo_sig 2 [x69]]
              (demo_state [("f", [x61; x62; x63; x64; x65; x66])]) = (Ret req, s') ∧
    1 ∈ requested_indices req.
Proof.
  destruct (signature_request_exact demo_handler "f" "/s/f"
    (demo_state [("f", [x61; x62; x63; x64; x65; x66])]) [x61; x62; x63; x64; x65; x66] 0 9 4
    [demo_sig 0 [x61; x62; x63; x64]; demo_sig 1 [x65; x66; x67; x68]; demo_sig 2 [x69]])
    as (req & s' & Hrun & _ & _ & _ & _ & _ & Hin).
  all: try reflexivity; try lia; try done.
  exists req, s'. split; [exact Hrun|]. apply Hin. split; [done|].
  intros [_ (sig & Hl%client_map_last & Ha & _)]. vm_compute in Hl. simplify_eq.
Defined.

(** A file the server does not have is requested whole: all the blocks of
    the client's file, in order, and nothing changes on the server. *)
Theorem signature_request_fresh h rel p s csize bs sigs :
  resolve_path (dh_file_manager h) rel = Ret p → lookup_node (ds_fs s) p = None →
  0 < bs < 2 ^ 32 → 0 <= csize → csize + bs <= 2 ^ 64 - 1 → blocks_of csize bs < 2 ^ 32 →
  handle_signature_request h rel csize bs sigs s =
    (Ret (mkRequest rel (seqZ 0 (blocks_of csize bs))), s).
Proof.
  intros Hr Hl Hbs Hc Hc' Hcb. destruct (block_count_small csize bs) as [Hk _]; [lia..|].
  unfold handle_signature_request.
  erewrite SM_bind_ret; [|by apply on_fs_pure, file_exists_run].
  unfold fs_exists. rewrite Hl. simpl negb. cbv iota zeta. by rewrite Hk.
Qed.

Lemma signature_request_fresh_witness :
  handle_signature_request demo_handler "g" 9 4 [] (demo_state []) =
    (Ret (mkRequest "g" [0; 1; 2]), demo_state []).
Proof. exact (signature_request_fresh demo_handler "g" "/s/g" (demo_state []) 9 4 []
  eq_refl eq_refl ltac:(lia) ltac:(lia) ltac:(lia) eq_refl). Defined.

(** A signature request with a zero block size kills the server.  The block
    size comes from the client's message and is used as a divisor unchecked:
    whether or not the server has the file, the division traps. *)
Theorem zero_block_size_traps h rel p s csize sigs :
  resolve_path (dh_file_manager h) rel = Ret p → lookup_node (ds_fs s) p ≠ Some Dir →
  (handle_signature_request h rel csize 0 sigs s).1 = Trap SigFpe.
Proof.
  intros Hr Hl. unfold handle_signature_request.
  erewrite SM_bind_ret; [|by apply on_fs_pure, file_exists_run].
  unfold fs_exists. destruct (lookup_node (ds_fs s) p) as [[c t|]|] eqn:Hn; [|done|done].
  change (negb true) with false. cbv iota zeta. rewrite SM_bind_unfold.
  assert (∃ n, get_file_size (dh_file_manager h) rel (ds_fs s) = (Ret n, ds_fs s)) as [n Hsize].
  { exists (u64 (zlen c)). unfold get_file_size. rewrite SM_bind_unfold, Hr. simpl.
    rewrite SM_bind_unfold. simpl. unfold fs_exists. rewrite Hn. simpl.
    rewrite SM_bind_unfold. unfold fs_file_size. by rewrite Hn. }
  by rewrite (on_fs_pure _ _ _ Hsize).
Qed.

Lemma zero_block_size_traps_witness :
  (handle_signature_request demo_handler "f" 1 0 [] (demo_state [("f", [x61])])).1 = Trap SigFpe.
Proof. apply (zero_block_size_traps demo_handler "f" "/s/f"); [reflexivity|discriminate]. Defined.

(** The block count is cut to 32 bits.  For a new file of 2^32 blocks (or
    any multiple of that) the server requests no block at all. *)
Theorem block_count_wraps h rel p s k bs sigs :
  resolve_path (dh_file_manager h) rel = Ret p → lookup_node (ds_fs s) p = None →
  0 < bs < 2 ^ 32 → 0 <= k → k * 2 ^ 32 * bs + bs <= 2 ^ 64 - 1 →
  handle_signature_request h rel (k * 2 ^ 32 * bs) bs sigs s = (Ret (mkRequest rel []), s).
Proof.
  intros Hr Hl Hbs Hk Hlim. unfold handle_signature_request.
  erewrite SM_bind_ret; [|by apply on_fs_pure, file_exists_run].
  unfold fs_exists. rewrite Hl. simpl negb. cbv iota zeta.
  unfold block_count. rewrite (proj2 (Z.eqb_neq bs 0)), (u64_small (_ + bs)), u64_small by nia.
  rewrite <- Z.add_sub_assoc, (Z.add_comm (_ * bs)), Z.div_add by lia.
  rewrite (Z.div_small (bs - 1)) by lia. unfold u32. rewrite Z.add_0_l, Z.mod_mul by lia. done.
Qed.

Lemma block_count_wraps_witness :
  handle_signature_request demo_handler "g" (1 * 2 ^ 32 * 65536) 65536 [] (demo_state []) =
    (Ret (mkRequest "g" []), demo_state []).
Proof.
  exact (block_count_wraps demo_handler "g" "/s/g" (demo_state []) 1 65536 []
    eq_refl eq_refl ltac:(lia) ltac:(lia) ltac:(lia)).
Defined.

(** * Receiving blocks: what happens to the files *)

Lemma wp_on_fs {A} (m : SM filesystem A) Q s :
  wp m (λ r fs', Q r (mkDelta fs' (ds_locks s) (in_progress s))) (ds_fs s) → wp (on_fs m) Q s.
Proof. unfold wp, on_fs, zoom. by destruct (m (ds_fs s)). Qed.

(** A file-system call followed by more of the handler. *)
Lemma wp_fs_call {A B} (m : SM filesystem A) (k : A → SM delta_state B) R Q s :
  wp m (answers (ds_fs s) R) (ds_fs s) →
  (∀ a fs', R a fs' → cwd fs' = cwd (ds_fs s) → (calm (ds_fs s) → calm fs') →
     wp (k a) Q (mkDelta fs' (ds_locks s) (in_progress s))) →
  wp (x ← on_fs m; k x) Q s.
Proof.
  intros Hm Hk. apply wp_bind, wp_on_fs. eapply wp_mono; [exact Hm|].
  intros r fs' (a & -> & Hc & Hcalm & HR). by apply Hk.
Qed.

Lemma wp_acquire_idle {A} w path (k : unit → SM delta_state A) Q s :
  idle_mutex (ds_locks s) path →
  (∀ fm, idle_mutex (release w path fm) path → wp (k tt) Q (mkDelta (ds_fs s) fm (in_progress s))) →
  wp (x ← ds_acquire w path; k x) Q s.
Proof.
  intros Hi Hk. destruct (ds_acquire_idle w path s Hi) as (fm & Ha & Hr).
  apply wp_bind. unfold wp at 1. rewrite Ha. by apply Hk.
Qed.

Lemma wp_modify {S A} (f : S → S) (k : unit → SM S A) Q s : wp (k tt) Q (f s) → wp (x ← modify_st f; k x) Q s.
Proof. done. Qed.

(** The files of every path but [p] (and its temporary file) are kept. *)
Definition others_kept (fs fs' : filesystem) (p : string) : Prop :=
  ∀ l, l ≠ target_loc fs p → l ≠ tmp_loc fs p → file_at fs' l = file_at fs l.

Lemma finalize_spec h rel p c s :
  resolve_path (dh_file_manager h) rel = Ret p → file_at (ds_fs s) (tmp_loc (ds_fs s) p) = Some c →
  wp (finalize h rel) (λ r s', ∃ b, r = Ret b ∧ ds_locks s' = ds_locks s ∧ in_progress s' = in_progress s ∧
    cwd (ds_fs s') = cwd (ds_fs s) ∧ others_kept (ds_fs s) (ds_fs s') p ∧
    (if b : bool then file_at (ds_fs s') (target_loc (ds_fs s) p) = Some c ∧
                      file_at (ds_fs s') (tmp_loc (ds_fs s) p) = None
     else same_files (ds_fs s) (ds_fs s')) ∧
    (publishable (ds_fs s) p → b = true)) s.
Proof.
  intros Hr Hc. destruct (node_of_tmp _ _ _ Hc) as (t & Hl & _).
  unfold finalize. apply wp_bind. unfold tmp_path_for. rewrite Hr. apply wp_bind, wp_on_fs.
  unfold wp at 1. rewrite SM_bind_unfold. simpl. unfold read_stream, lift. rewrite Hl.
  apply wp_on_fs. eapply wp_mono; [by apply rename_tmp_spec|]. simpl.
  intros r fs' (b & -> & Hcwd & _ & Hb & Hpub). exists b. do 4 (split; [done|]).
  destruct b.
  - destruct Hb as (Ht & Hm & Ho). done.
  - split; [|done]. intros l _ _. apply Hb.
Qed.

(** What one accepted block does to the path's two files. *)
Definition block_effect (s s' : delta_state) (p rel : string) (index off : Z) (data : bytes) (fin : bool)
  : Prop :=
  ∃ base,
    (base = default [] (file_at (ds_fs s) (tmp_loc (ds_fs s) p)) ∨ base = [] ∧ ~ calm (ds_fs s)) ∧
    if fin then
      file_at (ds_fs s') (target_loc (ds_fs s) p) = Some (overlay base (Z.to_nat off) data) ∧
      file_at (ds_fs s') (tmp_loc (ds_fs s) p) = None ∧ in_progress s' !! rel = None
    else
      file_at (ds_fs s') (tmp_loc (ds_fs s) p) = Some (overlay base (Z.to_nat off) data) ∧
      file_at (ds_fs s') (target_loc (ds_fs s) p) = file_at (ds_fs s) (target_loc (ds_fs s) p) ∧
      (in_progress s' !! rel ≫= (λ m, m !! index)) = Some true.

Lemma block_data_spec h rel p index off data fin s :
  resolve_path (dh_file_manager h) rel = Ret p → idle_mutex (ds_locks s) rel →
  wp (handle_block_data h rel index off data (BlockHash.sha256_hex data) fin) (λ r s', ∃ code,
    r = Ret code ∧ idle_mutex (ds_locks s') rel ∧ cwd (ds_fs s') = cwd (ds_fs s) ∧
    others_kept (ds_fs s) (ds_fs s') p ∧
    ((code = 2 ∧ file_at (ds_fs s') (target_loc (ds_fs s) p) = file_at (ds_fs s) (target_loc (ds_fs s) p)) ∨
     (code = 1 ∧ 0 <= i64 off ∧ block_effect s s' p rel index off data fin)) ∧
    (calm (ds_fs s) → room_for (ds_fs s) p → 0 <= i64 off →
       code = 1 ∧ (fin = false → publishable (ds_fs s') p))) s.
Proof.
  intros Hr Hidle. unfold handle_block_data. rewrite bool_decide_eq_true_2 by done.
  change (negb true) with false. cbv iota. apply wp_acquire_idle; [done|]. intros fm Hfm.
  eapply wp_fs_call; [by apply write_block_spec|]. simpl. intros b fs1 (Hs1 & Hb1 & Hlive1) Hc1 _.
  apply wp_modify. simpl.
  pose proof (tmp_target_ne (ds_fs s) p) as Hne.
  assert (file_at fs1 (target_loc (ds_fs s) p) = file_at (ds_fs s) (target_loc (ds_fs s) p)) as Htgt
    by (by apply Hs1).
  assert (others_kept (ds_fs s) fs1 p) as Ho1 by (intros l _ Hl; by apply Hs1).
  destruct b; simpl; cycle 1.
  { exists 2. do 4 (split; [done|]). split; [by left|]. intros Hca Hroom Hoff. by destruct Hlive1. }
  destruct (Hb1 eq_refl) as (Hoff & base & Hbase & Hor).
  apply wp_modify. simpl. destruct fin; simpl; cycle 1.
  { exists 1. do 4 (split; [done|]). split.
    - right. split; [done|]. split; [done|]. exists base. split; [done|]. simpl.
      split; [done|]. split; [done|]. rewrite lookup_insert_eq. simpl. by rewrite lookup_insert_eq.
    - intros Hca Hroom _. by destruct Hlive1. }
  assert (tmp_loc fs1 p = tmp_loc (ds_fs s) p ∧ target_loc fs1 p = target_loc (ds_fs s) p) as [Ht Hg]
    by (by split; apply loc_cwd).
  eapply wp_bind, wp_mono; [eapply finalize_spec; [done|simpl; by rewrite Ht]|]. simpl.
  intros r s2 (b & -> & Hlk & Hpr & Hc2 & Ho2 & Hb2 & Hpub). rewrite Ht, Hg in *.
  assert (others_kept (ds_fs s) (ds_fs s2) p) as Ho.
  { intros l Hl1 Hl2. rewrite Ho2 by (by rewrite ?Ht, ?Hg). by apply Ho1. }
  destruct b; simpl.
  - exists 1. rewrite Hlk. do 2 (split; [done|]). split; [simpl; congruence|]. split; [done|].
    split; [|done]. right. split; [done|]. split; [done|]. exists base. split; [done|].
    destruct Hb2 as [Hb2 Hb3]. do 2 (split; [done|]). apply lookup_delete_eq.
  - exists 2. rewrite Hlk. do 2 (split; [done|]). split; [congruence|]. split; [done|].
    split; [left; split; [done|]; by rewrite (proj2 Hb2)|].
    intros Hca Hroom _. destruct (Hlive1 Hca Hroom Hoff) as [_ Hp]. by specialize (Hpub Hp).
Qed.



(** * A whole upload *)

(** The client sends blocks of [data]; a block shorter than the block size
    counts as the final one. *)
Fixpoint receive_blocks (h : DeltaSyncHandler) (rel : string) (bs : Z) (data : bytes)
  (indices : list Z) : SM delta_state (list Z) :=
  match indices with
  | [] => mret []
  | i :: indices' =>
      let block := block_of bs data i in
      code ← handle_block_data h rel i (i * bs) block (BlockHash.sha256_hex block) (zlen block <? bs);
      codes ← receive_blocks h rel bs data indices';
      mret (code :: codes)
  end.

(** The temporary file so far: the blocks received are in place. *)
Definition blocks_in_place (bs : Z) (data tmp : bytes) (received : list Z) : Prop :=
  (length tmp <= length data)%nat ∧
  ∀ k, (k < length data)%nat → Z.of_nat k / bs ∈ received → tmp !! k = data !! k.

Lemma zlen_block bs data i : 0 < bs → 0 <= i * bs <= zlen data →
  zlen (block_of bs data i) = Z.min bs (zlen data - i * bs).
Proof. intros. unfold block_of, zlen in *. rewrite length_take, length_drop. lia. Qed.

Lemma place_block bs data tmp received i : 0 < bs → 0 <= i < blocks_of (zlen data) bs →
  blocks_in_place bs data tmp received →
  blocks_in_place bs data (overlay tmp (Z.to_nat (i * bs)) (block_of bs data i)) (i :: received).
Proof.
  intros Hbs Hi [Hlen Hin]. pose proof (block_starts_inside _ _ _ Hbs Hi) as Hoff.
  pose proof (zlen_block bs data i Hbs ltac:(lia)) as Hblk. unfold zlen in *.
  split.
  - rewrite length_overlay by (intros H0; rewrite H0 in Hblk; simpl in Hblk; lia). lia.
  - intros k Hk Hkin.
    destruct (decide (Z.to_nat (i * bs) <= k < Z.to_nat (i * bs) + length (block_of bs data i))%nat) as [Hr|Hr].
    + rewrite overlay_lookup_in by done. unfold block_of. rewrite lookup_take_lt, lookup_drop by lia.
      f_equal. lia.
    + assert (Z.of_nat k / bs ≠ i) as Hne.
      { intros <-. pose proof (Z.mul_div_le (Z.of_nat k) bs Hbs).
        pose proof (Z.mul_succ_div_gt (Z.of_nat k) bs Hbs). lia. }
      apply elem_of_cons in Hkin as [|Hkin]; [congruence|].
      specialize (Hin k Hk Hkin). rewrite overlay_lookup_keep; [done|lia|].
      apply lookup_lt_is_Some. rewrite Hin. by apply lookup_lt_is_Some.
Qed.

Lemma blocks_complete bs data tmp received : 0 < bs →
  (∀ i, 0 <= i < blocks_of (zlen data) bs → i ∈ received) →
  blocks_in_place bs data tmp received → tmp = data.
Proof.
  intros Hbs Hall [Hlen Hin].
  assert (∀ k, (k < length data)%nat → tmp !! k = data !! k) as Heq.
  { intros k Hk. apply Hin; [done|]. apply Hall. split; [apply Z.div_pos; lia|].
    unfold blocks_of, zlen. apply Z.div_lt_upper_bound; [lia|].
    pose proof (Z.mul_succ_div_gt (Z.of_nat (length data) + bs - 1) bs Hbs). lia. }
  apply list_eq. intros k. destruct (decide (k < length data)%nat); [by apply Heq|].
  rewrite !lookup_ge_None_2 by lia. done.
Qed.

Lemma blocks_in_place_sub bs data tmp r r' : (∀ i, i ∈ r' → i ∈ r) →
  blocks_in_place bs data tmp r → blocks_in_place bs data tmp r'.
Proof. intros Hsub [Hl Hin]. split; [done|]. eauto. Qed.

(** An upload under way: everything works, and the blocks received are in place
    in the temporary file. *)
Record uploading (bs : Z) (data : bytes) (p rel : string) (s : delta_state) (received : list Z) : Prop := {
  up_idle : idle_mutex (ds_locks s) rel;
  up_calm : calm (ds_fs s);
  up_room : room_for (ds_fs s) p;
  up_blocks : blocks_in_place bs data (default [] (file_at (ds_fs s) (tmp_loc (ds_fs s) p))) received
}.

(** The published files are those of the state [s0] the upload started from. *)
Definition published_kept (s0 s : delta_state) (p : string) : Prop :=
  cwd (ds_fs s) = cwd (ds_fs s0) ∧ others_kept (ds_fs s0) (ds_fs s) p ∧
  file_at (ds_fs s) (target_loc (ds_fs s0) p) = file_at (ds_fs s0) (target_loc (ds_fs s0) p).

Lemma published_kept_trans s0 s s1 p :
  published_kept s0 s p → published_kept s s1 p → published_kept s0 s1 p.
Proof.
  intros (Hc0 & Ho0 & Ht0) (Hc1 & Ho1 & Ht1).
  unfold published_kept, others_kept, target_loc, tmp_loc in *.
  rewrite !(loc_cwd _ _ _ Hc0) in *. split; [congruence|]. split; [|congruence].
  intros l Hl1 Hl2. rewrite Ho1; auto.
Qed.

Lemma receive_full_blocks h rel p bs data s0 indices :
  resolve_path (dh_file_manager h) rel = Ret p → 0 < bs → zlen data < 2 ^ 63 →
  Forall (λ i, 0 <= i ∧ (i + 1) * bs <= zlen data) indices →
  ∀ received s, uploading bs data p rel s received → published_kept s0 s p →
  wp (receive_blocks h rel bs data indices) (λ r s',
    r = Ret (replicate (length indices) 1) ∧ published_kept s0 s' p ∧
    uploading bs data p rel s' (indices ++ received)) s.
Proof.
  intros Hr Hbs Hmax. induction 1 as [|i indices [Hi0 Hi] _ IH]; intros received s Hup Hkept; [done|].
  assert (0 <= i < blocks_of (zlen data) bs) as Hib.
  { split; [done|]. unfold blocks_of. apply Z.lt_le_trans with (i + 1); [lia|]. apply Z.div_le_lower_bound; lia. }
  cbn [receive_blocks]. cbv zeta. rewrite zlen_block, Z.min_l, Z.ltb_irrefl by lia.
  destruct Hup as [Hidle Hcalm Hroom Hblocks].
  eapply wp_bind, wp_mono; [by apply block_data_spec|]. simpl.
  intros r s1 (code & -> & Hidle1 & Hc1 & Ho1 & Hcase & Hlive).
  destruct Hlive as [-> Hpub]; [done|done|rewrite i64_small; lia|]. specialize (Hpub eq_refl).
  destruct Hcase as [[? _]|(_ & _ & base & Hbase & Htmp & Htgt & _)]; [done|].
  assert (base = default [] (file_at (ds_fs s) (tmp_loc (ds_fs s) p))) as -> by (destruct Hbase; tauto).
  assert (tmp_loc (ds_fs s1) p = tmp_loc (ds_fs s) p) as Ht by (by apply loc_cwd).
  assert (uploading bs data p rel s1 (i :: received)) as Hup1.
  { split; [done|apply Hpub|apply Hpub|]. rewrite Ht, Htmp. simpl. by apply place_block. }
  assert (published_kept s0 s1 p) as Hkept1 by (by eapply published_kept_trans).
  eapply wp_bind, wp_mono; [by apply (IH (i :: received))|]. simpl.
  intros r s2 (-> & Hk2 & [Hid Hca Hro Hbl]). split; [done|]. split; [done|]. split; try done.
  eapply blocks_in_place_sub; [|exact Hbl].
  intros j. rewrite elem_of_cons, !elem_of_app, elem_of_cons. tauto.
Qed.

Lemma wp_receive_app h rel bs data js Q : ∀ indices s,
  wp (receive_blocks h rel bs data indices) (λ r s', ∃ codes, r = Ret codes ∧
    wp (receive_blocks h rel bs data js) (λ r' s'', ∃ codes', r' = Ret codes' ∧ Q (codes ++ codes') s'') s') s →
  wp (receive_blocks h rel bs data (indices ++ js)) (λ r s', ∃ codes, r = Ret codes ∧ Q codes s') s.
Proof.
  intros indices. revert Q. induction indices as [|i indices IH]; intros Q s.
  - intros (codes & [= <-] & Hwp). exact Hwp.
  - cbn [receive_blocks app]. cbv zeta. unfold wp at 1. rewrite SM_bind_unfold. intros Hwp. apply wp_bind. unfold wp at 1.
    destruct (handle_block_data _ _ _ _ _ _ _ s) as [[code|e|t] s1]; [|by destruct Hwp as (? & ? & _)..].
    eapply wp_bind, wp_mono; [apply (IH (λ codes s', Q (code :: codes) s'))|].
    + rewrite SM_bind_unfold in Hwp. unfold wp at 1.
      destruct (receive_blocks h rel bs data indices s1) as [[codes|e|t] s2];
        [|by destruct Hwp as (? & ? & _)..].
      destruct Hwp as (? & [= <-] & Hwp). by exists codes.
    + intros r s' (codes & -> & HQ). by exists (code :: codes).
Qed.

(** The last block of a file that is not a multiple of the block size. *)
Lemma last_short_block data bs : 0 < bs → zlen data mod bs ≠ 0 →
  let last := blocks_of (zlen data) bs - 1 in
  0 <= last * bs < zlen data ∧ zlen (block_of bs data last) < bs ∧ block_of bs data last ≠ [].
Proof.
  intros Hbs Hmod last.
  pose proof (Z.div_mod (zlen data) bs ltac:(lia)) as Hdm.
  pose proof (Z.mod_pos_bound (zlen data) bs Hbs) as Hmb.
  pose proof (zlen_nonneg data). pose proof (Z.div_pos (zlen data) bs) as Hq.
  assert (last = zlen data / bs) as ->.
  { unfold last, blocks_of. enough ((zlen data + bs - 1) / bs = zlen data / bs + 1) by lia.
    symmetry. apply Z.div_unique with (zlen data mod bs - 1); lia. }
  assert (0 <= zlen data / bs * bs < zlen data) as Hin by lia. split; [done|].
  split; [rewrite zlen_block by lia; lia|]. by apply actual_block.
Qed.


Lemma demo_room : room_for (demo_fs []) "/s/f".
Proof.
  split; [reflexivity|]. split; [reflexivity|]. split; [|split; discriminate].
  intros [|[|k]]; [reflexivity..|]. by destruct k.
Qed.


(** The blocks a delta synchronisation skips are lost.  The temporary file
    starts empty, not as a copy of the published file: when only the last block
    of [data] is sent, because the others are unchanged, every answer is OK and
    the published file is replaced by zeros up to the last block. *)
Theorem delta_skipped_blocks_zeroed h rel p bs data s :
  resolve_path (dh_file_manager h) rel = Ret p → idle_mutex (ds_locks s) rel →
  calm (ds_fs s) → room_for (ds_fs s) p → file_at (ds_fs s) (tmp_loc (ds_fs s) p) = None →
  0 < bs → zlen data < 2 ^ 63 → zlen data mod bs ≠ 0 →
  let last := blocks_of (zlen data) bs - 1 in
  ∃ s', receive_blocks h rel bs data [last] s = (Ret [1], s') ∧
    file_at (ds_fs s') (target_loc (ds_fs s) p) =
      Some (replicate (Z.to_nat (last * bs)) x00 ++ block_of bs data last).
Proof.
  intros Hr Hidle Hcalm Hroom Hnone Hbs Hmax Hmod last.
  pose proof (last_short_block data bs Hbs Hmod) as (Hlast & Hshort & Hblk). fold last in Hlast, Hshort, Hblk.
  pose proof (block_data_spec h rel p last (last * bs) (block_of bs data last)
    (zlen (block_of bs data last) <? bs) s Hr Hidle) as Hwp.
  cbn [receive_blocks]. cbv zeta. unfold wp in Hwp. rewrite SM_bind_unfold.
  destruct (handle_block_data _ _ _ _ _ _ _ s) as [r s'].
  destruct Hwp as (code & -> & _ & _ & _ & Hcase & Hlive).
  destruct Hlive as [-> _]; [done|done|rewrite i64_small; lia|].
  exists s'. split; [done|].
  destruct Hcase as [[? _]|(_ & _ & base & Hbase & Heff)]; [done|].
  rewrite (proj2 (Z.ltb_lt _ _) Hshort), Hnone in *.
  assert (base = []) as -> by (destruct Hbase; tauto). destruct Heff as [-> _]. f_equal.
  unfold overlay. destruct (block_of bs data last) as [|b d]; [done|].
  rewrite app_nil_l, Nat.sub_0_r, take_ge, drop_nil, app_nil_r by (by rewrite length_replicate). done.
Qed.

Lemma delta_skipped_blocks_zeroed_witness :
  ∃ s', receive_blocks demo_handler "f" 4 [x61; x62; x63; x64; x65; x66] [1]
          (demo_state [("f", [x61; x62; x63; x64; x00; x00])]) = (Ret [1], s') ∧
    file_at (ds_fs s') ["s"; "f"] = Some [x00; x00; x00; x00; x65; x66].
Proof.
  apply (delta_skipped_blocks_zeroed demo_handler "f" "/s/f" 4 [x61; x62; x63; x64; x65; x66]);
    [reflexivity|done|reflexivity| |reflexivity|lia|reflexivity|done].
  split; [reflexivity|]. split; [reflexivity|]. split; [|split; discriminate].
  intros [|[|k]]; [reflexivity..|]. by destruct k.
Defined.



(** A block for a path outside the storage root leaves the lock taken.  The
    write lock is acquired before the path is checked, and the exception of the
    check skips the release: no later acquire of that path can succeed. *)
Theorem traversal_keeps_write_lock h rel e index off data fin s :
  resolve_path (dh_file_manager h) rel = Throw e → idle_mutex (ds_locks s) rel →
  ∃ s', handle_block_data h rel index off data (BlockHash.sha256_hex data) fin s = (Throw e, s') ∧
    acquire_write rel (ds_locks s') = None ∧ acquire_read rel (ds_locks s') = None.
Proof.
  intros Hr Hidle. unfold handle_block_data. rewrite bool_decide_eq_true_2 by done.
  change (negb true) with false. cbv iota.
  destruct (ds_acquire_idle true rel s Hidle) as (fm & Ha & _).
  exists (mkDelta (ds_fs s) fm (in_progress s)). rewrite SM_bind_unfold, Ha. split.
  - rewrite SM_bind_unfold. unfold on_fs, zoom, write_block_atomic. rewrite SM_bind_unfold.
    unfold tmp_path_for, lift. rewrite Hr. done.
  - unfold ds_acquire in Ha. destruct (acquire true rel (ds_locks s)) as [fm'|] eqn:Hacq; [|done].
    injection Ha as ->. simpl. by apply (write_lock_excludes (ds_locks s)).
Qed.

Lemma traversal_keeps_write_lock_witness :
  ∃ s', handle_block_data demo_handler "../x" 0 0 [x61] (BlockHash.sha256_hex [x61]) true (demo_state []) =
          (Throw (RuntimeError "Directory traversal detected: ../x"), s') ∧
    acquire_write "../x" (ds_locks s') = None ∧ acquire_read "../x" (ds_locks s') = None.
Proof. apply traversal_keeps_write_lock; [reflexivity|done]. Defined.
