(* ===== verification/Directories.v ===== *)
(** What the operations of [FileManager] (src/server/src/file_manager.cpp) do to the
    tree of directories, and when work for one path leaves another path's files
    and the room for them alone. *)
From S2P Require Import Prelude Sha256 Paths FileSystem FileManager FileMutex DeltaSync.

(** * Directories *)

(** The directories of [fs] stay, and new ones lie on the way to [p]. *)
Definition dirs_on_way (p : string) (fs fs' : filesystem) : Prop :=
  cwd fs' = cwd fs ∧ ∀ l,
    (node_at (nodes fs) l = Some Dir → node_at (nodes fs') l = Some Dir) ∧
    (node_at (nodes fs') l = Some Dir → node_at (nodes fs) l = Some Dir ∨ l `prefix_of` loc fs (parent_path p)).

#[export] Instance dirs_on_way_preorder p : PreOrder (dirs_on_way p).
Proof.
  split; [split; [done|]; auto|]. intros a b c [Hab Hab'] [Hbc Hbc']. split; [congruence|].
  intros l. destruct (Hab' l) as [H1 H2], (Hbc' l) as [H3 H4]. split; [auto|].
  intros Hc. destruct (H4 Hc) as [Hb|Hb]; [auto|]. right. by rewrite <- (loc_cwd a b).
Qed.

Lemma mkdirs_new todo : ∀ ns above l, node_at (mkdirs ns above todo).1 l = Some Dir →
  node_at ns l = Some Dir ∨ l `prefix_of` above ++ todo.
Proof.
  induction todo as [|n todo IH]; intros ns above l Hl; simpl in *; [by left|].
  replace (above ++ n :: todo) with ((above ++ [n]) ++ todo) by (by rewrite <- app_assoc).
  destruct (ns !! (above ++ [n])) as [[c t|]|]; [by left|by apply IH|].
  destruct (IH _ _ _ Hl) as [Hd|Hp]; [|by right].
  rewrite node_at_insert in Hd by (by destruct above). case_decide as He; [|by left].
  right. rewrite <- He. apply prefix_app_r. done.
Qed.

Lemma dirs_same p fs fs' : nodes fs' = nodes fs → cwd fs' = cwd fs → dirs_on_way p fs fs'.
Proof. intros Hn Hc. split; [done|]. intros l. rewrite Hn. auto. Qed.

(** A file put where no directory is. *)
Lemma dirs_insert p fs l c t : node_at (nodes fs) l ≠ Some Dir →
  dirs_on_way p fs (set_nodes (<[l := File c t]> (nodes fs)) fs).
Proof.
  intros Hl. split; [done|]. intros m. cbn [nodes set_nodes].
  assert (l ≠ []) by (intros ->; by apply Hl). rewrite node_at_insert by done. case_decide as He; [|auto].
  subst m. split; [by intros ?|done].
Qed.

Lemma dirs_fault p : keeps (dirs_on_way p) next_fault.
Proof. intros fs. unfold next_fault. destruct (faults fs); by apply dirs_same. Qed.
#[export] Hint Resolve dirs_fault : keeps.

Lemma dirs_open_update p q : keeps (dirs_on_way p) (open_update q).
Proof.
  apply keeps_bind; [apply _|apply dirs_fault|]. intros f fs. rewrite SM_bind_unfold. cbn [get_st].
  by destruct f, (lookup_node fs q) as [[]|].
Qed.

Lemma dirs_open_truncate p q : keeps (dirs_on_way p) (open_truncate q).
Proof.
  apply keeps_bind; [apply _|apply dirs_fault|]. intros f fs. rewrite SM_bind_unfold. cbn [get_st].
  destruct f; [|done..].
  destruct (node_at (nodes fs) (loc fs q)) as [[c t|]|] eqn:Hn; [|done|];
    (destruct (names_directory q || _); [done|]); apply dirs_insert; congruence.
Qed.

Lemma dirs_write_at p q off data : keeps (dirs_on_way p) (write_at q off data).
Proof.
  intros fs0. unfold write_at. rewrite SM_bind_unfold. cbn [get_st]. generalize (loc fs0 q) as l. intros l. revert fs0.
  change (keeps (dirs_on_way p) (write_node l off data)).
  apply keeps_bind; [apply _|apply dirs_fault|]. intros f fs. rewrite SM_bind_unfold. cbn [get_st].
  destruct (node_at (nodes fs) l) as [[c t|]|] eqn:Hn; [|done..]. apply dirs_insert. congruence.
Qed.

Lemma dirs_create p : keeps (dirs_on_way p) (create_directories (parent_path p)).
Proof.
  apply keeps_bind; [apply _|apply dirs_fault|]. intros f. destruct f; [|solve_keeps..].
  intros fs. rewrite SM_bind_unfold. cbn [get_st].
  pose proof (mkdirs_keeps_dirs (loc fs (parent_path p)) (nodes fs) []) as Hk.
  pose proof (mkdirs_new (loc fs (parent_path p)) (nodes fs) []) as Hw.
  destruct (mkdirs (nodes fs) [] (loc fs (parent_path p))) as [ns ok]. split; [done|].
  intros l. split; [apply Hk|apply Hw].
Qed.
#[export] Hint Resolve dirs_open_update dirs_open_truncate dirs_write_at dirs_create : keeps.

Lemma dirs_ensure fm rel p : resolve_path fm rel = Ret p → keeps (dirs_on_way p) (ensure_parent_dirs fm rel).
Proof.
  intros Hr. unfold ensure_parent_dirs. rewrite Hr. intros fs. rewrite SM_bind_unfold. cbn [lift].
  case_decide; [done|]. apply dirs_create.
Qed.

Lemma dirs_write_block fm rel p off data : resolve_path fm rel = Ret p →
  keeps (dirs_on_way p) (write_block_atomic fm rel off data).
Proof.
  intros Hr. unfold write_block_atomic. pose proof (dirs_ensure fm rel p Hr) as He.
  repeat first [solve [eauto with keeps typeclass_instances]|apply keeps_bind; [apply _| |intros ?]
    |match goal with |- keeps _ (if ?x then _ else _) => destruct x end].
Qed.

Lemma dirs_write_file fm rel p data : resolve_path fm rel = Ret p →
  keeps (dirs_on_way p) (write_file_atomic fm rel data).
Proof.
  intros Hr. unfold write_file_atomic. pose proof (dirs_ensure fm rel p Hr) as He.
  repeat first [solve [eauto with keeps typeclass_instances]|apply keeps_bind; [apply _| |intros ?]
    |match goal with |- keeps _ (if ?x then _ else _) => destruct x end].
Qed.

Lemma dirs_rename fm rel p c fs : resolve_path fm rel = Ret p → room_for fs p →
  file_at fs (tmp_loc fs p) = Some c →
  wp (atomic_rename_tmp fm rel) (λ _ fs', dirs_on_way p fs fs' ∧ (calm fs → calm fs')) fs.
Proof.
  intros Hr (Hd & _ & _ & Hnt & Hnm) Hc. destruct (node_of_tmp _ _ _ Hc) as (t & Hl & Hne).
  apply (wp_tmp _ _ _ _ _ _ Hr), (wp_resolve _ _ _ _ _ _ Hr).
  apply wp_bind. unfold wp at 1, gets_st, fs_exists. rewrite Hl. simpl.
  eapply wp_mono; [by apply rename_file_spec|]. intros r fs' (b & -> & Hcwd & Hcalm & Hb).
  split; [|exact Hcalm]. destruct b; [|by apply dirs_same; [apply Hb|]]. destruct Hb as (_ & Hned & Hn). split; [done|].
  apply lookup_file in Hl as [Hl _]. unfold target_loc, tmp_loc in *. intros l.
  rewrite Hn, node_at_insert, node_at_delete by done. split.
  - intros Hdir. rewrite !decide_False; [done|congruence..].
  - case_decide; [done|]. case_decide; [done|auto].
Qed.

(** * Paths that do not meet *)

Lemma in_first {A} (a b : A) : a ∈ [a; b].
Proof. left. Qed.
Lemma in_second {A} (a b : A) : b ∈ [a; b].
Proof. right. left. Qed.
#[local] Hint Resolve in_first in_second : core.

(** What one session does for [q]: the files of [q] may change, and directories
    above them may appear. *)
Definition touches (q : string) (fs fs' : filesystem) : Prop :=
  others_kept fs fs' q ∧ dirs_on_way q fs fs' ∧ (calm fs → calm fs').

(** None of the two paths' files is, or lies below, a file of the other. *)
Definition apart (fs : filesystem) (p q : string) : Prop :=
  ∀ a b, a ∈ [target_loc fs p; tmp_loc fs p] → b ∈ [target_loc fs q; tmp_loc fs q] →
    ~ a `prefix_of` b ∧ ~ b `prefix_of` a.

Lemma apart_sym fs p q : apart fs p q → apart fs q p.
Proof. intros H a b Ha Hb. by destruct (H b a Hb Ha). Qed.

Lemma apart_cwd fs fs' p q : cwd fs' = cwd fs → apart fs p q → apart fs' p q.
Proof. intros Hc. unfold apart, target_loc, tmp_loc. by rewrite !(loc_cwd _ _ _ Hc). Qed.

Lemma removelast_prefix {A} (l : list A) : removelast l `prefix_of` l.
Proof.
  destruct l as [|x l] using rev_ind; [done|]. rewrite removelast_last. by apply prefix_app_r.
Qed.

Lemma parent_above fs q : names_directory q = false → loc fs (parent_path q) `prefix_of` target_loc fs q.
Proof.
  intros Hd. destruct (file_locations (cwd fs) q Hd) as (above & l & Hq & _ & Ha).
  unfold target_loc, loc. rewrite Hq. case_decide as He.
  - rewrite He, locate_empty, Ha. by apply prefix_app_r.
  - rewrite Ha. by apply prefix_app_r.
Qed.

(** The files of [p] are as they were when a session worked for [q]. *)
Lemma kept_apart fs fs' p q l : apart fs p q → others_kept fs fs' q →
  l ∈ [target_loc fs p; tmp_loc fs p] → file_at fs' l = file_at fs l.
Proof.
  intros Hap Ho Hl. apply Ho; intros ->.
  - by destruct (Hap _ (target_loc fs q) Hl (in_first _ _)) as [[] _].
  - by destruct (Hap _ (tmp_loc fs q) Hl (in_second _ _)) as [[] _].
Qed.

Lemma touched_files fs fs' p q l : apart fs p q → touches q fs fs' →
  l ∈ [target_loc fs p; tmp_loc fs p] → file_at fs' l = file_at fs l.
Proof. intros Hap (Ho & _). by apply (kept_apart _ _ _ q). Qed.

Lemma touched_room fs fs' p q : names_directory q = false → apart fs p q → touches q fs fs' →
  room_for fs p → room_for fs' p.
Proof.
  intros Hq Hap (Ho & [Hc Hdirs] & _) (Hd & Hcwd & Hno & Hnt & Hnm).
  unfold room_for, target_loc, tmp_loc in *. rewrite Hc, !(loc_cwd _ _ _ Hc).
  assert (∀ a, a ∈ [loc fs p; loc fs (p +:+ ".tmp")] → node_at (nodes fs) a ≠ Some Dir →
    node_at (nodes fs') a ≠ Some Dir) as Hnd.
  { intros a Ha Hna Hda. destruct (proj2 (Hdirs a) Hda) as [?|Hpre]; [done|].
    destruct (Hap a (loc fs q) Ha (in_first _ _)) as [Hx _]. apply Hx.
    etransitivity; [exact Hpre|]. by apply parent_above. }
  split; [done|]. split; [by apply Hdirs|]. split; [|split; apply Hnd; auto].
  intros k. assert (take k (removelast (loc fs p)) `prefix_of` loc fs p) as Hpre.
  { etransitivity; [apply prefix_take|apply removelast_prefix]. }
  rewrite Ho; [apply Hno| |]; intros He; rewrite He in Hpre; unfold target_loc, tmp_loc in Hpre.
  - by destruct (Hap (loc fs p) (loc fs q)) as [_ []]; auto.
  - by destruct (Hap (loc fs p) (loc fs (q +:+ ".tmp"))) as [_ []]; auto.
Qed.

Lemma touched_parent fs fs' q l : touches q fs fs' →
  parent_is_dir (nodes fs) l = true → parent_is_dir (nodes fs') l = true.
Proof.
  intros (_ & [_ Hdirs] & _). unfold parent_is_dir. destruct (Hdirs (removelast l)) as [Hk _].
  destruct (node_at (nodes fs) (removelast l)) as [[]|]; [done| |done]. by rewrite Hk.
Qed.

(** Two paths of a storage root. *)
Lemma demo_apart : apart (demo_fs []) "/s/f" "/s/g".
Proof.
  intros a b Ha Hb. repeat (apply elem_of_cons in Ha as [->|Ha]; [|]); [..|by apply elem_of_nil in Ha];
    (repeat (apply elem_of_cons in Hb as [->|Hb]; [|]); [..|by apply elem_of_nil in Hb]);
    split; intros [k Hk]; vm_compute in Hk; discriminate.
Qed.
