(* ===== verification/Negotiator.v ===== *)
(** The choice of a transfer strategy: src/server/src/negotiator.cpp. *)
From S2P Require Import Prelude Sha256 Paths FileSystem FileManager DeltaSync.

(** Values of the protocol's enumerations. *)
Definition FRESH : Z := 1.
Definition MODIFIED : Z := 2.
Definition UNCHANGED : Z := 3.
Definition TRANSFER_MODE_UNSPECIFIED : Z := 0.
Definition ZERO_COPY : Z := 1.
Definition DELTA_SYNC : Z := 2.

Record Negotiator := mkNegotiator {
  ng_file_manager : FileManager;
  ng_block_size : Z
}.

Definition Negotiator_new (file_manager : FileManager) (block_size : Z) : Negotiator :=
  mkNegotiator file_manager block_size.

Record NegotiationResult := mkResult {
  res_file_mode : Z;
  res_transfer_mode : Z;
  server_file_size : Z;
  server_sha256 : string;
  res_block_size : Z
}.

Definition negotiate (ng : Negotiator) (rel : string)
  (client_file_size client_last_modified_ns : Z) (client_sha256 : string)
  : SM filesystem NegotiationResult :=
  there ← file_exists (ng_file_manager ng) rel;
  if negb there then mret (mkResult FRESH ZERO_COPY 0 "" (ng_block_size ng))
  else
    server_info ← get_file_info (ng_file_manager ng) rel;
    match server_info with
    | None => mret (mkResult FRESH ZERO_COPY 0 "" (ng_block_size ng))
    | Some info =>
        if negb (bool_decide (client_sha256 = "")) && bool_decide (client_sha256 = sha256_hex info)
        then mret (mkResult UNCHANGED TRANSFER_MODE_UNSPECIFIED (file_size info) (sha256_hex info)
                     (ng_block_size ng))
        else mret (mkResult MODIFIED DELTA_SYNC (file_size info) (sha256_hex info) (ng_block_size ng))
    end.

(** * Lemmas *)

Lemma nibble_bound b : 0 <= Z.shiftr (byte.unsigned b) 4 < 16 ∧ 0 <= Z.land (byte.unsigned b) 0x0F < 16.
Proof.
  pose proof (byte.unsigned_range b). split.
  - rewrite Z.shiftr_div_pow2 by lia. Z.div_mod_to_equations; lia.
  - change 0x0F with (Z.ones 4). rewrite Z.land_ones by lia. apply Z.mod_pos_bound. lia.
Qed.

Lemma hex_char_inj m n : 0 <= m < 16 → 0 <= n < 16 → hex_char m = hex_char n → m = n.
Proof.
  assert (∀ k, 0 <= k < 16 → k ∈ seqZ 0 16) as Hin by (intros; apply elem_of_seqZ; lia).
  intros Hm%Hin Hn%Hin. revert m n Hm Hn.
  assert (forallb (λ m, forallb (λ n, implb (Ascii.eqb (hex_char m) (hex_char n)) (m =? n)) (seqZ 0 16))
            (seqZ 0 16) = true) as Hall by (vm_compute; reflexivity).
  rewrite forallb_forall in Hall. intros m n Hm Hn Heq.
  apply list_elem_of_In in Hm, Hn. specialize (Hall m Hm). rewrite forallb_forall in Hall. specialize (Hall n Hn).
  rewrite Heq, Ascii.eqb_refl in Hall. by apply Z.eqb_eq in Hall.
Qed.

Lemma to_hex_inj : ∀ xs ys, to_hex xs = to_hex ys → xs = ys.
Proof.
  induction xs as [|x xs IH]; intros [|y ys] Heq; try done. injection Heq as Hh Hl Hrest.
  apply hex_char_inj in Hh; [|apply nibble_bound..]. apply hex_char_inj in Hl; [|apply nibble_bound..].
  f_equal; [|by apply IH]. apply byte.unsigned_inj.
  rewrite (Z.div_mod (byte.unsigned x) 16), (Z.div_mod (byte.unsigned y) 16) by lia.
  rewrite !Z.shiftr_div_pow2 in Hh by lia. change 0x0F with (Z.ones 4) in Hl.
  rewrite !Z.land_ones in Hl by lia. change (2 ^ 4) with 16 in *. congruence.
Qed.

Lemma get_file_info_run fm rel p fs c t : resolve_path fm rel = Ret p →
  lookup_node fs p = Some (File c t) → zlen c < 2 ^ 63 →
  get_file_info fm rel fs =
    (Ret (Some (mkFileInfo rel (zlen c) (u64 (t - file_clock fs + system_clock fs)) (to_hex (sha256_raw c)))), fs).
Proof.
  intros Hr Hl Hc. unfold get_file_info.
  erewrite SM_bind_ret by (by apply file_exists_run). unfold fs_exists. rewrite Hl.
  change (negb true) with false. cbv iota.
  erewrite SM_bind_ret by (by eapply get_file_size_run).
  erewrite SM_bind_ret by (by eapply get_last_modified_run).
  erewrite SM_bind_ret by (by eapply compute_sha256_run). done.
Qed.

(** * The decision *)

(** What [negotiate] answers, on every branch. *)
Lemma negotiate_run ng rel p fs csize cmod csha :
  resolve_path (ng_file_manager ng) rel = Ret p → lookup_node fs p ≠ Some Dir →
  (∀ c t, lookup_node fs p = Some (File c t) → zlen c < 2 ^ 63) →
  negotiate ng rel csize cmod csha fs =
    (Ret (match lookup_node fs p with
          | Some (File c _) =>
              let digest := to_hex (sha256_raw c) in
              if decide (csha = digest)
              then mkResult UNCHANGED TRANSFER_MODE_UNSPECIFIED (zlen c) digest (ng_block_size ng)
              else mkResult MODIFIED DELTA_SYNC (zlen c) digest (ng_block_size ng)
          | _ => mkResult FRESH ZERO_COPY 0 "" (ng_block_size ng)
          end), fs).
Proof.
  intros Hr Hd Hsize. unfold negotiate. erewrite SM_bind_ret by (by apply file_exists_run).
  unfold fs_exists. destruct (lookup_node fs p) as [[c t|]|] eqn:Hl; [|done|done].
  change (negb true) with false. cbv iota.
  erewrite SM_bind_ret by (eapply get_file_info_run; eauto). cbn [sha256_hex file_size].
  assert (to_hex (sha256_raw c) ≠ "") as Hne.
  { intros He%(f_equal String.length). rewrite length_to_hex, length_sha256_raw in He. done. }
  destruct (decide (csha = to_hex (sha256_raw c))) as [->|Hd'].
  - rewrite bool_decide_eq_false_2 by done. by rewrite bool_decide_eq_true_2.
  - by rewrite (bool_decide_eq_false_2 (csha = to_hex _)), andb_false_r.
Qed.

(** The negotiation decides as documented.  An unknown file is transferred
    whole; a file with the digest the client announced is not transferred; any
    other file is synchronised block by block.  The answer carries the size and
    digest of the server's file and nothing changes on the server. *)
Theorem negotiate_decides ng rel p fs csize cmod csha :
  resolve_path (ng_file_manager ng) rel = Ret p → lookup_node fs p ≠ Some Dir →
  (∀ c t, lookup_node fs p = Some (File c t) → zlen c < 2 ^ 63) →
  negotiate ng rel csize cmod csha fs =
    (Ret (match lookup_node fs p with
          | Some (File c _) =>
              let digest := to_hex (sha256_raw c) in
              if decide (csha = digest)
              then mkResult UNCHANGED TRANSFER_MODE_UNSPECIFIED (zlen c) digest (ng_block_size ng)
              else mkResult MODIFIED DELTA_SYNC (zlen c) digest (ng_block_size ng)
          | _ => mkResult FRESH ZERO_COPY 0 "" (ng_block_size ng)
          end), fs).
Proof. apply negotiate_run. Qed.

Definition demo_negotiator : Negotiator := mkNegotiator demo_root 65536.

Lemma negotiate_decides_witness :
  negotiate demo_negotiator "f" 1 0 "stale" (demo_fs [("f", [x61])]) =
    (Ret (mkResult MODIFIED DELTA_SYNC 1 (to_hex (sha256_raw [x61])) 65536), demo_fs [("f", [x61])]).
Proof.
  rewrite (negotiate_decides demo_negotiator "f" "/s/f");
    [vm_compute; reflexivity|reflexivity|discriminate|]. intros c t [= <- _]. reflexivity.
Defined.

(** No transfer is skipped wrongly.  If a client that hashes its file with
    SHA-256 is told UNCHANGED, the server's file has the same SHA-256 digest. *)
Theorem unchanged_same_digest ng rel p fs c t csize cmod data res :
  resolve_path (ng_file_manager ng) rel = Ret p → lookup_node fs p = Some (File c t) →
  zlen c < 2 ^ 61 → zlen data < 2 ^ 61 →
  negotiate ng rel csize cmod (to_hex (Fips.sha256 data)) fs = (Ret res, fs) →
  res_file_mode res = UNCHANGED → Fips.sha256 c = Fips.sha256 data.
Proof.
  intros Hr Hl Hc Hd Hrun Hun. unfold negotiate in Hrun.
  erewrite SM_bind_ret in Hrun by (by apply file_exists_run). unfold fs_exists in Hrun. rewrite Hl in Hrun.
  change (negb true) with false in Hrun. cbv iota in Hrun.
  erewrite SM_bind_ret in Hrun by (eapply get_file_info_run; [done..|lia]).
  cbn [sha256_hex file_size] in Hrun.
  destruct (bool_decide (to_hex (Fips.sha256 data) = to_hex (sha256_raw c))) eqn:Heq.
  2:{ rewrite andb_false_r in Hrun. apply SM_ret_inj in Hrun as [<- _]. discriminate Hun. }
  apply bool_decide_eq_true in Heq.
  apply to_hex_inj in Heq. by rewrite Heq, sha256_raw_fips by lia.
Qed.

Lemma unchanged_same_digest_witness : Fips.sha256 [x61] = Fips.sha256 [x61].
Proof.
  apply (unchanged_same_digest demo_negotiator "f" "/s/f" (demo_fs [("f", [x61])]) [x61] 0 1 0 [x61]
    (mkResult UNCHANGED TRANSFER_MODE_UNSPECIFIED 1 (to_hex (Fips.sha256 [x61])) 65536));
    [reflexivity|reflexivity|reflexivity|reflexivity|vm_compute; reflexivity|reflexivity].
Defined.
