(* ===== verification/Proto.v ===== *)
(** The protocol's messages: src/proto/adaptivesync.proto and the interface of
    the code that protoc generates from it.

    The generated classes are not part of the sources: parsing and serialising
    are the operations of the class [Codec], and what the sources rely on is its
    only law. *)
From Stdlib Require Import Floats.SpecFloat.
From S2P Require Import Prelude Sha256.

(** * Messages

    The fields keep the order of the .proto file; enumerations are open in
    proto3, so their fields are integers. *)

Record ClientHello := mkClientHello {
  ch_protocol_version : Z;
  ch_client_id : string;
  ch_supported_modes : list Z;
  ch_block_size : Z
}.

Record ServerHello := mkServerHello {
  sh_protocol_version : Z;
  sh_server_id : string;
  sh_supported_modes : list Z;
  sh_max_concurrent_transfers : Z;
  sh_max_file_size : Z;
  sh_block_size : Z
}.

Record FileMetadata := mkFileMetadata {
  md_relative_path : string;
  md_file_size : Z;
  md_last_modified_ns : Z;
  md_sha256_hash : string;
  md_file_mode : Z
}.

Record NegotiationRequest := mkNegotiationRequest {
  nq_relative_path : string;
  nq_client_file_size : Z;
  nq_client_last_modified_ns : Z;
  nq_client_sha256_hash : string
}.

Record NegotiationResponse := mkNegotiationResponse {
  nr_file_mode : Z;
  nr_transfer_mode : Z;
  nr_server_file_size : Z;
  nr_server_sha256_hash : string;
  nr_block_size : Z
}.

Record ZeroCopyDownloadRequest := mkZeroCopyDownloadRequest {
  dq_relative_path : string;
  dq_offset : Z
}.

Record ZeroCopyDownloadHeader := mkZeroCopyDownloadHeader {
  dl_relative_path : string;
  dl_total_size : Z;
  dl_sha256_hash : string;
  dl_offset : Z
}.

Record ZeroCopyUploadRequest := mkZeroCopyUploadRequest {
  uq_metadata : FileMetadata
}.

Record ZeroCopyUploadAck := mkZeroCopyUploadAck {
  ua_status : Z;
  ua_error_message : string;
  ua_offset : Z
}.

Record BlockSignature := mkBlockSignature {
  bg_block_index : Z;
  bg_rolling_hash : Z;
  bg_strong_hash : string;
  bg_block_offset : Z;
  bg_block_size : Z
}.

Record DeltaSyncSignatureRequest := mkDeltaSyncSignatureRequest {
  sq_relative_path : string;
  sq_file_size : Z;
  sq_block_size : Z;
  sq_signatures : list BlockSignature
}.

Record DeltaSyncBlockRequest := mkDeltaSyncBlockRequest {
  br_relative_path : string;
  br_requested_block_indices : list Z
}.

Record DeltaSyncBlockData := mkDeltaSyncBlockData {
  bd_relative_path : string;
  bd_block_index : Z;
  bd_block_offset : Z;
  bd_data : bytes;
  bd_strong_hash : string
}.

Record DeltaSyncComplete := mkDeltaSyncComplete {
  dc_relative_path : string;
  dc_status : Z;
  dc_error_message : string;
  dc_final_sha256_hash : string
}.

Record ListFilesRequest := mkListFilesRequest {
  lq_directory_prefix : string;
  lq_recursive : bool
}.

Record ListFilesResponse := mkListFilesResponse {
  lr_files : list FileMetadata
}.

Record ErrorPayload := mkErrorPayload {
  er_code : Z;
  er_message : string;
  er_detail : string
}.

Record ProgressUpdate := mkProgressUpdate {
  pu_relative_path : string;
  pu_bytes_transferred : Z;
  pu_bytes_total : Z;
  pu_rate_mbps : spec_float;
  pu_elapsed_ms : Z
}.

(** Enumeration values the server uses. *)
Definition OK : Z := 1.

(** [enum MessageType]. *)
Definition MSG_CLIENT_HELLO : Z := 1.
Definition MSG_SERVER_HELLO : Z := 2.
Definition MSG_NEGOTIATION_REQUEST : Z := 10.
Definition MSG_NEGOTIATION_RESPONSE : Z := 11.
Definition MSG_ZERO_COPY_DOWNLOAD_REQUEST : Z := 20.
Definition MSG_ZERO_COPY_DOWNLOAD_HEADER : Z := 21.
Definition MSG_ZERO_COPY_UPLOAD_REQUEST : Z := 22.
Definition MSG_ZERO_COPY_UPLOAD_ACK : Z := 23.
Definition MSG_DELTA_SYNC_SIGNATURE_REQUEST : Z := 30.
Definition MSG_DELTA_SYNC_BLOCK_REQUEST : Z := 31.
Definition MSG_DELTA_SYNC_BLOCK_DATA : Z := 32.
Definition MSG_DELTA_SYNC_COMPLETE : Z := 33.
Definition MSG_LIST_FILES_REQUEST : Z := 40.
Definition MSG_LIST_FILES_RESPONSE : Z := 41.
Definition MSG_ERROR : Z := 50.
Definition MSG_PROGRESS : Z := 51.

(** * Generated code *)

Inductive kind :=
| KClientHello
| KServerHello
| KNegotiationRequest
| KNegotiationResponse
| KZeroCopyDownloadRequest
| KZeroCopyDownloadHeader
| KZeroCopyUploadRequest
| KZeroCopyUploadAck
| KDeltaSyncSignatureRequest
| KDeltaSyncBlockRequest
| KDeltaSyncBlockData
| KDeltaSyncComplete
| KListFilesRequest
| KListFilesResponse
| KErrorPayload
| KProgressUpdate.

Definition msg (k : kind) : Type :=
  match k with
  | KClientHello => ClientHello
  | KServerHello => ServerHello
  | KNegotiationRequest => NegotiationRequest
  | KNegotiationResponse => NegotiationResponse
  | KZeroCopyDownloadRequest => ZeroCopyDownloadRequest
  | KZeroCopyDownloadHeader => ZeroCopyDownloadHeader
  | KZeroCopyUploadRequest => ZeroCopyUploadRequest
  | KZeroCopyUploadAck => ZeroCopyUploadAck
  | KDeltaSyncSignatureRequest => DeltaSyncSignatureRequest
  | KDeltaSyncBlockRequest => DeltaSyncBlockRequest
  | KDeltaSyncBlockData => DeltaSyncBlockData
  | KDeltaSyncComplete => DeltaSyncComplete
  | KListFilesRequest => ListFilesRequest
  | KListFilesResponse => ListFilesResponse
  | KErrorPayload => ErrorPayload
  | KProgressUpdate => ProgressUpdate
  end.

(** The [int] argument of the generated functions. *)
Definition INT_MAX : Z := 2 ^ 31 - 1.

(** [parse] is [ParseFromArray(data, size)]; [encoding] is the wire form of a
    message, [ByteSizeLong()] bytes. *)
Class Codec := {
  encoding : ∀ k, msg k → bytes;
  parse : ∀ k, bytes → Z → option (msg k)
}.

(** * Well-typed messages

    What the types of the .proto file allow: integers of their width,
    enumerations of 32 bits, text in UTF-8 (RFC 3629).  Of the two zeros of a float
    one counts: a default is not sent, and the two ends disagree on [-0]. *)

Definition char_code (c : Ascii.ascii) : Z := Z.of_N (Ascii.N_of_ascii c).
Definition between (lo x hi : Z) : bool := (lo <=? x) && (x <=? hi).

(** The range of the second byte after the lead byte [n]: no overlong forms, no
    surrogates, nothing beyond U+10FFFF. *)
Definition second_byte (n m : Z) : bool :=
  between (if n =? 0xe0 then 0xa0 else if n =? 0xf0 then 0x90 else 0x80) m
          (if n =? 0xed then 0x9f else if n =? 0xf4 then 0x8f else 0xbf).

Fixpoint valid_utf8 (s : string) : bool :=
  match s with
  | EmptyString => true
  | String a s1 =>
      let n := char_code a in
      if n <? 0x80 then valid_utf8 s1 else
      match s1 with
      | EmptyString => false
      | String b s2 =>
          if between 0xc2 n 0xdf then second_byte n (char_code b) && valid_utf8 s2 else
          match s2 with
          | EmptyString => false
          | String c s3 =>
              if between 0xe0 n 0xef then
                second_byte n (char_code b) && between 0x80 (char_code c) 0xbf && valid_utf8 s3
              else
              match s3 with
              | EmptyString => false
              | String d s4 =>
                  between 0xf0 n 0xf4 && second_byte n (char_code b) &&
                  between 0x80 (char_code c) 0xbf && between 0x80 (char_code d) 0xbf && valid_utf8 s4
              end
          end
      end
  end.

Definition is_u32 (z : Z) : Prop := 0 <= z < 2 ^ 32.
Definition is_u64 (z : Z) : Prop := 0 <= z < 2 ^ 64.
Definition is_enum (z : Z) : Prop := - 2 ^ 31 <= z < 2 ^ 31.
Definition is_text (s : string) : Prop := valid_utf8 s = true.

Definition metadata_wf (m : FileMetadata) : Prop :=
  is_text (md_relative_path m) ∧ is_u64 (md_file_size m) ∧ is_u64 (md_last_modified_ns m) ∧
  is_text (md_sha256_hash m) ∧ is_enum (md_file_mode m).

Definition signature_wf (m : BlockSignature) : Prop :=
  is_u32 (bg_block_index m) ∧ is_u32 (bg_rolling_hash m) ∧ is_text (bg_strong_hash m) ∧
  is_u64 (bg_block_offset m) ∧ is_u32 (bg_block_size m).

Definition msg_wf (k : kind) : msg k → Prop :=
  match k with
  | KClientHello => λ m : ClientHello,
      is_u32 (ch_protocol_version m) ∧ is_text (ch_client_id m) ∧
      Forall is_enum (ch_supported_modes m) ∧ is_u32 (ch_block_size m)
  | KServerHello => λ m : ServerHello,
      is_u32 (sh_protocol_version m) ∧ is_text (sh_server_id m) ∧
      Forall is_enum (sh_supported_modes m) ∧ is_u32 (sh_max_concurrent_transfers m) ∧
      is_u64 (sh_max_file_size m) ∧ is_u32 (sh_block_size m)
  | KNegotiationRequest => λ m : NegotiationRequest,
      is_text (nq_relative_path m) ∧ is_u64 (nq_client_file_size m) ∧
      is_u64 (nq_client_last_modified_ns m) ∧ is_text (nq_client_sha256_hash m)
  | KNegotiationResponse => λ m : NegotiationResponse,
      is_enum (nr_file_mode m) ∧ is_enum (nr_transfer_mode m) ∧ is_u64 (nr_server_file_size m) ∧
      is_text (nr_server_sha256_hash m) ∧ is_u32 (nr_block_size m)
  | KZeroCopyDownloadRequest => λ m : ZeroCopyDownloadRequest,
      is_text (dq_relative_path m) ∧ is_u64 (dq_offset m)
  | KZeroCopyDownloadHeader => λ m : ZeroCopyDownloadHeader,
      is_text (dl_relative_path m) ∧ is_u64 (dl_total_size m) ∧ is_text (dl_sha256_hash m) ∧
      is_u64 (dl_offset m)
  | KZeroCopyUploadRequest => λ m : ZeroCopyUploadRequest, metadata_wf (uq_metadata m)
  | KZeroCopyUploadAck => λ m : ZeroCopyUploadAck,
      is_enum (ua_status m) ∧ is_text (ua_error_message m) ∧ is_u64 (ua_offset m)
  | KDeltaSyncSignatureRequest => λ m : DeltaSyncSignatureRequest,
      is_text (sq_relative_path m) ∧ is_u64 (sq_file_size m) ∧ is_u32 (sq_block_size m) ∧
      Forall signature_wf (sq_signatures m)
  | KDeltaSyncBlockRequest => λ m : DeltaSyncBlockRequest,
      is_text (br_relative_path m) ∧ Forall is_u32 (br_requested_block_indices m)
  | KDeltaSyncBlockData => λ m : DeltaSyncBlockData,
      is_text (bd_relative_path m) ∧ is_u32 (bd_block_index m) ∧ is_u64 (bd_block_offset m) ∧
      is_text (bd_strong_hash m)
  | KDeltaSyncComplete => λ m : DeltaSyncComplete,
      is_text (dc_relative_path m) ∧ is_enum (dc_status m) ∧ is_text (dc_error_message m) ∧
      is_text (dc_final_sha256_hash m)
  | KListFilesRequest => λ m : ListFilesRequest, is_text (lq_directory_prefix m)
  | KListFilesResponse => λ m : ListFilesResponse, Forall metadata_wf (lr_files m)
  | KErrorPayload => λ m : ErrorPayload,
      is_enum (er_code m) ∧ is_text (er_message m) ∧ is_text (er_detail m)
  | KProgressUpdate => λ m : ProgressUpdate,
      is_text (pu_relative_path m) ∧ is_u64 (pu_bytes_transferred m) ∧ is_u64 (pu_bytes_total m) ∧
      valid_binary 24 128 (pu_rate_mbps m) = true ∧
      pu_rate_mbps m ≠ S754_zero true ∧ is_u32 (pu_elapsed_ms m)
  end.

(** What protobuf documents: a well-typed message small enough for the [int]
    interface comes back from its wire form. *)
Class CodecLaws `{Codec} := {
  parse_encoding : ∀ k (m : msg k), msg_wf k m → zlen (encoding k m) <= INT_MAX →
    parse k (encoding k m) (zlen (encoding k m)) = Some m
}.

Section Serialize.
Context `{Codec}.

(** [vector serialized(m.ByteSizeLong()); m.SerializeToArray(...)]: the call
    refuses messages beyond 2 GiB and leaves the buffer zeroed. *)
Definition serialized (k : kind) (m : msg k) : bytes :=
  let n := zlen (encoding k m) in
  if n <=? INT_MAX then encoding k m else replicate (Z.to_nat n) x00.

(** [m.ParseFromArray(payload.data(), static_cast<int>(payload.size()))]. *)
Definition parse_payload (k : kind) (payload : bytes) : option (msg k) :=
  parse k payload (i32 (zlen payload)).

Lemma serialized_small k m : zlen (encoding k m) <= INT_MAX → serialized k m = encoding k m.
Proof. intros Hm. unfold serialized. by rewrite (proj2 (Z.leb_le _ _)). Qed.

Lemma parse_serialized `{!CodecLaws} k m : msg_wf k m → zlen (encoding k m) <= INT_MAX →
  parse_payload k (serialized k m) = Some m.
Proof.
  intros Hwf Hm. rewrite serialized_small by done. unfold parse_payload.
  pose proof (zlen_nonneg (encoding k m)). unfold INT_MAX in *.
  replace (i32 (zlen (encoding k m))) with (zlen (encoding k m)).
  - by apply parse_encoding.
  - unfold i32. rewrite Z.mod_small; lia.
Qed.

End Serialize.

(** Plain ASCII is UTF-8. *)
Fixpoint is_ascii (s : string) : bool :=
  match s with EmptyString => true | String c s' => (char_code c <? 0x80) && is_ascii s' end.

Lemma ascii_is_text s : is_ascii s = true → is_text s.
Proof.
  unfold is_text. induction s as [|c s IH]; simpl; [done|]. intros [-> Hs]%andb_prop. by apply IH.
Qed.

Lemma hex_char_ascii n : (char_code (hex_char n) <? 0x80) = true.
Proof.
  unfold hex_char. generalize (Z.to_nat n) as i. intros i.
  destruct (decide (i < 16)%nat) as [Hi|Hi].
  - do 16 (destruct i as [|i]; [reflexivity|]). lia.
  - do 16 (destruct i as [|i]; [lia|]). by destruct i.
Qed.

Lemma hex_is_text data : is_text (to_hex data).
Proof.
  apply ascii_is_text. induction data as [|b data IH]; [done|]. cbn [to_hex is_ascii].
  by rewrite !hex_char_ascii, IH.
Qed.
