(* ===== verification/Proto3.v ===== *)
(** The wire format of the messages: the encoding protobuf documents for the
    proto3 file src/proto/adaptivesync.proto, as an executable codec.

    A message is a list of numbered values on the wire ([wire_field]); each
    message type of the .proto file says which number carries which field.  The
    codec satisfies the laws the two ends rely on ([CodecLaws]).  It follows the
    documented format: defaults are left out, repeated scalars are packed, of a
    repeated singular field the last one counts, sub-messages are merged, unknown
    fields are skipped.  Groups, which proto3 does not have, are refused. *)
From Stdlib Require Import Floats.SpecFloat Strings.Byte.
From S2P Require Import Prelude Sha256 Proto.

(** * Values on the wire *)

Inductive wval :=
| Varint (n : Z)
| Fixed64 (n : Z)
| Len (b : bytes)
| Fixed32 (n : Z).

(** The number of a field with a value. *)
Abbreviation wire_field := (Z * wval)%type.

Definition wire_type (v : wval) : Z :=
  match v with Varint _ => 0 | Fixed64 _ => 1 | Len _ => 2 | Fixed32 _ => 5 end.

(** Base 128, least significant group first; at most ten bytes. *)
Fixpoint print_varint (fuel : nat) (n : Z) : bytes :=
  match fuel with
  | O => []
  | S fuel => if n <? 128 then [byte.of_Z n] else byte.of_Z (n mod 128 + 128) :: print_varint fuel (n / 128)
  end.

Fixpoint parse_varint (fuel : nat) (bs : bytes) : option (Z * bytes) :=
  match fuel, bs with
  | S fuel, b :: rest =>
      let v := byte.unsigned b in
      if v <? 128 then Some (v, rest)
      else '(n, rest') ← parse_varint fuel rest; Some (v - 128 + 128 * n, rest')
  | _, _ => None
  end.

Definition varint (n : Z) : bytes := print_varint 10 n.

(** The ten bytes hold 70 bits, of which 64 count. *)
Definition read_varint (bs : bytes) : option (Z * bytes) :=
  '(n, rest) ← parse_varint 10 bs; Some (u64 n, rest).

Definition print_field (f : wire_field) : bytes :=
  let '(n, v) := f in
  varint (n * 8 + wire_type v) ++
  match v with
  | Varint x => varint x
  | Fixed64 x => le_split 8 x
  | Len b => varint (zlen b) ++ b
  | Fixed32 x => le_split 4 x
  end.

Definition print_wire (fs : list wire_field) : bytes := concat (print_field <$> fs).

(** The first [n] bytes and the rest, if there are that many. *)
Definition split_at (n : Z) (bs : bytes) : option (bytes * bytes) :=
  if n <=? zlen bs then Some (take (Z.to_nat n) bs, drop (Z.to_nat n) bs) else None.

Definition parse_field (bs : bytes) : option (wire_field * bytes) :=
  '(tag, rest) ← read_varint bs;
  if (2 ^ 32 <=? tag) || (tag <? 8) then None else
  '(v, rest) ←
    (if tag mod 8 =? 0 then '(x, r) ← read_varint rest; Some (Varint x, r)
     else if tag mod 8 =? 1 then '(b, r) ← split_at 8 rest; Some (Fixed64 (le_combine b), r)
     else if tag mod 8 =? 2 then '(n, r) ← read_varint rest; '(b, r) ← split_at n r; Some (Len b, r)
     else if tag mod 8 =? 5 then '(b, r) ← split_at 4 rest; Some (Fixed32 (le_combine b), r)
     else None);
  Some ((tag / 8, v), rest).

Fixpoint parse_fields (fuel : nat) (bs : bytes) : option (list wire_field) :=
  match bs, fuel with
  | [], _ => Some []
  | _, O => None
  | _, S fuel => '(f, rest) ← parse_field bs; fs ← parse_fields fuel rest; Some (f :: fs)
  end.

(** Every field takes at least one byte. *)
Definition parse_wire (bs : bytes) : option (list wire_field) := parse_fields (length bs) bs.

(** The values of a field, in order. *)
Definition slot (fs : list wire_field) (n : Z) : list wval :=
  omap (λ f, if f.1 =? n then Some f.2 else None) fs.

(** The fields of a message in order, each with the values that carry it. *)
Definition put (l : list (Z * list wval)) : list wire_field :=
  l ≫= λ '(n, vs), pair n <$> vs.

(** * The scalar types *)

Definition as_varint (v : wval) : option Z := match v with Varint n => Some n | _ => None end.
Definition as_len (v : wval) : option bytes := match v with Len b => Some b | _ => None end.
Definition as_fixed32 (v : wval) : option Z := match v with Fixed32 n => Some n | _ => None end.

(** What goes out: defaults are left out. *)
Definition put_uint (n : Z) : list wval := if n =? 0 then [] else [Varint n].
(** Enumerations are sign-extended to 64 bits. *)
Definition put_enum (n : Z) : list wval := put_uint (u64 n).
Definition put_bool (b : bool) : list wval := if b then [Varint 1] else [].
Definition put_bytes (b : bytes) : list wval := match b with [] => [] | _ => [Len b] end.
Definition put_text (s : string) : list wval := put_bytes (String.list_byte_of_string s).

(** binary32: the bits of a float; a NaN has the bits of the quiet one. *)
Definition float_bits (f : spec_float) : Z :=
  let sign (s : bool) := if s then 2 ^ 31 else 0 in
  match f with
  | S754_zero s => sign s
  | S754_infinity s => sign s + 255 * 2 ^ 23
  | S754_nan => 255 * 2 ^ 23 + 2 ^ 22
  | S754_finite s m e =>
      sign s + (if Zpos m <? 2 ^ 23 then Zpos m else (e + 150) * 2 ^ 23 + (Zpos m - 2 ^ 23))
  end.

Definition bits_float (b : Z) : spec_float :=
  let s := 2 ^ 31 <=? b in
  let ex := (b / 2 ^ 23) mod 256 in
  let ma := b mod 2 ^ 23 in
  if ex =? 0 then (if ma =? 0 then S754_zero s else S754_finite s (Z.to_pos ma) (-149))
  else if ex =? 255 then (if ma =? 0 then S754_infinity s else S754_nan)
  else S754_finite s (Z.to_pos (ma + 2 ^ 23)) (ex - 150).

Definition put_float (f : spec_float) : list wval :=
  if float_bits f =? 0 then [] else [Fixed32 (float_bits f)].

(** Repeated numbers are packed. *)
Definition put_packed (ns : list Z) : list wval := put_bytes (concat (varint <$> ns)).
Definition put_message (l : list (Z * list wval)) : list wval := [Len (print_wire (put l))].
Definition put_messages {A} (f : A → list (Z * list wval)) (l : list A) : list wval :=
  l ≫= λ m, put_message (f m).

(** * Reading

    A known field with another wire type: the C++ classes skip it as an unknown
    field, prost refuses the message ([strict]). *)
Section Reader.
Context (strict : bool).

Definition views {A} (view : wval → option A) (vs : list wval) : option (list A) :=
  if strict then mapM view vs else Some (omap view vs).

(** Of several values the last one counts. *)
Definition latest {A} (view : wval → option A) (d : A) (vs : list wval) : option A :=
  l ← views view vs; Some (default d (last l)).

Definition get_u64 (vs : list wval) : option Z := latest as_varint 0 vs.
Definition get_u32 (vs : list wval) : option Z := n ← get_u64 vs; Some (u32 n).
Definition get_enum (vs : list wval) : option Z := n ← get_u64 vs; Some (i32 n).
Definition get_bool (vs : list wval) : option bool := n ← get_u64 vs; Some (negb (n =? 0)).
Definition get_bytes (vs : list wval) : option bytes := latest as_len [] vs.
Definition get_float (vs : list wval) : option spec_float :=
  b ← latest as_fixed32 0 vs; Some (bits_float b).

(** Text that is not UTF-8 makes the message malformed. *)
Definition get_text (vs : list wval) : option string :=
  bs ← views as_len vs;
  let ss := String.string_of_list_byte <$> bs in
  if forallb valid_utf8 ss then Some (default EmptyString (last ss)) else None.

(** Repeated numbers are read packed or one by one. *)
Fixpoint parse_varints (fuel : nat) (bs : bytes) : option (list Z) :=
  match bs, fuel with
  | [], _ => Some []
  | _, O => None
  | _, S fuel => '(n, rest) ← read_varint bs; ns ← parse_varints fuel rest; Some (n :: ns)
  end.

Definition unpack (v : wval) : option (list Z) :=
  match v with
  | Varint n => Some [n]
  | Len b => parse_varints (length b) b
  | _ => if strict then None else Some []
  end.
Definition get_packed (conv : Z → Z) (vs : list wval) : option (list Z) :=
  nss ← mapM unpack vs; Some (conv <$> concat nss).

(** Occurrences of a singular sub-message are merged. *)
Definition get_message {A} (get : (Z → list wval) → option A) (vs : list wval) : option A :=
  bs ← views as_len vs; fss ← mapM parse_wire bs; get (slot (concat fss)).
Definition get_messages {A} (get : (Z → list wval) → option A) (vs : list wval) : option (list A) :=
  bs ← views as_len vs; mapM (λ b, fs ← parse_wire b; get (slot fs)) bs.

End Reader.

(** * The messages of the .proto file, field by field *)

Definition ClientHello_fields (m : ClientHello) : list (Z * list wval) :=
  [(1, put_uint (ch_protocol_version m)); (2, put_text (ch_client_id m));
   (3, put_packed (u64 <$> ch_supported_modes m)); (4, put_uint (ch_block_size m))].

Definition ClientHello_of (strict : bool) (f : Z → list wval) : option ClientHello :=
  protocol_version ← get_u32 strict (f 1); client_id ← get_text strict (f 2);
  supported_modes ← get_packed strict i32 (f 3); block_size ← get_u32 strict (f 4);
  Some (mkClientHello protocol_version client_id supported_modes block_size).

Definition ServerHello_fields (m : ServerHello) : list (Z * list wval) :=
  [(1, put_uint (sh_protocol_version m)); (2, put_text (sh_server_id m));
   (3, put_packed (u64 <$> sh_supported_modes m));
   (4, put_uint (sh_max_concurrent_transfers m)); (5, put_uint (sh_max_file_size m));
   (6, put_uint (sh_block_size m))].

Definition ServerHello_of (strict : bool) (f : Z → list wval) : option ServerHello :=
  protocol_version ← get_u32 strict (f 1); server_id ← get_text strict (f 2);
  supported_modes ← get_packed strict i32 (f 3); max_concurrent_transfers ← get_u32 strict (f 4);
  max_file_size ← get_u64 strict (f 5); block_size ← get_u32 strict (f 6);
  Some (mkServerHello protocol_version server_id supported_modes max_concurrent_transfers max_file_size block_size).

Definition FileMetadata_fields (m : FileMetadata) : list (Z * list wval) :=
  [(1, put_text (md_relative_path m)); (2, put_uint (md_file_size m));
   (3, put_uint (md_last_modified_ns m)); (4, put_text (md_sha256_hash m));
   (5, put_enum (md_file_mode m))].

Definition FileMetadata_of (strict : bool) (f : Z → list wval) : option FileMetadata :=
  relative_path ← get_text strict (f 1); file_size ← get_u64 strict (f 2); last_modified_ns ← get_u64 strict (f 3);
  sha256_hash ← get_text strict (f 4); file_mode ← get_enum strict (f 5);
  Some (mkFileMetadata relative_path file_size last_modified_ns sha256_hash file_mode).

Definition NegotiationRequest_fields (m : NegotiationRequest) : list (Z * list wval) :=
  [(1, put_text (nq_relative_path m)); (2, put_uint (nq_client_file_size m));
   (3, put_uint (nq_client_last_modified_ns m)); (4, put_text (nq_client_sha256_hash m))].

Definition NegotiationRequest_of (strict : bool) (f : Z → list wval) : option NegotiationRequest :=
  relative_path ← get_text strict (f 1); client_file_size ← get_u64 strict (f 2);
  client_last_modified_ns ← get_u64 strict (f 3); client_sha256_hash ← get_text strict (f 4);
  Some (mkNegotiationRequest relative_path client_file_size client_last_modified_ns client_sha256_hash).

Definition NegotiationResponse_fields (m : NegotiationResponse) : list (Z * list wval) :=
  [(1, put_enum (nr_file_mode m)); (2, put_enum (nr_transfer_mode m));
   (3, put_uint (nr_server_file_size m)); (4, put_text (nr_server_sha256_hash m));
   (5, put_uint (nr_block_size m))].

Definition NegotiationResponse_of (strict : bool) (f : Z → list wval) : option NegotiationResponse :=
  file_mode ← get_enum strict (f 1); transfer_mode ← get_enum strict (f 2); server_file_size ← get_u64 strict (f 3);
  server_sha256_hash ← get_text strict (f 4); block_size ← get_u32 strict (f 5);
  Some (mkNegotiationResponse file_mode transfer_mode server_file_size server_sha256_hash block_size).

Definition ZeroCopyDownloadRequest_fields (m : ZeroCopyDownloadRequest) : list (Z * list wval) :=
  [(1, put_text (dq_relative_path m)); (2, put_uint (dq_offset m))].

Definition ZeroCopyDownloadRequest_of (strict : bool) (f : Z → list wval) : option ZeroCopyDownloadRequest :=
  relative_path ← get_text strict (f 1); offset ← get_u64 strict (f 2);
  Some (mkZeroCopyDownloadRequest relative_path offset).

Definition ZeroCopyDownloadHeader_fields (m : ZeroCopyDownloadHeader) : list (Z * list wval) :=
  [(1, put_text (dl_relative_path m)); (2, put_uint (dl_total_size m));
   (3, put_text (dl_sha256_hash m)); (4, put_uint (dl_offset m))].

Definition ZeroCopyDownloadHeader_of (strict : bool) (f : Z → list wval) : option ZeroCopyDownloadHeader :=
  relative_path ← get_text strict (f 1); total_size ← get_u64 strict (f 2); sha256_hash ← get_text strict (f 3);
  offset ← get_u64 strict (f 4);
  Some (mkZeroCopyDownloadHeader relative_path total_size sha256_hash offset).

Definition ZeroCopyUploadRequest_fields (m : ZeroCopyUploadRequest) : list (Z * list wval) :=
  [(1, put_message (FileMetadata_fields (uq_metadata m)))].

Definition ZeroCopyUploadRequest_of (strict : bool) (f : Z → list wval) : option ZeroCopyUploadRequest :=
  metadata ← get_message strict (FileMetadata_of strict) (f 1);
  Some (mkZeroCopyUploadRequest metadata).

Definition ZeroCopyUploadAck_fields (m : ZeroCopyUploadAck) : list (Z * list wval) :=
  [(1, put_enum (ua_status m)); (2, put_text (ua_error_message m)); (3, put_uint (ua_offset m))].

Definition ZeroCopyUploadAck_of (strict : bool) (f : Z → list wval) : option ZeroCopyUploadAck :=
  status ← get_enum strict (f 1); error_message ← get_text strict (f 2); offset ← get_u64 strict (f 3);
  Some (mkZeroCopyUploadAck status error_message offset).

Definition BlockSignature_fields (m : BlockSignature) : list (Z * list wval) :=
  [(1, put_uint (bg_block_index m)); (2, put_uint (bg_rolling_hash m));
   (3, put_text (bg_strong_hash m)); (4, put_uint (bg_block_offset m));
   (5, put_uint (bg_block_size m))].

Definition BlockSignature_of (strict : bool) (f : Z → list wval) : option BlockSignature :=
  block_index ← get_u32 strict (f 1); rolling_hash ← get_u32 strict (f 2); strong_hash ← get_text strict (f 3);
  block_offset ← get_u64 strict (f 4); block_size ← get_u32 strict (f 5);
  Some (mkBlockSignature block_index rolling_hash strong_hash block_offset block_size).

Definition DeltaSyncSignatureRequest_fields (m : DeltaSyncSignatureRequest) : list (Z * list wval) :=
  [(1, put_text (sq_relative_path m)); (2, put_uint (sq_file_size m));
   (3, put_uint (sq_block_size m)); (4, put_messages BlockSignature_fields (sq_signatures m))].

Definition DeltaSyncSignatureRequest_of (strict : bool) (f : Z → list wval) : option DeltaSyncSignatureRequest :=
  relative_path ← get_text strict (f 1); file_size ← get_u64 strict (f 2); block_size ← get_u32 strict (f 3);
  signatures ← get_messages strict (BlockSignature_of strict) (f 4);
  Some (mkDeltaSyncSignatureRequest relative_path file_size block_size signatures).

Definition DeltaSyncBlockRequest_fields (m : DeltaSyncBlockRequest) : list (Z * list wval) :=
  [(1, put_text (br_relative_path m)); (2, put_packed (br_requested_block_indices m))].

Definition DeltaSyncBlockRequest_of (strict : bool) (f : Z → list wval) : option DeltaSyncBlockRequest :=
  relative_path ← get_text strict (f 1); requested_block_indices ← get_packed strict u32 (f 2);
  Some (mkDeltaSyncBlockRequest relative_path requested_block_indices).

Definition DeltaSyncBlockData_fields (m : DeltaSyncBlockData) : list (Z * list wval) :=
  [(1, put_text (bd_relative_path m)); (2, put_uint (bd_block_index m));
   (3, put_uint (bd_block_offset m)); (4, put_bytes (bd_data m));
   (5, put_text (bd_strong_hash m))].

Definition DeltaSyncBlockData_of (strict : bool) (f : Z → list wval) : option DeltaSyncBlockData :=
  relative_path ← get_text strict (f 1); block_index ← get_u32 strict (f 2); block_offset ← get_u64 strict (f 3);
  data ← get_bytes strict (f 4); strong_hash ← get_text strict (f 5);
  Some (mkDeltaSyncBlockData relative_path block_index block_offset data strong_hash).

Definition DeltaSyncComplete_fields (m : DeltaSyncComplete) : list (Z * list wval) :=
  [(1, put_text (dc_relative_path m)); (2, put_enum (dc_status m));
   (3, put_text (dc_error_message m)); (4, put_text (dc_final_sha256_hash m))].

Definition DeltaSyncComplete_of (strict : bool) (f : Z → list wval) : option DeltaSyncComplete :=
  relative_path ← get_text strict (f 1); status ← get_enum strict (f 2); error_message ← get_text strict (f 3);
  final_sha256_hash ← get_text strict (f 4);
  Some (mkDeltaSyncComplete relative_path status error_message final_sha256_hash).

Definition ListFilesRequest_fields (m : ListFilesRequest) : list (Z * list wval) :=
  [(1, put_text (lq_directory_prefix m)); (2, put_bool (lq_recursive m))].

Definition ListFilesRequest_of (strict : bool) (f : Z → list wval) : option ListFilesRequest :=
  directory_prefix ← get_text strict (f 1); recursive ← get_bool strict (f 2);
  Some (mkListFilesRequest directory_prefix recursive).

Definition ListFilesResponse_fields (m : ListFilesResponse) : list (Z * list wval) :=
  [(1, put_messages FileMetadata_fields (lr_files m))].

Definition ListFilesResponse_of (strict : bool) (f : Z → list wval) : option ListFilesResponse :=
  files ← get_messages strict (FileMetadata_of strict) (f 1);
  Some (mkListFilesResponse files).

Definition ErrorPayload_fields (m : ErrorPayload) : list (Z * list wval) :=
  [(1, put_enum (er_code m)); (2, put_text (er_message m)); (3, put_text (er_detail m))].

Definition ErrorPayload_of (strict : bool) (f : Z → list wval) : option ErrorPayload :=
  code ← get_enum strict (f 1); message ← get_text strict (f 2); detail ← get_text strict (f 3);
  Some (mkErrorPayload code message detail).

Definition ProgressUpdate_fields (m : ProgressUpdate) : list (Z * list wval) :=
  [(1, put_text (pu_relative_path m)); (2, put_uint (pu_bytes_transferred m));
   (3, put_uint (pu_bytes_total m)); (4, put_float (pu_rate_mbps m));
   (5, put_uint (pu_elapsed_ms m))].

Definition ProgressUpdate_of (strict : bool) (f : Z → list wval) : option ProgressUpdate :=
  relative_path ← get_text strict (f 1); bytes_transferred ← get_u64 strict (f 2);
  bytes_total ← get_u64 strict (f 3); rate_mbps ← get_float strict (f 4); elapsed_ms ← get_u32 strict (f 5);
  Some (mkProgressUpdate relative_path bytes_transferred bytes_total rate_mbps elapsed_ms).

Definition message_fields (k : kind) : msg k → list (Z * list wval) :=
  match k with
  | KClientHello => ClientHello_fields
  | KServerHello => ServerHello_fields
  | KNegotiationRequest => NegotiationRequest_fields
  | KNegotiationResponse => NegotiationResponse_fields
  | KZeroCopyDownloadRequest => ZeroCopyDownloadRequest_fields
  | KZeroCopyDownloadHeader => ZeroCopyDownloadHeader_fields
  | KZeroCopyUploadRequest => ZeroCopyUploadRequest_fields
  | KZeroCopyUploadAck => ZeroCopyUploadAck_fields
  | KDeltaSyncSignatureRequest => DeltaSyncSignatureRequest_fields
  | KDeltaSyncBlockRequest => DeltaSyncBlockRequest_fields
  | KDeltaSyncBlockData => DeltaSyncBlockData_fields
  | KDeltaSyncComplete => DeltaSyncComplete_fields
  | KListFilesRequest => ListFilesRequest_fields
  | KListFilesResponse => ListFilesResponse_fields
  | KErrorPayload => ErrorPayload_fields
  | KProgressUpdate => ProgressUpdate_fields
  end.

Definition message_of (strict : bool) (k : kind) : (Z → list wval) → option (msg k) :=
  match k with
  | KClientHello => ClientHello_of strict
  | KServerHello => ServerHello_of strict
  | KNegotiationRequest => NegotiationRequest_of strict
  | KNegotiationResponse => NegotiationResponse_of strict
  | KZeroCopyDownloadRequest => ZeroCopyDownloadRequest_of strict
  | KZeroCopyDownloadHeader => ZeroCopyDownloadHeader_of strict
  | KZeroCopyUploadRequest => ZeroCopyUploadRequest_of strict
  | KZeroCopyUploadAck => ZeroCopyUploadAck_of strict
  | KDeltaSyncSignatureRequest => DeltaSyncSignatureRequest_of strict
  | KDeltaSyncBlockRequest => DeltaSyncBlockRequest_of strict
  | KDeltaSyncBlockData => DeltaSyncBlockData_of strict
  | KDeltaSyncComplete => DeltaSyncComplete_of strict
  | KListFilesRequest => ListFilesRequest_of strict
  | KListFilesResponse => ListFilesResponse_of strict
  | KErrorPayload => ErrorPayload_of strict
  | KProgressUpdate => ProgressUpdate_of strict
  end.

(** [SerializeToArray] and [encode_to_vec]; [ParseFromArray] and [decode]. *)
Definition encode_message (k : kind) (m : msg k) : bytes := print_wire (put (message_fields k m)).
Definition decode_message (strict : bool) (k : kind) (bs : bytes) : option (msg k) :=
  fs ← parse_wire bs; message_of strict k (slot fs).

(** [ParseFromArray] with its size argument. *)
Definition proto3 : Codec := {|
  encoding := encode_message;
  parse k bs n := if n <? 0 then None else decode_message false k (take (Z.to_nat n) bs)
|}.
(** * Wire values come back *)

Definition varint_ok (n : Z) : Prop := 0 <= n < 2 ^ 64.

(** What a wire value holds: numbers of their width. *)
Definition value_ok (v : wval) : Prop :=
  match v with
  | Varint n | Fixed64 n => varint_ok n
  | Len _ => True
  | Fixed32 n => 0 <= n < 2 ^ 32
  end.
Definition field_ok (f : wire_field) : Prop := 0 < f.1 < 2 ^ 29 ∧ value_ok f.2.

Lemma unsigned_small z : 0 <= z < 256 → byte.unsigned (byte.of_Z z) = z.
Proof. intros Hz. rewrite byte.unsigned_of_Z. unfold byte.wrap. by apply Z.mod_small. Qed.

Lemma parse_print_varint fuel n rest : (0 < fuel)%nat → 0 <= n < 2 ^ (7 * Z.of_nat fuel) →
  parse_varint fuel (print_varint fuel n ++ rest) = Some (n, rest).
Proof.
  revert n. induction fuel as [|fuel IH]; intros n Hf Hn; [lia|].
  cbn [print_varint]. pose proof (Z.mod_pos_bound n 128). pose proof (Z.div_mod n 128).
  destruct (Z.ltb_spec n 128) as [Hs|Hs]; cbn [app parse_varint]; rewrite unsigned_small by lia.
  { by rewrite (proj2 (Z.ltb_lt _ _) Hs). }
  rewrite (proj2 (Z.ltb_ge _ _)) by lia.
  assert (1 <= n / 128 < 2 ^ (7 * Z.of_nat fuel)) as Hd.
  { split; [apply Z.div_le_lower_bound; lia|]. apply Z.div_lt_upper_bound; [lia|].
    replace (2 ^ (7 * Z.of_nat (S fuel))) with (128 * 2 ^ (7 * Z.of_nat fuel)) in Hn; [lia|].
    change 128 with (2 ^ 7). rewrite <- Z.pow_add_r by lia. f_equal. lia. }
  assert (0 < fuel)%nat as Hpos by (destruct fuel; simpl in Hd; lia).
  rewrite IH by lia. simpl. repeat f_equal. lia.
Qed.

Lemma read_varint_app n rest : varint_ok n → read_varint (varint n ++ rest) = Some (n, rest).
Proof.
  unfold varint_ok. intros Hn. unfold read_varint, varint.
  rewrite parse_print_varint by (change (2 ^ (7 * Z.of_nat 10)) with (2 ^ 64 * 2 ^ 6); lia).
  simpl. unfold u64. by rewrite Z.mod_small.
Qed.

Lemma split_at_app b rest : split_at (zlen b) (b ++ rest) = Some (b, rest).
Proof.
  unfold split_at, zlen. rewrite length_app, (proj2 (Z.leb_le _ _)) by lia.
  by rewrite Nat2Z.id, take_app_length, drop_app_length.
Qed.

Lemma split_at_app' n b rest : zlen b = n → split_at n (b ++ rest) = Some (b, rest).
Proof. intros <-. apply split_at_app. Qed.

(** A length fits a varint. *)
Definition len_ok (v : wval) : Prop :=
  match v with Len b => zlen b < 2 ^ 64 | _ => True end.

Lemma parse_print_field f rest : field_ok f → len_ok f.2 →
  parse_field (print_field f ++ rest) = Some (f, rest).
Proof.
  destruct f as [n v]. intros [Hn Hv] Hl. cbn [fst snd] in *.
  unfold print_field. rewrite <- app_assoc.
  assert (0 <= wire_type v < 8) as Ht by (destruct v; simpl; lia).
  unfold parse_field. rewrite read_varint_app by (unfold varint_ok; lia). cbn [mbind option_bind].
  rewrite (proj2 (Z.leb_gt _ _)) by lia. rewrite (proj2 (Z.ltb_ge _ _)) by lia. cbn [orb].
  replace ((n * 8 + wire_type v) mod 8) with (wire_type v)
    by (rewrite Z.add_comm, Z.mod_add by lia; by rewrite Z.mod_small).
  replace ((n * 8 + wire_type v) / 8) with n
    by (rewrite Z.add_comm, Z.div_add by lia; rewrite Z.div_small; lia).
  destruct v; cbn [wire_type Z.eqb Pos.eqb value_ok len_ok] in *; rewrite <- ?app_assoc.
  - by rewrite read_varint_app.
  - rewrite split_at_app' by (unfold zlen; by rewrite length_le_split). simpl mbind.
    by rewrite le_combine_split_small.
  - rewrite read_varint_app by (pose proof (zlen_nonneg b); unfold varint_ok; lia). simpl mbind.
    by rewrite split_at_app.
  - rewrite split_at_app' by (unfold zlen; by rewrite length_le_split). simpl mbind.
    by rewrite le_combine_split_small.
Qed.

Lemma varint_nonempty n : (0 < length (varint n))%nat.
Proof. unfold varint. cbn [print_varint]. destruct (n <? 128); simpl; lia. Qed.

Lemma print_field_nonempty f : (0 < length (print_field f))%nat.
Proof.
  destruct f as [n v]. unfold print_field. rewrite length_app.
  pose proof (varint_nonempty (n * 8 + wire_type v)). lia.
Qed.

(** A list of fields comes back from its bytes. *)
Lemma parse_fields_print fs fuel : Forall field_ok fs → Forall (λ f, len_ok f.2) fs →
  (length (print_wire fs) <= fuel)%nat → parse_fields fuel (print_wire fs) = Some fs.
Proof.
  intros Hf Hl. revert fuel. unfold print_wire.
  induction fs as [|f fs IH]; intros fuel Hfuel; [by destruct fuel|].
  inversion Hf; inversion Hl; subst. cbn [fmap list_fmap concat] in *.
  pose proof (print_field_nonempty f) as Hne. rewrite length_app in Hfuel.
  pose proof (parse_print_field f (concat (print_field <$> fs))) as Hp.
  destruct fuel as [|fuel]; [lia|].
  destruct (print_field f ++ concat (print_field <$> fs)) as [|b r] eqn:E.
  { apply (f_equal length) in E. rewrite length_app in E. simpl in E. lia. }
  cbn [parse_fields]. rewrite Hp by done. cbn [mbind option_bind].
  rewrite IH by (done || lia). done.
Qed.

Lemma len_print_field n b : zlen b <= zlen (print_field (n, Len b)).
Proof. unfold print_field, zlen. rewrite !length_app. lia. Qed.

Lemma print_wire_elem f fs : f ∈ fs → zlen (print_field f) <= zlen (print_wire fs).
Proof.
  intros [fs1 [fs2 ->]]%list_elem_of_split. unfold print_wire, zlen.
  rewrite fmap_app, fmap_cons, concat_app, length_app. cbn [concat]. rewrite length_app. lia.
Qed.

Lemma parse_wire_print fs : Forall field_ok fs → zlen (print_wire fs) < 2 ^ 64 →
  parse_wire (print_wire fs) = Some fs.
Proof.
  intros Hf Hs. apply parse_fields_print; [done| |done].
  apply Forall_forall. intros [n v] Hin. pose proof (print_wire_elem _ _ Hin).
  destruct v; simpl; try done. pose proof (len_print_field n b). lia.
Qed.

(** * Fields find their values *)

Lemma slot_put n m vs l :
  slot (put ((m, vs) :: l)) n = (if m =? n then vs else []) ++ slot (put l) n.
Proof.
  change (put ((m, vs) :: l)) with ((pair m <$> vs) ++ put l).
  unfold slot. rewrite omap_app. f_equal.
  induction vs as [|v vs IH]; [by destruct (m =? n)|].
  cbn [fmap list_fmap omap list_omap fst snd]. rewrite IH. by destruct (m =? n).
Qed.

Lemma slot_put_nil n : slot (put []) n = [].
Proof. done. Qed.

Lemma put_ok l : Forall (λ x, 0 < x.1 < 2 ^ 29 ∧ Forall value_ok x.2) l → Forall field_ok (put l).
Proof.
  induction 1 as [|[n vs] l [Hn Hv] _ IH]; [constructor|].
  change (put ((n, vs) :: l)) with ((pair n <$> vs) ++ put l). apply Forall_app. split; [|done].
  apply Forall_fmap. eapply Forall_impl; [exact Hv|]. done.
Qed.

(** * Scalars come back *)

Lemma put_uint_ok n : varint_ok n → Forall value_ok (put_uint n).
Proof. unfold put_uint. intros. destruct (n =? 0); auto using Forall_nil, Forall_cons. Qed.
Lemma put_enum_ok n : Forall value_ok (put_enum n).
Proof. apply put_uint_ok. unfold varint_ok, u64. apply Z.mod_pos_bound. lia. Qed.
Lemma put_bool_ok b : Forall value_ok (put_bool b).
Proof. destruct b; repeat constructor. lia. Qed.
Lemma put_bytes_ok b : Forall value_ok (put_bytes b).
Proof. destruct b; repeat constructor. Qed.
Lemma put_message_ok l : Forall value_ok (put_message l).
Proof. repeat constructor. Qed.
Lemma put_messages_ok {A} (f : A → _) l : Forall value_ok (put_messages f l).
Proof. unfold put_messages. induction l; repeat constructor. done. Qed.

(** Both readers see the values that were put. *)
Section ReaderFacts.
Context (strict : bool).

Lemma views_none {A} (view : wval → option A) : views strict view [] = Some [].
Proof. by destruct strict. Qed.
Lemma views_one {A} (view : wval → option A) v a : view v = Some a → views strict view [v] = Some [a].
Proof. intros Hv. unfold views. destruct strict; simpl; by rewrite Hv. Qed.

Lemma get_put_u64 n : get_u64 strict (put_uint n) = Some n.
Proof.
  unfold get_u64, latest, put_uint. destruct (Z.eqb_spec n 0) as [->|]; [by rewrite views_none|].
  by rewrite (views_one _ _ n).
Qed.
Lemma get_put_u32 n : is_u32 n → get_u32 strict (put_uint n) = Some n.
Proof. intros Hn. unfold get_u32. rewrite get_put_u64. simpl. unfold u32. by rewrite Z.mod_small. Qed.

Lemma i32_u64 n : is_enum n → i32 (u64 n) = n.
Proof.
  unfold is_enum, i32, u64. intros Hn. change (2 ^ 64) with (2 ^ 32 * 2 ^ 32).
  rewrite <- Z.add_mod_idemp_l by lia. rewrite Z.rem_mul_r by lia.
  rewrite (Z.mul_comm (2 ^ 32) (_ mod _)), Z_mod_plus_full, Z.mod_mod by lia.
  rewrite Z.add_mod_idemp_l by lia. rewrite Z.mod_small; lia.
Qed.

Lemma get_put_enum n : is_enum n → get_enum strict (put_enum n) = Some n.
Proof. intros Hn. unfold get_enum, put_enum. rewrite get_put_u64. simpl. by rewrite i32_u64. Qed.
Lemma get_put_bool b : get_bool strict (put_bool b) = Some b.
Proof. destruct strict; by destruct b. Qed.

Lemma views_bytes b : views strict as_len (put_bytes b) = Some (match b with [] => [] | _ => [b] end).
Proof. destruct b as [|x b]; [by apply views_none|by apply views_one]. Qed.
Lemma get_put_bytes b : get_bytes strict (put_bytes b) = Some b.
Proof. unfold get_bytes, latest. rewrite views_bytes. by destruct b. Qed.

Lemma get_put_text s : is_text s → get_text strict (put_text s) = Some s.
Proof.
  intros Hs. unfold get_text, put_text. rewrite views_bytes.
  pose proof (String.string_of_list_byte_of_string s) as E.
  destruct (String.list_byte_of_string s) as [|b bs]; [by rewrite <- E|].
  cbn [mbind option_bind fmap list_fmap forallb]. by rewrite E, Hs.
Qed.

End ReaderFacts.

Lemma digits_bounds p : 2 ^ (Zpos (digits2_pos p) - 1) <= Zpos p < 2 ^ Zpos (digits2_pos p).
Proof.
  induction p as [p IH|p IH|]; cbn [digits2_pos]; [| |simpl; lia];
    rewrite Pos2Z.inj_succ; unfold Z.succ;
    replace (Zpos (digits2_pos p) + 1 - 1) with (Zpos (digits2_pos p) - 1 + 1) by lia;
    rewrite !Z.pow_add_r by lia; lia.
Qed.

(** A finite binary32: subnormal with the least exponent, or 24 digits. *)
Lemma bounded_binary32 m e : bounded 24 128 m e = true →
  (e = -149 ∧ Zpos m < 2 ^ 23) ∨ (-149 <= e <= 104 ∧ 2 ^ 23 <= Zpos m < 2 ^ 24).
Proof.
  unfold bounded, canonical_mantissa, fexp, emin. intros [Hc He]%andb_prop.
  apply Z.eqb_eq in Hc. apply Z.leb_le in He. pose proof (digits_bounds m) as [Hl Hu].
  destruct (decide (Zpos (digits2_pos m) <= 23)) as [Hd|Hd].
  - left. split; [lia|]. eapply Z.lt_le_trans; [exact Hu|]. apply Z.pow_le_mono_r; lia.
  - right. assert (Zpos (digits2_pos m) = 24) as E by lia. rewrite E in *. simpl in *. lia.
Qed.

Lemma float_bits_range f : valid_binary 24 128 f = true → 0 <= float_bits f < 2 ^ 32.
Proof.
  destruct f as [[]|[]| |s m e]; unfold float_bits; try lia. intros Hb%bounded_binary32.
  destruct s, (Z.ltb_spec (Zpos m) (2 ^ 23)); lia.
Qed.

Lemma sign_bits (s : bool) x : 0 <= x < 2 ^ 31 →
  let b := (if s then 2 ^ 31 else 0) + x in
  (2 ^ 31 <=? b) = s ∧ (b / 2 ^ 23) mod 256 = x / 2 ^ 23 ∧ b mod 2 ^ 23 = x mod 2 ^ 23.
Proof.
  intros Hx b. subst b.
  assert (0 <= x / 2 ^ 23 < 256) by (split; [apply Z.div_pos; lia|apply Z.div_lt_upper_bound; lia]).
  destruct s.
  - replace (2 ^ 31 + x) with (x + 256 * 2 ^ 23) by lia. split_and!.
    + apply Z.leb_le. lia.
    + rewrite Z.div_add by lia. replace 256 with (1 * 256) at 1 by lia.
      rewrite Z.mod_add by lia. by apply Z.mod_small.
    + by rewrite Z.mod_add by lia.
  - rewrite Z.add_0_l. split_and!; [apply Z.leb_gt; lia|by apply Z.mod_small|done].
Qed.

Lemma bits_float_bits f : valid_binary 24 128 f = true → bits_float (float_bits f) = f.
Proof.
  destruct f as [[]|[]| |s m e]; try done. intros Hb%bounded_binary32. unfold float_bits.
  set (x := if Zpos m <? 2 ^ 23 then _ else _).
  assert (0 <= x < 2 ^ 31) as Hx by (subst x; destruct (Z.ltb_spec (Zpos m) (2 ^ 23)); lia).
  unfold bits_float. destruct (sign_bits s x Hx) as (-> & -> & ->). subst x.
  destruct (Z.ltb_spec (Zpos m) (2 ^ 23)) as [Hm|Hm].
  - rewrite Z.div_small, Z.mod_small by lia. cbn [Z.eqb].
    destruct Hb as [[-> _]|]; [done|lia].
  - rewrite Z.add_comm, Z.div_add, Z.mod_add by lia. rewrite Z.div_small, Z.mod_small by lia.
    rewrite (proj2 (Z.eqb_neq _ 0)), (proj2 (Z.eqb_neq _ 255)) by lia.
    f_equal; [|lia]. replace (Zpos m - 2 ^ 23 + 2 ^ 23) with (Zpos m) by lia. done.
Qed.

Lemma put_float_ok f : valid_binary 24 128 f = true → Forall value_ok (put_float f).
Proof.
  intros Hf%float_bits_range. unfold put_float. destruct (_ =? 0); repeat constructor; apply Hf.
Qed.

Lemma get_put_float strict f : valid_binary 24 128 f = true → get_float strict (put_float f) = Some f.
Proof.
  intros Hf. unfold get_float, put_float, latest. rewrite <- (bits_float_bits f Hf) at 3.
  destruct (Z.eqb_spec (float_bits f) 0) as [E|]; [by rewrite views_none, E|].
  by rewrite (views_one _ _ _ (float_bits f)).
Qed.

(** * Repeated fields and sub-messages come back *)

Lemma fmap_same (f : Z → Z) ns : Forall (λ n, f n = n) ns → f <$> ns = ns.
Proof. induction 1 as [|n ns Hn _ IH]; [done|]. cbn [fmap list_fmap]. by f_equal. Qed.

Lemma parse_varints_concat ns fuel : Forall varint_ok ns →
  (length (concat (varint <$> ns)) <= fuel)%nat → parse_varints fuel (concat (varint <$> ns)) = Some ns.
Proof.
  intros Hn. revert fuel. induction Hn as [|n ns Hn _ IH]; intros fuel Hf; [by destruct fuel|].
  cbn [fmap list_fmap concat] in *. pose proof (varint_nonempty n). rewrite length_app in Hf.
  pose proof (read_varint_app n (concat (varint <$> ns)) Hn) as Hr.
  destruct fuel as [|fuel]; [lia|].
  destruct (varint n ++ concat (varint <$> ns)) as [|b r] eqn:E.
  { apply (f_equal length) in E. rewrite length_app in E. simpl in E. lia. }
  cbn [parse_varints]. rewrite Hr. cbn [mbind option_bind]. by rewrite IH by lia.
Qed.

Lemma get_put_packed strict conv ns : Forall varint_ok ns →
  get_packed strict conv (put_packed ns) = Some (conv <$> ns).
Proof.
  intros Hn. pose proof (parse_varints_concat ns _ Hn (Nat.le_refl _)) as Hp.
  unfold put_packed, get_packed. destruct (concat (varint <$> ns)) as [|b bs] eqn:E.
  - by injection Hp as <-.
  - cbn [put_bytes mapM unpack]. rewrite Hp. simpl. by rewrite app_nil_r.
Qed.

Lemma get_put_packed_u32 strict ns : Forall is_u32 ns → get_packed strict u32 (put_packed ns) = Some ns.
Proof.
  intros Hn. rewrite get_put_packed.
  - f_equal. apply fmap_same. eapply Forall_impl; [exact Hn|]. intros n Hr. by apply Z.mod_small.
  - eapply Forall_impl; [exact Hn|]. unfold is_u32, varint_ok. lia.
Qed.

Lemma get_put_packed_enum strict ns : Forall is_enum ns →
  get_packed strict i32 (put_packed (u64 <$> ns)) = Some ns.
Proof.
  intros Hn. rewrite get_put_packed.
  - f_equal. rewrite <- list_fmap_compose. apply fmap_same. eapply Forall_impl; [exact Hn|]. apply i32_u64.
  - apply Forall_fmap, Forall_true. intros n. unfold varint_ok, u64. simpl. apply Z.mod_pos_bound. lia.
Qed.

(** A message type whose fields come back from the wire. *)
Class Faithful {A} (fields : A → list (Z * list wval)) (of_fields : (Z → list wval) → option A)
    (wf : A → Prop) : Prop := {
  fields_ok : ∀ m, wf m → Forall field_ok (put (fields m));
  fields_back : ∀ m, wf m → zlen (print_wire (put (fields m))) < 2 ^ 64 →
    of_fields (slot (put (fields m))) = Some m
}.

Section Faithful.
Context {strict : bool} {A} `{@Faithful A fields of_fields wf}.

Lemma message_back m : wf m → zlen (print_wire (put (fields m))) < 2 ^ 64 →
  (fs ← parse_wire (print_wire (put (fields m))); of_fields (slot fs)) = Some m.
Proof.
  intros Hm Hs. rewrite parse_wire_print by (done || by apply fields_ok). by apply fields_back.
Qed.

Lemma get_put_message m : wf m → zlen (print_wire (put (fields m))) < 2 ^ 64 →
  get_message strict of_fields (put_message (fields m)) = Some m.
Proof.
  intros Hm Hs. unfold get_message, put_message. erewrite views_one by done. cbn [mbind option_bind mapM].
  rewrite parse_wire_print by (done || by apply fields_ok). simpl. rewrite app_nil_r. by apply fields_back.
Qed.

Lemma get_put_messages l : Forall wf l → Forall (λ m, zlen (print_wire (put (fields m))) < 2 ^ 64) l →
  get_messages strict of_fields (put_messages fields l) = Some l.
Proof.
  intros Hl Hs. unfold get_messages.
  assert (views strict as_len (put_messages fields l) = Some ((λ m, print_wire (put (fields m))) <$> l)) as ->.
  { clear Hl Hs. induction l as [|m l IH]; [by destruct strict|].
    change (put_messages fields (m :: l)) with (Len (print_wire (put (fields m))) :: put_messages fields l).
    unfold views in *. destruct strict; cbn [mapM omap list_omap as_len mbind option_bind]; [by rewrite IH|].
    by injection IH as ->. }
  cbn [mbind option_bind]. apply mapM_fmap_Forall_Some. apply Forall_forall. intros m Hm.
  rewrite Forall_forall in Hl, Hs. by apply message_back; [apply Hl|apply Hs].
Qed.

End Faithful.

(** What a field holds is shorter than the message. *)
Lemma field_shorter n vs l b : (n, vs) ∈ l → Len b ∈ vs → zlen b <= zlen (print_wire (put l)).
Proof.
  intros Hl Hb. etrans; [apply (len_print_field n)|]. apply print_wire_elem.
  apply list_elem_of_bind. exists (n, vs). split; [|done]. apply list_elem_of_fmap. eauto.
Qed.

Lemma messages_shorter {A} (f : A → list (Z * list wval)) n l0 (l : list A) :
  (n, put_messages f l) ∈ l0 → zlen (print_wire (put l0)) < 2 ^ 64 →
  Forall (λ m, zlen (print_wire (put (f m))) < 2 ^ 64) l.
Proof.
  intros Hl Hs. apply Forall_forall. intros m Hm. eapply Z.le_lt_trans; [|exact Hs].
  eapply field_shorter; [exact Hl|]. apply list_elem_of_bind. exists m. split; [|done].
  by apply list_elem_of_singleton.
Qed.

Create HintDb proto3.
Lemma is_u32_varint n : is_u32 n → varint_ok n.
Proof. unfold is_u32, varint_ok. lia. Qed.
#[export] Hint Resolve put_uint_ok put_enum_ok put_bool_ok put_bytes_ok put_message_ok
  put_messages_ok put_float_ok is_u32_varint : proto3.
#[export] Hint Unfold put_text put_packed is_u64 : proto3.
#[export] Hint Extern 1 (varint_ok _) => assumption : proto3.

(** A flat message: each field is read from its own number. *)
Ltac faithful :=
  constructor; intros m; cbn [msg_wf];
  [ intros; destruct_and?; apply put_ok; repeat constructor; eauto with proto3
  | intros; destruct_and?;
    match goal with |- ?g _ (slot (put (?f _))) = _ => unfold g, f end;
    rewrite ?slot_put, ?slot_put_nil; cbn [Z.eqb Pos.eqb app] in *; rewrite ?app_nil_r;
    repeat first [rewrite get_put_u32 by done | rewrite get_put_u64 | rewrite get_put_enum by done
      | rewrite get_put_bool | rewrite get_put_bytes | rewrite get_put_text by done
      | rewrite get_put_float by done | rewrite get_put_packed_u32 by done
      | rewrite get_put_packed_enum by done];
    try by destruct m ].

#[export] Instance ClientHello_faithful strict :
  Faithful ClientHello_fields (ClientHello_of strict) (msg_wf KClientHello).
Proof. faithful. Qed.
#[export] Instance ServerHello_faithful strict :
  Faithful ServerHello_fields (ServerHello_of strict) (msg_wf KServerHello).
Proof. faithful. Qed.
#[export] Instance NegotiationRequest_faithful strict :
  Faithful NegotiationRequest_fields (NegotiationRequest_of strict) (msg_wf KNegotiationRequest).
Proof. faithful. Qed.
#[export] Instance NegotiationResponse_faithful strict :
  Faithful NegotiationResponse_fields (NegotiationResponse_of strict) (msg_wf KNegotiationResponse).
Proof. faithful. Qed.
#[export] Instance ZeroCopyDownloadRequest_faithful strict :
  Faithful ZeroCopyDownloadRequest_fields (ZeroCopyDownloadRequest_of strict) (msg_wf KZeroCopyDownloadRequest).
Proof. faithful. Qed.
#[export] Instance ZeroCopyDownloadHeader_faithful strict :
  Faithful ZeroCopyDownloadHeader_fields (ZeroCopyDownloadHeader_of strict) (msg_wf KZeroCopyDownloadHeader).
Proof. faithful. Qed.
#[export] Instance ZeroCopyUploadAck_faithful strict :
  Faithful ZeroCopyUploadAck_fields (ZeroCopyUploadAck_of strict) (msg_wf KZeroCopyUploadAck).
Proof. faithful. Qed.
#[export] Instance DeltaSyncBlockRequest_faithful strict :
  Faithful DeltaSyncBlockRequest_fields (DeltaSyncBlockRequest_of strict) (msg_wf KDeltaSyncBlockRequest).
Proof. faithful. Qed.
#[export] Instance DeltaSyncBlockData_faithful strict :
  Faithful DeltaSyncBlockData_fields (DeltaSyncBlockData_of strict) (msg_wf KDeltaSyncBlockData).
Proof. faithful. Qed.
#[export] Instance DeltaSyncComplete_faithful strict :
  Faithful DeltaSyncComplete_fields (DeltaSyncComplete_of strict) (msg_wf KDeltaSyncComplete).
Proof. faithful. Qed.
#[export] Instance ListFilesRequest_faithful strict :
  Faithful ListFilesRequest_fields (ListFilesRequest_of strict) (msg_wf KListFilesRequest).
Proof. faithful. Qed.
#[export] Instance ErrorPayload_faithful strict :
  Faithful ErrorPayload_fields (ErrorPayload_of strict) (msg_wf KErrorPayload).
Proof. faithful. Qed.
#[export] Instance ProgressUpdate_faithful strict :
  Faithful ProgressUpdate_fields (ProgressUpdate_of strict) (msg_wf KProgressUpdate).
Proof. faithful. Qed.

#[export] Instance FileMetadata_faithful strict :
  Faithful FileMetadata_fields (FileMetadata_of strict) metadata_wf.
Proof. unfold metadata_wf. faithful. Qed.
#[export] Instance BlockSignature_faithful strict :
  Faithful BlockSignature_fields (BlockSignature_of strict) signature_wf.
Proof. unfold signature_wf. faithful. Qed.

(** Messages with sub-messages. *)
#[export] Instance ZeroCopyUploadRequest_faithful strict :
  Faithful ZeroCopyUploadRequest_fields (ZeroCopyUploadRequest_of strict) (msg_wf KZeroCopyUploadRequest).
Proof.
  faithful. rewrite (get_put_message (wf := metadata_wf)); [by destruct m|done|].
  eapply Z.le_lt_trans; [|eassumption].
  apply (field_shorter 1 (put_message (FileMetadata_fields (uq_metadata m)))); by apply list_elem_of_singleton.
Qed.

#[export] Instance DeltaSyncSignatureRequest_faithful strict :
  Faithful DeltaSyncSignatureRequest_fields (DeltaSyncSignatureRequest_of strict)
    (msg_wf KDeltaSyncSignatureRequest).
Proof.
  faithful. rewrite (get_put_messages (wf := signature_wf)); [by destruct m|done|].
  eapply (messages_shorter _ 4); [|eassumption]. do 3 right. left.
Qed.

#[export] Instance ListFilesResponse_faithful strict :
  Faithful ListFilesResponse_fields (ListFilesResponse_of strict) (msg_wf KListFilesResponse).
Proof.
  faithful. rewrite (get_put_messages (wf := metadata_wf)); [by destruct m|done|].
  eapply (messages_shorter _ 1); [|eassumption]. left.
Qed.

#[export] Instance message_faithful strict k :
  Faithful (message_fields k) (message_of strict k) (msg_wf k).
Proof. destruct k; exact _. Qed.

(** * The laws of the codec *)

Lemma decode_encode strict k (m : msg k) : msg_wf k m → zlen (encode_message k m) <= INT_MAX →
  decode_message strict k (encode_message k m) = Some m.
Proof.
  intros Hm Hs. apply (message_back (wf := msg_wf k)); [done|].
  change (zlen (encode_message k m) < 2 ^ 64). unfold INT_MAX in Hs. lia.
Qed.

Lemma proto3_laws : @CodecLaws proto3.
Proof.
  constructor. cbn [encoding parse proto3]. intros k m Hm Hs.
  rewrite (proj2 (Z.ltb_ge _ _)) by apply zlen_nonneg. unfold zlen at 1.
  rewrite Nat2Z.id, firstn_all. by apply decode_encode.
Qed.

(** No message has a field beyond the sixth. *)
Lemma message_of_ext strict k (f g : Z → list wval) : (∀ n, 1 <= n <= 6 → f n = g n) →
  message_of strict k f = message_of strict k g.
Proof.
  intros H. destruct k; cbn [message_of];
    match goal with |- ?h _ f = _ => unfold h end; rewrite ?H by lia; done.
Qed.

Lemma slot_unknown fs extra n : Forall (λ f, 6 < f.1) extra → n <= 6 → slot (fs ++ extra) n = slot fs n.
Proof.
  intros He Hn. unfold slot. rewrite omap_app. rewrite <- (app_nil_r (omap _ fs)) at 2. f_equal.
  induction He as [|f extra Hf _ IH]; [done|]. cbn [omap list_omap] in *. rewrite IH.
  by rewrite (proj2 (Z.eqb_neq _ _)) by lia.
Qed.


(** A report of progress is little longer than the path in it, whatever its
    numbers are. *)
Lemma print_varint_size fuel : ∀ n, (length (print_varint fuel n) <= fuel)%nat.
Proof.
  induction fuel as [|fuel IH]; intros n; cbn [print_varint]; [done|].
  destruct (n <? 128); simpl; [lia|]. specialize (IH (n / 128)). lia.
Qed.

Definition value_size (v : wval) : Z := match v with Len b => 10 + zlen b | _ => 10 end.
Lemma print_field_size n v : zlen (print_field (n, v)) <= 10 + value_size v.
Proof.
  unfold print_field, zlen, varint. rewrite length_app.
  pose proof (print_varint_size 10 (n * 8 + wire_type v)).
  destruct v as [x|x|b|x]; cbn [value_size].
  - pose proof (print_varint_size 10 x). lia.
  - rewrite length_le_split. lia.
  - rewrite length_app. pose proof (print_varint_size 10 (zlen b)). unfold zlen in *. lia.
  - rewrite length_le_split. lia.
Qed.

Lemma print_wire_cons f fs : zlen (print_wire (f :: fs)) = zlen (print_field f) + zlen (print_wire fs).
Proof. unfold print_wire. cbn [fmap list_fmap concat]. apply zlen_app. Qed.

Lemma put_size n vs l x y : (length vs <= 1)%nat ∧ Forall (λ v, value_size v <= x) vs → 0 <= x →
  zlen (print_wire (put l)) <= y → zlen (print_wire (put ((n, vs) :: l))) <= 10 + x + y.
Proof.
  intros [Hn Hv] Hx Hy. change (put ((n, vs) :: l)) with ((pair n <$> vs) ++ put l).
  destruct vs as [|v [|]]; [simpl; lia| |simpl in Hn; lia]. cbn [fmap list_fmap app].
  rewrite print_wire_cons. inversion_clear Hv. pose proof (print_field_size n v). lia.
Qed.

Lemma progress_size m :
  zlen (encode_message KProgressUpdate m) <= zlen (String.list_byte_of_string (pu_relative_path m)) + 100.
Proof.
  unfold encode_message. cbn [message_fields]. unfold ProgressUpdate_fields.
  set (path := String.list_byte_of_string (pu_relative_path m)). pose proof (zlen_nonneg path).
  assert (∀ n, (length (put_uint n) <= 1)%nat ∧ Forall (λ v, value_size v <= 10) (put_uint n)) as Huint
    by (intros n; unfold put_uint; destruct (n =? 0); split; simpl; repeat constructor; simpl; lia).
  assert (∀ f, (length (put_float f) <= 1)%nat ∧ Forall (λ v, value_size v <= 10) (put_float f)) as Hfloat
    by (intros f; unfold put_float; destruct (_ =? 0); split; simpl; repeat constructor; simpl; lia).
  etrans; [apply (put_size _ _ _ (10 + zlen path) 80); [|lia|]|lia].
  { unfold put_text. fold path. destruct path; split; simpl; repeat constructor; simpl; lia. }
  apply (put_size _ _ _ 10 60), (put_size _ _ _ 10 40), (put_size _ _ _ 10 20), (put_size _ _ _ 10 0);
    done || lia || apply Huint || apply Hfloat.
Qed.

(** * Concrete encodings

    The examples of protobuf's documentation inside messages of this protocol: 150
    takes two bytes, text is prefixed with its length, repeated numbers are
    packed, and an enumeration below zero takes ten bytes. *)

Definition demo_wire_hello : ClientHello := mkClientHello 150 "testing" [1; -2] 0.
Definition of_codes : list Z → bytes := fmap byte.of_Z.

Example wire_hello : encode_message KClientHello demo_wire_hello =
  of_codes [0x08; 0x96; 0x01; 0x12; 0x07; 0x74; 0x65; 0x73; 0x74; 0x69; 0x6e; 0x67;
            0x1a; 0x0b; 0x01; 0xfe; 0xff; 0xff; 0xff; 0xff; 0xff; 0xff; 0xff; 0xff; 0x01].
Proof. vm_compute. reflexivity. Qed.

Example wire_blocks :
  encode_message KDeltaSyncBlockRequest (mkDeltaSyncBlockRequest "" [3; 270; 86942]) =
  of_codes [0x12; 0x06; 0x03; 0x8e; 0x02; 0x9e; 0xa7; 0x05].
Proof. vm_compute. reflexivity. Qed.

Example wire_rate : (* 1.0 MB/s *)
  encode_message KProgressUpdate (mkProgressUpdate "" 0 0 (S754_finite false (2 ^ 23) (-23)) 0) =
  of_codes [0x25; 0x00; 0x00; 0x80; 0x3f].
Proof. vm_compute. reflexivity. Qed.

(** Unpacked numbers are read too, the last of two singular values counts, and a
    message that ends inside a field is refused. *)
Example wire_unpacked : decode_message true KDeltaSyncBlockRequest (of_codes [0x10; 0x03; 0x10; 0x8e; 0x02]) =
  Some (mkDeltaSyncBlockRequest "" [3; 270]).
Proof. vm_compute. reflexivity. Qed.
Example wire_latest : decode_message true KZeroCopyDownloadRequest (of_codes [0x10; 0x03; 0x10; 0x04]) =
  Some (mkZeroCopyDownloadRequest "" 4).
Proof. vm_compute. reflexivity. Qed.
Example wire_cut : decode_message true KZeroCopyDownloadRequest (of_codes [0x0a; 0x03; 0x61; 0x62]) = None.
Proof. vm_compute. reflexivity. Qed.

