(* ===== verification/ZeroCopySender.v ===== *)
(** Downloads: src/server/src/zero_copy_sender.cpp.

    The Linux path ([sendfile]) and the portable path (read and send) are both
    modelled; the Windows path calls [TransmitFile], a service of the host. *)
From S2P Require Import Prelude Sha256 Paths FileSystem FileManager WireProtocol Proto Proto3 DeltaSync Negotiator.

(** What a download works on. *)
Record io_state := mkIo { io_fs : filesystem; io_socket : socket }.

Definition io_on_fs {A} : SM filesystem A → SM io_state A :=
  zoom io_fs (λ fs s, mkIo fs (io_socket s)).
Definition io_on_socket {A} : SM socket A → SM io_state A :=
  zoom io_socket (λ k s, mkIo (io_fs s) k).

(** [open(path, O_RDONLY)]: the content the descriptor gives access to. *)
Definition open_rdonly (p : string) : SM filesystem (option bytes) :=
  f ← next_fault;
  fs ← get_st;
  match f, lookup_node fs p with
  | Works, Some (File c _) => mret (Some c)
  | _, _ => mret None
  end.

(** [sendfile(out, in, &offset, count)]: the kernel moves at most [count] bytes
    from the offset on; EAGAIN is an interruption like EINTR. *)
Definition sendfile (content : bytes) (offset count : Z) : SM socket io_result :=
  let avail := drop (Z.to_nat offset) content in
  send (take (Z.to_nat (Z.min count MAX_RW_COUNT)) avail) (Z.min count MAX_RW_COUNT).

Definition SENDFILE_MAX : Z := 0x7FFFFF00.

Fixpoint send_file_linux_loop (fuel : nat) (content : bytes) (remaining file_offset : Z) : SM socket bool :=
  match fuel with
  | O => trap_with Diverges
  | S fuel' =>
      if 0 <? remaining then
        let chunk := Z.min remaining SENDFILE_MAX in
        r ← sendfile content file_offset chunk;
        match r with
        | IoData bs => send_file_linux_loop fuel' content (u64 (remaining - zlen bs)) (file_offset + zlen bs)
        | IoEintr => send_file_linux_loop fuel' content remaining file_offset
        | IoError => mret false
        end
      else mret true
  end.

Definition send_file_linux (content : bytes) (offset total_size : Z) : SM socket bool := λ s,
  send_file_linux_loop (S (tx_weight s (Z.to_nat total_size))) content total_size (i64 offset) s.

Definition BUFFER_SIZE : Z := 256 * 1024.

Fixpoint send_file_fallback_loop (fuel : nat) (content : bytes) (remaining pos : Z) : SM socket bool :=
  match fuel with
  | O => trap_with Diverges
  | S fuel' =>
      if 0 <? remaining then
        let to_read := Z.min remaining BUFFER_SIZE in
        let buffer := take (Z.to_nat to_read) (drop (Z.to_nat pos) content) in
        match buffer with
        | [] => mret false
        | _ =>
            sent ← write_exact buffer;
            if negb (sent =? zlen buffer) then mret false
            else send_file_fallback_loop fuel' content (u64 (remaining - zlen buffer)) (pos + zlen buffer)
        end
      else mret true
  end.

Definition send_file_fallback (content : bytes) (offset total_size : Z) : SM socket bool :=
  send_file_fallback_loop (S (Z.to_nat total_size)) content total_size
    (if 0 <? offset then i64 offset else 0).

Section Sender.
Context `{Host, Codec}.

(** The whole download; [linux] selects the platform's streaming routine. *)
Definition send_file (linux : bool) (fm : FileManager) (rel : string) (offset : Z) : SM io_state bool :=
  full_path ← lift (resolve_path fm rel);
  there ← io_on_fs (file_exists fm rel);
  if negb there then mret false else
  total_size ← io_on_fs (get_file_size fm rel);
  if total_size =? 0 then mret false else
  if total_size <=? offset then mret false else
  let bytes_to_send := u64 (total_size - offset) in
  hash ← io_on_fs (compute_sha256 fm rel);
  let header : msg KZeroCopyDownloadHeader := mkZeroCopyDownloadHeader rel total_size hash offset in
  sent ← io_on_socket (write_frame
    (mkWireFrame (byte.of_Z MSG_ZERO_COPY_DOWNLOAD_HEADER) (serialized KZeroCopyDownloadHeader header)));
  if negb sent then mret false else
  let raw_hdr := encode_raw_data_header bytes_to_send in
  n ← io_on_socket (write_exact raw_hdr);
  if negb (n =? zlen raw_hdr) then mret false else
  file ← io_on_fs (open_rdonly full_path);
  match file with
  | None => mret false
  | Some content =>
      io_on_socket (if linux then send_file_linux content offset bytes_to_send
                    else send_file_fallback content offset bytes_to_send)
  end.

End Sender.

(** * What a routine puts on the wire *)

(** The result of sending [stream] from [s]: a prefix of it is on the wire, all
    of it on success, nothing was read, and only SIGPIPE keeps the call from
    coming back; under the condition [G], a willing peer gets everything. *)
Definition sent (G : Prop) (stream : bytes) (s : socket) (res : outcome bool * socket) : Prop :=
  let '(r, s') := res in
  ∃ k, (k <= length stream)%nat ∧ tx s' = tx s ++ take k stream ∧ rx s' = rx s ∧
    match r with
    | Ret true => k = length stream
    | Ret false => True
    | Throw _ => False
    | Trap t => t = SigPipe
    end ∧
    (G → Forall willing (tx_events s) → r = Ret true ∧ Forall willing (tx_events s')).

Definition sends (G : Prop) (stream : bytes) (m : SM socket bool) : Prop := ∀ s, sent G stream s (m s).

Section Sent.
Context (G : Prop).

(** Nothing left to send. *)
Lemma sent_all s : sent G [] s (Ret true, s).
Proof. exists 0%nat. simpl. rewrite app_nil_r. auto 10. Qed.

(** Giving up: only if the peer was not willing. *)
Lemma sent_stop stream s r : match r with Ret b => b = false | Throw _ => False | Trap t => t = SigPipe end →
  ~ (G ∧ Forall willing (tx_events s)) → ∀ s', rx s' = rx s → tx s' = tx s → sent G stream s (r, s').
Proof.
  intros Hr Hw s' Hrx Htx. exists 0%nat. rewrite take_0, app_nil_r. split; [lia|].
  split; [done|]. split; [done|]. split; [by destruct r; subst|tauto].
Qed.

(** Some bytes are out, and the rest goes on from there. *)
Lemma sent_advance bs rest s s1 res : rx s1 = rx s → tx s1 = tx s ++ bs →
  (G → Forall willing (tx_events s) → Forall willing (tx_events s1)) →
  sent G rest s1 res → sent G (bs ++ rest) s res.
Proof.
  destruct res as [r s2]. intros Hrx Htx Hw (j & Hj & Htx' & Hrx' & Hr & Hw').
  exists (length bs + j)%nat. rewrite length_app, take_app_add, Htx', Htx, <- app_assoc.
  split; [lia|]. split; [done|]. split; [congruence|]. split; [destruct r as [[]| |]; [lia|done..]|]. auto.
Qed.

(** Sending one part and then, if that went well, the rest. *)
Lemma sends_bind xs ys (m k : SM socket bool) :
  sends G xs m → sends G ys k → sends G (xs ++ ys) (ok ← m; if negb ok then mret false else k).
Proof.
  intros Hm Hk s. rewrite SM_bind_unfold. specialize (Hm s). destruct (m s) as [r s1].
  destruct Hm as (i & Hi & Htx & Hrx & Hr & Hw).
  assert (r ≠ Ret true → ∀ r', match r' with Ret b => b = false | Throw _ => False | Trap t => t = SigPipe end →
    sent G (xs ++ ys) s (r', s1)) as Hstop.
  { intros Hne r' Hr'. exists i. rewrite length_app, take_app_le by lia. split; [lia|]. split; [done|].
    split; [done|]. split; [by destruct r'; subst|]. intros HG Hs. by destruct (Hw HG Hs). }
  destruct r as [[|]|e|t]; cbn [negb]; cbv iota.
  - subst i. apply (sent_advance xs ys s s1); [done|by rewrite Htx, firstn_all| |apply Hk].
    intros HG Hs. by apply Hw.
  - by apply Hstop.
  - done.
  - by apply Hstop.
Qed.

(** [write_exact], with the caller's test of its result. *)
Lemma sends_write_exact buf : zlen buf < 2 ^ 32 →
  sends G buf (n ← write_exact buf; mret (n =? zlen buf)).
Proof.
  intros Hlen s. rewrite SM_bind_unfold. unfold write_exact.
  pose proof (write_exact_loop_spec (S (tx_weight s (length buf))) buf 0 s) as Hw.
  pose proof (write_exact_loop_willing (S (tx_weight s (length buf))) buf 0 s) as Hgood.
  destruct (write_exact_loop _ _ _ _) as [r s']. unfold tx_weight in *.
  destruct Hw as (k & Hk & Htx & Hrx & Hr); [lia|lia|]. rewrite drop_0 in Htx.
  assert (Forall willing (tx_events s) → r = Ret (zlen buf) ∧ Forall willing (tx_events s')) as Hg.
  { intros Hs. destruct Hgood as (evs & [= -> ->] & Hev); [lia|lia|done|done|]. done. }
  destruct r as [z|e|t]; [|done|]; (exists k; split; [lia|]; split; [done|]; split; [done|]; split).
  - destruct (Z.eqb_spec z (zlen buf)) as [->|]; [|done]. unfold zlen in Hr. lia.
  - intros _ Hs. destruct (Hg Hs) as [[= ->] Hev]. by rewrite Z.eqb_refl.
  - done.
  - intros _ Hs. by destruct (Hg Hs).
Qed.

(** * The streaming loops *)

Definition slice (content : bytes) (off len : Z) : bytes :=
  take (Z.to_nat len) (drop (Z.to_nat off) content).

Lemma slice_split content off len n : 0 <= off → 0 <= n <= len →
  slice content off len = slice content off n ++ slice content (off + n) (len - n).
Proof.
  intros Hoff Hn. unfold slice. rewrite !Z2Nat.inj_add, <- drop_drop, take_take_drop by lia. f_equal. lia.
Qed.

Lemma zlen_slice content off len : 0 <= off → 0 <= len → off + len <= zlen content →
  zlen (slice content off len) = len.
Proof. intros. unfold slice, zlen in *. rewrite length_take, length_drop. lia. Qed.

(** One [sendfile] call that moves bytes or is interrupted or fails. *)
Inductive sendfile_step (content : bytes) (off count : Z) (s : socket) : outcome io_result → socket → Prop :=
| sf_moved n s1 : 0 <= n <= count → rx s1 = rx s → tx s1 = tx s ++ slice content off n →
    (length (tx_events s1) + 1 - Z.to_nat n <= length (tx_events s))%nat →
    (Forall willing (tx_events s) → Forall willing (tx_events s1)) →
    sendfile_step content off count s (Ret (IoData (slice content off n))) s1
| sf_eintr s1 : rx s1 = rx s → tx s1 = tx s → (length (tx_events s1) < length (tx_events s))%nat →
    (Forall willing (tx_events s) → Forall willing (tx_events s1)) →
    sendfile_step content off count s (Ret IoEintr) s1
| sf_error s1 : rx s1 = rx s → tx s1 = tx s → ~ Forall willing (tx_events s) →
    sendfile_step content off count s (Ret IoError) s1
| sf_pipe s1 : rx s1 = rx s → tx s1 = tx s → ~ Forall willing (tx_events s) →
    sendfile_step content off count s (Trap SigPipe) s1.

Lemma sendfile_cases content off count s : 0 <= off → 0 < count → off + count <= zlen content →
  let '(r, s1) := sendfile content off count s in sendfile_step content off count s r s1.
Proof.
  intros Hoff Hcount Hin. unfold sendfile, send.
  set (cap := Z.min count MAX_RW_COUNT). assert (0 < cap <= count) as Hcap by (unfold cap, MAX_RW_COUNT; lia).
  assert (∀ k, take k (take (Z.to_nat cap) (drop (Z.to_nat off) content)) =
    slice content off (Z.min (Z.of_nat k) cap)) as Htake.
  { intros k. unfold slice. rewrite take_take. f_equal. lia. }
  destruct (tx_events s) as [|[k| | |] evs] eqn:He; rewrite ?Htake.
  - constructor; simpl; rewrite ?He; simpl; try done; lia.
  - constructor; simpl; rewrite ?He; simpl; try done; [lia|lia|]. by inversion 1.
  - constructor; simpl; rewrite ?He; simpl; try done; [lia|]. by inversion 1.
  - constructor; simpl; rewrite ?He; try done. by inversion 1.
  - constructor; simpl; rewrite ?He; try done. by inversion 1.
Qed.

Lemma send_file_linux_loop_sends fuel : ∀ content remaining off s,
  (length (tx_events s) + Z.to_nat remaining < fuel)%nat → 0 <= off → 0 <= remaining →
  off + remaining <= zlen content → zlen content < 2 ^ 63 →
  sent G (slice content off remaining) s (send_file_linux_loop fuel content remaining off s).
Proof.
  induction fuel as [|fuel IH]; [lia|]. intros content remaining off s Hfuel Hoff Hrem Hin Hmax.
  cbn [send_file_linux_loop]. destruct (Z.ltb_spec 0 remaining); cycle 1.
  { replace remaining with 0 by lia. apply sent_all. }
  cbv zeta. rewrite SM_bind_unfold.
  assert (0 < Z.min remaining SENDFILE_MAX <= remaining) as Hc by (unfold SENDFILE_MAX; lia).
  pose proof (sendfile_cases content off (Z.min remaining SENDFILE_MAX) s Hoff) as Hstep.
  destruct (sendfile content off _ s) as [r s1].
  destruct Hstep as [n s1 Hn Hrx Htx Hlen Hw|s1 Hrx Htx Hlen Hw|s1 Hrx Htx Hw|s1 Hrx Htx Hw]; [lia|lia|..].
  - rewrite zlen_slice, u64_small by lia. rewrite (slice_split _ _ _ n) by lia.
    apply (sent_advance _ _ s s1); [done|done|auto|]. apply IH; lia.
  - apply (sent_advance [] _ s s1); [done|by rewrite app_nil_r|auto|]. apply IH; lia.
  - apply sent_stop; [done|tauto|done|done].
  - apply sent_stop; [done|tauto|done|done].
Qed.

Lemma send_file_fallback_loop_sends fuel : ∀ content remaining pos,
  (Z.to_nat remaining < fuel)%nat → 0 <= pos → 0 <= remaining →
  pos + remaining <= zlen content → zlen content < 2 ^ 63 →
  sends G (slice content pos remaining) (send_file_fallback_loop fuel content remaining pos).
Proof.
  induction fuel as [|fuel IH]; [lia|]. intros content remaining pos Hfuel Hpos Hrem Hin Hmax.
  cbn [send_file_fallback_loop]. destruct (Z.ltb_spec 0 remaining); cycle 1.
  { replace remaining with 0 by lia. intros s. apply sent_all. }
  cbv zeta. set (n := Z.min remaining BUFFER_SIZE).
  assert (0 < n <= remaining ∧ n < 2 ^ 32) as [Hn Hn'] by (unfold n, BUFFER_SIZE; lia).
  change (take (Z.to_nat n) (drop (Z.to_nat pos) content)) with (slice content pos n).
  pose proof (zlen_slice content pos n) as Hlen.
  destruct (slice content pos n) as [|b buf] eqn:Hbuf; [specialize (Hlen ltac:(lia) ltac:(lia) ltac:(lia));
    unfold zlen in Hlen; simpl in Hlen; lia|]. rewrite <- Hbuf in *. clear Hbuf.
  rewrite Hlen by lia. rewrite u64_small by lia. rewrite (slice_split _ _ _ n) by lia.
  intros s. pose proof (sends_bind _ _ _ _ (sends_write_exact (slice content pos n) ltac:(lia))
    (IH content (remaining - n) (pos + n) ltac:(lia) ltac:(lia) ltac:(lia) ltac:(lia) ltac:(lia)) s) as Hs.
  rewrite SM_bind_unfold. rewrite !SM_bind_unfold in Hs. rewrite Hlen in Hs by lia.
  destruct (write_exact (slice content pos n) s) as [[z|e|t] s1]; exact Hs.
Qed.

End Sent.

(** * The download *)

Section Download.
Context `{Host, Codec}.

Definition download_header (rel : string) (c : bytes) (offset : Z) : WireFrame :=
  mkWireFrame (byte.of_Z MSG_ZERO_COPY_DOWNLOAD_HEADER)
    (serialized KZeroCopyDownloadHeader
       (mkZeroCopyDownloadHeader rel (zlen c) (to_hex (sha256_raw c)) offset)).

(** The bytes of a download: the header message, then one raw-data frame with
    the file from the offset on. *)
Definition download_stream (rel : string) (c : bytes) (offset : Z) : bytes :=
  encode_frame (download_header rel c offset) ++
  encode_raw_data_header (zlen c - offset) ++ drop (Z.to_nat offset) c.

Lemma open_rdonly_run p fs c t : lookup_node fs p = Some (File c t) →
  ∃ o fs', open_rdonly p fs = (Ret o, fs') ∧ nodes fs' = nodes fs ∧
    (o = Some c ∨ o = None ∧ ~ calm fs).
Proof.
  intros Hl. unfold open_rdonly, next_fault. rewrite SM_bind_unfold. unfold calm.
  destruct (faults fs) as [|f rest]; rewrite SM_bind_unfold; simpl.
  - rewrite Hl. eexists _, _. split; [done|]. auto.
  - destruct f; [|eexists _, _; split; [done|]; auto..].
    unfold lookup_node, loc in *. simpl. destruct (node_at (nodes fs) (locate (cwd fs) p)) as [[]|]; simplify_eq.
    destruct (names_directory p); simplify_eq. eexists _, _. split; [done|]. auto.
Qed.

(** The two streaming routines send the same bytes. *)
Lemma stream_sends (linux : bool) G content offset : 0 <= offset < zlen content → zlen content < 2 ^ 63 →
  sends G (drop (Z.to_nat offset) content)
    (if linux then send_file_linux content offset (zlen content - offset)
     else send_file_fallback content offset (zlen content - offset)).
Proof.
  intros Hoff Hmax. replace (drop (Z.to_nat offset) content) with (slice content offset (zlen content - offset)).
  - destruct linux.
    + intros s. unfold send_file_linux. rewrite i64_small by lia.
      apply send_file_linux_loop_sends; unfold tx_weight; lia.
    + unfold send_file_fallback. replace (if 0 <? offset then i64 offset else 0) with offset.
      * apply send_file_fallback_loop_sends; lia.
      * rewrite i64_small by lia. destruct (Z.ltb_spec 0 offset); lia.
  - unfold slice, zlen. apply take_ge. rewrite length_drop. lia.
Qed.

Lemma io_on_fs_run {A} (m : SM filesystem A) s o fs' : m (io_fs s) = (o, fs') →
  io_on_fs m s = (o, mkIo fs' (io_socket s)).
Proof. intros Hm. unfold io_on_fs, zoom. by rewrite Hm. Qed.

Lemma io_on_fs_pure {A} (m : SM filesystem A) s o : m (io_fs s) = (o, io_fs s) → io_on_fs m s = (o, s).
Proof. intros Hm. rewrite (io_on_fs_run _ _ _ _ Hm). by destruct s. Qed.

(** Socket steps first, then the file is opened, then the socket again. *)
Lemma send_then_open {A} (m : SM socket bool) (op : SM filesystem A) (k : A → SM socket bool) fs sk a fs' :
  op fs = (Ret a, fs') →
  let '(r, s') := (ok ← io_on_socket m; if negb ok then mret false else x ← io_on_fs op; io_on_socket (k x))
                    (mkIo fs sk) in
  (r, io_socket s') = (ok ← m; if negb ok then mret false else k a) sk ∧ (io_fs s' = fs ∨ io_fs s' = fs').
Proof.
  intros Hop. rewrite !SM_bind_unfold. unfold io_on_socket at 1, zoom. simpl.
  destruct (m sk) as [[[|]|e|t] sk1]; cbn [negb]; cbv iota; [|simpl; auto..].
  rewrite SM_bind_unfold, (io_on_fs_run op (mkIo fs sk1) _ _ Hop). unfold io_on_socket, zoom. simpl.
  destruct (k a sk1) as [r s']. simpl. auto.
Qed.

(** The part of [send_file] after the checks. *)
Definition transmit (linux : bool) (fm : FileManager) (rel full_path : string) (total_size offset : Z)
  (hash : string) : SM io_state bool :=
  let bytes_to_send := u64 (total_size - offset) in
  sent ← io_on_socket (write_frame (mkWireFrame (byte.of_Z MSG_ZERO_COPY_DOWNLOAD_HEADER)
    (serialized KZeroCopyDownloadHeader (mkZeroCopyDownloadHeader rel total_size hash offset))));
  if negb sent then mret false else
  let raw_hdr := encode_raw_data_header bytes_to_send in
  n ← io_on_socket (write_exact raw_hdr);
  if negb (n =? zlen raw_hdr) then mret false else
  file ← io_on_fs (open_rdonly full_path);
  match file with
  | None => mret false
  | Some content =>
      io_on_socket (if linux then send_file_linux content offset bytes_to_send
                    else send_file_fallback content offset bytes_to_send)
  end.

Lemma send_file_checks linux fm rel p offset c t s :
  resolve_path fm rel = Ret p → lookup_node (io_fs s) p = Some (File c t) → zlen c < 2 ^ 63 →
  send_file linux fm rel offset s =
    if (zlen c =? 0) || (zlen c <=? offset) then (Ret false, s)
    else transmit linux fm rel p (zlen c) offset (to_hex (sha256_raw c)) s.
Proof.
  intros Hr Hl Hc. unfold send_file. rewrite Hr, SM_lift_bind.
  erewrite SM_bind_ret; [|by apply io_on_fs_pure, file_exists_run]. unfold fs_exists. rewrite Hl.
  cbn [negb]. cbv iota. erewrite SM_bind_ret; [|apply io_on_fs_pure; by eapply get_file_size_run].
  destruct (zlen c =? 0); [done|]. simpl orb. destruct (zlen c <=? offset); [done|].
  cbv zeta. erewrite SM_bind_ret; [|apply io_on_fs_pure; by eapply compute_sha256_run]. done.
Qed.

(** The two headers, as one socket computation. *)
Definition send_headers (header : WireFrame) (n : Z) : SM socket bool :=
  ok ← write_frame header;
  if negb ok then mret false
  else k ← write_exact (encode_raw_data_header n); mret (k =? zlen (encode_raw_data_header n)).

Definition stream_body (linux : bool) (offset n : Z) (file : option bytes) : SM socket bool :=
  match file with
  | None => mret false
  | Some content =>
      if linux then send_file_linux content offset n else send_file_fallback content offset n
  end.

Lemma transmit_shape linux fm rel p total offset hash s :
  transmit linux fm rel p total offset hash s =
  (ok ← io_on_socket (send_headers (mkWireFrame (byte.of_Z MSG_ZERO_COPY_DOWNLOAD_HEADER)
      (serialized KZeroCopyDownloadHeader (mkZeroCopyDownloadHeader rel total hash offset)))
      (u64 (total - offset)));
   if negb ok then mret false
   else x ← io_on_fs (open_rdonly p); io_on_socket (stream_body linux offset (u64 (total - offset)) x)) s.
Proof.
  unfold transmit, send_headers. set (n := u64 (total - offset)). set (f := mkWireFrame _ _).
  cbv [io_on_socket zoom mbind SM_bind mret SM_ret io_socket io_fs]. destruct s as [fs sk].
  destruct (write_frame f sk) as [[[|]|e|t] s1]; cbn [negb]; cbv iota; [|done..].
  destruct (write_exact (encode_raw_data_header n) s1) as [[z|e|t] s2]; [|done..].
  destruct (z =? zlen (encode_raw_data_header n)); cbn [negb]; cbv iota; [|done].
  destruct (io_on_fs (open_rdonly p) _) as [[[content|]|e|t] [fs3 s3]]; done.
Qed.

Lemma sends_frame G f : zlen (payload f) < 2 ^ 32 - 5 → sends G (encode_frame f) (write_frame f).
Proof. intros Hf. apply sends_write_exact. rewrite zlen_encode. lia. Qed.

Lemma sends_headers G f n : zlen (payload f) < 2 ^ 32 - 5 →
  sends G (encode_frame f ++ encode_raw_data_header n) (send_headers f n).
Proof.
  intros Hf. apply sends_bind; [by apply sends_frame|]. apply sends_write_exact.
  rewrite encode_raw_format. unfold frame_format, zlen. rewrite length_app, length_cons, !length_be_split. lia.
Qed.

(** Whatever happens to the file system and on the socket, a prefix of the
    download is on the wire; with no fault and a willing peer, all of it. *)
Lemma transmit_sends linux fm rel p c t offset s :
  lookup_node (io_fs s) p = Some (File c t) → 0 <= offset < zlen c → zlen c < 2 ^ 63 →
  zlen (payload (download_header rel c offset)) < 2 ^ 32 - 5 →
  let '(r, s') := transmit linux fm rel p (zlen c) offset (to_hex (sha256_raw c)) s in
  sent (calm (io_fs s)) (download_stream rel c offset) (io_socket s) (r, io_socket s') ∧
  nodes (io_fs s') = nodes (io_fs s).
Proof.
  intros Hl Hoff Hc Hh. rewrite transmit_shape, u64_small by lia.
  destruct (open_rdonly_run p (io_fs s) c t Hl) as (o & fs' & Hop & Hn & Ho).
  pose proof (send_then_open (send_headers (download_header rel c offset) (zlen c - offset))
    (open_rdonly p) (stream_body linux offset (zlen c - offset)) (io_fs s) (io_socket s) o fs' Hop) as Hrun.
  destruct s as [fs sk]. cbn [io_fs io_socket] in *. unfold download_header in *.
  destruct ((_ : SM io_state bool) (mkIo fs sk)) as [r s']. destruct Hrun as [Hrun Hfs].
  split; [|destruct Hfs as [-> | ->]; congruence]. rewrite Hrun.
  unfold download_stream. rewrite app_assoc. apply sends_bind; [by apply sends_headers|].
  destruct Ho as [-> |[-> Hnc]]; simpl; [by apply stream_sends|].
  intros s1. apply sent_stop; [done|tauto|done|done].
Qed.

(** C4: a download sends the file and nothing else.  On either platform path,
    whatever the socket and the file system do, what goes out is a prefix of the
    header message, the raw-data header with the exact remaining length, and the
    file's bytes from the offset on; success means all of it, and is guaranteed
    without faults and with a peer that keeps reading; the loops always end.  An
    offset at or beyond the end (so any download of an empty file) is refused
    with nothing sent. *)
Theorem download_sends_file linux fm rel p offset c t s :
  resolve_path fm rel = Ret p → lookup_node (io_fs s) p = Some (File c t) → zlen c < 2 ^ 63 →
  0 <= offset → zlen (payload (download_header rel c offset)) < 2 ^ 32 - 5 →
  let '(r, s') := send_file linux fm rel offset s in
  if decide (offset < zlen c) then
    sent (calm (io_fs s)) (download_stream rel c offset) (io_socket s) (r, io_socket s') ∧
    nodes (io_fs s') = nodes (io_fs s)
  else r = Ret false ∧ s' = s.
Proof.
  intros Hr Hl Hc Hoff Hh. erewrite send_file_checks by done. case_decide.
  - rewrite (proj2 (Z.eqb_neq _ _)), (proj2 (Z.leb_gt _ _)) by lia.
    by eapply transmit_sends.
  - rewrite (proj2 (Z.leb_le _ _)), orb_true_r by lia. done.
Qed.

Lemma read_download rel c offset inp :
  0 <= offset < zlen c → zlen c < 2 ^ 32 → zlen c <= alloc_limit →
  zlen (payload (download_header rel c offset)) <= Z.min INT_MAX alloc_limit →
  delivers inp (download_stream rel c offset) →
  ∃ inp', read_frames 2 inp =
    (Ret [download_header rel c offset; mkWireFrame MSG_RAW_DATA (drop (Z.to_nat offset) c)], inp').
Proof.
  unfold INT_MAX, download_stream. intros Hoff Hc Hal Hp Hd. rewrite encode_frame_standard in Hd by lia.
  destruct (read_frame_standard _ _ _ _ Hd) as (i1 & Hr1 & Hd1 & _); [unfold RAW_DATA_SENTINEL; lia|lia|].
  assert (zlen c - offset = zlen (drop (Z.to_nat offset) c)) as Hlen by (unfold zlen in *; rewrite length_drop; lia).
  rewrite Hlen in Hd1.
  destruct (read_frame_raw (drop (Z.to_nat offset) c) [] i1) as (i2 & Hr2 & _ & _); [by rewrite app_nil_r|lia|lia|].
  exists i2. simpl. rewrite (SM_bind_ret _ _ _ _ _ Hr1), SM_bind_unfold. simpl.
  by rewrite (SM_bind_ret _ _ _ _ _ Hr2).
Qed.

(** A download arrives.  The call succeeds, and a client that reads two
    frames from the bytes sent finds the download header, whose message decodes
    to the path, the total size, the file's SHA-256 digest and the offset, and
    then the file's bytes from that offset on. *)
Theorem download_arrives `{!CodecLaws} linux fm rel p offset c t s :
  resolve_path fm rel = Ret p → lookup_node (io_fs s) p = Some (File c t) →
  calm (io_fs s) → Forall willing (tx_events (io_socket s)) → tx (io_socket s) = [] →
  0 <= offset < zlen c → zlen c < 2 ^ 32 → zlen c <= alloc_limit → is_text rel →
  zlen (encoding KZeroCopyDownloadHeader
    (mkZeroCopyDownloadHeader rel (zlen c) (to_hex (sha256_raw c)) offset)) <= Z.min INT_MAX alloc_limit →
  ∃ s' hdr, send_file linux fm rel offset s = (Ret true, s') ∧
    parse_payload KZeroCopyDownloadHeader (payload hdr) =
      Some (mkZeroCopyDownloadHeader rel (zlen c) (to_hex (sha256_raw c)) offset) ∧
    ∀ inp, delivers inp (tx (io_socket s')) → ∃ inp',
      read_frames 2 inp = (Ret [hdr; mkWireFrame MSG_RAW_DATA (drop (Z.to_nat offset) c)], inp').
Proof.
  intros Hr Hl Hcalm Hw Htx Hoff Hc Hal Hrel Hh.
  assert (zlen (payload (download_header rel c offset)) <= Z.min INT_MAX alloc_limit) as Hp.
  { unfold download_header. cbn [payload]. rewrite serialized_small; lia. }
  pose proof (transmit_sends linux fm rel p c t offset s Hl Hoff ltac:(lia) ltac:(unfold INT_MAX in *; lia)) as Ht.
  pose proof (send_file_checks linux fm rel p offset c t s Hr Hl ltac:(lia)) as Hs.
  rewrite (proj2 (Z.eqb_neq _ _)), (proj2 (Z.leb_gt _ _)) in Hs by lia. simpl in Hs. rewrite Hs.
  destruct (transmit _ _ _ _ _ _ _ s) as [r s']. destruct Ht as [(k & _ & Hk & _ & Hkr & Hgood) _].
  destruct (Hgood Hcalm Hw) as [-> _]. subst k. rewrite Htx, firstn_all in Hk. simpl in Hk.
  exists s', (download_header rel c offset). split; [done|]. split.
  { apply parse_serialized; [|lia]. cbn [msg_wf dl_relative_path dl_total_size dl_sha256_hash dl_offset].
    split; [done|]. split; [unfold is_u64; lia|]. split; [apply hex_is_text|unfold is_u64; lia]. }
  intros inp. rewrite Hk. by apply read_download.
Qed.

End Download.

(** * Files that shrink *)

(** The size is taken before the file is opened.  If the file has become shorter
    in between, [sendfile] returns 0 at its end, the loop does not stop there,
    and no number of iterations ends it: nothing more is sent and the state stays
    as it is. *)
Theorem sendfile_spins_on_short_file fuel content remaining off s :
  0 < remaining < 2 ^ 64 → zlen content <= off → tx_events s = [] →
  send_file_linux_loop fuel content remaining off s = (Trap Diverges, s).
Proof.
  intros Hr Hoff Hev. destruct s as [r evs out]. simpl in Hev. subst evs.
  assert (drop (Z.to_nat off) content = []) as Hnil by (apply drop_ge; unfold zlen in Hoff; lia).
  induction fuel as [|fuel IH]; [done|]. cbn [send_file_linux_loop].
  rewrite (proj2 (Z.ltb_lt _ _)) by lia. unfold sendfile. rewrite Hnil, take_nil.
  rewrite SM_bind_unfold. unfold send. cbn [tx_events rx tx]. rewrite !take_nil, app_nil_r.
  unfold zlen. cbn [length]. rewrite Z.sub_0_r, Z.add_0_r, u64_small by lia. exact IH.
Qed.

(** * Witnesses *)

Definition demo_io (files : list (string * bytes)) (evs : list send_event) : io_state :=
  mkIo (demo_fs files) (mkSocket [] evs []).

Lemma download_sends_file_witness :
  let '(r, s') := @send_file le_host proto3 true demo_root "f" 1
                    (demo_io [("f", [x61; x62; x63])] [SendEintr; SendUpTo 2; SendError]) in
  sent True (@download_stream le_host proto3 "f" [x61; x62; x63] 1)
    (mkSocket [] [SendEintr; SendUpTo 2; SendError] []) (r, io_socket s').
Proof.
  pose proof (@download_sends_file le_host proto3 true demo_root "f" "/s/f" 1 [x61; x62; x63] 0
    (demo_io [("f", [x61; x62; x63])] [SendEintr; SendUpTo 2; SendError])
    eq_refl eq_refl eq_refl ltac:(lia) ltac:(vm_compute; reflexivity)) as Hd.
  destruct (send_file _ _ _ _ _) as [r s']. rewrite decide_True in Hd by (vm_compute; reflexivity).
  destruct Hd as [(k & H1 & H2 & H3 & H4 & H5) _]. exists k. do 4 (split; [done|]).
  intros _ Hw. by apply H5.
Defined.

Lemma download_arrives_witness :
  ∃ s' hdr, @send_file le_host proto3 false demo_root "f" 1
              (demo_io [("f", [x61; x62; x63])] [SendUpTo 2]) = (Ret true, s') ∧
    ∀ inp, delivers inp (tx (io_socket s')) → ∃ inp',
      @read_frames le_host 2 inp = (Ret [hdr; mkWireFrame MSG_RAW_DATA [x62; x63]], inp').
Proof.
  destruct (@download_arrives le_host proto3 proto3_laws false demo_root "f" "/s/f" 1 [x61; x62; x63] 0
    (demo_io [("f", [x61; x62; x63])] [SendUpTo 2])) as (s' & hdr & Hrun & _ & Hin);
    [reflexivity|reflexivity|reflexivity|repeat constructor|reflexivity|done|reflexivity|done
    |reflexivity|vm_compute; discriminate|].
  exists s', hdr. split; [exact Hrun|exact Hin].
Defined.
