(* ===== verification/Ends.v ===== *)
(** Every operation of the components comes back: no run of a file-system, delta,
    negotiation or download operation diverges, whatever the state it starts
    from.  (It may still throw, trap or block.)  The event loop of a session is
    shown to end from these facts. *)
From S2P Require Import Prelude Sha256 Paths FileSystem FileManager FileMutex WireProtocol Proto.
From S2P Require Import DeltaSync Negotiator ZeroCopySender.

(** * Files *)

Lemma resolve_path_ends fm rel : resolve_path fm rel ≠ Trap Diverges.
Proof. unfold resolve_path. repeat case_match; discriminate. Qed.
Lemma tmp_path_for_ends fm rel : tmp_path_for fm rel ≠ Trap Diverges.
Proof.
  unfold tmp_path_for. pose proof (resolve_path_ends fm rel).
  destruct (resolve_path fm rel); cbn; [done|done|congruence].
Qed.
#[export] Hint Resolve resolve_path_ends tmp_path_for_ends : respects.

Lemma next_fault_ends : ends next_fault.
Proof. intros fs. unfold next_fault. by destruct (faults fs). Qed.
#[export] Hint Resolve next_fault_ends : respects.

Lemma create_directories_ends p : ends (create_directories p).
Proof. unfold create_directories. solve_respects. Qed.
Lemma open_truncate_ends p : ends (open_truncate p).
Proof. unfold open_truncate. solve_respects. Qed.
Lemma open_update_ends p : ends (open_update p).
Proof. unfold open_update. solve_respects. Qed.
Lemma write_at_ends p off data : ends (write_at p off data).
Proof. unfold write_at. solve_respects. Qed.
Lemma rename_ends p q : ends (rename p q).
Proof. unfold rename. solve_respects. Qed.
Lemma open_rdonly_ends p : ends (open_rdonly p).
Proof. unfold open_rdonly. solve_respects. Qed.
#[export] Hint Resolve create_directories_ends open_truncate_ends open_update_ends write_at_ends rename_ends
  open_rdonly_ends : respects.

Lemma file_exists_ends fm rel : ends (file_exists fm rel).
Proof. unfold file_exists. solve_respects. Qed.
Lemma get_file_size_ends fm rel : ends (get_file_size fm rel).
Proof. unfold get_file_size, fs_file_size. solve_respects. Qed.
Lemma get_last_modified_ns_ends fm rel : ends (get_last_modified_ns fm rel).
Proof. unfold get_last_modified_ns, fs_last_write_time. solve_respects. Qed.
Lemma compute_sha256_ends fm rel : ends (compute_sha256 fm rel).
Proof. unfold compute_sha256, read_stream. solve_respects. Qed.
Lemma read_block_ends fm rel off size : ends (read_block fm rel off size).
Proof. unfold read_block. solve_respects. Qed.
Lemma ensure_parent_dirs_ends fm rel : ends (ensure_parent_dirs fm rel).
Proof. unfold ensure_parent_dirs. solve_respects. Qed.
#[export] Hint Resolve file_exists_ends get_file_size_ends get_last_modified_ns_ends compute_sha256_ends
  read_block_ends ensure_parent_dirs_ends : respects.

Lemma get_file_info_ends fm rel : ends (get_file_info fm rel).
Proof. unfold get_file_info. solve_respects. Qed.
Lemma write_block_atomic_ends fm rel off data : ends (write_block_atomic fm rel off data).
Proof. unfold write_block_atomic. solve_respects. Qed.
Lemma write_file_atomic_ends fm rel data : ends (write_file_atomic fm rel data).
Proof. unfold write_file_atomic. solve_respects. Qed.
Lemma atomic_rename_tmp_ends fm rel : ends (atomic_rename_tmp fm rel).
Proof. unfold atomic_rename_tmp. solve_respects. Qed.
Lemma list_entries_ends fm prefix recursive entries : ends (list_entries fm prefix recursive entries).
Proof. induction entries as [|[names size] entries IH]; simpl; solve_respects. Qed.
#[export] Hint Resolve get_file_info_ends write_block_atomic_ends write_file_atomic_ends
  atomic_rename_tmp_ends list_entries_ends : respects.

Lemma list_files_ends fm prefix recursive : ends (list_files fm prefix recursive).
Proof. unfold list_files. solve_respects. Qed.
Lemma negotiate_ends ng rel size modified sha : ends (negotiate ng rel size modified sha).
Proof. unfold negotiate. solve_respects. Qed.
#[export] Hint Resolve list_files_ends negotiate_ends : respects.

(** * Delta synchronisation *)

Lemma on_fs_ends {A} (m : SM filesystem A) : ends m → ends (on_fs m).
Proof. intros Hm. by eapply respects_zoom. Qed.
Lemma ds_acquire_ends w path : ends (ds_acquire w path).
Proof. intros s. unfold ds_acquire. by destruct (acquire w path (ds_locks s)). Qed.
Lemma ds_release_ends w path : ends (ds_release w path).
Proof. done. Qed.
Lemma block_count_ends size bs : block_count size bs ≠ Trap Diverges.
Proof. unfold block_count. by case_match. Qed.
#[export] Hint Resolve on_fs_ends ds_acquire_ends ds_release_ends block_count_ends : respects.

Lemma compare_blocks_ends h rel bs size cm indices : ends (compare_blocks h rel bs size cm indices).
Proof. induction indices as [|i indices IH]; cbn [compare_blocks]; cbv zeta; solve_respects. Qed.
#[export] Hint Resolve compare_blocks_ends : respects.

Lemma handle_signature_request_ends h rel size bs sigs : ends (handle_signature_request h rel size bs sigs).
Proof. unfold handle_signature_request. cbv zeta. solve_respects. Qed.

Lemma finalize_ends h rel : ends (finalize h rel).
Proof.
  unfold finalize. solve_respects. apply on_fs_ends. unfold read_stream. solve_respects.
Qed.
#[export] Hint Resolve handle_signature_request_ends finalize_ends : respects.

Lemma handle_block_data_ends h rel i off data strong fin : ends (handle_block_data h rel i off data strong fin).
Proof. unfold handle_block_data, mark_received, forget. solve_respects. Qed.
#[export] Hint Resolve handle_block_data_ends : respects.

(** * Sockets and downloads *)

(** Sending leaves the input alone. *)
Definition same_rx (s s' : socket) : Prop := rx s' = rx s.
#[export] Instance same_rx_reflexive : Reflexive same_rx.
Proof. done. Qed.
#[export] Instance same_rx_transitive : Transitive same_rx.
Proof. unfold same_rx. intros a b c. congruence. Qed.

Lemma write_exact_ends buf : respects same_rx (write_exact buf).
Proof.
  intros s. unfold write_exact.
  pose proof (write_exact_loop_spec (S (tx_weight s (length buf))) buf 0 s) as Hw.
  destruct (write_exact_loop _ _ _ _) as [r s']. unfold tx_weight in Hw.
  destruct Hw as (k & _ & _ & Hrx & Hr); [lia|lia|]. split; [done|]. destruct r; [done..|]. simpl. congruence.
Qed.
#[export] Hint Resolve write_exact_ends : respects.

Section Frames.
Context `{Host}.

Lemma write_frame_ends f : respects same_rx (write_frame f).
Proof. unfold write_frame. solve_respects. Qed.

Lemma read_frame_ends : respects (λ s s', rx_weight s' <= rx_weight s)%nat read_frame.
Proof.
  intros s. pose proof (read_frame_any s) as Hf. destruct (read_frame s) as [r s'].
  destruct Hf as (_ & Hle & Hr). split; [done|]. by destruct r.
Qed.

End Frames.
#[export] Hint Resolve write_frame_ends read_frame_ends : respects.

(** One [sendfile] call inside the file makes progress or uses up an event. *)
Lemma sendfile_progress content off count s : 0 < count →
  (Z.to_nat off + Z.to_nat count <= length content)%nat →
  let '(r, s1) := sendfile content off count s in
  same_rx s s1 ∧
  match r with
  | Ret (IoData bs) => zlen bs <= count ∧
      (length (tx_events s1) + 1 <= length (tx_events s) + length bs)%nat
  | Ret IoEintr => (length (tx_events s1) < length (tx_events s))%nat
  | Ret IoError => True
  | Throw _ => False
  | Trap t => t = SigPipe
  end.
Proof.
  intros Hc Hin. unfold sendfile, send, same_rx, zlen.
  assert (0 < Z.min count MAX_RW_COUNT <= count) as Hcap by (unfold MAX_RW_COUNT; lia).
  set (cap := Z.min count MAX_RW_COUNT) in *.
  destruct (tx_events s) as [|[k| | |] evs]; simpl; rewrite ?take_take, ?length_take, ?length_drop;
    repeat split; done || lia.
Qed.

Lemma send_file_linux_loop_ends fuel : ∀ content remaining off s,
  (length (tx_events s) + Z.to_nat remaining < fuel)%nat → 0 <= remaining < 2 ^ 64 →
  (Z.to_nat off + Z.to_nat remaining <= length content)%nat →
  let '(r, s') := send_file_linux_loop fuel content remaining off s in same_rx s s' ∧ r ≠ Trap Diverges.
Proof.
  induction fuel as [|fuel IH]; [lia|]. intros content remaining off s Hfuel Hrem Hin.
  cbn [send_file_linux_loop]. destruct (Z.ltb_spec 0 remaining); [|done]. cbv zeta. rewrite SM_bind_unfold.
  assert (0 < Z.min remaining SENDFILE_MAX <= remaining) as Hc by (unfold SENDFILE_MAX; lia).
  pose proof (sendfile_progress content off (Z.min remaining SENDFILE_MAX) s) as Hp.
  destruct (sendfile content off _ s) as [r s1]. destruct Hp as [Hrx Hp]; [lia|lia|].
  destruct r as [[bs| |]|e|t]; [| |done|done|split; [done|congruence]].
  - destruct Hp as [Hb Hev]. unfold zlen in *. rewrite u64_small by lia.
    specialize (IH content (remaining - Z.of_nat (length bs)) (off + Z.of_nat (length bs)) s1).
    destruct (send_file_linux_loop fuel _ _ _ s1) as [r s2].
    destruct IH as [Hrx2 Hr]; [lia|lia|lia|]. split; [by etransitivity|done].
  - specialize (IH content remaining off s1). destruct (send_file_linux_loop fuel _ _ _ s1) as [r s2].
    destruct IH as [Hrx2 Hr]; [lia|lia|lia|]. split; [by etransitivity|done].
Qed.

Lemma send_file_fallback_loop_ends fuel : ∀ content remaining pos,
  (Z.to_nat remaining < fuel)%nat → 0 <= remaining < 2 ^ 64 →
  respects same_rx (send_file_fallback_loop fuel content remaining pos).
Proof.
  induction fuel as [|fuel IH]; [lia|]. intros content remaining pos Hfuel Hrem.
  cbn [send_file_fallback_loop]. destruct (Z.ltb_spec 0 remaining); [|solve_respects]. cbv zeta.
  set (buffer := take _ _).
  assert (zlen buffer <= remaining) as Hb by (unfold buffer, zlen; rewrite length_take; lia).
  destruct buffer as [|b buf] eqn:He; [solve_respects|]. rewrite <- He in *.
  assert (0 < zlen buffer) as Hpos by (rewrite He; unfold zlen; simpl; lia).
  apply respects_bind; [apply _|apply write_exact_ends|]. intros n.
  destruct (negb (n =? zlen buffer)); [solve_respects|].
  rewrite u64_small by lia. apply IH; lia.
Qed.

Lemma stream_body_ends linux offset total c : 0 <= offset → offset < total → total <= zlen c → total < 2 ^ 64 →
  respects same_rx (if linux : bool then send_file_linux c offset (total - offset)
                    else send_file_fallback c offset (total - offset)).
Proof.
  intros Ho Hlt Hc Ht. destruct linux.
  - intros s. unfold send_file_linux.
    pose proof (send_file_linux_loop_ends (S (tx_weight s (Z.to_nat (total - offset)))) c (total - offset)
      (i64 offset) s) as He.
    destruct (send_file_linux_loop _ _ _ _ s) as [r s']. apply He; unfold tx_weight; [lia|lia|].
    assert (Z.to_nat (i64 offset) <= Z.to_nat offset)%nat; [|unfold zlen in *; lia].
    unfold i64. Z.div_mod_to_equations; lia.
  - unfold send_file_fallback. apply send_file_fallback_loop_ends; lia.
Qed.

Section Downloads.
Context `{Host, Codec}.

Definition same_io_rx (s s' : io_state) : Prop := same_rx (io_socket s) (io_socket s').

#[export] Instance same_io_rx_reflexive : Reflexive same_io_rx.
Proof. done. Qed.
#[export] Instance same_io_rx_transitive : Transitive same_io_rx.
Proof. unfold same_io_rx. intros a b c ? ?. by etransitivity. Qed.

Lemma io_on_fs_ends {A} (m : SM filesystem A) : ends m → respects same_io_rx (io_on_fs m).
Proof. intros Hm. by eapply respects_zoom. Qed.
Lemma io_on_socket_ends {A} (m : SM socket A) : respects same_rx m → respects same_io_rx (io_on_socket m).
Proof. intros Hm. by eapply respects_zoom. Qed.

Lemma transmit_ends linux fm rel p total offset hash s c t :
  lookup_node (io_fs s) p = Some (File c t) → 0 <= offset < total → total <= zlen c → total < 2 ^ 64 →
  same_io_rx s (transmit linux fm rel p total offset hash s).2 ∧
  (transmit linux fm rel p total offset hash s).1 ≠ Trap Diverges.
Proof.
  intros Hl Ho Hc Ht. rewrite transmit_shape, u64_small by lia.
  destruct (open_rdonly_run p (io_fs s) c t Hl) as (o & fs' & Hop & _ & Hor).
  set (hdr := mkWireFrame _ _).
  pose proof (send_then_open (send_headers hdr (total - offset))
    (open_rdonly p) (stream_body linux offset (total - offset)) (io_fs s) (io_socket s) o fs' Hop) as Hrun.
  destruct s as [fs sk]. cbn [io_fs io_socket] in *.
  destruct ((_ : SM io_state bool) (mkIo fs sk)) as [r s']. destruct Hrun as [Hrun _].
  assert (respects same_rx (ok ← send_headers hdr (total - offset);
    if negb ok then mret false else stream_body linux offset (total - offset) o)) as Hall.
  { apply respects_bind; [apply _|unfold send_headers; solve_respects|]. intros [|]; cbn [negb]; [|solve_respects].
    destruct Hor as [-> |[-> _]]; simpl; [apply stream_body_ends; lia|solve_respects]. }
  specialize (Hall sk). rewrite <- Hrun in Hall. exact Hall.
Qed.

Lemma send_file_ends linux fm rel offset : 0 <= offset → respects same_io_rx (send_file linux fm rel offset).
Proof.
  intros Ho s. unfold send_file.
  destruct (resolve_path fm rel) as [p|e|tr] eqn:Hr; [|done|].
  2:{ pose proof (resolve_path_ends fm rel). rewrite Hr in *. split; [done|]. simpl. congruence. }
  rewrite SM_lift_bind. erewrite SM_bind_ret; [|by apply io_on_fs_pure, file_exists_run].
  unfold fs_exists. destruct (lookup_node (io_fs s) p) as [[c t|]|] eqn:Hl; cbn [negb]; cbv iota; [| |done].
  - erewrite SM_bind_ret; [|apply io_on_fs_pure; by eapply get_file_size_u64].
    destruct (u64 (zlen c) =? 0); [done|]. destruct (Z.leb_spec (u64 (zlen c)) offset); [done|].
    cbv zeta. erewrite SM_bind_ret; [|apply io_on_fs_pure; by eapply compute_sha256_run].
    apply (transmit_ends linux fm rel p (u64 (zlen c)) offset _ s c t); [done|lia| |apply u64_bound].
    unfold u64. apply Z.mod_le; [apply zlen_nonneg|lia].
  - rewrite SM_bind_unfold. unfold io_on_fs, zoom, get_file_size. rewrite Hr, SM_lift_bind, SM_bind_unfold. simpl.
    unfold fs_exists. rewrite Hl. simpl. rewrite SM_bind_unfold. unfold lift, fs_file_size. rewrite Hl. done.
Qed.

End Downloads.
