(* ===== verification/Session.v ===== *)
(** A client session: src/server/src/session.cpp.

    One handler per message, the dispatch loop, and the session's own state.
    The socket, the file system, the locks and the clock are part of the state
    the handlers pass along. *)
From Stdlib Require Import Floats.SpecFloat.
From S2P Require Import Prelude Sha256 Paths FileSystem FileManager FileMutex WireProtocol Proto Proto3.
From S2P Require Import DeltaSync Directories Negotiator ZeroCopySender Ends.

(** * State *)

Inductive SessionState :=
| AWAITING_HELLO
| READY
| NEGOTIATING
| TRANSFERRING
| ERROR_STATE
| DISCONNECTED.

#[export] Instance SessionState_eq_dec : EqDecision SessionState.
Proof. solve_decision. Defined.

Record UploadState := mkUpload {
  up_relative_path : string;
  up_total_size : Z;
  up_received : Z;
  up_expected_sha256 : string;
  up_buffer : bytes
}.

(** What is fixed when the session starts. *)
Record session_env := mkEnv {
  se_file_manager : FileManager;
  se_block_size : Z;
  se_linux : bool
}.

Record session := mkSession {
  sn_socket : socket;
  sn_delta : delta_state;            (* file system, locks, blocks received *)
  sn_clock : list Z;                 (* the next readings of [elapsed_ms] *)
  state_ : SessionState;
  client_id_ : string;
  shutdown_requested_ : bool;
  negotiated_block_size_ : Z;
  protocol_version_ : Z;
  upload_state_ : UploadState
}.

Definition Session_new (env : session_env) (sk : socket) (fs : filesystem) (locks : FileMutex)
  (clock : list Z) : session :=
  mkSession sk (mkDelta fs locks ∅) clock AWAITING_HELLO "" false (se_block_size env) 1
    (mkUpload "" 0 0 "" []).

Definition sn_fs (s : session) : filesystem := ds_fs (sn_delta s).

Definition set_socket (k : socket) (s : session) : session :=
  mkSession k (sn_delta s) (sn_clock s) (state_ s) (client_id_ s) (shutdown_requested_ s)
    (negotiated_block_size_ s) (protocol_version_ s) (upload_state_ s).
Definition set_delta (d : delta_state) (s : session) : session :=
  mkSession (sn_socket s) d (sn_clock s) (state_ s) (client_id_ s) (shutdown_requested_ s)
    (negotiated_block_size_ s) (protocol_version_ s) (upload_state_ s).
Definition set_clock (c : list Z) (s : session) : session :=
  mkSession (sn_socket s) (sn_delta s) c (state_ s) (client_id_ s) (shutdown_requested_ s)
    (negotiated_block_size_ s) (protocol_version_ s) (upload_state_ s).
Definition set_state (st : SessionState) (s : session) : session :=
  mkSession (sn_socket s) (sn_delta s) (sn_clock s) st (client_id_ s) (shutdown_requested_ s)
    (negotiated_block_size_ s) (protocol_version_ s) (upload_state_ s).
Definition set_upload (u : UploadState) (s : session) : session :=
  mkSession (sn_socket s) (sn_delta s) (sn_clock s) (state_ s) (client_id_ s) (shutdown_requested_ s)
    (negotiated_block_size_ s) (protocol_version_ s) u.

(** The client's name, protocol version and block size, from its hello. *)
Definition set_client (id : string) (version block_size : Z) (s : session) : session :=
  mkSession (sn_socket s) (sn_delta s) (sn_clock s) (state_ s) id (shutdown_requested_ s)
    block_size version (upload_state_ s).

Definition on_socket {A} : SM socket A → SM session A := zoom sn_socket set_socket.
Definition on_delta {A} : SM delta_state A → SM session A := zoom sn_delta set_delta.
Definition on_files {A} : SM filesystem A → SM session A := λ m, on_delta (on_fs m).
Definition on_io {A} : SM io_state A → SM session A :=
  zoom (λ s, mkIo (sn_fs s) (sn_socket s))
    (λ io s, set_socket (io_socket io)
       (set_delta (mkDelta (io_fs io) (ds_locks (sn_delta s)) (in_progress (sn_delta s))) s)).
Definition enter (st : SessionState) : SM session unit := modify_st (set_state st).

(** The clock: no reading left is zero milliseconds. *)
Definition elapsed_ms : SM session Z := λ s,
  match sn_clock s with
  | [] => (Ret 0, s)
  | e :: c => (Ret e, set_clock c s)
  end.

(** * Helpers *)

Section Handlers.
Context `{Host, Codec} (env : session_env).

(** Serialise a message, frame it and send it; the callers ignore the result. *)
Definition send_message (type : Z) (k : kind) (m : msg k) : SM session unit :=
  _ ← on_socket (write_frame (mkWireFrame (byte.of_Z type) (serialized k m)));
  mret tt.

Definition send_error (status_code : Z) (message : string) : SM session unit :=
  send_message MSG_ERROR KErrorPayload (mkErrorPayload status_code message "").

(** [float] arithmetic: binary32 with the sources' order of operations. *)
Definition float_of_Z (z : Z) : spec_float := binary_normalize 24 128 z 0 false.
Definition float_div (x y : spec_float) : spec_float := SFdiv 24 128 x y.
Definition rate_of (received elapsed : Z) : spec_float :=
  float_div (float_div (float_of_Z received) (float_of_Z (1024 * 1024)))
    (float_div (float_of_Z elapsed) (float_of_Z 1000)).

Definition send_progress (path : string) (transferred total : Z) (rate : spec_float) (elapsed : Z)
  : SM session unit :=
  send_message MSG_PROGRESS KProgressUpdate (mkProgressUpdate path transferred total rate elapsed).

(** * Message handlers

    The accessors of the generated classes return [uint32_t] and [uint64_t]
    values: the wrap-around of that type is applied where a field is read. *)

Definition handle_client_hello (payload : bytes) : SM session unit :=
  match parse_payload KClientHello payload with
  | None => send_error 6 "Failed to parse ClientHello"
  | Some hello =>
      s ← get_st;
      let preferred := u32 (ch_block_size hello) in
      let block_size :=
        if (4096 <=? preferred) && (preferred <=? 1048576)
        then preferred else negotiated_block_size_ s in
      _ ← modify_st (set_client (ch_client_id hello) (u32 (ch_protocol_version hello)) block_size);
      _ ← send_message MSG_SERVER_HELLO KServerHello
            (mkServerHello 1 "adaptivesync-cpp-1.0" [ZERO_COPY; DELTA_SYNC] 10 0 block_size);
      enter READY
  end.

Definition negotiator : Negotiator := Negotiator_new (se_file_manager env) (se_block_size env).

Definition handle_negotiation_request (payload : bytes) : SM session unit :=
  match parse_payload KNegotiationRequest payload with
  | None => send_error 6 "Failed to parse NegotiationRequest"
  | Some req =>
      _ ← enter NEGOTIATING;
      result ← on_files (negotiate negotiator (nq_relative_path req) (u64 (nq_client_file_size req))
                           (u64 (nq_client_last_modified_ns req)) (nq_client_sha256_hash req));
      _ ← send_message MSG_NEGOTIATION_RESPONSE KNegotiationResponse
            (mkNegotiationResponse (res_file_mode result) (res_transfer_mode result)
               (server_file_size result) (server_sha256 result) (res_block_size result));
      enter READY
  end.

Definition handle_zero_copy_download_request (payload : bytes) : SM session unit :=
  match parse_payload KZeroCopyDownloadRequest payload with
  | None => send_error 6 "Failed to parse ZeroCopyDownloadRequest"
  | Some req =>
      _ ← enter TRANSFERRING;
      ok ← on_io (send_file (se_linux env) (se_file_manager env) (dq_relative_path req)
                    (u64 (dq_offset req)));
      _ ← (if negb ok
           then send_error 3 ("File not found or transfer failed: " +:+ dq_relative_path req)
           else mret tt);
      enter READY
  end.

(** One raw-data frame of an upload: buffer it and report progress. *)
Definition upload_frame (data : bytes) : SM session unit :=
  _ ← modify_st (λ s, let u := upload_state_ s in
        set_upload (mkUpload (up_relative_path u) (up_total_size u) (u64 (up_received u + zlen data))
          (up_expected_sha256 u) (up_buffer u ++ data)) s);
  elapsed ← elapsed_ms;
  if 0 <? elapsed then
    u ← gets_st upload_state_;
    send_progress (up_relative_path u) (up_received u) (up_total_size u)
      (rate_of (up_received u) elapsed) (u32 elapsed)
  else mret tt.

Fixpoint upload_loop (fuel : nat) : SM session unit :=
  match fuel with
  | O => trap_with Diverges
  | S fuel' =>
      u ← gets_st upload_state_;
      if up_received u <? up_total_size u then
        frame ← on_socket read_frame;
        match frame with
        | None => send_error 2 "Connection lost during upload"
        | Some data_frame =>
            _ ← (if decide (message_type data_frame = MSG_RAW_DATA)
                 then upload_frame (payload data_frame) else mret tt);
            upload_loop fuel'
        end
      else mret tt
  end.

Definition read_upload : SM session unit := λ s, upload_loop (S (rx_weight (sn_socket s))) s.

Definition save_upload : SM session unit :=
  u ← gets_st upload_state_;
  if up_received u =? up_total_size u then
    ok ← on_files (write_file_atomic (se_file_manager env) (up_relative_path u) (up_buffer u));
    if ok : bool then
      _ ← on_files (atomic_rename_tmp (se_file_manager env) (up_relative_path u)); mret tt
    else send_error 2 "Failed to save uploaded file"
  else mret tt.

Definition handle_zero_copy_upload_request (payload : bytes) : SM session unit :=
  match parse_payload KZeroCopyUploadRequest payload with
  | None => send_error 6 "Failed to parse ZeroCopyUploadRequest"
  | Some req =>
      let metadata := uq_metadata req in
      _ ← modify_st (set_upload (mkUpload (md_relative_path metadata) (u64 (md_file_size metadata)) 0
                                   (md_sha256_hash metadata) []));
      _ ← lift (vector_alloc (u64 (md_file_size metadata)));
      _ ← enter TRANSFERRING;
      _ ← send_message MSG_ZERO_COPY_UPLOAD_ACK KZeroCopyUploadAck (mkZeroCopyUploadAck OK "" 0);
      _ ← read_upload;
      _ ← save_upload;
      enter READY
  end.

Definition delta_handler : DeltaSyncHandler := DeltaSyncHandler_new (se_file_manager env) (se_block_size env).

Definition to_signature (sig : BlockSignature) : DeltaBlockSignature :=
  mkSignature (u32 (bg_block_index sig)) (u32 (bg_rolling_hash sig)) (bg_strong_hash sig)
    (u64 (bg_block_offset sig)) (u32 (bg_block_size sig)).

Definition handle_delta_sync_signature_request (payload : bytes) : SM session unit :=
  match parse_payload KDeltaSyncSignatureRequest payload with
  | None => send_error 6 "Failed to parse DeltaSyncSignatureRequest"
  | Some req =>
      _ ← enter NEGOTIATING;
      result ← on_delta (handle_signature_request delta_handler (sq_relative_path req)
                           (u64 (sq_file_size req)) (u32 (sq_block_size req)) (to_signature <$> sq_signatures req));
      _ ← send_message MSG_DELTA_SYNC_BLOCK_REQUEST KDeltaSyncBlockRequest
            (mkDeltaSyncBlockRequest (req_relative_path result) (requested_indices result));
      enter READY
  end.

Definition handle_delta_sync_block_data (payload : bytes) : SM session unit :=
  match parse_payload KDeltaSyncBlockData payload with
  | None => send_error 6 "Failed to parse DeltaSyncBlockData"
  | Some req =>
      _ ← enter TRANSFERRING;
      bs ← gets_st negotiated_block_size_;
      let data := bd_data req in
      let is_final := zlen data <? bs in
      status ← on_delta (handle_block_data delta_handler (bd_relative_path req)
                           (u32 (bd_block_index req)) (u64 (bd_block_offset req)) data (bd_strong_hash req) is_final);
      _ ← (if is_final || negb (status =? 1) then
             complete ←
               (if status =? 1 then
                  hash ← on_files (compute_sha256 (se_file_manager env) (bd_relative_path req));
                  mret (mkDeltaSyncComplete (bd_relative_path req) status "" hash)
                else mret (mkDeltaSyncComplete (bd_relative_path req) status "Block write failed" ""));
             send_message MSG_DELTA_SYNC_COMPLETE KDeltaSyncComplete complete
           else mret tt);
      enter READY
  end.

Definition to_metadata (fi : FileInfo) : FileMetadata :=
  mkFileMetadata (relative_path fi) (file_size fi) (last_modified_ns fi) (sha256_hex fi) FRESH.

Definition handle_list_files_request (payload : bytes) : SM session unit :=
  match parse_payload KListFilesRequest payload with
  | None => send_error 6 "Failed to parse ListFilesRequest"
  | Some req =>
      files ← on_files (list_files (se_file_manager env) (lq_directory_prefix req) (lq_recursive req));
      send_message MSG_LIST_FILES_RESPONSE KListFilesResponse (mkListFilesResponse (to_metadata <$> files))
  end.

(** * The event loop *)

Definition dispatch (frame : WireFrame) : SM session unit :=
  let type := byte.unsigned (message_type frame) in
  let payload := payload frame in
  if type =? MSG_CLIENT_HELLO then handle_client_hello payload
  else if type =? MSG_NEGOTIATION_REQUEST then handle_negotiation_request payload
  else if type =? MSG_ZERO_COPY_DOWNLOAD_REQUEST then handle_zero_copy_download_request payload
  else if type =? MSG_ZERO_COPY_UPLOAD_REQUEST then handle_zero_copy_upload_request payload
  else if type =? MSG_DELTA_SYNC_SIGNATURE_REQUEST then handle_delta_sync_signature_request payload
  else if type =? MSG_DELTA_SYNC_BLOCK_DATA then handle_delta_sync_block_data payload
  else if type =? MSG_LIST_FILES_REQUEST then handle_list_files_request payload
  else send_error 6 "Unknown message type".

Fixpoint run_loop (fuel : nat) : SM session unit :=
  match fuel with
  | O => trap_with Diverges
  | S fuel' =>
      s ← get_st;
      if shutdown_requested_ s || bool_decide (state_ s = DISCONNECTED) then mret tt
      else
        frame ← on_socket read_frame;
        match frame with
        | None => enter DISCONNECTED
        | Some frame => _ ← dispatch frame; run_loop fuel'
        end
  end.

Definition run : SM session unit := λ s, run_loop (S (rx_weight (sn_socket s))) s.

End Handlers.

(** [Session::shutdown], called from another thread. *)
Definition shutdown (s : session) : session :=
  mkSession (sn_socket s) (sn_delta s) (sn_clock s) (state_ s) (client_id_ s) true
    (negotiated_block_size_ s) (protocol_version_ s) (upload_state_ s).

(** * Every session comes to an end *)

(** No step puts input back. *)
Definition rx_le (s s' : session) : Prop := (rx_weight (sn_socket s') <= rx_weight (sn_socket s))%nat.
#[export] Instance rx_le_reflexive : Reflexive rx_le.
Proof. unfold rx_le. intros s. lia. Qed.
#[export] Instance rx_le_transitive : Transitive rx_le.
Proof. unfold rx_le. intros a b c. lia. Qed.

Lemma same_rx_weight k k' : same_rx k k' → (rx_weight k' <= rx_weight k)%nat.
Proof. unfold same_rx, rx_weight. intros ->. lia. Qed.

Lemma on_socket_ends {A} (m : SM socket A) : respects same_rx m → respects rx_le (on_socket m).
Proof. intros Hm. eapply respects_zoom; [|exact Hm]. intros k s. apply same_rx_weight. Qed.
Lemma on_delta_ends {A} (m : SM delta_state A) : ends m → respects rx_le (on_delta m).
Proof. intros Hm. eapply respects_zoom; [|exact Hm]. intros d s _. apply le_n. Qed.
Lemma on_files_ends {A} (m : SM filesystem A) : ends m → respects rx_le (on_files m).
Proof. intros Hm. by apply on_delta_ends, on_fs_ends. Qed.
Lemma on_io_ends {A} (m : SM io_state A) : respects same_io_rx m → respects rx_le (on_io m).
Proof. intros Hm. eapply respects_zoom; [|exact Hm]. intros io s. apply same_rx_weight. Qed.
Lemma enter_ends st : respects rx_le (enter st).
Proof. apply respects_modify. intros s. apply le_n. Qed.
Lemma elapsed_ms_ends : respects rx_le elapsed_ms.
Proof. intros s. unfold elapsed_ms. destruct (sn_clock s); (split; [apply le_n|done]). Qed.
#[export] Hint Resolve on_socket_ends on_delta_ends on_files_ends on_io_ends enter_ends elapsed_ms_ends : respects.

Section SessionEnds.
Context `{Host, Codec} (env : session_env).

Lemma send_message_ends type k m : respects rx_le (send_message type k m).
Proof. unfold send_message. solve_respects. Qed.
Lemma send_error_ends code message : respects rx_le (send_error code message).
Proof. apply send_message_ends. Qed.
Hint Resolve send_message_ends send_error_ends : respects.

Lemma upload_frame_ends data : respects rx_le (upload_frame data).
Proof. unfold upload_frame, send_progress. solve_respects. apply le_n. Qed.
Hint Resolve upload_frame_ends : respects.

(** A frame was read: the input has become smaller. *)
Lemma read_frame_session s :
  let '(r, s') := on_socket read_frame s in
  match r with
  | Ret (Some _) => (rx_weight (sn_socket s') < rx_weight (sn_socket s))%nat
  | _ => rx_le s s' ∧ r ≠ Trap Diverges
  end.
Proof.
  unfold on_socket, zoom. pose proof (read_frame_any (sn_socket s)) as Hf.
  destruct (read_frame (sn_socket s)) as [r k]. destruct Hf as (_ & Hle & Hr).
  destruct r as [[f|]|e|t]; [done|split; [done|discriminate]..|done].
Qed.

(** The rest of a loop body after a frame was read. *)
Lemma ends_after {A} (m : SM session A) s s1 : rx_le s s1 →
  (rx_le s1 (m s1).2 ∧ (m s1).1 ≠ Trap Diverges) → rx_le s (m s1).2 ∧ (m s1).1 ≠ Trap Diverges.
Proof. intros Hs [Hm Hd]. split; [by etransitivity|done]. Qed.

Lemma ends_seq {A} (m : SM session unit) (k : SM session A) s : respects rx_le m →
  (∀ s1, rx_le s s1 → rx_le s1 (k s1).2 ∧ (k s1).1 ≠ Trap Diverges) →
  rx_le s ((_ ← m; k) s).2 ∧ ((_ ← m; k) s).1 ≠ Trap Diverges.
Proof.
  intros Hm Hk. rewrite SM_bind_unfold. destruct (Hm s) as [Hle Hd].
  destruct (m s) as [[u|e|t] s1]; simpl in *; [|split; [done|congruence]..].
  apply ends_after; auto.
Qed.

Lemma upload_loop_ends fuel : ∀ s, (rx_weight (sn_socket s) < fuel)%nat →
  rx_le s (upload_loop fuel s).2 ∧ (upload_loop fuel s).1 ≠ Trap Diverges.
Proof.
  induction fuel as [|fuel IH]; [lia|]. intros s Hs. cbn [upload_loop].
  rewrite SM_bind_unfold. cbn [gets_st]. destruct (_ <? _); [|split; [apply le_n|done]].
  rewrite SM_bind_unfold. pose proof (read_frame_session s) as Hf.
  destruct (on_socket read_frame s) as [[[f|]|e|t] s1]; [| |by destruct Hf; split; [done|simpl; congruence]..].
  - apply (ends_after _ s s1); [unfold rx_le; lia|]. apply ends_seq; [destruct (decide _); solve_respects|].
    intros s2 Hle. apply IH. unfold rx_le in *. lia.
  - apply (ends_after _ s s1); [apply Hf|]. apply send_error_ends.
Qed.

Lemma read_upload_ends : respects rx_le read_upload.
Proof. intros s. apply upload_loop_ends. lia. Qed.
Hint Resolve read_upload_ends : respects.

Lemma save_upload_ends : respects rx_le (save_upload env).
Proof. unfold save_upload. solve_respects. Qed.
Lemma vector_alloc_ends n : vector_alloc n ≠ Trap Diverges.
Proof. unfold vector_alloc. repeat case_match; discriminate. Qed.
Lemma u64_nonneg z : 0 <= u64 z.
Proof. apply u64_bound. Qed.
Hint Resolve save_upload_ends vector_alloc_ends send_file_ends u64_nonneg : respects.

Lemma dispatch_ends frame : respects rx_le (dispatch env frame).
Proof.
  unfold dispatch, handle_client_hello, handle_negotiation_request, handle_zero_copy_download_request,
    handle_zero_copy_upload_request, handle_delta_sync_signature_request, handle_delta_sync_block_data,
    handle_list_files_request. cbv zeta.
  solve_respects; apply le_n.
Qed.

Lemma run_loop_ends fuel : ∀ s, (rx_weight (sn_socket s) < fuel)%nat →
  rx_le s (run_loop env fuel s).2 ∧ (run_loop env fuel s).1 ≠ Trap Diverges.
Proof.
  induction fuel as [|fuel IH]; [lia|]. intros s Hs. cbn [run_loop].
  rewrite SM_bind_unfold. cbn [get_st]. destruct (_ || _); [split; [apply le_n|done]|].
  rewrite SM_bind_unfold. pose proof (read_frame_session s) as Hf.
  destruct (on_socket read_frame s) as [[[f|]|e|t] s1]; [| |by destruct Hf; split; [done|simpl; congruence]..].
  - apply (ends_after _ s s1); [unfold rx_le; lia|]. apply ends_seq; [apply dispatch_ends|].
    intros s2 Hle. apply IH. unfold rx_le in *. lia.
  - apply (ends_after _ s s1); [apply Hf|]. apply enter_ends.
Qed.

(** C17: a session never hangs.  Whatever bytes, interruptions, errors and
    close the client produces, whatever the file system answers and whatever the
    state of the session, the event loop with all its nested loops (reading and
    writing exactly, receiving an upload, streaming a download) comes to an end:
    each frame uses up input.  The result is a return, an exception, a fatal
    signal, or a wait for a lock; never an endless loop. *)
Theorem session_terminates (s : session) : (run env s).1 ≠ Trap Diverges.
Proof. apply run_loop_ends. lia. Qed.

End SessionEnds.

(** * What a session may change about itself *)

Lemma u64_add_l a b : u64 (u64 a + b) = u64 (a + b).
Proof. unfold u64. by rewrite Z.add_mod_idemp_l. Qed.

(** The fields of a session hold what their types and the protocol allow: the
    block size is the server's or one the client may choose, versions and sizes
    fit their width, and the count of an upload is that of its buffer. *)
Record session_wf (env : session_env) (s : session) : Prop := {
  wf_block_size : negotiated_block_size_ s = se_block_size env ∨ 4096 <= negotiated_block_size_ s <= 1048576;
  wf_version : is_u32 (protocol_version_ s);
  wf_total_size : is_u64 (up_total_size (upload_state_ s));
  wf_received : up_received (upload_state_ s) = u64 (zlen (up_buffer (upload_state_ s)))
}.

(** Handlers keep the session well formed and never touch the shutdown flag. *)
Definition evolves (env : session_env) (s s' : session) : Prop :=
  (session_wf env s → session_wf env s') ∧ shutdown_requested_ s' = shutdown_requested_ s.

#[export] Instance evolves_reflexive env : Reflexive (evolves env).
Proof. done. Qed.
#[export] Instance evolves_transitive env : Transitive (evolves env).
Proof. intros a b c [H1 E1] [H2 E2]. split; [auto|congruence]. Qed.

(** Steps on the connection, the files, the clock or the state word. *)
Lemma evolves_same env s s' :
  negotiated_block_size_ s' = negotiated_block_size_ s → protocol_version_ s' = protocol_version_ s →
  upload_state_ s' = upload_state_ s → shutdown_requested_ s' = shutdown_requested_ s → evolves env s s'.
Proof. intros Hb Hv Hu Hs. split; [|done]. intros []. split; by rewrite ?Hb, ?Hv, ?Hu. Qed.

Section Evolves.
Context `{Host, Codec} (env : session_env).

Lemma on_socket_keeps {A} (m : SM socket A) : keeps (evolves env) (on_socket m).
Proof. apply keeps_zoom. intros t s. by apply evolves_same. Qed.
Lemma on_delta_keeps {A} (m : SM delta_state A) : keeps (evolves env) (on_delta m).
Proof. apply keeps_zoom. intros t s. by apply evolves_same. Qed.
Lemma on_files_keeps {A} (m : SM filesystem A) : keeps (evolves env) (on_files m).
Proof. apply on_delta_keeps. Qed.
Lemma on_io_keeps {A} (m : SM io_state A) : keeps (evolves env) (on_io m).
Proof. apply keeps_zoom. intros t s. by apply evolves_same. Qed.
Lemma enter_keeps st : keeps (evolves env) (enter st).
Proof. apply keeps_modify. intros s. by apply evolves_same. Qed.
Lemma elapsed_ms_keeps : keeps (evolves env) elapsed_ms.
Proof. intros s. unfold elapsed_ms. destruct (sn_clock s); by apply evolves_same. Qed.
Lemma start_upload_keeps path total sha :
  keeps (evolves env) (modify_st (set_upload (mkUpload path (u64 total) 0 sha []))).
Proof.
  apply keeps_modify. intros s. split; [|done]. intros [Hb Hv _ _]. split; [done..|apply u64_bound|done].
Qed.
Lemma upload_chunk_keeps data :
  keeps (evolves env) (modify_st (λ s, let u := upload_state_ s in
    set_upload (mkUpload (up_relative_path u) (up_total_size u) (u64 (up_received u + zlen data))
      (up_expected_sha256 u) (up_buffer u ++ data)) s)).
Proof.
  apply keeps_modify. intros s. split; [|done]. intros [Hb Hv Ht Hr]. split; [done..|]. simpl.
  by rewrite Hr, u64_add_l, zlen_app.
Qed.
Lemma send_message_keeps type k m : keeps (evolves env) (send_message type k m).
Proof. apply keeps_bind; [apply _|apply on_socket_keeps|]. solve_keeps. Qed.
Lemma send_error_keeps code message : keeps (evolves env) (send_error code message).
Proof. apply send_message_keeps. Qed.
Hint Resolve on_socket_keeps on_delta_keeps on_files_keeps on_io_keeps enter_keeps elapsed_ms_keeps
  start_upload_keeps upload_chunk_keeps send_message_keeps send_error_keeps : keeps.

Lemma upload_loop_keeps fuel : keeps (evolves env) (upload_loop fuel).
Proof.
  induction fuel as [|fuel IH]; cbn [upload_loop]; unfold upload_frame, send_progress; solve_keeps.
Qed.

Lemma read_upload_keeps : keeps (evolves env) read_upload.
Proof. intros s. apply upload_loop_keeps. Qed.
Hint Resolve read_upload_keeps : keeps.

(** The only handler that sets the block size. *)
Lemma handle_client_hello_keeps payload : keeps (evolves env) (handle_client_hello payload).
Proof.
  unfold handle_client_hello. destruct (parse_payload _ _) as [hello|]; [|solve_keeps].
  intros s. rewrite SM_bind_unfold. cbn [get_st]. cbv zeta. 
  set (bs := if ((4096 <=? _) && _)%bool then _ else _).
  rewrite SM_bind_unfold. cbn [modify_st].
  etransitivity; [|apply (keeps_bind (evolves env));
    [apply send_message_keeps|intros; apply enter_keeps]].
  split; [|done]. intros [Hok _ Ht Hr]. split; [|apply u32_bound|done..]. unfold bs. simpl.
  destruct (Z.leb_spec 4096 (u32 (ch_block_size hello))), (Z.leb_spec (u32 (ch_block_size hello)) 1048576);
    simpl; auto.
Qed.
Hint Resolve handle_client_hello_keeps : keeps.

Lemma dispatch_keeps frame : keeps (evolves env) (dispatch env frame).
Proof.
  unfold dispatch, handle_negotiation_request, handle_zero_copy_download_request,
    handle_zero_copy_upload_request, handle_delta_sync_signature_request, handle_delta_sync_block_data,
    handle_list_files_request, save_upload. cbv zeta. solve_keeps.
Qed.

Lemma run_loop_keeps fuel : keeps (evolves env) (run_loop env fuel).
Proof.
  induction fuel as [|fuel IH]; cbn [run_loop]; [solve_keeps|].
  apply keeps_bind; [apply _|solve_keeps|]. intros s.
  destruct (_ || _); [solve_keeps|]. apply keeps_bind; [apply _|solve_keeps|].
  intros [f|]; [|solve_keeps]. apply keeps_bind; [apply _|apply dispatch_keeps|done].
Qed.


End Evolves.

(** * Answers *)

Section Answers.
Context `{Host, Codec} (env : session_env).

Definition framed (type : Z) (k : kind) (m : msg k) : WireFrame :=
  mkWireFrame (byte.of_Z type) (serialized k m).

(** A message to a peer that keeps reading is appended to what was sent. *)
Lemma send_message_willing type k m s :
  Forall willing (tx_events (sn_socket s)) → zlen (serialized k m) < 2 ^ 32 - 5 →
  ∃ evs, Forall willing evs ∧ send_message type k m s =
    (Ret tt, set_socket (mkSocket (rx (sn_socket s)) evs
               (tx (sn_socket s) ++ encode_frame (framed type k m))) s).
Proof.
  intros Hw Hl. destruct (write_frame_willing (framed type k m) (sn_socket s) Hw Hl) as (evs & Hr & Hev).
  exists evs. split; [done|]. unfold send_message, on_socket. rewrite SM_bind_unfold. unfold zoom.
  unfold framed in Hr. by rewrite Hr.
Qed.

(** The handshake.  A client hello is answered with one server hello that
    announces both transfer modes and the block size in force: the client's
    preference if it lies between 4096 and 1048576, else the one before; the
    session remembers that block size and the client, and is ready. *)
Theorem hello_handshake payload hello s :
  parse_payload KClientHello payload = Some hello → Forall willing (tx_events (sn_socket s)) →
  let preferred := u32 (ch_block_size hello) in
  let bs := if decide (4096 <= preferred <= 1048576) then preferred else negotiated_block_size_ s in
  let answer := mkServerHello 1 "adaptivesync-cpp-1.0" [ZERO_COPY; DELTA_SYNC] 10 0 bs in
  zlen (serialized KServerHello answer) < 2 ^ 32 - 5 →
  ∃ s', handle_client_hello payload s = (Ret tt, s') ∧
    state_ s' = READY ∧ client_id_ s' = ch_client_id hello ∧ negotiated_block_size_ s' = bs ∧
    sn_delta s' = sn_delta s ∧ rx (sn_socket s') = rx (sn_socket s) ∧
    tx (sn_socket s') = tx (sn_socket s) ++ encode_frame (framed MSG_SERVER_HELLO KServerHello answer).
Proof.
  intros Hp Hw preferred bs answer Hl. unfold handle_client_hello. rewrite Hp.
  rewrite SM_bind_unfold. cbn [get_st]. cbv zeta. fold preferred.
  replace (if (4096 <=? preferred) && (preferred <=? 1048576) then preferred else negotiated_block_size_ s) with bs.
  2:{ unfold bs. destruct (Z.leb_spec 4096 preferred), (Z.leb_spec preferred 1048576); simpl;
        case_decide; lia. }
  rewrite SM_bind_unfold. cbn [modify_st].
  destruct (send_message_willing MSG_SERVER_HELLO KServerHello answer
    (set_client (ch_client_id hello) (u32 (ch_protocol_version hello)) bs s)) as (evs & _ & Hr); [done|done|].
  rewrite (SM_bind_ret _ _ _ _ _ Hr). eexists. split; [reflexivity|]. done.
Qed.

(** The message each request type carries, and the complaint about a bad one. *)
Definition request_kind (type : Z) : option (kind * string) :=
  if type =? MSG_CLIENT_HELLO then Some (KClientHello, "ClientHello")
  else if type =? MSG_NEGOTIATION_REQUEST then Some (KNegotiationRequest, "NegotiationRequest")
  else if type =? MSG_ZERO_COPY_DOWNLOAD_REQUEST then
    Some (KZeroCopyDownloadRequest, "ZeroCopyDownloadRequest")
  else if type =? MSG_ZERO_COPY_UPLOAD_REQUEST then Some (KZeroCopyUploadRequest, "ZeroCopyUploadRequest")
  else if type =? MSG_DELTA_SYNC_SIGNATURE_REQUEST then
    Some (KDeltaSyncSignatureRequest, "DeltaSyncSignatureRequest")
  else if type =? MSG_DELTA_SYNC_BLOCK_DATA then Some (KDeltaSyncBlockData, "DeltaSyncBlockData")
  else if type =? MSG_LIST_FILES_REQUEST then Some (KListFilesRequest, "ListFilesRequest")
  else None.

Definition malformed (f : WireFrame) : bool :=
  match request_kind (byte.unsigned (message_type f)) with
  | Some (k, _) => match parse_payload k (payload f) with Some _ => false | None => true end
  | None => true
  end.
Definition complaint (f : WireFrame) : string :=
  match request_kind (byte.unsigned (message_type f)) with
  | Some (_, name) => "Failed to parse " +:+ name
  | None => "Unknown message type"
  end.

(** C32: malformed requests are reported and change nothing.  A frame of an
    unknown type (a stray raw-data frame included), or one whose payload is not
    the message its type announces, is answered with one PROTOCOL_ERROR message;
    files, locks, upload and session state are as before. *)
Theorem malformed_request_reported f s :
  malformed f = true → Forall willing (tx_events (sn_socket s)) →
  let answer := mkErrorPayload 6 (complaint f) "" in
  zlen (serialized KErrorPayload answer) < 2 ^ 32 - 5 →
  ∃ evs, dispatch env f s =
    (Ret tt, set_socket (mkSocket (rx (sn_socket s)) evs
               (tx (sn_socket s) ++ encode_frame (framed MSG_ERROR KErrorPayload answer))) s).
Proof.
  intros Hm Hw answer Hl.
  enough (dispatch env f s = send_error 6 (complaint f) s) as ->.
  { destruct (send_message_willing MSG_ERROR KErrorPayload answer s Hw Hl) as (evs & _ & Hr). eauto. }
  unfold malformed, complaint, request_kind in *. unfold dispatch.
  repeat match goal with
  | |- context [byte.unsigned (message_type f) =? ?x] => destruct (byte.unsigned (message_type f) =? x)
  end; [..|done].
  all: destruct (parse_payload _ _) eqn:Hp in Hm; [done|].
  all: unfold handle_client_hello, handle_negotiation_request, handle_zero_copy_download_request,
    handle_zero_copy_upload_request, handle_delta_sync_signature_request, handle_delta_sync_block_data,
    handle_list_files_request.
  all: by rewrite Hp.
Qed.

End Answers.

(** * Uploads *)

Section Uploads.
Context `{Host, Codec} (env : session_env).

(** While an upload is received, the files and locks are not touched, the path
    and size stay, and the count follows the buffer. *)
Definition receiving (s s' : session) : Prop :=
  sn_delta s' = sn_delta s ∧
  up_relative_path (upload_state_ s') = up_relative_path (upload_state_ s) ∧
  up_total_size (upload_state_ s') = up_total_size (upload_state_ s) ∧
  (up_received (upload_state_ s) = u64 (zlen (up_buffer (upload_state_ s))) →
   up_received (upload_state_ s') = u64 (zlen (up_buffer (upload_state_ s')))).

#[export] Instance receiving_reflexive : Reflexive receiving.
Proof. done. Qed.
#[export] Instance receiving_transitive : Transitive receiving.
Proof. intros a b c (H1 & H2 & H3 & H4) (G1 & G2 & G3 & G4). repeat split; try congruence. auto. Qed.

Lemma on_socket_receiving {A} (m : SM socket A) : keeps receiving (on_socket m).
Proof. by apply keeps_zoom. Qed.
Lemma send_message_receiving type k m : keeps receiving (send_message type k m).
Proof. apply keeps_bind; [apply _|apply on_socket_receiving|]. solve_keeps. Qed.
Lemma elapsed_ms_receiving : keeps receiving elapsed_ms.
Proof. intros s. unfold elapsed_ms. by destruct (sn_clock s). Qed.
Hint Resolve on_socket_receiving send_message_receiving elapsed_ms_receiving : keeps.

Lemma upload_frame_receiving data : keeps receiving (upload_frame data).
Proof.
  unfold upload_frame, send_progress. solve_keeps. repeat split. simpl. intros ->.
  by rewrite u64_add_l, zlen_app.
Qed.
Hint Resolve upload_frame_receiving : keeps.

Lemma upload_loop_receiving fuel : keeps receiving (upload_loop fuel).
Proof. induction fuel as [|fuel IH]; cbn [upload_loop]; unfold send_error; solve_keeps. Qed.

Lemma read_upload_receiving : keeps receiving read_upload.
Proof. intros s. apply upload_loop_receiving. Qed.

(** Every file but the uploaded one and its temporary file is kept; that file
    is kept or replaced as a whole by the buffer. *)
Definition saved_or_kept (fs fs' : filesystem) (p : string) (buffer : bytes) : Prop :=
  others_kept fs fs' p ∧
  (file_at fs' (target_loc fs p) = file_at fs (target_loc fs p) ∨
   file_at fs' (target_loc fs p) = Some buffer).

Lemma wp_on_files {A} (m : SM filesystem A) Q s :
  wp m (λ r fs', Q r (set_delta (mkDelta fs' (ds_locks (sn_delta s)) (in_progress (sn_delta s))) s)) (sn_fs s) →
  wp (on_files m) Q s.
Proof. unfold wp, on_files, on_delta, on_fs, zoom, sn_fs. by destruct (m (ds_fs (sn_delta s))). Qed.

Lemma send_error_files code message s : sn_fs (send_error code message s).2 = sn_fs s.
Proof.
  destruct (send_message_receiving MSG_ERROR KErrorPayload (mkErrorPayload code message "") s) as [Hd _].
  unfold sn_fs. unfold send_error. by rewrite Hd.
Qed.

(** Saving, under any failure of the file system. *)
Lemma save_upload_spec p s :
  resolve_path (se_file_manager env) (up_relative_path (upload_state_ s)) = Ret p →
  let u := upload_state_ s in
  let s' := (save_upload env s).2 in
  (saved_or_kept (sn_fs s) (sn_fs s') p (up_buffer u)) ∧
  (up_received u ≠ up_total_size u → save_upload env s = (Ret tt, s)) ∧
  (up_received u = up_total_size u → calm (sn_fs s) → room_for (sn_fs s) p →
     (save_upload env s).1 = Ret tt ∧ sn_socket s' = sn_socket s ∧
     file_at (sn_fs s') (target_loc (sn_fs s) p) = Some (up_buffer u) ∧
     file_at (sn_fs s') (tmp_loc (sn_fs s) p) = None ∧ calm (sn_fs s') ∧ cwd (sn_fs s') = cwd (sn_fs s)).
Proof.
  intros Hr u. cbv zeta.
  enough (wp (save_upload env) (λ r s', saved_or_kept (sn_fs s) (sn_fs s') p (up_buffer u) ∧
    (up_received u ≠ up_total_size u → r = Ret tt ∧ s' = s) ∧
    (up_received u = up_total_size u → calm (sn_fs s) → room_for (sn_fs s) p →
       r = Ret tt ∧ sn_socket s' = sn_socket s ∧
       file_at (sn_fs s') (target_loc (sn_fs s) p) = Some (up_buffer u) ∧
       file_at (sn_fs s') (tmp_loc (sn_fs s) p) = None ∧ calm (sn_fs s') ∧
       cwd (sn_fs s') = cwd (sn_fs s))) s) as Hwp.
  { unfold wp in Hwp. destruct (save_upload env s) as [r s']. simpl. destruct Hwp as (H1 & H2 & H3).
    split; [done|]. split; [|done]. intros Hne. by destruct (H2 Hne) as [-> ->]. }
  unfold save_upload. apply wp_bind. unfold wp at 1. cbn [gets_st]. fold u.
  destruct (Z.eqb_spec (up_received u) (up_total_size u)) as [Heq|Hne].
  2:{ split; [split; [done|by left]|]. split; [done|lia]. }
  apply wp_bind, wp_on_files. eapply wp_mono; [by apply write_file_spec|].
  intros r fs1 (b & -> & Hc1 & Hk1 & Hs1 & Hb1 & Hlive1). pose proof (tmp_target_ne (sn_fs s) p) as Hne.
  assert (file_at fs1 (target_loc (sn_fs s) p) = file_at (sn_fs s) (target_loc (sn_fs s) p)) as Htgt by (by apply Hs1).
  assert (others_kept (sn_fs s) fs1 p) as Ho1 by (intros l _ Hl; by apply Hs1).
  set (s1 := set_delta _ s). destruct b; cbv beta iota.
  - assert (tmp_loc fs1 p = tmp_loc (sn_fs s) p ∧ target_loc fs1 p = target_loc (sn_fs s) p) as [Ht Hg]
      by (by split; apply loc_cwd).
    apply wp_bind, wp_on_files. eapply wp_mono; [apply (rename_tmp_spec _ _ _ (up_buffer u) fs1 Hr); rewrite Ht; auto|].
    intros r fs2 (b & -> & Hc2 & Hk2 & Hb2 & Hpub). rewrite Ht, Hg in *. cbv beta iota. unfold wp. simpl.
    destruct b.
    + destruct Hb2 as (Hb2 & Hb3 & Hb4). split; [|split; [done|unfold sn_fs in *; simpl; rewrite Hc2, Hc1; auto 8]].
      split; [|by right]. intros l Hl1 Hl2. unfold sn_fs. simpl. rewrite Hb4 by done. by apply Ho1.
    + split; [split|split; [done|]].
      * intros l Hl1 Hl2. unfold sn_fs. simpl. rewrite (proj2 Hb2). by apply Ho1.
      * left. unfold sn_fs. simpl. by rewrite (proj2 Hb2).
      * intros _ Hca Hroom. destruct (Hlive1 Hca Hroom) as [_ Hp]. by specialize (Hpub Hp).
  - pose proof (send_error_files 2 "Failed to save uploaded file" s1) as Hf.
    unfold wp. destruct (send_error 2 _ s1) as [r s2]. simpl in Hf. rewrite Hf. unfold sn_fs at 2 4. simpl.
    split; [split; [done|by left]|]. split; [done|]. intros _ Hca Hroom. by destruct (Hlive1 Hca Hroom).
Qed.

(** Saving makes only directories above the file. *)
Lemma save_upload_dirs p s :
  resolve_path (se_file_manager env) (up_relative_path (upload_state_ s)) = Ret p →
  calm (sn_fs s) → room_for (sn_fs s) p → dirs_on_way p (sn_fs s) (sn_fs (save_upload env s).2).
Proof.
  intros Hr Hcalm Hroom. enough (wp (save_upload env) (λ _ s', dirs_on_way p (sn_fs s) (sn_fs s')) s) as Hwp.
  { unfold wp in Hwp. by destruct (save_upload env s). }
  unfold save_upload. apply wp_bind. unfold wp at 1. cbn [gets_st].
  destruct (_ =? _); [|unfold wp; simpl; reflexivity]. apply wp_bind, wp_on_files.
  eapply wp_mono; [apply wp_and; [by apply write_file_spec|by apply keeps_wp, dirs_write_file]|].
  intros r fs1 [(b & -> & Hc1 & _ & _ & Hb1 & Hlive1) Hdirs]. destruct (Hlive1 Hcalm Hroom) as [-> Hpub]. cbv beta iota.
  apply wp_bind, wp_on_files. cbn [sn_fs sn_delta set_delta ds_fs].
  eapply wp_mono; [apply (dirs_rename _ _ p (up_buffer (upload_state_ s))); [done|apply Hpub|]|].
  - unfold tmp_loc in *. rewrite (loc_cwd _ _ _ Hc1). by apply Hb1.
  - intros r fs2 [Hdirs2 _]. assert (dirs_on_way p (sn_fs s) fs2) as Hall by (by etransitivity). by destruct r.
Qed.

(** The handler in two halves: receive, then save. *)
Definition receive_part (size : Z) : SM session unit :=
  _ ← lift (vector_alloc size);
  _ ← enter TRANSFERRING;
  _ ← send_message MSG_ZERO_COPY_UPLOAD_ACK KZeroCopyUploadAck (mkZeroCopyUploadAck OK "" 0);
  read_upload.

Definition start_upload (md : FileMetadata) : UploadState :=
  mkUpload (md_relative_path md) (u64 (md_file_size md)) 0 (md_sha256_hash md) [].

Lemma upload_halves payload req s :
  parse_payload KZeroCopyUploadRequest payload = Some req →
  handle_zero_copy_upload_request env payload s =
    (_ ← receive_part (u64 (md_file_size (uq_metadata req))); _ ← save_upload env; enter READY)
      (set_upload (start_upload (uq_metadata req)) s).
Proof.
  intros Hp. unfold handle_zero_copy_upload_request, receive_part. rewrite Hp.
  cbv [mbind SM_bind modify_st lift enter].
  destruct (vector_alloc _); [|done..]. by destruct (send_message _ _ _ _) as [[]].
Qed.

Lemma receive_part_receiving size : keeps receiving (receive_part size).
Proof.
  unfold receive_part. pose proof read_upload_receiving. unfold enter. solve_keeps. done.
Qed.

(** C2: an upload is stored whole or not at all.  Whatever the client sends or
    fails to send, whatever the socket and the file system do, and however the
    handler ends (return, exception, fatal signal): the published file is what
    it was before, or it holds the complete buffer, whose length is the announced
    size; every other file (the temporary one aside) is untouched. *)
Theorem upload_all_or_nothing payload req p s :
  parse_payload KZeroCopyUploadRequest payload = Some req →
  resolve_path (se_file_manager env) (md_relative_path (uq_metadata req)) = Ret p →
  let s' := (handle_zero_copy_upload_request env payload s).2 in
  others_kept (sn_fs s) (sn_fs s') p ∧
  (file_at (sn_fs s') (target_loc (sn_fs s) p) = file_at (sn_fs s) (target_loc (sn_fs s) p) ∨
   ∃ buffer, file_at (sn_fs s') (target_loc (sn_fs s) p) = Some buffer ∧
     u64 (zlen buffer) = u64 (md_file_size (uq_metadata req))).
Proof.
  intros Hp Hr. cbv zeta. erewrite upload_halves by done. set (s0 := set_upload _ s).
  pose proof (receive_part_receiving (u64 (md_file_size (uq_metadata req))) s0) as (Hd & Hpath & Htot & Hcnt).
  rewrite SM_bind_unfold. destruct (receive_part _ s0) as [r s1]. simpl in Hd, Hpath, Htot, Hcnt.
  assert (sn_fs s1 = sn_fs s) as Hfs by (unfold sn_fs; by rewrite Hd).
  destruct r as [[]|e|t]; cycle 1; [simpl; rewrite Hfs; split; [done|by left]..|].
  destruct (save_upload_spec p s1) as ([Ho Hsave] & Hskip & _); [by rewrite Hpath|].
  rewrite SM_bind_unfold. rewrite Hfs in *.
  assert (others_kept (sn_fs s) (sn_fs (save_upload env s1).2) p ∧
    (file_at (sn_fs (save_upload env s1).2) (target_loc (sn_fs s) p) = file_at (sn_fs s) (target_loc (sn_fs s) p) ∨
     ∃ buffer, file_at (sn_fs (save_upload env s1).2) (target_loc (sn_fs s) p) = Some buffer ∧
       u64 (zlen buffer) = u64 (md_file_size (uq_metadata req)))) as Hgoal.
  { split; [done|]. destruct (decide (up_received (upload_state_ s1) = up_total_size (upload_state_ s1))) as [He|He].
    - destruct Hsave as [?|Hsave]; [by left|]. right. eexists. split; [done|].
      rewrite <- Hcnt by done. by rewrite He, Htot.
    - rewrite (Hskip He). left. simpl. by rewrite Hfs. }
  by destruct (save_upload env s1) as [[]].
Qed.

Lemma send_message_alive type k m s : alive (sn_socket s) →
  ∃ sk, send_message type k m s = (Ret tt, set_socket sk s) ∧ rx sk = rx (sn_socket s) ∧ alive sk.
Proof.
  intros Hal. destruct (write_frame_alive (mkWireFrame (byte.of_Z type) (serialized k m)) _ Hal)
    as (b & evs & t & Hr & Hev).
  exists (mkSocket (rx (sn_socket s)) evs t). split; [|done].
  unfold send_message, on_socket. rewrite SM_bind_unfold. unfold zoom. by rewrite Hr.
Qed.

Definition add_chunk (u : UploadState) (data : bytes) : UploadState :=
  mkUpload (up_relative_path u) (up_total_size u) (u64 (up_received u + zlen data))
    (up_expected_sha256 u) (up_buffer u ++ data).

(** A payload both ends can hold. *)
Definition holds (data : bytes) : Prop := zlen data <= Z.min INT_MAX alloc_limit.

(** The reports of progress that the chunks of an upload leave on the connection:
    one for each reading of the clock above zero. *)
Definition progress_report (u : UploadState) (elapsed : Z) : WireFrame :=
  framed MSG_PROGRESS KProgressUpdate (mkProgressUpdate (up_relative_path u) (up_received u) (up_total_size u)
    (rate_of (up_received u) elapsed) (u32 elapsed)).
Fixpoint upload_reports (u : UploadState) (chunks : list bytes) (clock : list Z) : list WireFrame :=
  match chunks with
  | [] => []
  | d :: chunks =>
      let u' := add_chunk u d in
      let e := default 0 (head clock) in
      (if 0 <? e then [progress_report u' e] else []) ++ upload_reports u' chunks (tail clock)
  end.

Definition reports_fit (rel : string) : Prop := ∀ transferred total rate elapsed,
  holds (serialized KProgressUpdate (mkProgressUpdate rel transferred total rate elapsed)).
Definition is_report (f : WireFrame) : Prop :=
  message_type f = byte.of_Z MSG_PROGRESS ∧ holds (WireProtocol.payload f).

Lemma upload_reports_spec chunks : ∀ u clock, reports_fit (up_relative_path u) →
  (length (upload_reports u chunks clock) <= length chunks)%nat ∧ Forall is_report (upload_reports u chunks clock).
Proof.
  induction chunks as [|d chunks IH]; intros u clock Hf; [done|]. cbn [upload_reports length].
  destruct (IH (add_chunk u d) (tail clock) Hf) as [Hn Hall]. rewrite length_app.
  destruct (0 <? _); simpl; split; [lia| |lia|done]. constructor; [|done]. split; [done|apply Hf].
Qed.

(** The connection after the chunks, when the peer reads and the reports fit. *)
Definition reported (chunks : list bytes) (s s' : session) : Prop :=
  upload_state_ s' = foldl add_chunk (upload_state_ s) chunks ∧
  sn_clock s' = drop (length chunks) (sn_clock s) ∧
  (Forall willing (tx_events (sn_socket s)) → reports_fit (up_relative_path (upload_state_ s)) →
   Forall willing (tx_events (sn_socket s')) ∧
   tx (sn_socket s') = tx (sn_socket s) ++
     concat (encode_frame <$> upload_reports (upload_state_ s) chunks (sn_clock s))).

Lemma reported_nil s : reported [] s s.
Proof. split; [done|]. split; [done|]. intros Hw _. by rewrite app_nil_r. Qed.

Lemma reported_cons d chunks s k s1 s2 : same_tx (sn_socket s) k →
  reported [d] (set_socket k s) s1 → reported chunks s1 s2 → reported (d :: chunks) s s2.
Proof.
  intros [Ht He] (Hu1 & Hc1 & H1) (Hu2 & Hc2 & H2). simpl in *. rewrite Ht, He in H1.
  split; [by rewrite Hu2, Hu1|]. split; [rewrite Hc2, Hc1; by rewrite drop_drop|]. intros Hw Hf.
  destruct (H1 Hw Hf) as [Hw1 Ht1]. rewrite Hu1, Hc1 in H2.
  destruct (H2 Hw1 Hf) as [Hw2 Ht2]. split; [done|]. rewrite Ht2, Ht1, app_nil_r, <- app_assoc.
  cbn [upload_reports]. rewrite fmap_app, concat_app. by destruct (sn_clock s).
Qed.

Lemma upload_frame_alive data s : alive (sn_socket s) →
  ∃ s', upload_frame data s = (Ret tt, s') ∧ rx (sn_socket s') = rx (sn_socket s) ∧ alive (sn_socket s') ∧
    sn_delta s' = sn_delta s ∧ upload_state_ s' = add_chunk (upload_state_ s) data ∧
    reported [data] s s'.
Proof.
  intros Hal. unfold upload_frame. rewrite SM_bind_unfold. cbn [modify_st]. rewrite SM_bind_unfold.
  set (s1 := set_upload _ s).
  assert (elapsed_ms s1 = (Ret (default 0 (head (sn_clock s))), set_clock (tail (sn_clock s)) s1)) as ->.
  { unfold elapsed_ms. change (sn_clock s1) with (sn_clock s). destruct (sn_clock s) eqn:Hc; simpl; [|done].
    rewrite <- Hc. done. }
  set (e := default 0 _). set (c := tail _). unfold reported. cbn [upload_reports foldl length].
  assert (drop 1 (sn_clock s) = c) as Hdrop by (by destruct (sn_clock s)). rewrite Hdrop. fold e.
  destruct (0 <? e).
  2:{ eexists. split; [done|]. do 4 (split; [done|]). split; [done|]. split; [done|]. by rewrite app_nil_r. }
  rewrite SM_bind_unfold. cbn [gets_st]. unfold send_progress.
  match goal with |- context [send_message ?ty ?k ?m ?s2] =>
    destruct (send_message_alive ty k m s2 Hal) as (sk & Hrun & Hrx & Hal');
    pose proof (send_message_willing ty k m s2) as Hsent end.
  rewrite Hrun in *. eexists. split; [done|]. do 4 (split; [done|]). split; [done|]. split; [done|].
  intros Hw Hf. assert (holds (WireProtocol.payload (progress_report (add_chunk (upload_state_ s) data) e))) as Hh by apply Hf.
  destruct Hsent as (evs & Hev & Heq); [done| |].
  { change (zlen (WireProtocol.payload (progress_report (add_chunk (upload_state_ s) data) e)) < 2 ^ 32 - 5).
    unfold holds, INT_MAX in Hh. lia. }
  injection Heq as ->. split; [done|]. cbn [app fmap list_fmap concat]. by rewrite app_nil_r.
Qed.

(** The bytes of a chunk on the wire. *)
Definition raw_frame (data : bytes) : bytes := encode_raw_data_header (zlen data) ++ data.

Lemma upload_loop_run rest chunks : ∀ fuel s,
  (rx_weight (sn_socket s) < fuel)%nat → alive (sn_socket s) →
  delivers (sn_socket s) (concat (raw_frame <$> chunks) ++ rest) →
  Forall (λ d, d ≠ [] ∧ zlen d < 2 ^ 32 ∧ zlen d <= alloc_limit) chunks →
  up_total_size (upload_state_ s) = up_received (upload_state_ s) + zlen (concat chunks) →
  0 <= up_received (upload_state_ s) → up_total_size (upload_state_ s) < 2 ^ 64 →
  ∃ s', upload_loop fuel s = (Ret tt, s') ∧ delivers (sn_socket s') rest ∧ alive (sn_socket s') ∧
    sn_delta s' = sn_delta s ∧
    upload_state_ s' = mkUpload (up_relative_path (upload_state_ s)) (up_total_size (upload_state_ s))
      (up_total_size (upload_state_ s)) (up_expected_sha256 (upload_state_ s))
      (up_buffer (upload_state_ s) ++ concat chunks) ∧ reported chunks s s'.
Proof.
  induction chunks as [|d chunks IH]; intros [|fuel] s Hfuel Hal Hd Hch Htot Hrec Hmax; try lia; cbn [upload_loop];
    rewrite SM_bind_unfold; cbn [gets_st].
  - simpl in *. unfold zlen in Htot. simpl in Htot. rewrite (proj2 (Z.ltb_ge _ _)) by lia.
    exists s. rewrite app_nil_r. split; [done|]. do 3 (split; [done|]). split; [|by apply reported_nil].
    destruct (upload_state_ s); simpl in *. f_equal. lia.
  - inversion_clear Hch as [|?? (Hne & Hlen & Hlim) Hch']. simpl in Htot. rewrite zlen_app in Htot.
    assert (0 < zlen d) as Hpos by (destruct d; [done|unfold zlen; simpl; lia]).
    pose proof (zlen_nonneg (concat chunks)). rewrite (proj2 (Z.ltb_lt _ _)) by lia.
    rewrite fmap_cons in Hd. simpl in Hd. unfold raw_frame at 1 in Hd. rewrite <- !app_assoc in Hd.
    destruct (read_frame_raw d _ _ Hd Hlen Hlim) as (k1 & Hr & Hd1 & Htx1).
    pose proof (read_frame_any (sn_socket s)) as Hany. rewrite Hr in Hany. destruct Hany as (_ & _ & Hlt).
    rewrite SM_bind_unfold. unfold on_socket at 1, zoom. rewrite Hr. cbn [message_type payload].
    rewrite SM_bind_unfold. rewrite decide_True by done.
    destruct (upload_frame_alive d (set_socket k1 s)) as (s2 & -> & Hrx2 & Hal2 & Hdel2 & Hup2 & Hrep2);
      [by eapply alive_same_tx|].
    simpl in Hrx2, Hdel2, Hup2.
    assert (u64 (up_received (upload_state_ s) + zlen d) = up_received (upload_state_ s) + zlen d) as Hu
      by (apply u64_small; lia).
    destruct (IH fuel s2) as (s' & -> & Hd' & Hal' & Hdel' & Hup' & Hrep'); rewrite ?Hup2; simpl; rewrite ?Hu; try lia; try done.
    + unfold rx_weight in *. rewrite Hrx2. lia.
    + by eapply delivers_rx.
    + exists s'. split; [done|]. do 2 (split; [done|]). split; [congruence|]. split.
      * rewrite Hup', Hup2. simpl. by rewrite <- app_assoc.
      * by apply (reported_cons _ _ s k1 s2).
Qed.

(** What was sent is never taken back. *)
Definition tx_grows (s s' : session) : Prop := sends_on (sn_socket s) (sn_socket s').
#[export] Instance tx_grows_reflexive : Reflexive tx_grows.
Proof. intros s. apply (reflexivity (R := sends_on)). Qed.
#[export] Instance tx_grows_transitive : Transitive tx_grows.
Proof. intros a b c. apply (transitivity (R := sends_on)). Qed.

Lemma read_frame_grows : keeps tx_grows (on_socket read_frame).
Proof.
  intros s. unfold on_socket, zoom. pose proof (read_frame_any (sn_socket s)) as Hf.
  destruct (read_frame (sn_socket s)) as [r k]. destruct Hf as [[Ht He] _].
  unfold tx_grows, sends_on. simpl. by rewrite Ht, He.
Qed.
Lemma send_message_grows type k m : keeps tx_grows (send_message type k m).
Proof.
  apply keeps_bind; [apply _| |solve_keeps]. intros s. unfold on_socket, zoom, tx_grows.
  set (f := mkWireFrame _ _). pose proof (write_frame_sends_on f (sn_socket s)) as Hf.
  by destruct (write_frame f (sn_socket s)).
Qed.
Lemma elapsed_ms_grows : keeps tx_grows elapsed_ms.
Proof. intros s. unfold elapsed_ms. by destruct (sn_clock s). Qed.
Hint Resolve read_frame_grows send_message_grows elapsed_ms_grows : keeps.

Lemma upload_loop_grows fuel : keeps tx_grows (upload_loop fuel).
Proof.
  induction fuel as [|fuel IH]; cbn [upload_loop]; unfold upload_frame, send_progress, send_error; solve_keeps.
  done.
Qed.

Definition upload_ack : WireFrame :=
  framed MSG_ZERO_COPY_UPLOAD_ACK KZeroCopyUploadAck (mkZeroCopyUploadAck OK "" 0).

(** The whole run of an upload, with what the client hears: the acknowledgement
    first, then progress. *)
Lemma upload_run payload req p chunks rest s :
  parse_payload KZeroCopyUploadRequest payload = Some req →
  resolve_path (se_file_manager env) (md_relative_path (uq_metadata req)) = Ret p →
  md_file_size (uq_metadata req) = zlen (concat chunks) →
  zlen (concat chunks) <= Z.min alloc_limit vector_max_size →
  Forall (λ d, d ≠ [] ∧ zlen d < 2 ^ 32) chunks →
  delivers (sn_socket s) (concat (raw_frame <$> chunks) ++ rest) → alive (sn_socket s) →
  calm (sn_fs s) → room_for (sn_fs s) p →
  ∃ s', handle_zero_copy_upload_request env payload s = (Ret tt, s') ∧ state_ s' = READY ∧
    file_at (sn_fs s') (target_loc (sn_fs s) p) = Some (concat chunks) ∧
    file_at (sn_fs s') (tmp_loc (sn_fs s) p) = None ∧
    others_kept (sn_fs s) (sn_fs s') p ∧ delivers (sn_socket s') rest ∧
    (Forall willing (tx_events (sn_socket s)) → zlen (WireProtocol.payload upload_ack) < 2 ^ 32 - 5 →
     Forall willing (tx_events (sn_socket s')) ∧
     ∃ progress, tx (sn_socket s') = tx (sn_socket s) ++ encode_frame upload_ack ++ progress ∧
       (reports_fit (md_relative_path (uq_metadata req)) → progress = concat
          (encode_frame <$> upload_reports (start_upload (uq_metadata req)) chunks (sn_clock s)))) ∧
    calm (sn_fs s') ∧ dirs_on_way p (sn_fs s) (sn_fs s').
Proof.
  intros Hp Hr Hsize Hlim Hch Hd Hal Hcalm Hroom. pose proof (zlen_nonneg (concat chunks)) as Hnn.
  unfold vector_max_size in Hlim. erewrite upload_halves by done. rewrite Hsize, u64_small by lia.
  set (s0 := set_upload _ s). rewrite SM_bind_unfold. unfold receive_part.
  rewrite vector_alloc_ok, SM_lift_bind by (unfold vector_max_size; lia).
  rewrite SM_bind_unfold. cbn [enter modify_st]. rewrite SM_bind_unfold.
  destruct (send_message_alive MSG_ZERO_COPY_UPLOAD_ACK KZeroCopyUploadAck (mkZeroCopyUploadAck OK "" 0)
    (set_state TRANSFERRING s0)) as (sk & Hsend & Hrx & Hal1); [done|]. rewrite Hsend.
  set (s1 := set_socket sk _) in *. unfold read_upload.
  assert (Forall (λ d, d ≠ [] ∧ zlen d < 2 ^ 32 ∧ zlen d <= alloc_limit) chunks) as Hch'.
  { apply Forall_forall. intros d Hin. rewrite Forall_forall in Hch. destruct (Hch d Hin). split; [done|]. split; [done|].
    apply list_elem_of_split in Hin as (l1 & l2 & ->). rewrite concat_app in Hlim. simpl in Hlim.
    rewrite !zlen_app in Hlim. pose proof (zlen_nonneg (concat l1)). pose proof (zlen_nonneg (concat l2)). lia. }
  pose proof (upload_loop_grows (S (rx_weight (sn_socket s1))) s1) as Hgrow.
  destruct (upload_loop_run rest chunks (S (rx_weight (sn_socket s1))) s1)
    as (s2 & Hloop & Hd2 & Hal2 & Hdel2 & Hup2 & Hrep2); try done; try (simpl; lia).
  { by eapply delivers_rx. }
  { simpl. rewrite Hsize, u64_small by lia. lia. }
  { simpl. rewrite Hsize, u64_small by lia. lia. }
  rewrite Hloop in Hgrow |- *. simpl in Hup2, Hdel2. rewrite Hsize, u64_small in Hup2 by lia.
  assert (sn_fs s2 = sn_fs s) as Hfs by (unfold sn_fs; by rewrite Hdel2).
  pose proof (save_upload_dirs p s2) as Hdirs. rewrite Hup2, Hfs in Hdirs. specialize (Hdirs Hr Hcalm Hroom).
  destruct (save_upload_spec p s2) as ([Ho _] & _ & Hok); [by rewrite Hup2|].
  rewrite Hup2, Hfs in Hok. destruct (Hok eq_refl Hcalm Hroom) as (Hret & Hsk & Htgt & Htmp & Hcalm3 & Hcwd3).
  rewrite SM_bind_unfold. destruct (save_upload env s2) as [r s3]. simpl in *. subst r.
  eexists. split; [reflexivity|]. simpl. rewrite Hfs in Ho. change (sn_fs (set_state READY s3)) with (sn_fs s3).
  do 4 (split; [done|]). rewrite Hsk. split; [done|]. split; [|done]. intros Hw Hlen.
  destruct (send_message_willing MSG_ZERO_COPY_UPLOAD_ACK KZeroCopyUploadAck (mkZeroCopyUploadAck OK "" 0)
    (set_state TRANSFERRING s0)) as (evs & Hev & Hr'); [done|done|].
  rewrite Hr' in Hsend. injection Hsend as Hsk1. rewrite Hsk in *. unfold tx_grows in Hgrow. simpl in Hgrow.
  rewrite <- Hsk1 in Hgrow. split; [by eapply willing_sends_on|].
  destruct Hgrow as [[progress Hp'] _]. exists progress. rewrite Hp'. simpl. split; [by rewrite <- app_assoc|].
  intros Hfit. assert (sn_socket s1 = sk) as Hs1 by done.
  destruct Hrep2 as (_ & _ & [_ Htx]); [by rewrite Hs1, <- Hsk1|done|].
  apply (app_inv_head (tx (sn_socket s1))).
  transitivity (tx (sn_socket s2)); [by rewrite Hp', Hs1, <- Hsk1|exact Htx].
Qed.

(** C3: an upload arrives.  After an upload request for [data], sent as any
    sequence of non-empty raw-data frames, the published file holds exactly
    [data], the temporary file is gone, no other file has changed, the session is
    ready, and the bytes that follow are still to be read; whatever digest the
    request announced (it is never compared) and even if the server's own
    messages cannot be sent. *)
Theorem upload_stores payload req p chunks rest s :
  parse_payload KZeroCopyUploadRequest payload = Some req →
  resolve_path (se_file_manager env) (md_relative_path (uq_metadata req)) = Ret p →
  md_file_size (uq_metadata req) = zlen (concat chunks) →
  zlen (concat chunks) <= Z.min alloc_limit vector_max_size →
  Forall (λ d, d ≠ [] ∧ zlen d < 2 ^ 32) chunks →
  delivers (sn_socket s) (concat (raw_frame <$> chunks) ++ rest) → alive (sn_socket s) →
  calm (sn_fs s) → room_for (sn_fs s) p →
  ∃ s', handle_zero_copy_upload_request env payload s = (Ret tt, s') ∧ state_ s' = READY ∧
    file_at (sn_fs s') (target_loc (sn_fs s) p) = Some (concat chunks) ∧
    file_at (sn_fs s') (tmp_loc (sn_fs s) p) = None ∧
    others_kept (sn_fs s) (sn_fs s') p ∧ delivers (sn_socket s') rest.
Proof.
  intros. destruct (upload_run payload req p chunks rest s) as (s' & ? & ? & ? & ? & ? & ? & _ & _); [done..|].
  by exists s'.
Qed.

End Uploads.

(** * Witnesses *)

Definition demo_env : session_env := mkEnv demo_root 65536 true.
Definition demo_session (rx : list recv_event) : session :=
  Session_new demo_env (mkSocket rx [] []) (demo_fs []) FileMutex_new [].
Definition demo_hello : ClientHello := mkClientHello 1 "c" [1; 2] 8192.

Lemma hello_handshake_witness :
  ∃ s', @handle_client_hello le_host proto3 (@serialized proto3 KClientHello demo_hello) (demo_session [])
          = (Ret tt, s') ∧ state_ s' = READY ∧ negotiated_block_size_ s' = 8192.
Proof.
  destruct (@hello_handshake le_host proto3 (@serialized proto3 KClientHello demo_hello) demo_hello
    (demo_session [])) as (s' & Hr & Hst & _ & Hbs & _);
    [vm_compute; reflexivity|constructor|vm_compute; reflexivity|].
  exists s'. split; [exact Hr|]. split; [exact Hst|exact Hbs].
Defined.

Lemma malformed_request_reported_witness :
  ∃ evs, @dispatch le_host proto3 demo_env (mkWireFrame MSG_RAW_DATA [x61]) (demo_session []) =
    (Ret tt, set_socket (mkSocket [] evs (@encode_frame le_host (@framed proto3 MSG_ERROR KErrorPayload
       (mkErrorPayload 6 "Unknown message type" "")))) (demo_session [])).
Proof.
  apply (@malformed_request_reported le_host proto3 demo_env (mkWireFrame MSG_RAW_DATA [x61]) (demo_session []));
    [vm_compute; reflexivity|constructor|vm_compute; reflexivity].
Defined.

Definition demo_upload : ZeroCopyUploadRequest := mkZeroCopyUploadRequest (mkFileMetadata "f" 3 0 "not a digest" 1).

Lemma upload_all_or_nothing_witness :
  let s' := (@handle_zero_copy_upload_request le_host proto3 demo_env
               (@serialized proto3 KZeroCopyUploadRequest demo_upload) (demo_session [RecvData x00 []])).2 in
  others_kept (demo_fs []) (sn_fs s') "/s/f".
Proof.
  exact (proj1 (@upload_all_or_nothing le_host proto3 demo_env
    (@serialized proto3 KZeroCopyUploadRequest demo_upload) demo_upload "/s/f" (demo_session [RecvData x00 []])
    ltac:(vm_compute; reflexivity) eq_refl)).
Defined.

Lemma upload_stores_witness :
  let s := demo_session [RecvData xff [xff; xff; xff; xfe; x00; x00; x00; x00; x00]; RecvEintr;
             RecvData x00 [x00; x02; x61]; RecvData x62 [xff; xff; xff; xff; xfe; x00; x00; x00; x00; x00; x00; x00; x01;
                            x63]; RecvData x07 []] in
  ∃ s', @handle_zero_copy_upload_request le_host proto3 demo_env
          (@serialized proto3 KZeroCopyUploadRequest demo_upload) s = (Ret tt, s') ∧
    file_at (sn_fs s') ["s"; "f"] = Some [x61; x62; x63] ∧ delivers (sn_socket s') [x07].
Proof.
  intros s.
  destruct (@upload_stores le_host proto3 demo_env (@serialized proto3 KZeroCopyUploadRequest demo_upload)
    demo_upload "/s/f" [[x61; x62]; [x63]] [x07] s) as (s' & Hr & _ & Hf & _ & _ & Hd);
    [vm_compute; reflexivity|reflexivity|reflexivity|vm_compute; discriminate|repeat constructor; discriminate
    |split; [repeat constructor; discriminate|vm_compute; reflexivity]|constructor|reflexivity|exact demo_room|].
  exists s'. split; [exact Hr|]. split; [exact Hf|exact Hd].
Defined.
