(* ===== verification/Server.v ===== *)
(** The server: src/server/src/server.cpp.

    The accept loops run on a script of what the operating system answers; the
    client threads are steps of a relation, so that the statistics are related
    to the connections that really exist. *)
From S2P Require Import Prelude Sha256 Paths FileSystem FileManager FileMutex WireProtocol Proto Proto3.
From S2P Require Import DeltaSync Negotiator ZeroCopySender Ends Session.

(** * State *)

Record ServerConfig := mkConfig_ {
  port : Z;
  storage_root_ : string;
  thread_count : Z;
  block_size : Z;
  max_connections : Z
}.

Definition default_config : ServerConfig := mkConfig_ 9090 "./storage" 0 65536 100.

Record AdaptiveSyncServer := mkServer {
  config_ : ServerConfig;
  file_manager_ : FileManager;
  running_ : bool;
  server_fd_ : Z;                       (* -1: none *)
  worker_threads_ : list (Z * string);  (* the connections handed to threads *)
  total_connections_ : Z;
  active_connections_ : Z
}.

Definition set_running (b : bool) (s : AdaptiveSyncServer) : AdaptiveSyncServer :=
  mkServer (config_ s) (file_manager_ s) b (server_fd_ s) (worker_threads_ s)
    (total_connections_ s) (active_connections_ s).
Definition set_fd (fd : Z) (s : AdaptiveSyncServer) : AdaptiveSyncServer :=
  mkServer (config_ s) (file_manager_ s) (running_ s) fd (worker_threads_ s)
    (total_connections_ s) (active_connections_ s).

(** The constructor: the storage directory is created, and a thread count of
    zero becomes the number of cores, or four if that is unknown. *)
Definition AdaptiveSyncServer_new (config : ServerConfig) (hardware_concurrency : Z)
  : SM filesystem AdaptiveSyncServer :=
  fm ← FileManager_new (storage_root_ config);
  let threads :=
    if thread_count config =? 0
    then if hardware_concurrency =? 0 then 4 else hardware_concurrency
    else thread_count config in
  mret (mkServer (mkConfig_ (port config) (storage_root_ config) threads (block_size config)
                    (max_connections config)) fm false (-1) [] 0 0).

(** * Shutting down *)

Definition shutdown_server (s : AdaptiveSyncServer) : AdaptiveSyncServer :=
  let s := set_running false s in
  if server_fd_ s =? -1 then s else set_fd (-1) s.

(** The handler of SIGINT and SIGTERM, through the global pointer. *)
Definition signal_handler (g_server : option AdaptiveSyncServer) : option AdaptiveSyncServer :=
  match g_server with
  | Some s => Some (shutdown_server s)
  | None => None
  end.

(** * The accept loops *)

(** What [accept] returns for a connection attempt. *)
Inductive accept_result :=
| Accepted (fd : Z) (addr : string)
| AcceptAgain                        (* EAGAIN, EWOULDBLOCK *)
| AcceptError.

(** What a wait ([epoll_wait], [select]) returns; a signal may come before it.
    Each ready event names its descriptor. *)
Inductive wait_result :=
| WaitEvents (events : list (Z * accept_result))
| WaitEintr
| WaitError.

Record iteration := mkIteration { signal_before : bool; wait : wait_result }.

Definition accept_one (s : AdaptiveSyncServer) (r : accept_result) : AdaptiveSyncServer :=
  match r with
  | Accepted fd addr =>
      mkServer (config_ s) (file_manager_ s) (running_ s) (server_fd_ s)
        (worker_threads_ s ++ [(fd, addr)]) (u64 (total_connections_ s + 1))
        (u64 (active_connections_ s + 1))
  | AcceptAgain | AcceptError => s
  end.

(** The events of one [epoll_wait]: only those of the listening socket count. *)
Definition accept_events (s : AdaptiveSyncServer) (events : list (Z * accept_result)) : AdaptiveSyncServer :=
  fold_left (λ s '(fd, r), if fd =? server_fd_ s then accept_one s r else s) events s.

Fixpoint run_epoll (script : list iteration) (s : AdaptiveSyncServer) : AdaptiveSyncServer :=
  match script with
  | [] => s
  | it :: script' =>
      let s := if signal_before it then shutdown_server s else s in
      if running_ s then
        match wait it with
        | WaitEintr => run_epoll script' s
        | WaitError => s
        | WaitEvents events => run_epoll script' (accept_events s events)
        end
      else s
  end.

(** [select] watches the listening socket alone: no event is a timeout. *)
Fixpoint run_select (script : list iteration) (s : AdaptiveSyncServer) : AdaptiveSyncServer :=
  match script with
  | [] => s
  | it :: script' =>
      let s := if signal_before it then shutdown_server s else s in
      if running_ s then
        match wait it with
        | WaitEintr => run_select script' s
        | WaitError => s
        | WaitEvents [] => run_select script' s
        | WaitEvents ((fd, r) :: _) =>
            run_select script' (if fd =? server_fd_ s then accept_one s r else s)
        end
      else s
  end.

(** [run_iocp]: the fallback loop. *)
Definition run_iocp : list iteration → AdaptiveSyncServer → AdaptiveSyncServer := run_select.

(** * Starting *)

(** What the operating system answers while the listening socket is set up:
    the descriptor ([None]: failure), then [bind] and [listen]. *)
Record network := mkNetwork {
  socket_fd : option Z;
  bind_ok : bool;
  listen_ok : bool;
  epoll_ok : bool
}.

Definition init_storage (s : AdaptiveSyncServer) : SM filesystem unit :=
  ok ← create_directories (storage_root_ (config_ s));
  if (ok : bool) then mret tt else throw (FilesystemError "cannot create directories").

Definition run_server (net : network) (script : list iteration) (s : AdaptiveSyncServer)
  : SM filesystem AdaptiveSyncServer :=
  let s := set_running true s in
  _ ← init_storage s;
  match socket_fd net with
  | None => mret (set_fd (-1) s)
  | Some fd =>
      let s := set_fd fd s in
      if negb (bind_ok net) then mret s
      else if negb (listen_ok net) then mret s
      else if negb (epoll_ok net) then mret s
      else mret (run_epoll script s)
  end.

(** * A client's thread *)

Definition server_env (s : AdaptiveSyncServer) (linux : bool) : session_env :=
  mkEnv (file_manager_ s) (block_size (config_ s)) linux.

Definition client_done (s : AdaptiveSyncServer) : AdaptiveSyncServer :=
  mkServer (config_ s) (file_manager_ s) (running_ s) (server_fd_ s) (worker_threads_ s)
    (total_connections_ s) (u64 (active_connections_ s - 1)).

(** The thread function: an exception that leaves it terminates the process. *)
Definition handle_client `{Host, Codec} (env : session_env) : SM session unit := λ s,
  match run env s with
  | (Throw e, s') => (Trap (Terminate e), s')
  | o => o
  end.

(** * Connections over time *)

Record world := mkWorld {
  server : AdaptiveSyncServer;
  live : gset nat                      (* connections whose thread has not ended *)
}.

Inductive server_step : world → world → Prop :=
| step_accept w fd addr :
    running_ (server w) = true →
    server_step w (mkWorld (accept_one (server w) (Accepted fd addr))
                     ({[length (worker_threads_ (server w))]} ∪ live w))
| step_done w c :
    c ∈ live w → server_step w (mkWorld (client_done (server w)) (live w ∖ {[c]}))
| step_signal w : server_step w (mkWorld (shutdown_server (server w)) (live w)).

(** The statistics are those of the connections that exist, up to the width of
    the counters. *)
Record stats_ok (w : world) : Prop := {
  ok_live : ∀ c, c ∈ live w → (c < length (worker_threads_ (server w)))%nat;
  ok_active : active_connections_ (server w) = u64 (Z.of_nat (size (live w)));
  ok_total : total_connections_ (server w) = u64 (Z.of_nat (length (worker_threads_ (server w))))
}.

Definition fresh_world (s : AdaptiveSyncServer) : Prop :=
  worker_threads_ s = [] ∧ total_connections_ s = 0 ∧ active_connections_ s = 0.

Lemma stats_step w w' : stats_ok w → server_step w w' → stats_ok w'.
Proof.
  intros [Hl Ha Ht]. inversion 1; subst; simpl.
  - assert (length (worker_threads_ (server w)) ∉ live w) as Hnew by (intros Hin; apply Hl in Hin; lia).
    split; simpl.
    + intros c. rewrite length_app. simpl. set_unfold. intros [->|Hc%Hl]; lia.
    + rewrite Ha, u64_add_l, size_union, size_singleton by set_solver. f_equal. lia.
    + rewrite Ht, u64_add_l, length_app. f_equal. simpl. lia.
  - match goal with Hc : ?c ∈ live w |- _ => rename c into cl, Hc into Hin end.
    split; simpl; [intros c [Hc _]%elem_of_difference; by apply Hl| |done].
    assert (size (live w) = S (size (live w ∖ {[cl]}))) as Hsize.
    { rewrite (union_difference_singleton_L cl (live w)) at 1 by done.
      rewrite size_union, size_singleton; [done|]. apply disjoint_singleton_l.
      rewrite elem_of_difference, elem_of_singleton. tauto. }
    rewrite Ha, Hsize. unfold u64. rewrite Zminus_mod_idemp_l. f_equal. lia.
  - unfold shutdown_server. simpl. split; case_match; done.
Qed.

Lemma stats_reachable w w' : stats_ok w → rtc server_step w w' → stats_ok w'.
Proof. intros Hok. induction 1; eauto using stats_step. Qed.

Lemma stats_initial s : fresh_world s → stats_ok (mkWorld s ∅).
Proof. intros (Hw & Ht & Ha). split; simpl; [set_solver|by rewrite Ha|by rewrite Ht, Hw]. Qed.

(** The connection statistics are right.  Whatever the order of accepts, of
    ends of client threads and of shutdown signals, the active count is the
    number of client threads still running and the total is the number of
    threads ever started, as long as these fit the 64-bit counters: a
    disconnect never drives the active count below zero. *)
Theorem connection_statistics s w :
  fresh_world s → rtc server_step (mkWorld s ∅) w →
  Z.of_nat (length (worker_threads_ (server w))) < 2 ^ 64 →
  active_connections_ (server w) = Z.of_nat (size (live w)) ∧
  total_connections_ (server w) = Z.of_nat (length (worker_threads_ (server w))) ∧
  active_connections_ (server w) <= total_connections_ (server w).
Proof.
  intros Hf Hr Hlt. apply stats_reachable in Hr as [Hl Ha Ht]; [|by apply stats_initial].
  assert (size (live w) <= length (worker_threads_ (server w)))%nat as Hle.
  { etransitivity; [apply (subseteq_size _ (list_to_set (seq 0 (length (worker_threads_ (server w)))) : gset nat))|].
    - intros c Hc%Hl. apply elem_of_list_to_set, elem_of_seq. lia.
    - by rewrite size_list_to_set, length_seq by apply NoDup_seq. }
  rewrite Ha, Ht, !u64_small by lia. lia.
Qed.

Definition demo_server : AdaptiveSyncServer := mkServer default_config demo_root true 3 [] 0 0.

Lemma connection_statistics_witness :
  ∃ w, rtc server_step (mkWorld demo_server ∅) w ∧ active_connections_ (server w) = 1 ∧
    active_connections_ (server w) = Z.of_nat (size (live w)).
Proof.
  eexists. assert (rtc server_step (mkWorld demo_server ∅)
    (mkWorld (accept_one demo_server (Accepted 4 "a")) ({[0%nat]} ∪ ∅))) as Hr.
  { apply rtc_once. by apply (step_accept (mkWorld demo_server ∅) 4 "a"). }
  split; [exact Hr|]. split; [reflexivity|].
  apply (connection_statistics demo_server _ ltac:(done) Hr). reflexivity.
Defined.

(** The connection limit is only a backlog.  Accepting never looks at
    [max_connections]: for every number of connections there is a run of the
    server with that many clients being served at once. *)
Theorem connections_unlimited s (n : nat) :
  fresh_world s → running_ s = true →
  ∃ w, rtc server_step (mkWorld s ∅) w ∧ size (live w) = n ∧
    max_connections (config_ (server w)) = max_connections (config_ s).
Proof.
  intros Hf Hrun.
  enough (∃ w, rtc server_step (mkWorld s ∅) w ∧ size (live w) = n ∧ running_ (server w) = true ∧
    config_ (server w) = config_ s) as (w & ? & ? & _ & Hc) by (exists w; by rewrite Hc).
  induction n as [|n (w & Hr & Hs & Hrw & Hc)].
  - by exists (mkWorld s ∅).
  - eexists. split; [eapply rtc_r; [exact Hr|by apply (step_accept w 0 "")]|]. simpl.
    apply stats_reachable in Hr as [Hl _ _]; [|by apply stats_initial].
    split; [|done]. rewrite size_union, size_singleton, Hs; [done|].
    apply disjoint_singleton_l. intros Hin%Hl. lia.
Qed.

Lemma connections_unlimited_witness :
  ∃ w, rtc server_step (mkWorld demo_server ∅) w ∧ size (live w) = 101%nat ∧
    max_connections (config_ (server w)) = 100.
Proof. exact (connections_unlimited demo_server 101 ltac:(done) eq_refl). Defined.

(** * The accept loops are runs of the server *)

Lemma accept_one_step w r : running_ (server w) = true →
  ∃ w', rtc server_step w w' ∧ server w' = accept_one (server w) r.
Proof.
  intros Hr. destruct r as [fd addr| |]; [|by exists w..].
  eexists. split; [apply rtc_once; by apply (step_accept w fd addr)|done].
Qed.

Lemma accept_events_step events : ∀ w, running_ (server w) = true →
  ∃ w', rtc server_step w w' ∧ server w' = accept_events (server w) events ∧ running_ (server w') = true.
Proof.
  induction events as [|[fd r] events IH]; intros w Hr; [by exists w|]. unfold accept_events in *. simpl.
  destruct (fd =? server_fd_ (server w)); [|by apply IH].
  destruct (accept_one_step w r Hr) as (w1 & Hs1 & He1).
  assert (running_ (server w1) = true) as Hr1 by (rewrite He1; by destruct r).
  destruct (IH w1 Hr1) as (w2 & Hs2 & He2 & Hr2). exists w2.
  split; [by etransitivity|]. split; [by rewrite He2, He1|done].
Qed.

Lemma run_epoll_step script : ∀ w, ∃ w', rtc server_step w w' ∧ server w' = run_epoll script (server w).
Proof.
  induction script as [|[sig wt] script IH]; intros w; [by exists w|]. simpl.
  assert (∃ w1, rtc server_step w w1 ∧
    server w1 = if sig then shutdown_server (server w) else server w) as (w1 & Hs1 & <-).
  { destruct sig; [|by exists w]. eexists. split; [apply rtc_once, step_signal|done]. }
  destruct (running_ (server w1)) eqn:Hr; [|by exists w1]. destruct wt as [events| |].
  - destruct (accept_events_step events w1 Hr) as (w2 & Hs2 & He2 & _).
    destruct (IH w2) as (w3 & Hs3 & He3). exists w3. rewrite He3, He2.
    split; [etransitivity; [exact Hs1|]; by etransitivity|done].
  - destruct (IH w1) as (w3 & Hs3 & He3). exists w3. split; [by etransitivity|done].
  - by exists w1.
Qed.

Lemma run_select_epoll script : ∀ s,
  Forall (λ it, match wait it with WaitEvents es => (length es <= 1)%nat | _ => True end) script →
  run_select script s = run_epoll script s.
Proof.
  induction script as [|[sig wt] script IH]; intros s Hone; [done|]. inversion_clear Hone as [|?? He Hone'].
  simpl in *. destruct (running_ _); [|done]. destruct wt as [[|[fd r] [|]]| |]; simpl in He; try lia; auto.
Qed.



(** * Exceptions *)

Section Exceptions.
Context `{Host, Codec, !CodecLaws} (env : session_env).

(** C35: one request with a path outside the storage root takes the server down.
    The check throws, no handler catches, and the exception leaves the client's
    thread: the whole process is terminated. *)
Theorem traversal_request_terminates req e rest s :
  resolve_path (se_file_manager env) (nq_relative_path req) = Throw e →
  msg_wf KNegotiationRequest req →
  zlen (encoding KNegotiationRequest req) <= Z.min INT_MAX alloc_limit →
  delivers (sn_socket s) (encode_frame (framed MSG_NEGOTIATION_REQUEST KNegotiationRequest req) ++ rest) →
  shutdown_requested_ s = false → state_ s ≠ DISCONNECTED →
  (handle_client env s).1 = Trap (Terminate e).
Proof.
  intros Hres Hwf Hsize Hd Hsh Hst. unfold handle_client, run. cbn [run_loop].
  rewrite SM_bind_unfold. cbn [get_st]. rewrite Hsh, bool_decide_eq_false_2 by done. cbn [orb]. cbv iota.
  assert (zlen (payload (framed MSG_NEGOTIATION_REQUEST KNegotiationRequest req)) <= Z.min INT_MAX alloc_limit) as Hp.
  { unfold framed. cbn [payload]. rewrite serialized_small; lia. }
  unfold INT_MAX in Hp. rewrite encode_frame_standard in Hd by lia.
  destruct (read_frame_standard _ _ _ _ Hd) as (k & Hr & _ & _); [unfold RAW_DATA_SENTINEL; lia|lia|].
  rewrite SM_bind_unfold. unfold on_socket, zoom. rewrite Hr. rewrite SM_bind_unfold.
  change (dispatch env _ ?s1) with
    (handle_negotiation_request env (serialized KNegotiationRequest req) s1).
  unfold handle_negotiation_request. rewrite parse_serialized by (done || lia).
  rewrite SM_bind_unfold. cbn [enter modify_st]. rewrite SM_bind_unfold.
  unfold on_files, on_delta, on_fs, zoom, negotiate. rewrite SM_bind_unfold. unfold file_exists.
  rewrite SM_bind_unfold. unfold negotiator. simpl ng_file_manager. rewrite Hres. done.
Qed.

End Exceptions.

Definition demo_attack : NegotiationRequest := mkNegotiationRequest "../x" 0 0 "".

Lemma traversal_request_terminates_witness :
  ∃ rx, (@handle_client le_host proto3 demo_env (demo_session rx)).1 =
    Trap (Terminate (RuntimeError "Directory traversal detected: ../x")).
Proof.
  set (bytes := @encode_frame le_host (@framed proto3 MSG_NEGOTIATION_REQUEST KNegotiationRequest demo_attack)).
  exists [RecvData (default x00 (head bytes)) (tail bytes)].
  apply (@traversal_request_terminates le_host proto3 proto3_laws demo_env demo_attack _ []);
    [reflexivity|by repeat split|vm_compute; discriminate| |reflexivity|discriminate].
  split; [repeat constructor; discriminate|vm_compute; reflexivity].
Defined.
