(* ===== verification/MainArgs.v ===== *)
(** The command line and the entry point: src/server/src/main.cpp. *)
From Stdlib Require Import Strings.Ascii.
From S2P Require Import Prelude Paths FileSystem FileManager Server.

(** * [std::atoi] *)

Definition is_space (c : Ascii.ascii) : bool :=
  let n := Ascii.nat_of_ascii c in (n =? 32)%nat || ((9 <=? n)%nat && (n <=? 13)%nat).

Definition digit_value (c : Ascii.ascii) : option Z :=
  let n := Z.of_nat (Ascii.nat_of_ascii c) in
  if (48 <=? n) && (n <=? 57) then Some (n - 48) else None.

Fixpoint skip_spaces (s : string) : string :=
  match s with
  | String c s' => if is_space c then skip_spaces s' else s
  | EmptyString => s
  end.

Fixpoint digits (acc : Z) (s : string) : Z :=
  match s with
  | String c s' =>
      match digit_value c with
      | Some d => digits (acc * 10 + d) s'
      | None => acc
      end
  | EmptyString => acc
  end.

(** [(int) strtol(s)]: out of range values saturate at the ends of [long]. *)
Definition to_long (z : Z) : Z := Z.max (- 2 ^ 63) (Z.min z (2 ^ 63 - 1)).

Definition atoi (s : string) : Z :=
  let s := skip_spaces s in
  match s with
  | String "-"%char s' => i32 (to_long (- digits 0 s'))
  | String "+"%char s' => i32 (to_long (digits 0 s'))
  | _ => i32 (to_long (digits 0 s))
  end.

(** * Options *)

Inductive parsed :=
| ShowHelp                       (* --help: usage, exit 0 *)
| BadOption (arg : string)       (* unknown option: usage, exit 1 *)
| Serve (config : ServerConfig).

Definition set_port (v : Z) (c : ServerConfig) : ServerConfig :=
  mkConfig_ v (storage_root_ c) (thread_count c) (block_size c) (max_connections c).
Definition set_storage_root (v : string) (c : ServerConfig) : ServerConfig :=
  mkConfig_ (port c) v (thread_count c) (block_size c) (max_connections c).
Definition set_threads (v : Z) (c : ServerConfig) : ServerConfig :=
  mkConfig_ (port c) (storage_root_ c) v (block_size c) (max_connections c).
Definition set_block_size (v : Z) (c : ServerConfig) : ServerConfig :=
  mkConfig_ (port c) (storage_root_ c) (thread_count c) v (max_connections c).
Definition set_max_connections (v : Z) (c : ServerConfig) : ServerConfig :=
  mkConfig_ (port c) (storage_root_ c) (thread_count c) (block_size c) v.

(** What an option does with its value; [None] for an unknown option. *)
Definition option_setter (arg value : string) : option (ServerConfig → ServerConfig) :=
  if decide (arg = "--port") then Some (set_port (u16 (atoi value)))
  else if decide (arg = "--storage-root") then Some (set_storage_root value)
  else if decide (arg = "--threads") then Some (set_threads (u32 (atoi value)))
  else if decide (arg = "--block-size") then Some (set_block_size (u32 (atoi value)))
  else if decide (arg = "--max-connections") then Some (set_max_connections (u32 (atoi value)))
  else None.

(** The loop over [argv], from [i = 1] on. *)
Fixpoint parse_args (args : list string) (config : ServerConfig) : parsed :=
  match args with
  | [] => Serve config
  | arg :: rest =>
      if decide (arg = "--help" ∨ arg = "-h") then ShowHelp
      else
        match rest with
        | [] => BadOption arg
        | value :: rest' =>
            match option_setter arg value with
            | Some f => parse_args rest' (f config)
            | None => BadOption arg
            end
        end
  end.

(** [main]: the exit status and, when the server ran, its final state. *)
Definition main (args : list string) (hardware_concurrency : Z) (net : network) (script : list iteration)
  : SM filesystem (Z * option AdaptiveSyncServer) :=
  match parse_args args default_config with
  | ShowHelp => mret (0, None)
  | BadOption _ => mret (1, None)
  | Serve config => λ fs,
      match (server ← AdaptiveSyncServer_new config hardware_concurrency;
             run_server net script server) fs with
      | (Ret s, fs') => (Ret (0, Some s), fs')
      | (Throw _, fs') => (Ret (1, None), fs')
      | (Trap t, fs') => (Trap t, fs')
      end
  end.

(** * Printing numbers and reading them back *)

Lemma digit_value_pretty n : (n < 10)%N → digit_value (pretty_N_char n) = Some (Z.of_N n).
Proof.
  intros Hn.
  assert (n = 0 ∨ n = 1 ∨ n = 2 ∨ n = 3 ∨ n = 4 ∨ n = 5 ∨ n = 6 ∨ n = 7 ∨ n = 8 ∨ n = 9)%N as Hc by lia.
  repeat destruct Hc as [-> |Hc]; try reflexivity. by subst.
Qed.

Lemma digits_pretty n : ∀ s, digits 0 (pretty_N_go n s) = digits (Z.of_N n) s.
Proof.
  induction (N.lt_wf_0 n) as [n _ IH]. intros s. destruct (decide (n = 0)%N) as [->|Hn]; [by rewrite pretty_N_go_0|].
  rewrite pretty_N_go_step by lia. rewrite IH by (apply N.div_lt; lia). cbn [digits].
  rewrite digit_value_pretty by (by apply N.mod_lt). f_equal.
  rewrite N2Z.inj_div, N2Z.inj_mod by lia. pose proof (Z.div_mod (Z.of_N n) 10). lia.
Qed.

(** A string that starts with a digit. *)
Definition starts_with_digit (s : string) : Prop :=
  ∃ c s', s = String c s' ∧ is_Some (digit_value c).

Lemma pretty_go_digit n : ∀ s, starts_with_digit s → starts_with_digit (pretty_N_go n s).
Proof.
  induction (N.lt_wf_0 n) as [n _ IH]. intros s Hs. destruct (decide (n = 0)%N) as [->|Hn]; [by rewrite pretty_N_go_0|].
  rewrite pretty_N_go_step by lia. apply IH; [apply N.div_lt; lia|]. do 2 eexists. split; [done|].
  rewrite digit_value_pretty by (by apply N.mod_lt). done.
Qed.

Lemma pretty_N_digit (n : N) : starts_with_digit (pretty n) ∧ digits 0 (pretty n) = Z.of_N n.
Proof.
  unfold pretty, pretty_N. case_decide as Hn; [subst; split; [do 2 eexists; split; [done|by eexists]|done]|].
  split; [|by rewrite digits_pretty].
  rewrite pretty_N_go_step by lia. apply pretty_go_digit. do 2 eexists. split; [done|].
  rewrite digit_value_pretty by (by apply N.mod_lt). done.
Qed.

Lemma digit_not_special c : is_Some (digit_value c) → is_space c = false ∧ c ≠ "-"%char ∧ c ≠ "+"%char.
Proof.
  unfold digit_value, is_space. intros [d Hd]. destruct (_ && _) eqn:Hr in Hd; [|done]. bool_to_prop.
  split; [|by split; intros ->; vm_compute in *].
  destruct (Nat.eqb_spec (Ascii.nat_of_ascii c) 32), (Nat.leb_spec 9 (Ascii.nat_of_ascii c)),
    (Nat.leb_spec (Ascii.nat_of_ascii c) 13); simpl; lia || done.
Qed.

Lemma atoi_pretty (n : N) : Z.of_N n < 2 ^ 31 → atoi (pretty n) = Z.of_N n.
Proof.
  intros Hn. destruct (pretty_N_digit n) as [(c & s & Hs & Hc) Hd]. rewrite Hs in *.
  destruct (digit_not_special c Hc) as (Hsp & Hm & Hp).
  assert (i32 (to_long (digits 0 (String c s))) = Z.of_N n) as Heq.
  { rewrite Hd. unfold to_long, i32. rewrite Z.max_r, Z.min_l by lia. rewrite Z.mod_small; lia. }
  unfold atoi. cbn [skip_spaces]. rewrite Hsp.
  destruct c as [[] [] [] [] [] [] [] []]; first [exact Heq|by destruct Hm|by destruct Hp].
Qed.

(** * The command line round trip *)

(** The command line that describes a configuration. *)
Definition render (c : ServerConfig) : list string :=
  ["--port"; pretty (Z.to_N (port c)); "--storage-root"; storage_root_ c;
   "--threads"; pretty (Z.to_N (thread_count c)); "--block-size"; pretty (Z.to_N (block_size c));
   "--max-connections"; pretty (Z.to_N (max_connections c))].

Lemma atoi_render z : 0 <= z < 2 ^ 31 → atoi (pretty (Z.to_N z)) = z.
Proof. intros Hz. rewrite atoi_pretty; rewrite Z2N.id; lia. Qed.

(** The command line describes the configuration.  The options written for
    a configuration, in any starting configuration, are read back as exactly
    that configuration, for ports below 65536 and counts below 2^31. *)
Theorem command_line_roundtrip c c0 :
  0 <= port c < 2 ^ 16 → 0 <= thread_count c < 2 ^ 31 → 0 <= block_size c < 2 ^ 31 →
  0 <= max_connections c < 2 ^ 31 → parse_args (render c) c0 = Serve c.
Proof.
  intros Hp Ht Hb Hm. unfold render. cbn [parse_args]. unfold option_setter.
  repeat (rewrite decide_False by (intros [?|?]; discriminate)).
  repeat first [rewrite (decide_True (P := _ = _)) by done | rewrite (decide_False (P := _ = _)) by discriminate].
  rewrite !atoi_render by lia. unfold u16, u32. rewrite !Z.mod_small by lia. by destruct c.
Qed.

Lemma command_line_roundtrip_witness :
  parse_args (render (mkConfig_ 8080 "/data" 8 131072 50)) default_config =
    Serve (mkConfig_ 8080 "/data" 8 131072 50).
Proof. apply command_line_roundtrip; simpl; lia. Defined.

(** Ports are cut to 16 bits.  A port number out of range is not rejected:
    the server listens on the number modulo 65536. *)
Theorem port_wraps (n : N) :
  Z.of_N n < 2 ^ 31 →
  parse_args ["--port"; pretty n] default_config = Serve (set_port (Z.of_N n mod 2 ^ 16) default_config).
Proof.
  intros Hn. cbn [parse_args]. rewrite decide_False by (intros [?|?]; discriminate).
  unfold option_setter. rewrite decide_True by done. by rewrite atoi_pretty.
Qed.

Lemma port_wraps_witness :
  parse_args ["--port"; "70000"] default_config = Serve (set_port 4464 default_config).
Proof. exact (port_wraps 70000 ltac:(done)). Defined.
