(* ===== verification/Lifecycle.v ===== *)
(** The life of the server process and of its descriptors: the constructors,
    destructors and the shutdown of src/server/src/server.cpp and
    src/server/src/session.cpp.

    The process holds the open descriptors; closing one that is not open is a
    fault (it may by then be somebody else's).  The steps are those of the main
    thread, of the client threads and of the signal handler, in any order. *)
From S2P Require Import Prelude Sha256 Paths FileSystem FileManager FileMutex WireProtocol Proto.
From S2P Require Import DeltaSync Negotiator ZeroCopySender Ends Session Server.

(** * State *)

(** Where the main thread is: in [run], past it, in the joins of the destructor,
    or past the destructor. *)
Inductive phase := Serving | Returned | Joining | Destroyed.

#[export] Instance phase_eq_dec : EqDecision phase.
Proof. solve_decision. Defined.

Record process := mkProcess {
  ps_server : AdaptiveSyncServer;
  ps_phase : phase;
  ps_open : gset Z;                  (* the open descriptors *)
  ps_epoll : option Z;               (* the epoll instance of [run_epoll] *)
  ps_sessions : gmap nat Z;          (* the client threads that run, with their sockets *)
  ps_faults : nat                    (* closes of a descriptor that was not open *)
}.

(** * Operations *)

Definition close_socket (fd : Z) (p : process) : process :=
  if decide (fd ∈ ps_open p)
  then mkProcess (ps_server p) (ps_phase p) (ps_open p ∖ {[fd]}) (ps_epoll p) (ps_sessions p) (ps_faults p)
  else mkProcess (ps_server p) (ps_phase p) (ps_open p) (ps_epoll p) (ps_sessions p) (S (ps_faults p)).

Definition set_server (s : AdaptiveSyncServer) (p : process) : process :=
  mkProcess s (ps_phase p) (ps_open p) (ps_epoll p) (ps_sessions p) (ps_faults p).
Definition set_phase (ph : phase) (p : process) : process :=
  mkProcess (ps_server p) ph (ps_open p) (ps_epoll p) (ps_sessions p) (ps_faults p).
Definition set_sessions (m : gmap nat Z) (p : process) : process :=
  mkProcess (ps_server p) (ps_phase p) (ps_open p) (ps_epoll p) m (ps_faults p).

(** [if (server_fd_ != -1) close_socket(server_fd_);] *)
Definition close_listening (p : process) : process :=
  if server_fd_ (ps_server p) =? -1 then p else close_socket (server_fd_ (ps_server p)) p.

(** [shutdown]: the descriptor is closed, then forgotten. *)
Definition process_shutdown (p : process) : process :=
  let p' := close_listening (set_server (set_running false (ps_server p)) p) in
  set_server (shutdown_server (ps_server p)) p'.

(** The destructor of the server up to the joins. *)
Definition destroy_server (p : process) : process :=
  set_phase Joining (close_listening (process_shutdown p)).

(** The end of a client's thread: the count, then the session's destructor. *)
Definition end_session (t : nat) (fd : Z) (p : process) : process :=
  set_sessions (delete t (ps_sessions p))
    (close_socket fd (set_server (client_done (ps_server p)) p)).

(** The end of [run_epoll]. *)
Definition leave_run (p : process) : process :=
  match ps_epoll p with
  | Some efd =>
      let p' := close_socket efd p in
      mkProcess (ps_server p') Returned (ps_open p') None (ps_sessions p') (ps_faults p')
  | None => set_phase Returned p
  end.

(** A connection is accepted: the kernel hands out a descriptor that is not in
    use, and a thread takes it. *)
Definition accept_client (fd : Z) (addr : string) (p : process) : process :=
  mkProcess (accept_one (ps_server p) (Accepted fd addr)) (ps_phase p) ({[fd]} ∪ ps_open p) (ps_epoll p)
    (<[length (worker_threads_ (ps_server p)) := fd]> (ps_sessions p)) (ps_faults p).

Inductive process_step : process → process → Prop :=
| ps_accept p fd addr :
    ps_phase p = Serving → running_ (ps_server p) = true → 0 <= fd → fd ∉ ps_open p →
    process_step p (accept_client fd addr p)
| ps_end p t fd :
    ps_sessions p !! t = Some fd → process_step p (end_session t fd p)
| ps_signal p :
    ps_phase p ≠ Destroyed → process_step p (process_shutdown p)
| ps_leave p :
    ps_phase p = Serving → process_step p (leave_run p)
| ps_destroy p :
    ps_phase p = Returned → process_step p (destroy_server p)
| ps_joined p :
    ps_phase p = Joining → ps_sessions p = ∅ → process_step p (set_phase Destroyed p).

(** A server that has just set up its sockets. *)
Definition started (s : AdaptiveSyncServer) (fd efd : Z) : process :=
  mkProcess (set_fd fd s) Serving {[fd; efd]} (Some efd) ∅ 0.

(** * Every descriptor is closed once *)

(** Who will close a descriptor: the server object its listening socket, the
    accept loop its epoll instance, and a client's thread its connection. *)
Inductive owner := Listener | Loop | Thread (t : nat).

Definition owns (p : process) (o : owner) (fd : Z) : Prop :=
  match o with
  | Listener => server_fd_ (ps_server p) = fd ∧ fd ≠ -1
  | Loop => ps_epoll p = Some fd
  | Thread t => ps_sessions p !! t = Some fd
  end.

(** Every open descriptor has exactly one owner, and nothing else is owned. *)
Record ownership (p : process) : Prop := {
  ow_open : ∀ fd, fd ∈ ps_open p ↔ ∃ o, owns p o fd;
  ow_unique : ∀ o o' fd, owns p o fd → owns p o' fd → o = o';
  ow_valid : ∀ fd, fd ∈ ps_open p → 0 <= fd
}.

(** The rest of what the steps maintain. *)
Record owned (p : process) : Prop := {
  ow_owners : ownership p;
  ow_faults : ps_faults p = 0%nat;
  ow_threads : ∀ t, is_Some (ps_sessions p !! t) → (t < length (worker_threads_ (ps_server p)))%nat;
  ow_returned : ps_phase p ≠ Serving → ps_epoll p = None;
  ow_joining : ps_phase p = Joining ∨ ps_phase p = Destroyed → server_fd_ (ps_server p) = -1;
  ow_destroyed : ps_phase p = Destroyed → ps_sessions p = ∅
}.

(** An owner closes its descriptor. *)
Lemma ownership_close p p' o fd : ownership p → owns p o fd → ps_open p' = ps_open p ∖ {[fd]} →
  (∀ o' fd', owns p' o' fd' ↔ owns p o' fd' ∧ o' ≠ o) → ownership p'.
Proof.
  intros [Ho Hu Hv] Hown Hop Hp'. split.
  - intros fd'. rewrite Hop, elem_of_difference, elem_of_singleton, Ho. split.
    + intros [[o' Ho'] Hne]. exists o'. apply Hp'. split; [done|]. intros ->.
      apply Hne. destruct o; simpl in *; [destruct Hown, Ho'|..]; congruence.
    + intros [o' [Ho' Hne]%Hp']. split; [by exists o'|]. intros ->. by apply Hne, (Hu o' o fd).
  - intros o1 o2 fd' [H1 _]%Hp' [H2 _]%Hp'. by eapply Hu.
  - intros fd' Hin. apply Hv. rewrite Hop in Hin. by apply elem_of_difference in Hin as [].
Qed.

(** The same descriptors with the same owners. *)
Lemma ownership_same p p' : ownership p → ps_open p' = ps_open p →
  (∀ o fd, owns p' o fd ↔ owns p o fd) → ownership p'.
Proof.
  intros [Ho Hu Hv] Hop Hp'. split.
  - intros fd. rewrite Hop, Ho. split; intros [o Hown]; exists o; by apply Hp'.
  - intros o o' fd H1%Hp' H2%Hp'. by eapply Hu.
  - intros fd. rewrite Hop. apply Hv.
Qed.

Lemma close_socket_owned o fd p : ownership p → owns p o fd →
  close_socket fd p =
    mkProcess (ps_server p) (ps_phase p) (ps_open p ∖ {[fd]}) (ps_epoll p) (ps_sessions p) (ps_faults p).
Proof. intros [Ho _ _] Hown. unfold close_socket. rewrite decide_True; [done|]. apply Ho. by exists o. Qed.

Lemma shutdown_server_fd s : server_fd_ (shutdown_server s) = -1.
Proof. unfold shutdown_server. simpl. by destruct (Z.eqb_spec (server_fd_ s) (-1)). Qed.
Lemma shutdown_server_threads s : worker_threads_ (shutdown_server s) = worker_threads_ s.
Proof. unfold shutdown_server. simpl. by case_match. Qed.

(** [shutdown] closes the listening descriptor if there is one, and forgets it. *)
Lemma process_shutdown_keeps p : ownership p →
  ownership (process_shutdown p) ∧ ps_server (process_shutdown p) = shutdown_server (ps_server p) ∧
  ps_phase (process_shutdown p) = ps_phase p ∧ ps_epoll (process_shutdown p) = ps_epoll p ∧
  ps_sessions (process_shutdown p) = ps_sessions p ∧ ps_faults (process_shutdown p) = ps_faults p.
Proof.
  intros How. unfold process_shutdown, close_listening. simpl.
  destruct (Z.eqb_spec (server_fd_ (ps_server p)) (-1)) as [Hfd|Hfd].
  - split; [|done]. eapply ownership_same; [done..|]. intros [| |t] fd; [|done..]. simpl.
    rewrite shutdown_server_fd, Hfd. done.
  - set (p1 := set_server _ p).
    assert (ownership p1) as How1 by (eapply ownership_same; [done..|]; by intros [| |t] fd).
    assert (owns p1 Listener (server_fd_ (ps_server p))) as Hown by done.
    rewrite (close_socket_owned Listener) by done. split; [|done].
    eapply (ownership_close p1 _ Listener); [done..|]. intros [| |t] fd; simpl; rewrite ?shutdown_server_fd.
    + split; [intros [<- ?]; done|intros [_ ?]; done].
    + by split; [|intros [? _]].
    + by split; [|intros [? _]].
Qed.

Lemma accept_keeps p fd addr : ps_phase p = Serving → 0 <= fd → fd ∉ ps_open p → owned p →
  owned (accept_client fd addr p).
Proof.
  intros Hph Hpos Hnew [[Ho Hu Hv] Hf Ht Hr Hj Hd].
  set (n := length (worker_threads_ (ps_server p))).
  assert (ps_sessions p !! n = None) as Hn.
  { apply eq_None_not_Some. intros Hs%Ht. unfold n in *. lia. }
  assert (∀ o fd', owns (accept_client fd addr p) o fd' ↔ owns p o fd' ∨ (o = Thread n ∧ fd' = fd)) as How.
  { intros [| |t] fd'; simpl; fold n; [naive_solver..|]. destruct (decide (t = n)) as [->|Hne].
    - rewrite lookup_insert_eq, Hn. naive_solver.
    - rewrite lookup_insert_ne by done. naive_solver. }
  split; simpl; try done; try congruence.
  - split; simpl.
    + intros fd'. rewrite elem_of_union, elem_of_singleton, Ho. split.
      * intros [->|[o Hown]]; [exists (Thread n)|exists o]; apply How; auto.
      * intros [o [Hown|[_ ->]]%How]; eauto.
    + intros o o' fd' [H1|[-> ->]]%How [H2|[-> ?]]%How; subst; [by eapply Hu| | |done].
      * exfalso. apply Hnew, Ho. eauto.
      * exfalso. apply Hnew, Ho. eauto.
    + intros fd' [->%elem_of_singleton|Hin]%elem_of_union; [done|by apply Hv].
  - intros t. rewrite length_app. fold n. simpl. destruct (decide (t = n)) as [->|Hne]; [lia|].
    rewrite lookup_insert_ne by done. intros Hs%Ht. fold n in Hs. lia.
Qed.

Lemma end_keeps p t fd : ps_sessions p !! t = Some fd → owned p → owned (end_session t fd p).
Proof.
  intros Hs [How Hf Ht Hr Hj Hd]. unfold end_session.
  set (p1 := set_server (client_done (ps_server p)) p).
  assert (ownership p1) as How1 by (eapply ownership_same; [done..|]; by intros [| |] ?).
  assert (owns p1 (Thread t) fd) as Hown by done.
  rewrite (close_socket_owned (Thread t)) by done. split; simpl; try done.
  - eapply (ownership_close p1 _ (Thread t)); [done..|]. intros [| |t'] fd'; simpl.
    + by split; [|intros [? _]].
    + by split; [|intros [? _]].
    + rewrite lookup_delete_Some. 
      split; [intros [? ?]; split; [done|congruence]|intros [? Hne]; split; [congruence|done]].
  - intros t' [x [_ Hx]%lookup_delete_Some]. apply Ht. by exists x.
  - intros Hph%Hd. by rewrite Hph, delete_empty.
Qed.

Lemma leave_keeps p : ps_phase p = Serving → owned p → owned (leave_run p).
Proof.
  intros Hph [How Hf Ht Hr Hj Hd]. unfold leave_run. destruct (ps_epoll p) as [efd|] eqn:He.
  - rewrite (close_socket_owned Loop) by done. split; simpl; try done; [|by intros [|]].
    eapply (ownership_close p _ Loop); [done..|]. intros [| |t] fd; simpl.
    + by split; [|intros [? _]].
    + split; [done|]. by intros [_ ?].
    + by split; [|intros [? _]].
  - split; simpl; try done; [|by intros [|]]. eapply ownership_same; [done..|]. by intros [| |] ?.
Qed.

Lemma shutdown_keeps p : owned p → owned (process_shutdown p).
Proof.
  intros [How Hf Ht Hr Hj Hd]. destruct (process_shutdown_keeps p How) as (How' & Hs & Hp & He & Hm & Hf').
  split; rewrite ?Hs, ?Hp, ?He, ?Hm, ?Hf', ?shutdown_server_threads, ?shutdown_server_fd; done.
Qed.

(** The destructor closes nothing twice: [shutdown] has forgotten the descriptor. *)
Lemma destroy_keeps p : ps_phase p = Returned → owned p → owned (destroy_server p).
Proof.
  intros Hph How. pose proof (process_shutdown_keeps p (ow_owners _ How)) as (_ & Hs & Hp & _).
  apply shutdown_keeps in How. unfold destroy_server, close_listening.
  rewrite Hs, shutdown_server_fd, Z.eqb_refl. destruct How as [How Hf Ht Hr Hj Hd].
  split; simpl; try done.
  - eapply ownership_same; [done..|]. by intros [| |] ?.
  - intros _. apply Hr. by rewrite Hp, Hph.
  - intros _. transitivity (server_fd_ (ps_server (process_shutdown p))); [done|]. by rewrite Hs, shutdown_server_fd.
Qed.

Lemma step_keeps p p' : process_step p p' → owned p → owned p'.
Proof.
  destruct 1; [by apply accept_keeps|by apply end_keeps|by apply shutdown_keeps|by apply leave_keeps
    |by apply destroy_keeps|].
  intros [How Hf Ht Hr Hj Hd]. split; simpl; try done.
  - eapply ownership_same; [done..|]. by intros [| |] ?.
  - intros _. apply Hr. congruence.
  - intros _. apply Hj. by left.
Qed.

Lemma started_owned s fd efd : 0 <= fd → 0 <= efd → fd ≠ efd → owned (started s fd efd).
Proof.
  intros Hfd Hefd Hne. split; simpl; try done.
  - split; simpl.
    + intros x. rewrite elem_of_union, !elem_of_singleton. split.
      * intros [->| ->]; [exists Listener|exists Loop]; simpl; [split; [done|lia]|done].
      * intros [[| |t] Ho]; simpl in Ho; [by destruct Ho; left|right; congruence|].
        by rewrite lookup_empty in Ho.
    + intros [| |t] [| |t'] x; simpl; try done; rewrite ?lookup_empty; try naive_solver.
    + intros x [->%elem_of_singleton| ->%elem_of_singleton]%elem_of_union; done.
  - intros t. rewrite lookup_empty. by intros [].
  - by intros [|].
Qed.


