(* ===== verification/ClientBase.v ===== *)
(** The ground the Rust client (src/client) stands on: its error type and the
    [?] operator, the parts of Rust's standard library it uses (paths, files,
    allocation), and the interfaces of the crates it calls.

    Errors carry the text the client writes; the text of the system's own error,
    which the client appends to it, is left out. *)
From S2P Require Import Prelude Sha256 Paths FileSystem WireProtocol Proto.
From Stdlib Require Import Ascii.

(** * Errors *)

Inductive ClientError :=
| Connection (what : string)
| Protocol (what : string)
| FileIo (what : string)
| HashMismatch (expected actual : string)
| TransferFailed (what : string)
| ServerError (code : Z) (message : string)
| Timeout.

Inductive Result (A : Type) :=
| Ok (a : A)
| Err (e : ClientError).
Arguments Ok {A} a.
Arguments Err {A} e.

(** Stateful code that returns a [Result]: [x ← m; k] is [let x = m?; k]. *)
Definition CM (S A : Type) : Type := SM S (Result A).

#[export] Instance CM_ret {S} : MRet (CM S) := λ A a s, (Ret (Ok a), s).
#[export] Instance CM_bind {S} : MBind (CM S) := λ A B f m s,
  match m s with
  | (Ret (Ok a), s') => f a s'
  | (Ret (Err e), s') => (Ret (Err e), s')
  | (Throw e, s') => (Throw e, s')
  | (Trap t, s') => (Trap t, s')
  end.

Definition fail {S A} (e : ClientError) : CM S A := λ s, (Ret (Err e), s).

(** A call that cannot fail, and one of the standard library ([None] is its
    error) with [map_err]. *)
Definition plain {S A} (m : SM S A) : CM S A := λ s,
  match m s with
  | (Ret a, s') => (Ret (Ok a), s')
  | (Throw e, s') => (Throw e, s')
  | (Trap t, s') => (Trap t, s')
  end.
Definition or_err {S A} (m : SM S (option A)) (e : ClientError) : CM S A := λ s,
  match m s with
  | (Ret (Some a), s') => (Ret (Ok a), s')
  | (Ret None, s') => (Ret (Err e), s')
  | (Throw x, s') => (Throw x, s')
  | (Trap t, s') => (Trap t, s')
  end.
Definition ok_or_err {S} (m : SM S bool) (e : ClientError) : CM S unit :=
  or_err (b ← m; mret (if b : bool then Some tt else None)) e.

(** [unwrap_or]. *)
Definition unwrap_or {S A} (m : CM S A) (d : A) : CM S A := λ s,
  match m s with
  | (Ret (Err _), s') => (Ret (Ok d), s')
  | o => o
  end.

(** [vec![0u8; n]]. *)
Definition vec_zeroed `{Host} {S} (n : Z) : CM S unit := λ s,
  if vector_max_size <? n then (Throw (Panic "capacity overflow"), s)
  else if alloc_limit <? n then (Trap OutOfMemory, s)
  else (Ret (Ok tt), s).

(** * Paths *)

(** [PathBuf::join] behaves as [operator/] of the server does. *)
Definition path_join : string → string → string := path_append.

(** The components, last first, without what the iterator skips at the end. *)
Fixpoint skip_idle (ns : list string) : list string :=
  match ns with
  | [] => []
  | n :: ns' => if decide (n = EmptyString ∨ n = dot) then skip_idle ns' else ns
  end.
Definition last_components (s : string) : list string := skip_idle (reverse (split_slash s)).

(** [Path::parent]. *)
Definition parent (s : string) : option string :=
  match last_components s with
  | [] => None
  | _ :: above =>
      let q := join_slash (reverse above) in
      Some (if is_absolute s && bool_decide (q = EmptyString) then String slash EmptyString else q)
  end.

Fixpoint before_last_dot (s : string) : option string :=
  match s with
  | EmptyString => None
  | String c s' =>
      match before_last_dot s' with
      | Some b => Some (String c b)
      | None => if Ascii.eqb c "."%char then Some EmptyString else None
      end
  end.

(** [Path::file_stem], of a single name. *)
Definition file_stem (name : string) : string :=
  match before_last_dot name with
  | None | Some EmptyString => name
  | Some b => b
  end.

(** [Path::with_extension]: the name's own extension is replaced. *)
Definition with_extension (s ext : string) : string :=
  match last_components s with
  | [] => s
  | name :: above =>
      if decide (name = dotdot) then s
      else join_slash (reverse above ++ [file_stem name +:+ String "."%char ext])
  end.

(** * Files *)

(** What [File::open] gives access to. *)
Inductive handle :=
| HFile (content : bytes)
| HDir.

Definition file_open (p : string) : SM filesystem (option handle) :=
  f ← next_fault;
  fs ← get_st;
  mret (match f, lookup_node fs p with
        | Works, Some (File c _) => Some (HFile c)
        | Works, Some Dir => Some HDir
        | _, _ => None
        end).

(** [File::read] into a buffer of [n] bytes at a position: it may come back with
    less, but with something if anything is left. *)
Definition file_read (h : handle) (pos n : nat) : SM filesystem (option bytes) :=
  f ← next_fault;
  mret (match h, f with
        | HFile c, Works => Some (take n (drop pos c))
        | HFile c, Partial k => Some (take (Nat.min n (S k)) (drop pos c))
        | _, _ => None
        end).

(** [std::fs::read]. *)
Definition read_file (p : string) : SM filesystem (option bytes) :=
  h ← file_open p;
  f ← next_fault;
  mret (match h, f with
        | Some (HFile c), Fails => None
        | Some (HFile c), _ => Some c
        | _, _ => None
        end).

(** [std::fs::create_dir_all]. *)
Definition create_dir_all (p : string) : SM filesystem bool :=
  if decide (p = EmptyString) then mret true else create_directories p.

(** [std::fs::write]. *)
Definition write_file_at (p : string) (data : bytes) : SM filesystem bool :=
  opened ← open_truncate p;
  if opened : bool then write_at p 0 data else mret false.

(** [OpenOptions] with read, write and create. *)
Definition open_create (p : string) : SM filesystem bool :=
  f ← next_fault;
  fs ← get_st;
  let l := loc fs p in
  match f, node_at (nodes fs) l with
  | Works, Some (File _ _) => mret (negb (names_directory p))
  | Works, None =>
      if names_directory p || negb (parent_is_dir (nodes fs) l) then mret false
      else _ ← put_st (set_nodes (<[l := File [] (file_clock fs)]> (nodes fs)) fs); mret true
  | _, _ => mret false
  end.

(** [File::set_len] on the file just created at [p]. *)
Definition set_len (p : string) (n : nat) : SM filesystem bool :=
  f ← next_fault;
  fs ← get_st;
  let l := loc fs p in
  match f, node_at (nodes fs) l with
  | Works, Some (File c _) =>
      _ ← put_st (set_nodes (<[l := File (resize n x00 c) (file_clock fs)]> (nodes fs)) fs);
      mret true
  | _, _ => mret false
  end.

(** [fs::metadata]: length and modification time since the epoch. *)
Class Disk := { dir_len : list string → Z }.

Definition metadata `{Disk} (p : string) : SM filesystem (option (Z * Z)) :=
  f ← next_fault;
  fs ← get_st;
  let since_epoch t := t - file_clock fs + system_clock fs in
  mret (match f, lookup_node fs p with
        | Works, Some (File c t) => Some (zlen c, since_epoch t)
        | Works, Some Dir => Some (dir_len (loc fs p), since_epoch (dir_mtime fs (loc fs p)))
        | _, _ => None
        end).

(** * Crates

    [tokio]'s stream operations on the connection, [sha2] and [hex], and the
    code [prost] generates; the laws state what their documentation promises. *)

Class Tokio := {
  read_exact_into : nat → SM socket (option bytes);
  write_all : bytes → SM socket bool;
  flush : SM socket bool
}.

Class TokioLaws `{Tokio} := {
  read_exact_full : ∀ s bs rest, delivers s (bs ++ rest) →
    ∃ s', read_exact_into (length bs) s = (Ret (Some bs), s') ∧ delivers s' rest ∧ same_tx s s';
  read_exact_eof : ∀ s bs n, delivers s bs → (length bs < n)%nat →
    ∃ s', read_exact_into n s = (Ret None, s') ∧ same_tx s s';
  write_all_willing : ∀ s data, Forall willing (tx_events s) →
    ∃ evs, write_all data s = (Ret true, mkSocket (rx s) evs (tx s ++ data)) ∧ Forall willing evs;
  flush_noop : ∀ s, flush s = (Ret true, s)
}.

Class Sha2 := {
  hasher : Type;
  sha2_new : hasher;
  sha2_update : hasher → bytes → hasher;
  sha2_finalize : hasher → bytes;
  hex_encode : bytes → string
}.

Class Sha2Laws `{Sha2} := {
  sha2_fips : ∀ chunks, zlen (concat chunks) < 2 ^ 61 →
    sha2_finalize (fold_left sha2_update chunks sha2_new) = Fips.sha256 (concat chunks);
  hex_encode_hex : ∀ data, hex_encode data = to_hex data
}.

Class Prost := {
  prost_encode : ∀ k, msg k → bytes;
  prost_decode : ∀ k, bytes → option (msg k)
}.

(** Both ends implement the encoding of proto3: each reads what the other wrote. *)
Class ProstLaws `{Codec, Prost} := {
  prost_reads : ∀ k (m : msg k), msg_wf k m → zlen (encoding k m) <= INT_MAX →
    prost_decode k (encoding k m) = Some m;
  prost_read : ∀ k (m : msg k), msg_wf k m → zlen (prost_encode k m) <= INT_MAX →
    parse k (prost_encode k m) (zlen (prost_encode k m)) = Some m
}.

(** * Lemmas *)

Lemma CM_bind_unfold {S A B} (m : CM S A) (f : A → CM S B) s :
  (m ≫= f) s =
  match m s with
  | (Ret (Ok a), s') => f a s'
  | (Ret (Err e), s') => (Ret (Err e), s')
  | (Throw e, s') => (Throw e, s')
  | (Trap t, s') => (Trap t, s')
  end.
Proof. reflexivity. Qed.

Lemma CM_bind_ok {S A B} (m : CM S A) (f : A → CM S B) s a s' :
  m s = (Ret (Ok a), s') → (m ≫= f) s = f a s'.
Proof. intros Hm. by rewrite CM_bind_unfold, Hm. Qed.

Lemma CM_bind_err {S A B} (m : CM S A) (f : A → CM S B) s e s' :
  m s = (Ret (Err e), s') → (m ≫= f) s = (Ret (Err e), s').
Proof. intros Hm. by rewrite CM_bind_unfold, Hm. Qed.

Lemma or_err_some {S A} (m : SM S (option A)) e s a s' :
  m s = (Ret (Some a), s') → or_err m e s = (Ret (Ok a), s').
Proof. intros Hm. unfold or_err. by rewrite Hm. Qed.

Lemma or_err_none {S A} (m : SM S (option A)) e s s' :
  m s = (Ret None, s') → or_err m e s = (Ret (Err e), s').
Proof. intros Hm. unfold or_err. by rewrite Hm. Qed.

Lemma ok_or_err_true {S} (m : SM S bool) e s s' :
  m s = (Ret true, s') → ok_or_err m e s = (Ret (Ok tt), s').
Proof. intros Hm. apply or_err_some. by rewrite (SM_bind_ret _ _ _ _ _ Hm). Qed.

Lemma vec_zeroed_ok `{Host} {S} n (s : S) :
  n <= alloc_limit → n <= vector_max_size → vec_zeroed n s = (Ret (Ok tt), s).
Proof.
  intros. unfold vec_zeroed.
  rewrite (proj2 (Z.ltb_ge _ _)) by lia. by rewrite (proj2 (Z.ltb_ge _ _)) by lia.
Qed.
