(* ===== verification/ClientWire.v ===== *)
(** The Rust client's side of the framing: src/client/src/wire.rs.

    Names the server's header also uses carry the prefix [client_].  The
    theorem of this file is that the two implementations agree. *)
From S2P Require Import Prelude WireProtocol ClientBase.

Definition CLIENT_RAW_DATA_SENTINEL : Z := 0xFFFFFFFF.
Definition CLIENT_MSG_RAW_DATA : byte := xfe.

(** [put_u32] and [put_u64] write the most significant byte first, on every host. *)
Definition client_encode_frame (message_type : Z) (payload : bytes) : bytes :=
  let type_byte := byte.of_Z message_type in
  let payload_len := u32 (zlen payload) in
  be_split 4 payload_len ++ type_byte :: payload.

Definition client_encode_raw_data_header (raw_length : Z) : bytes :=
  be_split 4 CLIENT_RAW_DATA_SENTINEL ++ CLIENT_MSG_RAW_DATA :: be_split 8 raw_length.

Section ClientIO.
Context `{Host, Tokio}.

Definition client_read_frame : CM socket WireFrame :=
  len_buf ← or_err (read_exact_into 4) (Connection "Failed to read frame length");
  let payload_len := be_combine len_buf in
  if payload_len =? CLIENT_RAW_DATA_SENTINEL then
    rest ← or_err (read_exact_into 9) (Connection "Failed to read raw header");
    let msg_type := default x00 (rest !! 0%nat) in
    let raw_len := be_combine (take 8 (drop 1 rest)) in
    _ ← vec_zeroed raw_len;
    raw_data ← or_err (read_exact_into (Z.to_nat raw_len)) (Connection "Failed to read raw data");
    mret (mkWireFrame msg_type raw_data)
  else
    type_buf ← or_err (read_exact_into 1) (Connection "Failed to read frame type");
    let message_type := default x00 (type_buf !! 0%nat) in
    _ ← vec_zeroed payload_len;
    payload ← (if 0 <? payload_len
               then or_err (read_exact_into (Z.to_nat payload_len)) (Connection "Failed to read frame payload")
               else mret []);
    mret (mkWireFrame message_type payload).

Definition client_write_frame (message_type : Z) (payload : bytes) : CM socket unit :=
  let encoded := client_encode_frame message_type payload in
  _ ← ok_or_err (write_all encoded) (Connection "Failed to write frame");
  ok_or_err flush (Connection "Failed to flush").

Definition client_write_raw_data (data : bytes) : CM socket unit :=
  let header := client_encode_raw_data_header (u64 (zlen data)) in
  _ ← ok_or_err (write_all header) (Connection "Failed to write raw header");
  _ ← ok_or_err (write_all data) (Connection "Failed to write raw data");
  ok_or_err flush (Connection "Failed to flush raw data").

End ClientIO.

(** * Both ends write the same bytes *)

Lemma client_encode_same `{Host} ty payload :
  client_encode_frame ty payload = encode_frame (mkWireFrame (byte.of_Z ty) payload).
Proof. symmetry. apply encode_frame_layout. Qed.

Lemma client_header_same `{Host} n : client_encode_raw_data_header n = encode_raw_data_header n.
Proof. symmetry. apply encode_raw_format. Qed.

Section ClientReads.
Context `{Host, Tokio, !TokioLaws}.

Lemma read_prefix s a b rest e : delivers s (a ++ b ++ rest) →
  ∃ s1, or_err (read_exact_into (length a)) e s = (Ret (Ok a), s1) ∧ delivers s1 (b ++ rest) ∧ same_tx s s1.
Proof.
  intros Hd. destruct (read_exact_full _ _ _ Hd) as (s1 & Hr & Hd1 & Ht).
  exists s1. split; [|done]. by apply or_err_some.
Qed.

Lemma client_read_standard ty data rest s :
  delivers s (frame_format (zlen data) ty data ++ rest) →
  zlen data < RAW_DATA_SENTINEL → zlen data <= alloc_limit →
  ∃ s', client_read_frame s = (Ret (Ok (mkWireFrame ty data)), s') ∧ delivers s' rest ∧ same_tx s s'.
Proof.
  unfold RAW_DATA_SENTINEL, frame_format. intros Hd Hlen Hal. pose proof (zlen_nonneg data).
  rewrite <- app_assoc in Hd.
  destruct (read_prefix s _ (ty :: data) rest (Connection "Failed to read frame length") Hd)
    as (s1 & Hr1 & Hd1 & Ht1). rewrite length_be_split in Hr1.
  unfold client_read_frame. rewrite (CM_bind_ok _ _ _ _ _ Hr1), be_combine_split by (simpl; lia).
  unfold CLIENT_RAW_DATA_SENTINEL. rewrite (proj2 (Z.eqb_neq _ _)) by lia.
  destruct (read_prefix s1 [ty] data rest (Connection "Failed to read frame type") Hd1)
    as (s2 & Hr2 & Hd2 & Ht2). simpl length in Hr2. rewrite (CM_bind_ok _ _ _ _ _ Hr2).
  assert (vec_zeroed (zlen data) s2 = (Ret (Ok tt), s2)) as Hz
    by (apply vec_zeroed_ok; unfold vector_max_size; lia).
  rewrite (CM_bind_ok _ _ _ _ _ Hz).
  destruct (Z.ltb_spec 0 (zlen data)).
  - destruct (read_prefix s2 data [] rest (Connection "Failed to read frame payload") Hd2)
      as (s3 & Hr3 & Hd3 & Ht3). rewrite to_nat_zlen, (CM_bind_ok _ _ _ _ _ Hr3).
    exists s3. eauto using same_tx_trans.
  - assert (data = []) as -> by (apply zlen_nil_inv; lia). exists s2. eauto using same_tx_trans.
Qed.

Lemma client_read_raw data rest s :
  delivers s (encode_raw_data_header (zlen data) ++ data ++ rest) →
  zlen data < 2 ^ 63 → zlen data <= alloc_limit →
  ∃ s', client_read_frame s = (Ret (Ok (mkWireFrame MSG_RAW_DATA data)), s') ∧
    delivers s' rest ∧ same_tx s s'.
Proof.
  rewrite encode_raw_format. unfold frame_format. intros Hd Hlen Hal. pose proof (zlen_nonneg data).
  rewrite <- app_assoc in Hd.
  destruct (read_prefix s _ (MSG_RAW_DATA :: be_split 8 (zlen data)) (data ++ rest)
    (Connection "Failed to read frame length") Hd) as (s1 & Hr1 & Hd1 & Ht1). rewrite length_be_split in Hr1.
  unfold client_read_frame. rewrite (CM_bind_ok _ _ _ _ _ Hr1), be_combine_split by (unfold RAW_DATA_SENTINEL; simpl; lia).
  unfold RAW_DATA_SENTINEL, CLIENT_RAW_DATA_SENTINEL. rewrite Z.eqb_refl.
  destruct (read_prefix s1 (MSG_RAW_DATA :: be_split 8 (zlen data)) data rest
    (Connection "Failed to read raw header") Hd1) as (s2 & Hr2 & Hd2 & Ht2).
  cbn [length] in Hr2. rewrite length_be_split in Hr2. rewrite (CM_bind_ok _ _ _ _ _ Hr2).
  replace (be_combine (take 8 (drop 1 (MSG_RAW_DATA :: be_split 8 (zlen data))))) with (zlen data).
  2:{ change (drop 1 (MSG_RAW_DATA :: ?l)) with l. rewrite take_ge by (by rewrite length_be_split). rewrite be_combine_split by (simpl; lia). done. }
  assert (vec_zeroed (zlen data) s2 = (Ret (Ok tt), s2)) as Hz
    by (apply vec_zeroed_ok; unfold vector_max_size; lia).
  rewrite (CM_bind_ok _ _ _ _ _ Hz).
  destruct (read_prefix s2 data [] rest (Connection "Failed to read raw data") Hd2) as (s3 & Hr3 & Hd3 & Ht3).
  rewrite to_nat_zlen, (CM_bind_ok _ _ _ _ _ Hr3). exists s3. eauto using same_tx_trans.
Qed.

Lemma client_write_frame_willing ty payload s :
  Forall willing (tx_events s) →
  ∃ evs, client_write_frame ty payload s =
    (Ret (Ok tt), mkSocket (rx s) evs (tx s ++ client_encode_frame ty payload)) ∧ Forall willing evs.
Proof.
  intros Hw. destruct (write_all_willing s (client_encode_frame ty payload) Hw) as (evs & Hr & Hev).
  exists evs. split; [|done]. unfold client_write_frame.
  rewrite (CM_bind_ok _ _ _ _ _ (ok_or_err_true _ _ _ _ Hr)). apply ok_or_err_true, flush_noop.
Qed.

Lemma client_write_raw_willing data s :
  Forall willing (tx_events s) → zlen data < 2 ^ 64 →
  ∃ evs, client_write_raw_data data s =
    (Ret (Ok tt), mkSocket (rx s) evs (tx s ++ encode_raw_data_header (zlen data) ++ data)) ∧
    Forall willing evs.
Proof.
  intros Hw Hl. pose proof (zlen_nonneg data). unfold client_write_raw_data.
  rewrite u64_small, client_header_same by lia.
  destruct (write_all_willing s (encode_raw_data_header (zlen data)) Hw) as (evs & Hr & Hev).
  rewrite (CM_bind_ok _ _ _ _ _ (ok_or_err_true _ _ _ _ Hr)).
  destruct (write_all_willing (mkSocket (rx s) evs (tx s ++ encode_raw_data_header (zlen data))) data Hev) as (evs2 & Hr2 & Hev2).
  rewrite (CM_bind_ok _ _ _ _ _ (ok_or_err_true _ _ _ _ Hr2)). simpl in Hr2 |- *.
  exists evs2. split; [|done]. rewrite app_assoc. apply ok_or_err_true, flush_noop.
Qed.

(** C20: the client and the server speak the same framing.  For every frame, the
    bytes the client writes are the bytes the server would write, on hosts of
    either byte order; each side reads the other's message frame as that frame,
    from any segmentation and whatever follows it; and the client reads the raw
    data the server announces as exactly that data. *)
Theorem wire_interoperates ty data rest :
  zlen data < RAW_DATA_SENTINEL → zlen data <= alloc_limit →
  let f := mkWireFrame (byte.of_Z ty) data in
  client_encode_frame ty data = encode_frame f ∧
  client_encode_raw_data_header (zlen data) = encode_raw_data_header (zlen data) ∧
  (∀ s, delivers s (client_encode_frame ty data ++ rest) →
     ∃ s', read_frame s = (Ret (Some f), s') ∧ delivers s' rest) ∧
  (∀ s, delivers s (encode_frame f ++ rest) →
     ∃ s', client_read_frame s = (Ret (Ok f), s') ∧ delivers s' rest) ∧
  (∀ s, delivers s (encode_raw_data_header (zlen data) ++ data ++ rest) →
     ∃ s', client_read_frame s = (Ret (Ok (mkWireFrame MSG_RAW_DATA data)), s') ∧ delivers s' rest).
Proof.
  intros Hl Ha f. unfold RAW_DATA_SENTINEL in Hl.
  assert (encode_frame f = frame_format (zlen data) (byte.of_Z ty) data) as Hf
    by (apply encode_frame_standard; simpl; lia).
  split; [apply client_encode_same|]. split; [apply client_header_same|].
  rewrite client_encode_same. fold f. rewrite Hf.
  split; [|split]; intros s Hd.
  - destruct (read_frame_standard _ _ _ _ Hd) as (s' & ? & ? & _); eauto.
  - destruct (client_read_standard _ _ _ _ Hd) as (s' & ? & ? & _); eauto.
  - destruct (client_read_raw _ _ _ Hd) as (s' & ? & ? & _); [lia|done|eauto].
Qed.

End ClientReads.

(** * An implementation of the stream operations that keeps the laws *)

Definition rejoin (bs : bytes) : list recv_event :=
  match bs with [] => [] | b :: bs' => [RecvData b bs'] end.
Definition no_error (e : recv_event) : bool := match e with RecvError => false | _ => true end.
Definition takes (e : send_event) : bool :=
  match e with SendUpTo n => (0 <? n)%nat | SendEintr => true | _ => false end.

Definition demo_tokio : Tokio := {|
  read_exact_into n := λ s,
    let bs := rx_stream s in
    if forallb no_error (rx s) && (n <=? length bs)%nat
    then (Ret (Some (take n bs)), mkSocket (rejoin (drop n bs)) (tx_events s) (tx s))
    else (Ret None, s);
  write_all data := λ s,
    if forallb takes (tx_events s) then (Ret true, mkSocket (rx s) (tx_events s) (tx s ++ data))
    else (Ret false, s);
  flush := λ s, (Ret true, s)
|}.

Lemma benign_no_error s : benign s → forallb no_error (rx s) = true.
Proof. unfold benign. intros Hb. apply Is_true_true, forallb_True. eapply Forall_impl; [exact Hb|]. by intros []. Qed.

Lemma rejoin_delivers bs evs out : delivers (mkSocket (rejoin bs) evs out) bs.
Proof.
  unfold delivers, benign, rx_stream. destruct bs as [|b bs]; simpl; [done|].
  split; [by repeat constructor|by rewrite app_nil_r].
Qed.

Lemma demo_tokio_laws : @TokioLaws demo_tokio.
Proof.
  constructor; simpl.
  - intros s bs rest [Hb Hs]. rewrite benign_no_error, Hs by done.
    rewrite (proj2 (Nat.leb_le _ _)) by (rewrite length_app; lia). simpl.
    rewrite take_app_length, drop_app_length. eexists. split; [done|]. split; [apply rejoin_delivers|done].
  - intros s bs n [Hb Hs] Hn. rewrite benign_no_error, Hs by done.
    rewrite (proj2 (Nat.leb_gt _ _)) by lia. simpl. by exists s.
  - intros s data Hw. exists (tx_events s). split; [|done]. replace (forallb takes (tx_events s)) with true; [done|].
    symmetry. apply Is_true_true, forallb_True. eapply Forall_impl; [exact Hw|].
    intros [n| | |]; simpl; try done. intros Hn. by apply Is_true_true, Nat.ltb_lt.
  - done.
Qed.

Lemma wire_interoperates_witness :
  let s := mkSocket [RecvData x00 [x00; x00]; RecvEintr; RecvData x02 [x0a; x61; x62; x07]] [] [] in
  ∃ s', @client_read_frame le_host demo_tokio s = (Ret (Ok (mkWireFrame x0a [x61; x62])), s') ∧ delivers s' [x07].
Proof.
  intros s.
  apply (@wire_interoperates le_host demo_tokio demo_tokio_laws 10 [x61; x62] [x07]
    ltac:(reflexivity) ltac:(vm_compute; discriminate)).
  split; [repeat constructor; discriminate|vm_compute; reflexivity].
Defined.
