(* ===== verification/ClientFiles.v ===== *)
(** The client's hashes and local files: src/client/src/hashing.rs and
    src/client/src/file_ops.rs. *)
From S2P Require Import Prelude Sha256 Paths FileSystem WireProtocol Proto ClientBase.
From Stdlib Require Import Ascii.

(** * Hashes *)

Definition client_adler32 (data : bytes) : Z :=
  let MOD := 65521 in
  let '(a, b) :=
    fold_left (λ '(a, b) x,
      let a := u32 (a + byte.unsigned x) mod MOD in
      let b := u32 (b + a) mod MOD in
      (a, b)) data (1, 0) in
  Z.lor (u32 (Z.shiftl b 16)) a.

Section Hashing.
Context `{Sha2}.

Definition client_sha256_hex (data : bytes) : string :=
  let hasher := sha2_update sha2_new data in
  hex_encode (sha2_finalize hasher).

(** The loop of [sha256_file]: a buffer of 64 KiB at a time, until a read comes
    back empty. *)
Definition READ_BUFFER : nat := Z.to_nat 65536.

Fixpoint sha256_loop (fuel : nat) (file : handle) (pos : nat) (state : hasher) : CM filesystem hasher :=
  match fuel with
  | O => plain (trap_with Diverges)
  | S fuel' =>
      buffer ← or_err (file_read file pos READ_BUFFER) (FileIo "Read error");
      match buffer with
      | [] => mret state
      | _ => sha256_loop fuel' file (pos + length buffer) (sha2_update state buffer)
      end
  end.

Definition sha256_file (path : string) : CM filesystem string :=
  file ← or_err (file_open path) (FileIo ("Failed to open " +:+ path));
  let size := match file with HFile c => length c | HDir => O end in
  state ← sha256_loop (S size) file 0 sha2_new;
  mret (hex_encode (sha2_finalize state)).

End Hashing.

(** * Local files *)

Record FileOps := mkFileOps {
  sync_root : string;
  fo_block_size : Z
}.

Record LocalFileInfo := mkLocalFileInfo {
  li_relative_path : string;
  li_file_size : Z;
  li_last_modified_ns : Z;
  li_sha256_hash : string
}.

Section LocalFiles.
Context `{Host, Disk, Sha2} (self : FileOps).

Definition client_resolve_path (relative_path : string) : string :=
  path_join (sync_root self) relative_path.

Definition client_file_exists (relative_path : string) : SM filesystem bool :=
  m ← metadata (client_resolve_path relative_path);
  mret (bool_decide (is_Some m)).

Definition client_file_size (relative_path : string) : CM filesystem Z :=
  let path := client_resolve_path relative_path in
  m ← or_err (metadata path) (FileIo ("Cannot stat " +:+ path));
  mret m.1.

Definition client_last_modified_ns (relative_path : string) : CM filesystem Z :=
  let path := client_resolve_path relative_path in
  m ← or_err (metadata path) (FileIo ("Cannot stat " +:+ path));
  if m.2 <? 0 then fail (FileIo "Time error") else mret (u64 m.2).

Definition client_sha256 (relative_path : string) : CM filesystem string :=
  sha256_file (client_resolve_path relative_path).

Definition client_get_file_info (relative_path : string) : CM filesystem LocalFileInfo :=
  size ← client_file_size relative_path;
  modified ← client_last_modified_ns relative_path;
  hash ← client_sha256 relative_path;
  mret (mkLocalFileInfo relative_path size modified hash).

(** A position beyond [i64::MAX] is refused by [seek]. *)
Definition client_read_block (relative_path : string) (offset size : Z) : CM filesystem bytes :=
  let path := client_resolve_path relative_path in
  file ← or_err (file_open path) (FileIo ("Cannot open " +:+ path));
  if i64 offset <? 0 then fail (FileIo "Seek error") else
  _ ← vec_zeroed size;
  or_err (file_read file (Z.to_nat offset) (Z.to_nat size)) (FileIo "Read error").

(** [if let Some(parent) = path.parent() { create_dir_all(parent)?; }] *)
Definition ensure_dirs (path : string) : CM filesystem unit :=
  match parent path with
  | Some dir => ok_or_err (create_dir_all dir) (FileIo "Cannot create dirs")
  | None => mret tt
  end.

Definition client_write_file (relative_path : string) (data : bytes) : CM filesystem unit :=
  let path := client_resolve_path relative_path in
  _ ← ensure_dirs path;
  let tmp_path := with_extension path "tmp" in
  _ ← ok_or_err (write_file_at tmp_path data) (FileIo "Write error");
  ok_or_err (rename tmp_path path) (FileIo "Rename error").

Definition client_write_block (relative_path : string) (offset : Z) (data : bytes) : CM filesystem unit :=
  let path := client_resolve_path relative_path in
  let tmp_path := with_extension path "tmp" in
  _ ← ensure_dirs path;
  _ ← ok_or_err (open_create tmp_path) (FileIo "Cannot open tmp");
  if i64 offset <? 0 then fail (FileIo "Seek error") else
  ok_or_err (write_at tmp_path (Z.to_nat offset) data) (FileIo "Write error").

Definition client_finalize_file (relative_path : string) : CM filesystem unit :=
  let path := client_resolve_path relative_path in
  let tmp_path := with_extension path "tmp" in
  m ← plain (metadata tmp_path);
  match m with
  | Some _ => ok_or_err (rename tmp_path path) (FileIo "Rename error")
  | None => mret tt
  end.

End LocalFiles.

(** * Reading, without faults *)

Lemma next_fault_calm fs : calm fs → next_fault fs = (Ret Works, fs).
Proof. unfold next_fault, calm. by intros ->. Qed.

Lemma file_open_calm fs p c t : calm fs → lookup_node fs p = Some (File c t) →
  file_open p fs = (Ret (Some (HFile c)), fs).
Proof.
  intros Hc Hl. unfold file_open. rewrite (SM_bind_ret _ _ _ _ _ (next_fault_calm fs Hc)).
  rewrite SM_bind_unfold. simpl. by rewrite Hl.
Qed.

Lemma file_read_calm fs c pos n : calm fs →
  file_read (HFile c) pos n fs = (Ret (Some (take n (drop pos c))), fs).
Proof. intros Hc. unfold file_read. by rewrite (SM_bind_ret _ _ _ _ _ (next_fault_calm fs Hc)). Qed.

Lemma read_file_calm fs p c t : calm fs → lookup_node fs p = Some (File c t) →
  read_file p fs = (Ret (Some c), fs).
Proof.
  intros Hc Hl. unfold read_file. rewrite (SM_bind_ret _ _ _ _ _ (file_open_calm _ _ _ _ Hc Hl)).
  by rewrite (SM_bind_ret _ _ _ _ _ (next_fault_calm fs Hc)).
Qed.

Lemma metadata_calm `{Disk} fs p c t : calm fs → lookup_node fs p = Some (File c t) →
  metadata p fs = (Ret (Some (zlen c, t - file_clock fs + system_clock fs)), fs).
Proof.
  intros Hc Hl. unfold metadata. rewrite (SM_bind_ret _ _ _ _ _ (next_fault_calm fs Hc)).
  rewrite SM_bind_unfold. simpl. by rewrite Hl.
Qed.

Lemma file_lookup fs p data : names_directory p = false → file_at fs (loc fs p) = Some data →
  ∃ t, lookup_node fs p = Some (File data t).
Proof.
  unfold file_at, lookup_node. intros Hd Hf. destruct (node_at (nodes fs) (loc fs p)) as [[data' t|]|]; [|done..].
  injection Hf as ->. rewrite Hd. by exists t.
Qed.

Section HashFacts.
Context `{Sha2, !Sha2Laws}.

(** Both ends compute the same hashes. *)
Lemma client_sha256_same data : zlen data < 2 ^ 61 →
  client_sha256_hex data = to_hex (Fips.sha256 data).
Proof.
  intros Hl. unfold client_sha256_hex. rewrite hex_encode_hex. f_equal.
  pose proof (sha2_fips [data]) as Hs. simpl in Hs. rewrite app_nil_r in Hs. by apply Hs.
Qed.

Lemma READ_BUFFER_pos : (0 < READ_BUFFER)%nat.
Proof. unfold READ_BUFFER. lia. Qed.
#[local] Opaque READ_BUFFER.

Lemma sha256_loop_calm fs c : calm fs → ∀ fuel pos chunks,
  concat chunks = take pos c → (pos <= length c < fuel + pos)%nat →
  ∃ chunks', sha256_loop fuel (HFile c) pos (fold_left sha2_update chunks sha2_new) fs =
    (Ret (Ok (fold_left sha2_update chunks' sha2_new)), fs) ∧ concat chunks' = c.
Proof.
  intros Hc. induction fuel as [|fuel IH]; intros pos chunks Hp Hf; [lia|]. cbn [sha256_loop].
  rewrite (CM_bind_ok _ _ _ _ _ (or_err_some _ _ _ _ _ (file_read_calm fs c pos READ_BUFFER Hc))).
  destruct (take READ_BUFFER (drop pos c)) as [|b bs] eqn:Hb.
  - exists chunks. split; [done|]. rewrite Hp. apply take_ge.
    apply (f_equal length) in Hb. rewrite length_take, length_drop in Hb. cbn [length] in Hb.
    pose proof READ_BUFFER_pos. lia.
  - assert (length (b :: bs) <= length c - pos)%nat as Hl.
    { rewrite <- Hb, length_take, length_drop. lia. }
    rewrite <- Hb in *. assert (0 < length (take READ_BUFFER (drop pos c)))%nat by (rewrite Hb; cbn [length]; lia).
    destruct (IH (pos + length (take READ_BUFFER (drop pos c)))%nat
      (chunks ++ [take READ_BUFFER (drop pos c)])) as (chunks' & Hr & Hcat); [|lia|].
    + rewrite concat_app, Hp. simpl. rewrite app_nil_r.
      assert (take READ_BUFFER (drop pos c) =
        take (length (take READ_BUFFER (drop pos c))) (drop pos c)) as Hx
        by (by rewrite length_take, take_min_length).
      rewrite Hx at 1. by rewrite <- take_take_drop.
    + rewrite fold_left_app in Hr. eauto.
Qed.

Lemma sha256_file_calm fs p c t : calm fs → lookup_node fs p = Some (File c t) → zlen c < 2 ^ 61 →
  sha256_file p fs = (Ret (Ok (to_hex (Fips.sha256 c))), fs).
Proof.
  intros Hc Hl Hs. unfold sha256_file.
  rewrite (CM_bind_ok _ _ _ _ _ (or_err_some _ _ _ _ _ (file_open_calm _ _ _ _ Hc Hl))).
  destruct (sha256_loop_calm fs c Hc (S (length c)) 0 []) as (chunks & Hr & Hcat); [done|lia|].
  change (fold_left sha2_update [] sha2_new) with sha2_new in Hr.
  rewrite (CM_bind_ok _ _ _ _ _ Hr). rewrite sha2_fips, Hcat, hex_encode_hex by (by rewrite Hcat). done.
Qed.

End HashFacts.
#[local] Transparent READ_BUFFER.

Section ReadFacts.
Context `{Host, Disk, Sha2, !Sha2Laws} (self : FileOps).

Lemma client_file_size_calm rel fs c t : calm fs →
  lookup_node fs (client_resolve_path self rel) = Some (File c t) →
  client_file_size self rel fs = (Ret (Ok (zlen c)), fs).
Proof.
  intros Hc Hl. unfold client_file_size.
  by rewrite (CM_bind_ok _ _ _ _ _ (or_err_some _ _ _ _ _ (metadata_calm _ _ _ _ Hc Hl))).
Qed.

Lemma client_modified_calm rel fs c t : calm fs →
  lookup_node fs (client_resolve_path self rel) = Some (File c t) →
  0 <= t - file_clock fs + system_clock fs < 2 ^ 64 →
  client_last_modified_ns self rel fs = (Ret (Ok (t - file_clock fs + system_clock fs)), fs).
Proof.
  intros Hc Hl Ht. unfold client_last_modified_ns.
  rewrite (CM_bind_ok _ _ _ _ _ (or_err_some _ _ _ _ _ (metadata_calm _ _ _ _ Hc Hl))). simpl.
  rewrite (proj2 (Z.ltb_ge _ _)) by lia. by rewrite u64_small.
Qed.

Lemma client_read_block_calm rel fs c t off size : calm fs →
  lookup_node fs (client_resolve_path self rel) = Some (File c t) →
  0 <= off < 2 ^ 63 → 0 <= size <= Z.min alloc_limit vector_max_size →
  client_read_block self rel off size fs = (Ret (Ok (take (Z.to_nat size) (drop (Z.to_nat off) c))), fs).
Proof.
  intros Hc Hl Ho Hs. unfold client_read_block.
  rewrite (CM_bind_ok _ _ _ _ _ (or_err_some _ _ _ _ _ (file_open_calm _ _ _ _ Hc Hl))).
  rewrite (proj2 (Z.ltb_ge _ _)) by wrap_lia.
  assert (vec_zeroed size fs = (Ret (Ok tt), fs)) as Hz by (apply vec_zeroed_ok; lia).
  rewrite (CM_bind_ok _ _ _ _ _ Hz). by apply or_err_some, file_read_calm.
Qed.

End ReadFacts.

(** * Where the client's files lie *)

Lemma before_last_dot_no_slash s : ∀ b, before_last_dot s = Some b → no_slash s = true → no_slash b = true.
Proof.
  induction s as [|c s IH]; simpl; [done|]. intros b Hb [Hc Hs]%andb_prop.
  destruct (before_last_dot s) as [b'|].
  - injection Hb as <-. simpl. by rewrite Hc, (IH b').
  - destruct (Ascii.eqb c "."%char); [by injection Hb as <-|done].
Qed.

Lemma file_stem_no_slash l : no_slash l = true → no_slash (file_stem l) = true.
Proof.
  intros Hl. unfold file_stem. destruct (before_last_dot l) as [[|c b]|] eqn:Hb; [done| |done].
  by eapply before_last_dot_no_slash.
Qed.

Lemma is_absolute_split s :
  is_absolute s = match split_slash s with x :: _ :: _ => bool_decide (x = "") | _ => false end.
Proof.
  destruct s as [|c s]; [done|]. simpl. pose proof (split_slash_ne s).
  destruct (Ascii.eqb c slash), (split_slash s) as [|n [|m ns]]; done.
Qed.

(** The temporary file lies beside the file, under the stem of its name. *)
Lemma client_locations cwd p : names_directory p = false →
  ∃ above l dir, locate cwd p = above ++ [l] ∧
    locate cwd (with_extension p "tmp") = above ++ [file_stem l +:+ ".tmp"] ∧
    names_directory (with_extension p "tmp") = false ∧
    parent p = Some dir ∧ (if decide (dir = "") then above = cwd else locate cwd dir = above).
Proof.
  intros Hd. destruct (split_slash_snoc p) as (init & l & Hs & Hl & _).
  pose proof (names_directory_proper p init l Hs Hd) as Hp.
  pose proof (split_slash_no_slash p) as Hns. rewrite Hs in Hns. apply Forall_app in Hns as [Hi _].
  assert (last_components p = l :: reverse init) as Hlc.
  { unfold last_components. rewrite Hs, reverse_app. simpl. rewrite decide_False; [done|].
    destruct Hp as (? & ? & _). tauto. }
  set (m := file_stem l +:+ ".tmp").
  pose proof (tmp_name_proper (file_stem l) (file_stem_no_slash l Hl)) as Hm. fold m in Hm.
  assert (with_extension p "tmp" = join_slash (init ++ [m])) as Hw.
  { unfold with_extension. rewrite Hlc, decide_False, reverse_involutive by apply Hp. done. }
  assert (split_slash (join_slash (init ++ [m])) = init ++ [m]) as Hsm.
  { apply split_join; [by destruct init|]. apply Forall_app. split; [done|].
    constructor; [apply Hm|done]. }
  assert (is_absolute (join_slash (init ++ [m])) = is_absolute p) as Habs.
  { rewrite !is_absolute_split, Hsm, Hs. by destruct init as [|x [|y init]]. }
  exists (reverse (walk true init (if is_absolute p then [] else reverse cwd))), l,
    (let q := join_slash init in if is_absolute p && bool_decide (q = "") then "/" else q).
  unfold locate at 1 2. rewrite Hw, Habs, Hsm, Hs, !walk_app.
  set (st := walk true init _). unfold walk at 1 2. cbn [fold_left].
  rewrite !push_proper, !reverse_cons by done.
  split; [done|]. split; [done|]. split.
  { unfold names_directory. rewrite Hsm, last_snoc. destruct Hm as (? & ? & ? & _).
    apply bool_decide_eq_false. tauto. }
  split; [by unfold parent; rewrite Hlc, reverse_involutive|].
  destruct (decide (init = [])) as [->|Hne].
  - assert (is_absolute p = false) as Ha by (by rewrite is_absolute_split, Hs).
    unfold st. rewrite Ha. simpl. by rewrite reverse_involutive.
  - assert (split_slash (join_slash init) = init) as Hsi by (by apply split_join).
    case_bool_decide as Hq; simpl.
    + assert (init = [""]) as Hin by (by rewrite <- Hsi, Hq). subst init.
      assert (is_absolute p = true) as Ha by (by rewrite is_absolute_split, Hs). unfold st. by rewrite Ha.
    + rewrite andb_false_r, decide_False by done. unfold locate. rewrite Hsi.
      assert (is_absolute (join_slash init) = is_absolute p) as ->; [|done].
      rewrite !is_absolute_split, Hsi, Hs. destruct init as [|x [|y init]]; [done| |done].
      simpl in Hq. simpl. by rewrite bool_decide_eq_false_2.
Qed.

(** * Writing *)

Definition local_tmp (p : string) : string := with_extension p "tmp".

(** Nothing stands in the way of the file [p] and of its temporary file. *)
Definition local_room (fs : filesystem) (p : string) : Prop :=
  names_directory p = false ∧ node_at (nodes fs) (cwd fs) = Some Dir ∧
  (∀ k, file_at fs (take k (removelast (loc fs p))) = None) ∧
  node_at (nodes fs) (loc fs p) ≠ Some Dir ∧ node_at (nodes fs) (loc fs (local_tmp p)) ≠ Some Dir.

(** Only the file and its temporary file may differ. *)
Definition local_kept (fs fs' : filesystem) (p : string) : Prop :=
  ∀ l, l ≠ loc fs p → l ≠ loc fs (local_tmp p) → file_at fs' l = file_at fs l.

Lemma CM_answers_bind {A B} (m : CM filesystem A) (k : A → CM filesystem B)
    (R : Result A → filesystem → Prop) (Q : Result B → filesystem → Prop) fs :
  wp m (answers fs R) fs →
  (∀ a fs', R (Ok a) fs' → cwd fs' = cwd fs → (calm fs → calm fs') → wp (k a) (answers fs' Q) fs') →
  (∀ e fs', R (Err e) fs' → cwd fs' = cwd fs → (calm fs → calm fs') → Q (Err e) fs') →
  wp (m ≫= k) (answers fs Q) fs.
Proof.
  unfold wp. intros Hm Hk He. rewrite CM_bind_unfold. destruct (m fs) as [r fs1].
  destruct Hm as (x & -> & Hc & Hcalm & HR). destruct x as [a|e].
  - specialize (Hk a fs1 HR Hc Hcalm). destruct (k a fs1) as [r fs2].
    destruct Hk as (y & -> & Hc2 & Hcalm2 & HQ). exists y. split; [done|]. split; [congruence|]. auto.
  - exists (Err e). auto.
Qed.

Lemma ok_or_err_answers (m : SM filesystem bool) e (R : bool → filesystem → Prop) fs :
  wp m (answers fs R) fs →
  wp (ok_or_err m e) (answers fs (λ r fs', match r with Ok _ => R true fs' | Err e' => e' = e ∧ R false fs' end)) fs.
Proof.
  unfold wp, ok_or_err, or_err. rewrite SM_bind_unfold. destruct (m fs) as [r fs1].
  intros (b & -> & Hc & Hcalm & HR). destruct b; simpl.
  - exists (Ok tt). auto.
  - exists (Err e). auto.
Qed.

(** The directories above the file are there afterwards. *)
Definition dirs_ready (p : string) (fs fs' : filesystem) : Prop :=
  parent_is_dir (nodes fs') (loc fs p) = true ∧
  parent_is_dir (nodes fs') (loc fs (local_tmp p)) = true ∧
  node_at (nodes fs') (loc fs p) = node_at (nodes fs) (loc fs p) ∧
  node_at (nodes fs') (loc fs (local_tmp p)) = node_at (nodes fs) (loc fs (local_tmp p)).

Lemma create_parent_spec p dir fs : parent p = Some dir →
  wp (create_dir_all dir) (answers fs (λ b fs', same_files fs fs' ∧
    (calm fs → local_room fs p → b = true ∧ dirs_ready p fs fs'))) fs.
Proof.
  intros Hpar. unfold create_dir_all, dirs_ready. destruct (decide (dir = "")) as [He|Hne].
  - apply answers_ret. split; [done|]. intros _ (Hd & Hcwd & _).
    destruct (client_locations (cwd fs) p Hd) as (above & l & dir' & Hp & Ht & _ & Hdir & Ha).
    replace dir' with dir in Ha by congruence. rewrite decide_True in Ha by done. subst above.
    unfold parent_is_dir, loc, local_tmp. rewrite Hp, Ht, !removelast_last. by rewrite Hcwd.
  - eapply wp_mono; [apply create_directories_spec|]. intros r fs' Ha.
    assert (cwd fs' = cwd fs) as Hc by (by destruct Ha as (? & _ & ? & _)).
    eapply answers_mono; [exact Ha|]. intros b [[Hn Hb]|(Hn & _ & Hcalm)].
    + split; [split; [done|]; intros l; unfold file_at; rewrite Hn; apply mkdirs_files|].
      intros _ (Hd & Hcwd & Hno & _).
      destruct (client_locations (cwd fs) p Hd) as (above & l & dir' & Hp & Ht & _ & Hdir & Hab).
      replace dir' with dir in Hab by congruence. rewrite decide_False in Hab by done.
      unfold loc, local_tmp in *. rewrite Hp, Ht, Hab, ?removelast_last in *.
      unfold parent_is_dir. rewrite !removelast_last, Hn.
      assert ((mkdirs (nodes fs) [] above).2 = true) as Hok by (by apply mkdirs_ok).
      pose proof (mkdirs_dir above (nodes fs) []) as Hmd. rewrite app_nil_l in Hmd.
      rewrite Hmd by done. rewrite !mkdirs_deeper by (rewrite !length_app; simpl; lia).
      by rewrite Hb.
    + split; [by apply same_nodes|]. intros Hc'. by destruct Hcalm.
Qed.

Lemma ensure_dirs_spec p fs :
  wp (ensure_dirs p) (answers fs (λ r fs', same_files fs fs' ∧
    (calm fs → local_room fs p → (∃ u, r = Ok u) ∧ dirs_ready p fs fs'))) fs.
Proof.
  unfold ensure_dirs. destruct (parent p) as [dir|] eqn:Hpar.
  2:{ exists (Ok tt). do 3 (split; [done|]). split; [done|]. intros _ (Hd & _).
      by destruct (client_locations (cwd fs) p Hd) as (? & ? & ? & _ & _ & _ & ? & _); congruence. }
  eapply wp_mono; [apply ok_or_err_answers, (create_parent_spec p dir fs Hpar)|]. intros r fs' Ha.
  eapply answers_mono; [exact Ha|]. intros [u|e].
  - intros [Hs Hl]. split; [done|]. intros Hca Hroom. destruct (Hl Hca Hroom) as (_ & Hrest). eauto.
  - intros (_ & Hs & Hl). split; [done|]. intros Hca Hroom. by destruct (Hl Hca Hroom).
Qed.

Lemma write_file_at_spec q data fs :
  wp (write_file_at q data) (answers fs (λ b fs',
    (b = false ∧ nodes fs' = nodes fs ∧ (calm fs → cannot_create fs q)) ∨
    (names_directory q = false ∧ loc fs q ≠ [] ∧
     ∃ c t, nodes fs' = <[loc fs q := File c t]> (nodes fs) ∧ (b = true → c = data) ∧ (calm fs → b = true)))) fs.
Proof.
  unfold write_file_at. eapply answers_bind; [apply open_truncate_spec|].
  intros [|] fs1 Ho Hc1 Hcalm1; [|apply answers_ret; left; by destruct Ho].
  destruct Ho as (Hd & Hne & t & Hn).
  assert (loc fs1 q = loc fs q) as Hl by (by apply loc_cwd).
  eapply wp_mono; [apply (write_at_spec _ _ _ _ [])|].
  { rewrite Hl. unfold file_at. by rewrite Hn, node_at_insert, decide_True by done. }
  intros r fs2 Ha. eapply answers_mono; [exact Ha|]. intros b (d & t2 & Hn2 & _ & Hb & Hlive).
  right. split; [done|]. split; [done|]. exists (overlay [] 0 d), t2.
  rewrite Hn2, Hn, Hl, insert_insert_eq. split; [done|]. rewrite overlay_fresh. auto.
Qed.

(** With the directories ready, the temporary file can be created, and renamed
    once it is there. *)
Lemma tmp_creatable fs fs1 p : cwd fs1 = cwd fs → local_room fs p → dirs_ready p fs fs1 →
  ~ cannot_create fs1 (local_tmp p).
Proof.
  intros Hc (Hd & _ & _ & _ & Htd) (_ & Ht & _ & Hnt). unfold cannot_create.
  rewrite (loc_cwd _ _ _ Hc), Hnt, Ht.
  destruct (client_locations (cwd fs) p Hd) as (? & ? & ? & _ & _ & Hnd & _).
  intros [?|[?|?]]; try done. unfold local_tmp in *. congruence.
Qed.

Lemma tmp_renamable fs fs1 fs2 p data t : cwd fs2 = cwd fs → local_room fs p → dirs_ready p fs fs1 →
  loc fs (local_tmp p) ≠ [] → nodes fs2 = <[loc fs (local_tmp p) := File data t]> (nodes fs1) →
  ~ cannot_create fs2 p.
Proof.
  intros Hc (Hd & _ & _ & Hnd & _) (Hpar & _ & Hnode & _) Hne Hn. unfold cannot_create.
  rewrite (loc_cwd _ _ _ Hc), Hn.
  destruct (client_locations (cwd fs) p Hd) as (above & l & dir & Hp & Ht & _). intros [Hx|[Hx|Hx]].
  - rewrite node_at_insert in Hx by done. case_decide; [done|]. by rewrite Hnode in Hx.
  - congruence.
  - unfold parent_is_dir in *. rewrite node_at_insert in Hx by done.
    rewrite decide_False in Hx; [by rewrite Hpar in Hx|].
    unfold loc, local_tmp. rewrite Ht, Hp, removelast_last. intros Heq%(f_equal length).
    rewrite length_app in Heq. simpl in Heq. lia.
Qed.

Section WriteFacts.
Context (self : FileOps).

(** A whole file is written all or nothing, as long as it is not its own
    temporary file; it succeeds when nothing fails or stands in the way. *)
Lemma client_write_file_spec rel data fs : let p := client_resolve_path self rel in
  wp (client_write_file self rel data) (answers fs (λ r fs',
    local_kept fs fs' p ∧
    (∀ u, r = Ok u → file_at fs' (loc fs p) = Some data) ∧
    (∀ e, r = Err e → loc fs (local_tmp p) ≠ loc fs p → file_at fs' (loc fs p) = file_at fs (loc fs p)) ∧
    (calm fs → local_room fs p → ∃ u, r = Ok u))) fs.
Proof.
  intros p. unfold client_write_file. fold p. fold (local_tmp p).
  assert (∀ fs', same_files fs fs' → local_kept fs fs' p) as Hsk by (intros fs' [_ H] l _ _; apply H).
  eapply CM_answers_bind; [apply ensure_dirs_spec| |].
  2:{ intros e fs1 [Hs Hl] _ _. split; [by apply Hsk|]. split; [done|].
      split; [intros _ _ _; apply Hs|]. intros Hca Hroom. by destruct (Hl Hca Hroom) as ((? & ?) & _). }
  intros u1 fs1 [Hs1 Hl1] Hc1 Hcalm1.
  assert (∀ q, loc fs1 q = loc fs q) as Hloc by (intros; by apply loc_cwd).
  eapply CM_answers_bind; [apply ok_or_err_answers, write_file_at_spec| |].
  - intros u2 fs2 H2 Hc2 Hcalm2. rewrite Hloc in H2.
    destruct H2 as [[? _]|(Hdt & Hne & c & t & Hn & Hb & _)]; [done|]. rewrite Hb in Hn by done. clear Hb c.
    assert (∀ q, loc fs2 q = loc fs q) as Hloc2 by (intros; rewrite <- Hloc; by apply loc_cwd).
    assert (lookup_node fs2 (local_tmp p) = Some (File data t)) as Hlk.
    { unfold lookup_node. by rewrite Hloc2, Hn, node_at_insert, decide_True, Hdt by done. }
    eapply wp_mono; [apply ok_or_err_answers, (rename_file_spec _ _ _ _ _ Hlk)|].
    intros r fs3 Ha. eapply answers_mono; [exact Ha|]. rewrite !Hloc2. intros [u3|e].
    + intros (_ & Hnp & Hn3). split; [|split; [|split; [done|by eauto]]].
      * intros l Hl1' Hl2. unfold file_at. rewrite Hn3, node_at_insert, decide_False by done.
        rewrite node_at_delete, decide_False, Hn, node_at_insert, decide_False by done. apply Hs1.
      * intros u _. unfold file_at. by rewrite Hn3, node_at_insert, decide_True by done.
    + intros (_ & Hn3 & Hcr). split; [|split; [done|split]].
      * intros l _ Hl2. unfold file_at. rewrite Hn3, Hn, node_at_insert, decide_False by done. apply Hs1.
      * intros e' _ Hnt. unfold file_at. rewrite Hn3, Hn, node_at_insert, decide_False by done. apply Hs1.
      * intros Hca Hroom. destruct (Hl1 Hca Hroom) as [_ Hready]. exfalso.
        eapply (tmp_renamable fs fs1 fs2); [congruence|done..|]. by apply Hcr, Hcalm2, Hcalm1.
  - intros e fs2 [_ H2] Hc2 Hcalm2. rewrite Hloc in H2.
    assert (∀ l, l ≠ loc fs (local_tmp p) → file_at fs2 l = file_at fs1 l) as Hk.
    { intros l Hl. unfold file_at. destruct H2 as [(_ & -> & _)|(_ & Hne & c & t & -> & _)]; [done|].
      by rewrite node_at_insert, decide_False by done. }
    split; [intros l _ Hl2; rewrite Hk by done; apply Hs1|]. split; [done|].
    split; [intros e' _ Hnt; rewrite Hk by done; apply Hs1|]. intros Hca Hroom. exfalso.
    destruct H2 as [(_ & _ & Hx)|(_ & _ & c & t & _ & _ & Hx)].
    + destruct (Hl1 Hca Hroom) as [_ Hready]. by apply (tmp_creatable fs fs1 p Hc1 Hroom Hready), Hx, Hcalm1.
    + by specialize (Hx (Hcalm1 Hca)).
Qed.

(** C21: the client writes a file whole or not at all.  Whatever fails in the
    local file system, [write_file] comes back: with success, and then the file
    holds exactly the data; or with an error, and then it is what it was.  No
    other file changes, except the temporary file that has the name of the file
    with the extension replaced by "tmp" (it must not be the file itself). *)
Theorem local_write_all_or_nothing rel data fs :
  let p := client_resolve_path self rel in
  loc fs (local_tmp p) ≠ loc fs p →
  ∃ r fs', client_write_file self rel data fs = (Ret r, fs') ∧ local_kept fs fs' p ∧
    file_at fs' (loc fs p) = match r with Ok _ => Some data | Err _ => file_at fs (loc fs p) end ∧
    (calm fs → local_room fs p → r = Ok tt).
Proof.
  intros p Hne. pose proof (client_write_file_spec rel data fs) as Hw. cbv zeta in Hw. fold p in Hw. unfold wp in Hw.
  destruct (client_write_file self rel data fs) as [o fs'].
  destruct Hw as (r & -> & _ & _ & Hk & Hok & Herr & Hlive). exists r, fs'. split; [done|]. split; [done|].
  split; [destruct r; eauto|]. intros Hc Hr. by destruct (Hlive Hc Hr) as [[] ->].
Qed.

End WriteFacts.

(** A tree with one file, and a failing rename. *)
Definition demo_local : filesystem :=
  mkFs (list_to_map [(["s"], Dir); (["s"; "a.txt"], File [x61] 0)]) ["s"] [Works; Works; Works; Fails] 0 0 (λ _, 0).

Lemma local_write_all_or_nothing_witness :
  ∃ r fs', client_write_file (mkFileOps "/s" 4) "a.txt" [x62] demo_local = (Ret r, fs') ∧
    file_at fs' ["s"; "a.txt"] = match r with Ok _ => Some [x62] | Err _ => Some [x61] end.
Proof.
  destruct (local_write_all_or_nothing (mkFileOps "/s" 4) "a.txt" [x62] demo_local ltac:(vm_compute; discriminate))
    as (r & fs' & Hr & _ & Hf & _).
  exists r, fs'. split; [exact Hr|exact Hf].
Defined.

(** * Instances of the classes *)

Definition demo_disk : Disk := {| dir_len := λ _, 0 |}.
Definition demo_sha2 : Sha2 := {|
  hasher := bytes; sha2_new := []; sha2_update := app; sha2_finalize := Fips.sha256; hex_encode := to_hex
|}.

Lemma demo_sha2_laws : @Sha2Laws demo_sha2.
Proof.
  constructor; [|done]. intros chunks _. cbn [sha2_finalize demo_sha2 sha2_update sha2_new]. f_equal.
  change (concat chunks) with ([] ++ concat chunks).
  generalize (@nil byte) as acc. induction chunks as [|c chunks IH]; intros acc; simpl; [by rewrite app_nil_r|].
  by rewrite IH, <- app_assoc.
Qed.
