(* ===== verification/ClientDelta.v ===== *)
(** The client's half of delta synchronisation: src/client/src/delta_sync.rs. *)
From S2P Require Import Prelude Sha256 Paths FileSystem FileManager FileMutex WireProtocol Proto.
From S2P Require Import DeltaSync ClientBase ClientFiles.

Record ClientBlockSignature := mkClientSignature {
  cs_block_index : Z;
  cs_rolling_hash : Z;
  cs_strong_hash : string;
  cs_block_offset : Z;
  cs_block_size : Z
}.

(** The engine holds its own [FileOps]. *)
Record DeltaSyncEngine := mkEngine { file_ops : FileOps }.

Section Engine.
Context `{Host, Disk, Sha2} (self : DeltaSyncEngine).

(** The number of blocks.  A file system's sizes are below 2^63, so the sum
    does not overflow; a division by zero panics. *)
Definition client_block_count {S} (file_size block_size : Z) : CM S Z := λ s,
  if block_size =? 0 then (Throw (Panic "attempt to divide by zero"), s)
  else (Ret (Ok (u32 (u64 (file_size + block_size - 1) / block_size))), s).

(** The size of the block at an offset. *)
Definition actual_size (file_size block_size block_offset : Z) : Z :=
  if file_size <? block_offset + block_size then u32 (file_size - block_offset) else block_size.

Fixpoint signature_loop (relative_path : string) (file_size block_size : Z) (indices : list Z)
  : CM filesystem (list ClientBlockSignature) :=
  match indices with
  | [] => mret []
  | block_index :: indices' =>
      let block_offset := block_index * block_size in
      let actual := actual_size file_size block_size block_offset in
      data ← client_read_block (file_ops self) relative_path block_offset actual;
      let rolling := client_adler32 data in
      let strong := client_sha256_hex data in
      rest ← signature_loop relative_path file_size block_size indices';
      mret (mkClientSignature block_index rolling strong block_offset actual :: rest)
  end.

Definition compute_signatures (relative_path : string) : CM filesystem (list ClientBlockSignature) :=
  file_size ← client_file_size (file_ops self) relative_path;
  let block_size := fo_block_size (file_ops self) in
  total_blocks ← client_block_count file_size block_size;
  signature_loop relative_path file_size block_size (seqZ 0 total_blocks).

Definition build_signature_request (relative_path : string) (file_size block_size : Z)
  (signatures : list ClientBlockSignature) : DeltaSyncSignatureRequest :=
  mkDeltaSyncSignatureRequest relative_path file_size block_size
    ((λ sig, mkBlockSignature (cs_block_index sig) (cs_rolling_hash sig) (cs_strong_hash sig)
               (cs_block_offset sig) (cs_block_size sig)) <$> signatures).

Fixpoint block_loop (relative_path : string) (file_size block_size : Z) (indices : list Z)
  : CM filesystem (list DeltaSyncBlockData) :=
  match indices with
  | [] => mret []
  | block_index :: indices' =>
      let block_offset := block_index * block_size in
      if file_size <=? block_offset then block_loop relative_path file_size block_size indices'
      else
        let actual := actual_size file_size block_size block_offset in
        data ← client_read_block (file_ops self) relative_path block_offset actual;
        let strong_hash := client_sha256_hex data in
        rest ← block_loop relative_path file_size block_size indices';
        mret (mkDeltaSyncBlockData relative_path block_index block_offset data strong_hash :: rest)
  end.

Definition read_requested_blocks (relative_path : string) (block_indices : list Z)
  : CM filesystem (list DeltaSyncBlockData) :=
  file_size ← client_file_size (file_ops self) relative_path;
  let block_size := fo_block_size (file_ops self) in
  block_loop relative_path file_size block_size block_indices.

(** Rebuilding a file from blocks: nothing in the client calls it. *)
Fixpoint write_blocks (relative_path : string) (blocks : list (Z * bytes)) : CM filesystem unit :=
  match blocks with
  | [] => mret tt
  | (offset, data) :: blocks' =>
      _ ← client_write_block (file_ops self) relative_path offset data;
      write_blocks relative_path blocks'
  end.

Definition apply_blocks (relative_path : string) (total_size : Z) (blocks : list (Z * bytes))
  : CM filesystem string :=
  let path := client_resolve_path (file_ops self) relative_path in
  let tmp_path := with_extension path "tmp" in
  _ ← ensure_dirs path;
  _ ← ok_or_err (open_truncate tmp_path) (FileIo "Cannot create tmp");
  _ ← ok_or_err (set_len tmp_path (Z.to_nat total_size)) (FileIo "Cannot pre-allocate");
  _ ← write_blocks relative_path blocks;
  final_hash ← sha256_file tmp_path;
  _ ← client_finalize_file (file_ops self) relative_path;
  mret final_hash.

End Engine.

(** * The client's signatures and blocks, without faults *)

Lemma client_adler32_same data : client_adler32 data = adler32 data.
Proof. reflexivity. Qed.

Section EngineFacts.
Context `{Host, Disk, Sha2, !Sha2Laws} (self : DeltaSyncEngine).
Context (rel : string) (data : bytes) (t : Z) (fs : filesystem).
Let bs : Z := fo_block_size (file_ops self).
Context (Hcalm : calm fs) (Hfile : lookup_node fs (client_resolve_path (file_ops self) rel) = Some (File data t)).
Context (Hbs : 0 < bs < 2 ^ 32) (Hlimit : bs <= alloc_limit) (Hlen : zlen data < 2 ^ 61).
Context (Hcount : blocks_of (zlen data) bs < 2 ^ 32).

Definition client_signature (i : Z) : ClientBlockSignature :=
  let block := block_of bs data i in
  mkClientSignature i (adler32 block) (BlockHash.sha256_hex block) (i * bs) (zlen block).

Definition block_message (i : Z) : DeltaSyncBlockData :=
  let block := block_of bs data i in
  mkDeltaSyncBlockData rel i (i * bs) block (BlockHash.sha256_hex block).

Lemma zlen_block_le i : zlen (block_of bs data i) <= bs.
Proof. unfold block_of, zlen. rewrite length_take. lia. Qed.

Lemma client_block_hash i : client_sha256_hex (block_of bs data i) = BlockHash.sha256_hex (block_of bs data i).
Proof.
  pose proof (zlen_block_le i). rewrite client_sha256_same, sha256_hex_same, sha256_raw_fips by lia. done.
Qed.

(** Block [i] as the client reads it. *)
Lemma client_block_read i : 0 <= i → i * bs < zlen data →
  actual_size (zlen data) bs (i * bs) = zlen (block_of bs data i) ∧
  client_read_block (file_ops self) rel (i * bs) (zlen (block_of bs data i)) fs =
    (Ret (Ok (block_of bs data i)), fs).
Proof.
  intros Hi Hin. assert (0 <= i * bs <= zlen data) as Hoff by nia.
  pose proof (zlen_block bs data i (proj1 Hbs) Hoff) as Hz. pose proof (zlen_nonneg data). split.
  - unfold actual_size. rewrite Hz. destruct (Z.ltb_spec (zlen data) (i * bs + bs)); [rewrite u32_small|]; lia.
  - rewrite (client_read_block_calm _ _ _ _ _ _ _ Hcalm Hfile) by (unfold vector_max_size; lia).
    rewrite Hz. by destruct (actual_block bs data i (proj1 Hbs)) as [-> _]; [lia|].
Qed.

Lemma signature_loop_calm indices : Forall (λ i, 0 <= i ∧ i * bs < zlen data) indices →
  signature_loop self rel (zlen data) bs indices fs = (Ret (Ok (client_signature <$> indices)), fs).
Proof.
  induction 1 as [|i indices [Hi Hin] _ IH]; [done|]. cbn [signature_loop]. cbv zeta.
  destruct (client_block_read i Hi Hin) as [-> Hr].
  rewrite (CM_bind_ok _ _ _ _ _ Hr), (CM_bind_ok _ _ _ _ _ IH), client_block_hash. done.
Qed.

(** One signature per block, in order. *)
Lemma compute_signatures_calm :
  compute_signatures self rel fs =
    (Ret (Ok (client_signature <$> seqZ 0 (blocks_of (zlen data) bs))), fs).
Proof.
  unfold compute_signatures. pose proof (zlen_nonneg data).
  rewrite (CM_bind_ok _ _ _ _ _ (client_file_size_calm _ _ _ _ _ Hcalm Hfile)). fold bs.
  assert (client_block_count (zlen data) bs fs = (Ret (Ok (blocks_of (zlen data) bs)), fs)) as Hc.
  { unfold client_block_count, blocks_of in *. rewrite (proj2 (Z.eqb_neq _ _)) by lia.
    assert (0 <= (zlen data + bs - 1) / bs) by (apply Z.div_pos; lia). by rewrite u64_small, u32_small by lia. }
  rewrite (CM_bind_ok _ _ _ _ _ Hc). apply signature_loop_calm.
  apply Forall_forall. intros i Hi%elem_of_seqZ.
  pose proof (block_starts_inside (zlen data) bs i). lia.
Qed.

(** The blocks asked for, but for those beyond the end of the file. *)
Lemma read_requested_blocks_calm indices : Forall (λ i, 0 <= i) indices →
  read_requested_blocks self rel indices fs =
    (Ret (Ok (block_message <$> filter (λ i, i * bs < zlen data) indices)), fs).
Proof.
  intros Hall. unfold read_requested_blocks.
  rewrite (CM_bind_ok _ _ _ _ _ (client_file_size_calm _ _ _ _ _ Hcalm Hfile)). fold bs.
  induction Hall as [|i indices Hi _ IH]; [done|]. cbn [block_loop]. cbv zeta. rewrite filter_cons.
  destruct (Z.leb_spec (zlen data) (i * bs)).
  - rewrite decide_False by lia. exact IH.
  - rewrite decide_True by lia. destruct (client_block_read i Hi) as [-> Hr]; [lia|].
    rewrite (CM_bind_ok _ _ _ _ _ Hr), (CM_bind_ok _ _ _ _ _ IH), client_block_hash. done.
Qed.

End EngineFacts.
