(* ===== verification/ClientRebuild.v ===== *)
(** Rebuilding a local file from blocks: [apply_blocks] of
    src/client/src/delta_sync.rs, under every failure of the local file system.
    The model is in [ClientDelta]. *)
From S2P Require Import Prelude Sha256 Paths FileSystem FileManager FileMutex WireProtocol Proto.
From S2P Require Import DeltaSync ClientBase ClientFiles ClientDelta.

(** The content that is built: the blocks, in their order, laid over zeros. *)
Definition rebuilt (total_size : Z) (blocks : list (Z * bytes)) : bytes :=
  fold_left (λ c '(offset, data), overlay c (Z.to_nat offset) data) blocks (replicate (Z.to_nat total_size) x00).

(** * The calls, under failures *)

Lemma set_len_spec p n fs c : file_at fs (loc fs p) = Some c →
  wp (set_len p n) (answers fs (λ b fs',
    if b : bool then ∃ t, nodes fs' = <[loc fs p := File (resize n x00 c) t]> (nodes fs)
    else nodes fs' = nodes fs ∧ ~ calm fs)) fs.
Proof.
  intros [_ [t Hfile]]%file_at_some. apply fault_bind. intros f s Hn Hc Hf. apply wp_get.
  rewrite (loc_cwd _ _ _ Hc), Hn, Hfile.
  destruct f; [apply answers_put; cbn; eauto|apply answers_ret; split; [done|]; intros Hca; by destruct (Hf Hca)..].
Qed.

Lemma open_create_spec p fs c : file_at fs (loc fs p) = Some c → names_directory p = false →
  wp (open_create p) (answers fs (λ b fs', nodes fs' = nodes fs ∧ (calm fs → b = true))) fs.
Proof.
  intros [_ [t Hfile]]%file_at_some Hd. apply fault_bind. intros f s Hn Hc Hf. apply wp_get.
  rewrite (loc_cwd _ _ _ Hc), Hn, Hfile, Hd.
  destruct f; apply answers_ret; (split; [done|]); intros Hca; by destruct (Hf Hca).
Qed.

Lemma or_err_answers {A} (m : SM filesystem (option A)) e (R : option A → filesystem → Prop) fs :
  wp m (answers fs R) fs →
  wp (or_err m e) (answers fs (λ r fs', match r with Ok a => R (Some a) fs' | Err e' => e' = e ∧ R None fs' end)) fs.
Proof.
  unfold wp, or_err. destruct (m fs) as [r fs1]. intros (b & -> & Hc & Hcalm & HR).
  destruct b as [a|]; [exists (Ok a)|exists (Err e)]; auto.
Qed.

Lemma metadata_spec `{Disk} p fs c t : lookup_node fs p = Some (File c t) →
  wp (metadata p) (answers fs (λ m fs', nodes fs' = nodes fs ∧ (calm fs → m ≠ None))) fs.
Proof.
  intros Hl. apply fault_bind. intros f s Hn Hc Hf. apply wp_get.
  assert (lookup_node s p = Some (File c t)) as -> by (unfold lookup_node, loc in *; by rewrite Hc, Hn).
  destruct f; apply answers_ret; (split; [done|]); intros Hca; by destruct (Hf Hca).
Qed.

Lemma plain_answers {A} (m : SM filesystem A) (R : A → filesystem → Prop) fs :
  wp m (answers fs R) fs →
  wp (plain m) (answers fs (λ r fs', match r with Ok a => R a fs' | Err _ => False end)) fs.
Proof.
  unfold wp, plain. destruct (m fs) as [r fs1]. intros (a & -> & Hc & Hcalm & HR). exists (Ok a). auto.
Qed.

(** Hashing a file: reads may fail or come back short, but a digest that is
    returned is the right one. *)
Section Hash.
Context `{Sha2, !Sha2Laws}.

Lemma file_read_spec c pos n fs : (0 < n)%nat →
  wp (file_read (HFile c) pos n) (answers fs (λ r fs', nodes fs' = nodes fs ∧
    match r with
    | Some buf => buf = take (length buf) (drop pos c) ∧ (buf = [] → length c <= pos)%nat
    | None => ~ calm fs
    end)) fs.
Proof.
  intros Hn0. apply fault_bind. intros f s Hn Hc Hf.
  assert (∀ k, (0 < k)%nat → take k (drop pos c) = take (length (take k (drop pos c))) (drop pos c) ∧
    (take k (drop pos c) = [] → length c <= pos)%nat) as Hread.
  { intros k Hk. split; [by rewrite length_take, take_min_length|].
    intros He%(f_equal length). rewrite length_take, length_drop in He. cbn [length] in He. lia. }
  destruct f; apply answers_ret; (split; [done|]); [apply Hread; lia| |apply Hread; lia].
  intros Hca. by destruct (Hf Hca).
Qed.

Lemma sha256_loop_spec c fuel : ∀ pos chunks fs,
  concat chunks = take pos c → (pos <= length c < fuel + pos)%nat →
  wp (sha256_loop fuel (HFile c) pos (fold_left sha2_update chunks sha2_new)) (answers fs (λ r fs', nodes fs' = nodes fs ∧
    match r with
    | Ok state => ∃ chunks', state = fold_left sha2_update chunks' sha2_new ∧ concat chunks' = c
    | Err _ => ~ calm fs
    end)) fs.
Proof.
  induction fuel as [|fuel IH]; intros pos chunks fs Hp Hf; [lia|]. cbn [sha256_loop].
  eapply CM_answers_bind; [apply or_err_answers, file_read_spec, READ_BUFFER_pos| |by intros e fs' (_ & ?) _ _].
  intros buf fs1 (Hn1 & Hbuf & Hend) _ Hcalm. destruct buf as [|b buf'] eqn:Hb.
  - exists (Ok (fold_left sha2_update chunks sha2_new)). do 4 (split; [done|]). exists chunks. split; [done|].
    rewrite Hp. apply take_ge, Hend. done.
  - rewrite <- Hb in *. assert (0 < length buf <= length c - pos)%nat as Hl.
    { split; [rewrite Hb; cbn [length]; lia|]. rewrite Hbuf, length_take, length_drop. lia. }
    pose proof (IH (pos + length buf)%nat (chunks ++ [buf]) fs1) as Hw. rewrite fold_left_app in Hw.
    eapply wp_mono; [apply Hw; [|lia]|].
    { rewrite concat_app, Hp. cbn [concat]. rewrite app_nil_r, Hbuf at 1. by rewrite <- take_take_drop. }
    intros r fs2 Ha. eapply answers_mono; [exact Ha|]. intros [s|e] (Hn2 & Hr); (split; [congruence|done || auto]).
Qed.

Lemma sha256_file_spec p fs c t : lookup_node fs p = Some (File c t) → zlen c < 2 ^ 61 →
  wp (sha256_file p) (answers fs (λ r fs', nodes fs' = nodes fs ∧
    match r with Ok h => h = to_hex (Fips.sha256 c) | Err _ => ~ calm fs end)) fs.
Proof.
  intros Hl Hs. unfold sha256_file. eapply CM_answers_bind; [apply or_err_answers| |].
  - apply fault_bind. intros f s Hn Hc Hf. apply wp_get.
    assert (lookup_node s p = Some (File c t)) as -> by (unfold lookup_node, loc in *; by rewrite Hc, Hn).
    instantiate (1 := λ h fs', nodes fs' = nodes fs ∧ match h with Some x => x = HFile c | None => ~ calm fs end).
    destruct f; apply answers_ret; (split; [done|]); try done; intros Hca; by destruct (Hf Hca).
  - intros h fs1 [Hn1 ->] Hc1 Hcalm1. cbv zeta. change sha2_new with (fold_left sha2_update [] sha2_new).
    eapply CM_answers_bind; [apply sha256_loop_spec; [done|lia]| |].
    + intros st fs2 (Hn2 & chunks & -> & Hcat) _ _. exists (Ok (to_hex (Fips.sha256 c))).
      split; [|split; [done|split; [done|split; [congruence|done]]]].
      by rewrite sha2_fips, Hcat, hex_encode_hex by (by rewrite Hcat).
    + intros e fs2 [Hn2 Hx] _ _. split; [congruence|auto].
  - by intros e fs1 (_ & ?) _ _.
Qed.

End Hash.

(** * The temporary file *)

(** The directories above [p] are there, and nothing is in the way. *)
Definition in_reach (fs : filesystem) (p : string) : Prop :=
  local_room fs p ∧ parent_is_dir (nodes fs) (loc fs p) = true ∧ parent_is_dir (nodes fs) (loc fs (local_tmp p)) = true.

Lemma ensure_dirs_keeps p fs :
  wp (ensure_dirs p) (λ _ fs', ∀ l, node_at (nodes fs) l = Some Dir → node_at (nodes fs') l = Some Dir) fs.
Proof.
  unfold ensure_dirs. destruct (parent p) as [dir|]; [|by intros l]. unfold wp, ok_or_err, or_err, create_dir_all.
  rewrite SM_bind_unfold. case_decide; [by intros l|]. pose proof (create_directories_spec dir fs) as Hs. unfold wp in Hs.
  destruct (create_directories dir fs) as [r fs']. destruct Hs as (b & -> & _ & _ & Hn).
  assert (∀ l, node_at (nodes fs) l = Some Dir → node_at (nodes fs') l = Some Dir) as Hk.
  { intros l Hl. destruct Hn as [[-> _]|(-> & _)]; [by apply mkdirs_keeps_dirs|done]. }
  by destruct b.
Qed.

Lemma ensure_dirs_reach p fs :
  wp (ensure_dirs p) (answers fs (λ r fs', same_files fs fs' ∧
    (calm fs → local_room fs p → (∃ u, r = Ok u) ∧ in_reach fs' p))) fs.
Proof.
  pose proof (ensure_dirs_spec p fs) as Hs. pose proof (ensure_dirs_keeps p fs) as Hk. unfold wp in *.
  destruct (ensure_dirs p fs) as [o fs']. destruct Hs as (r & -> & Hc & Hcalm & Hs & Hr).
  exists r. do 4 (split; [done|]). intros Hca Hroom. destruct (Hr Hca Hroom) as (Hok & Hp & Hpt & Hn & Hnt).
  split; [done|]. pose proof Hroom as (Hd & Hcwd & Hno & Hnd & Hntd). unfold in_reach, local_room.
  rewrite !(loc_cwd _ _ _ Hc), Hc, Hn, Hnt. split; [|done]. split; [done|]. split; [by apply Hk|].
  split; [|done]. intros k. by rewrite (proj2 Hs).
Qed.

(** Writing the temporary file keeps [p] in reach. *)
Lemma reach_tmp fs fs' p c t : in_reach fs p → cwd fs' = cwd fs →
  nodes fs' = <[loc fs (local_tmp p) := File c t]> (nodes fs) → in_reach fs' p.
Proof.
  intros ((Hd & Hcwd & Hno & Hnd & Hntd) & Hp & Hpt) Hc Hn.
  destruct (client_locations (cwd fs) p Hd) as (above & l & dir & Hlp & Hlt & _).
  fold (loc fs p) in Hlp. fold (local_tmp p) in Hlt. fold (loc fs (local_tmp p)) in Hlt.
  assert (loc fs (local_tmp p) ≠ []) as Hne by (rewrite Hlt; by destruct above).
  assert (∀ k, loc fs (local_tmp p) ≠ take k above) as Hk.
  { intros k Hx%(f_equal length). rewrite Hlt, length_app, length_take in Hx. simpl in Hx. lia. }
  assert (loc fs (local_tmp p) ≠ above) as Ha by (rewrite <- (take_ge above (length above)) by lia; apply Hk).
  unfold in_reach, local_room, parent_is_dir, file_at. rewrite !(loc_cwd _ _ _ Hc), Hc, Hn, !node_at_insert by done.
  unfold parent_is_dir, file_at in *. rewrite Hlp, removelast_last in *.
  assert (removelast (loc fs (local_tmp p)) = above) as Hrt by (by rewrite Hlt, removelast_last).
  rewrite Hrt in *. rewrite !(decide_False (P := loc fs (local_tmp p) = above)) by done.
  split; [|done]. split; [done|]. split; [by case_decide as He; [rewrite <- He in Hcwd|]|].
  split; [|split; [by case_decide|by rewrite decide_True]].
  intros k. by rewrite node_at_insert, decide_False by done.
Qed.

(** Between the first and the last call: the temporary file holds [c], nothing
    else has changed, and everything is in reach if it was from the start. *)
Record building (fs0 fs : filesystem) (p : string) (c : bytes) : Prop := {
  bu_cwd : cwd fs = cwd fs0;
  bu_plain : names_directory (local_tmp p) = false;
  bu_tmp : file_at fs (loc fs0 (local_tmp p)) = Some c;
  bu_others l : l ≠ loc fs0 (local_tmp p) → file_at fs l = file_at fs0 l;
  bu_calm : calm fs0 → calm fs;
  bu_reach : calm fs0 → local_room fs0 p → in_reach fs p }.

(** A call that gave up. *)
Definition given_up (fs0 fs : filesystem) (p : string) : Prop :=
  (∀ l, l ≠ loc fs0 (local_tmp p) → file_at fs l = file_at fs0 l) ∧ (calm fs0 → ~ local_room fs0 p).

Lemma building_tmp fs0 fs fs' p c c' t : building fs0 fs p c → cwd fs' = cwd fs → (calm fs → calm fs') →
  nodes fs' = <[loc fs (local_tmp p) := File c' t]> (nodes fs) → building fs0 fs' p c'.
Proof.
  intros [Hc Hd Ht Ho Hca Hr] Hc' Hca' Hn. apply file_at_some in Ht as (Hne & _).
  assert (loc fs (local_tmp p) = loc fs0 (local_tmp p)) as Hl by (by apply loc_cwd). split; [congruence|done|..].
  - unfold file_at. by rewrite Hn, Hl, node_at_insert, decide_True by done.
  - intros l Hll. rewrite <- Ho by done. unfold file_at. by rewrite Hn, Hl, node_at_insert, decide_False by done.
  - auto.
  - intros H1 H2. by eapply reach_tmp; [apply Hr|..].
Qed.

Lemma building_same fs0 fs fs' p c : building fs0 fs p c → cwd fs' = cwd fs → (calm fs → calm fs') →
  nodes fs' = nodes fs → building fs0 fs' p c.
Proof.
  intros [Hc Hd Ht Ho Hca Hr] Hc' Hca' Hn. split; [congruence|done|..].
  - unfold file_at. by rewrite Hn.
  - intros l Hl. rewrite <- Ho by done. unfold file_at. by rewrite Hn.
  - auto.
  - intros H1 H2. specialize (Hr H1 H2). unfold in_reach, local_room, file_at in *.
    by rewrite !(loc_cwd _ _ _ Hc'), Hc', Hn.
Qed.

Lemma building_lookup fs0 fs p c : building fs0 fs p c → ∃ t, lookup_node fs (local_tmp p) = Some (File c t).
Proof. intros [Hc Hd Ht _ _ _]. apply file_lookup; [done|]. by rewrite (loc_cwd fs0). Qed.

Lemma building_given_up fs0 fs fs' p c : building fs0 fs p c →
  (∀ l, l ≠ loc fs (local_tmp p) → file_at fs' l = file_at fs l) → (calm fs → in_reach fs p → False) →
  given_up fs0 fs' p.
Proof.
  intros [Hc _ _ Ho Hca Hr] Hk Hno. split; [|intros H1 H2; by apply Hno; [apply Hca|apply Hr]].
  intros l Hl. rewrite <- Ho by done. apply Hk. by rewrite (loc_cwd _ _ _ Hc).
Qed.

Section Rebuild.
Context `{Host, Disk, Sha2, !Sha2Laws} (self : DeltaSyncEngine) (rel : string) (fs0 : filesystem).
Let p : string := client_resolve_path (file_ops self) rel.

(** What a step of the rebuilding promises. *)
Definition builds (c : bytes) {A} (r : Result A) (fs' : filesystem) : Prop :=
  match r with Ok _ => building fs0 fs' p c | Err _ => given_up fs0 fs' p end.

Lemma write_block_builds fs c off data : building fs0 fs p c → 0 <= off < 2 ^ 63 →
  wp (client_write_block (file_ops self) rel off data) (answers fs (builds (overlay c (Z.to_nat off) data))) fs.
Proof.
  intros Hb Hoff. unfold client_write_block. fold p. fold (local_tmp p).
  eapply CM_answers_bind; [apply ensure_dirs_reach| |].
  2: { intros e fs1 [[_ Hs] Hl] _ _. apply (building_given_up fs0 fs fs1 p c Hb); [by intros l _|].
       intros Hca [Hroom _]. by destruct (Hl Hca Hroom) as [[u ?] _]. }
  intros u1 fs1 [[Hc1 Hs1] Hl1] _ Hca1.
  assert (building fs0 fs1 p c) as Hb1.
  { destruct Hb as [Hc Hd Ht Ho Hca Hr]. split; [congruence|done|by rewrite Hs1| |auto|].
    - intros l Hl. rewrite Hs1. auto.
    - intros Hca0 Hroom0. apply Hl1; [by apply Hca|by apply Hr]. }
  pose proof Hb1 as [Hc0 Hd1 Ht1 _ _ _]. assert (loc fs1 (local_tmp p) = loc fs0 (local_tmp p)) as Hloc by (by apply loc_cwd).
  eapply CM_answers_bind; [apply ok_or_err_answers, (open_create_spec _ _ c); [by rewrite Hloc|done]| |].
  2: { intros e fs2 (_ & Hn & Hx) _ _. apply (building_given_up fs0 fs1 fs2 p c Hb1); [|by intros Hca _; specialize (Hx Hca)].
       intros l _. unfold file_at. by rewrite Hn. }
  intros u2 fs2 [Hn2 _] Hc2 Hca2. pose proof (building_same _ _ _ _ _ Hb1 Hc2 Hca2 Hn2) as Hb2.
  rewrite (proj2 (Z.ltb_ge (i64 off) 0)) by (unfold i64; rewrite Z.mod_small by lia; lia).
  eapply wp_mono; [apply ok_or_err_answers, (write_at_spec _ _ _ _ c)|].
  { rewrite (loc_cwd fs1 fs2), Hloc by done. apply (bu_tmp _ _ _ _ Hb2). }
  intros r fs3 (x & -> & Hc3 & Hca3 & Hx). exists x. do 3 (split; [done|]). destruct x as [u|e].
  - destruct Hx as (d & t & Hn3 & _ & Hd & _). rewrite Hd in Hn3 by done. by eapply building_tmp.
  - destruct Hx as (_ & d & t & Hn3 & _ & _ & Hx). eapply building_given_up; [exact Hb2| |].
    + intros l Hl. unfold file_at. rewrite Hn3, node_at_insert; [by rewrite decide_False|].
      rewrite (loc_cwd fs1 fs2), Hloc by done. by apply file_at_some in Ht1 as [? _].
    + intros Hca _. by specialize (Hx Hca).
Qed.

Lemma write_blocks_builds blocks : Forall (λ b, 0 <= b.1 < 2 ^ 63) blocks → ∀ fs c, building fs0 fs p c →
  wp (write_blocks self rel blocks)
    (answers fs (builds (fold_left (λ c '(offset, data), overlay c (Z.to_nat offset) data) blocks c))) fs.
Proof.
  induction 1 as [|[off data] blocks Hoff _ IH]; intros fs c Hb; cbn [write_blocks fold_left].
  - by exists (Ok tt).
  - eapply CM_answers_bind; [by apply write_block_builds| |done].
    intros u fs1 Hb1 _ _. by apply IH.
Qed.

(** Creating the temporary file at its full length. *)
Lemma preallocated total : wp (_ ← ensure_dirs p;
    _ ← ok_or_err (open_truncate (local_tmp p)) (FileIo "Cannot create tmp");
    ok_or_err (set_len (local_tmp p) (Z.to_nat total)) (FileIo "Cannot pre-allocate"))
  (answers fs0 (builds (replicate (Z.to_nat total) x00))) fs0.
Proof.
  eapply CM_answers_bind; [apply ensure_dirs_reach| |].
  2: { intros e fs1 [[_ Hs] Hl] _ _. split; [by intros l _|]. intros Hca Hroom. by destruct (Hl Hca Hroom) as [[u ?] _]. }
  intros u1 fs1 [[Hc1 Hs1] Hl1] _ Hca1.
  assert (loc fs1 (local_tmp p) = loc fs0 (local_tmp p)) as Hloc by (by apply loc_cwd).
  eapply CM_answers_bind; [apply ok_or_err_answers, open_truncate_spec| |].
  2: { intros e fs2 (_ & Hn & Hx) _ _. split; [intros l _; rewrite <- Hs1; unfold file_at; by rewrite Hn|].
       intros Hca Hroom. destruct (Hl1 Hca Hroom) as [_ ((Hd & _ & _ & _ & Htd) & _ & Hpt)].
       destruct (client_locations (cwd fs1) p Hd) as (? & ? & ? & _ & _ & Hnd & _).
       destruct (Hx (Hca1 Hca)) as [?|[?|?]]; unfold local_tmp in *; congruence. }
  intros u2 fs2 (Hd & Hne & t & Hn2) Hc2 Hca2. rewrite Hloc in *.
  assert (building fs0 fs2 p []) as Hb2.
  { split; [congruence|done|unfold file_at; by rewrite Hn2, node_at_insert, decide_True by done| |auto|].
    - intros l Hl. rewrite <- Hs1. unfold file_at. by rewrite Hn2, node_at_insert, decide_False by done.
    - intros Hca Hroom. eapply (reach_tmp fs1); [by apply Hl1|done|by rewrite Hloc]. }
  assert (loc fs2 (local_tmp p) = loc fs0 (local_tmp p)) as Hloc2 by (apply loc_cwd; congruence).
  eapply wp_mono; [apply ok_or_err_answers, (set_len_spec _ _ _ []); rewrite Hloc2; apply Hb2|].
  intros r fs3 (x & -> & Hc3 & Hca3 & Hx). exists x. do 3 (split; [done|]). destruct x as [u|e].
  - destruct Hx as [t3 Hn3]. rewrite resize_nil in Hn3. by eapply building_tmp.
  - destruct Hx as (_ & Hn3 & Hx). eapply building_given_up; [exact Hb2| |by intros ? _].
    intros l _. unfold file_at. by rewrite Hn3.
Qed.

(** What the files are in the end. *)
Record rebuilding_done (c : bytes) (ok : Prop) (fs' : filesystem) : Prop := {
  rd_kept : local_kept fs0 fs' p;
  rd_whole : file_at fs' (loc fs0 p) = file_at fs0 (loc fs0 p) ∨ file_at fs' (loc fs0 p) = Some c;
  rd_stored : calm fs0 → local_room fs0 p →
    ok ∧ file_at fs' (loc fs0 p) = Some c ∧ file_at fs' (loc fs0 (local_tmp p)) = None }.

Lemma given_up_done fs' c ok : loc fs0 (local_tmp p) ≠ loc fs0 p → given_up fs0 fs' p → rebuilding_done c ok fs'.
Proof.
  intros Hne [Hk Hno]. split; [by intros l _ Hl; apply Hk|left; by apply Hk|]. intros Hca Hroom. by destruct (Hno Hca).
Qed.

Lemma finalize_builds fs c : loc fs0 (local_tmp p) ≠ loc fs0 p → building fs0 fs p c →
  wp (client_finalize_file (file_ops self) rel) (answers fs (λ r fs', rebuilding_done c (r = Ok tt) fs')) fs.
Proof.
  intros Hne Hb. destruct (building_lookup _ _ _ _ Hb) as [t Hl]. pose proof Hb as [Hc Hd Ht Ho Hca Hr].
  assert (∀ q, loc fs q = loc fs0 q) as Hloc by (intros; by apply loc_cwd).
  assert (∀ fs' x, nodes fs' = nodes fs → (calm fs → in_reach fs p → False) → rebuilding_done c (x = Ok tt) fs') as Hup.
  { intros fs' x Hn Hno. apply given_up_done; [done|]. apply (building_given_up fs0 fs fs' p c Hb); [|done].
    intros l _. unfold file_at. by rewrite Hn. }
  unfold client_finalize_file. fold p. fold (local_tmp p).
  eapply CM_answers_bind; [apply plain_answers, (metadata_spec _ _ _ _ Hl)| |done].
  intros [m|] fs1 [Hn1 Hm] Hc1 Hca1.
  2: { exists (Ok tt). do 3 (split; [done|]). apply Hup; [done|]. intros Hx _. by specialize (Hm Hx). }
  assert (lookup_node fs1 (local_tmp p) = Some (File c t)) as Hl1.
  { unfold lookup_node in *. by rewrite (loc_cwd fs), Hn1. }
  eapply wp_mono; [apply ok_or_err_answers, (rename_file_spec _ _ _ _ _ Hl1)|]. rewrite !(loc_cwd fs fs1), !Hloc by done.
  intros r fs2 (x & -> & Hc2 & Hca2 & Hx). exists x. do 3 (split; [done|]). destruct x as [[]|e].
  - destruct Hx as (_ & Hnp & Hn2). apply file_at_some in Ht as (Hnt & _).
    assert (∀ l, file_at fs2 l = if decide (loc fs0 p = l) then Some c else
      if decide (loc fs0 (local_tmp p) = l) then None else file_at fs l) as Hf.
    { intros l. unfold file_at. rewrite Hn2, node_at_insert, node_at_delete, Hn1 by done. by repeat case_decide. }
    split.
    + intros l Hl2 Hlt. rewrite Hf, !decide_False by done. by apply Ho.
    + right. by rewrite Hf, decide_True.
    + intros _ _. split; [done|]. by rewrite !Hf, decide_True, decide_False, decide_True by done.
  - destruct Hx as (_ & Hn2 & Hx). apply Hup; [congruence|]. intros Hcf ((Hd' & _ & _ & Hnd & _) & Hp & _).
    destruct (Hx (Hca1 Hcf)) as [Hy|[Hy|Hy]]; rewrite ?(loc_cwd fs fs1), ?Hn1 in Hy by done; [done|congruence..].
Qed.

End Rebuild.

(** * The theorem *)

Lemma CM_bind_assoc {S A B C} (m : CM S A) (f : A → CM S B) (g : B → CM S C) s :
  (x ← m; y ← f x; g y) s = ((x ← m; f x) ≫= g) s.
Proof. rewrite !CM_bind_unfold. by destruct (m s) as [[[]| |] s']. Qed.

(** Rebuilding a file is all or nothing.  Whatever fails, [apply_blocks] comes
    back; the file is what it was or exactly the blocks over zeros, a digest that
    is returned is the digest of that content, and only the temporary file changes
    besides.  When nothing fails or stands in the way, the content is stored. *)
Lemma apply_blocks_all_or_nothing `{Host, Disk, Sha2, !Sha2Laws} (self : DeltaSyncEngine) rel total blocks fs :
  let p := client_resolve_path (file_ops self) rel in let content := rebuilt total blocks in
  loc fs (local_tmp p) ≠ loc fs p → Forall (λ b, 0 <= b.1 < 2 ^ 63) blocks → zlen content < 2 ^ 61 →
  ∃ r fs', apply_blocks self rel total blocks fs = (Ret r, fs') ∧ local_kept fs fs' p ∧
    (file_at fs' (loc fs p) = file_at fs (loc fs p) ∨ file_at fs' (loc fs p) = Some content) ∧
    (∀ h, r = Ok h → h = to_hex (Fips.sha256 content)) ∧
    (calm fs → local_room fs p → r = Ok (to_hex (Fips.sha256 content)) ∧
       file_at fs' (loc fs p) = Some content ∧ file_at fs' (loc fs (local_tmp p)) = None).
Proof.
  intros p content Hne Hoff Hlen. set (hash := to_hex (Fips.sha256 content)).
  assert (wp (apply_blocks self rel total blocks) (answers fs (λ r fs',
    rebuilding_done self rel fs content (r = Ok hash) fs' ∧ ∀ h, r = Ok h → h = hash)) fs) as Hw.
  { pose proof (preallocated self rel fs total) as Hpre. fold p in Hpre.
    assert (apply_blocks self rel total blocks fs = ((_ ← ensure_dirs p;
        _ ← ok_or_err (open_truncate (local_tmp p)) (FileIo "Cannot create tmp");
        ok_or_err (set_len (local_tmp p) (Z.to_nat total)) (FileIo "Cannot pre-allocate")) ≫= λ _,
      _ ← write_blocks self rel blocks; final_hash ← sha256_file (local_tmp p);
      _ ← client_finalize_file (file_ops self) rel; mret final_hash) fs) as E.
    { rewrite <- CM_bind_assoc. unfold apply_blocks. fold p. fold (local_tmp p). rewrite !CM_bind_unfold.
      destruct (ensure_dirs p fs) as [[[]| |] fs1]; [|done..]. apply CM_bind_assoc. }
    unfold wp. rewrite E. clear E. eapply CM_answers_bind; [exact Hpre| |by intros e fs1 Hup _ _; split; [apply given_up_done|]].
    intros u fs1 Hb _ _.
    eapply CM_answers_bind; [by apply (write_blocks_builds self rel fs)| |by intros e fs2 Hup _ _; split; [apply given_up_done|]].
    intros u2 fs2 Hb2 _ _. fold (rebuilt total blocks) in Hb2. fold content in Hb2.
    destruct (building_lookup _ _ _ _ Hb2) as [t Hl].
    eapply CM_answers_bind; [by apply (sha256_file_spec _ _ content t)| |].
    2: { intros e fs3 [Hn Hno] _ _. split; [|done]. apply given_up_done; [done|].
         eapply building_given_up; [exact Hb2|intros l _; unfold file_at; by rewrite Hn|by intros ? _]. }
    intros h fs3 [Hn3 ->] Hc3 Hca3. pose proof (building_same _ _ _ _ _ Hb2 Hc3 Hca3 Hn3) as Hb3.
    eapply CM_answers_bind; [by apply (finalize_builds self rel fs)| |].
    - intros u4 fs4 [Hk Hwh Hst] _ _. exists (Ok hash). do 3 (split; [done|]). split; [|by intros h [= ->]].
      split; [done|done|]. intros H1' H2'. split; [done|]. by apply Hst.
    - intros e fs4 [Hk Hwh Hst] _ _. split; [|done]. split; [done|done|]. intros H1' H2'. by destruct (Hst H1' H2'). }
  unfold wp in Hw. destruct (apply_blocks self rel total blocks fs) as [o fs'].
  destruct Hw as (r & -> & _ & _ & [Hk Hwh Hst] & Hh). exists r, fs'. auto.
Qed.

(** * Reading blocks and rebuilding from them *)

Lemma rebuilt_all bs data indices : 0 < bs → Forall (λ i, 0 <= i < blocks_of (zlen data) bs) indices →
  (∀ i, 0 <= i < blocks_of (zlen data) bs → i ∈ indices) →
  rebuilt (zlen data) ((λ i, (i * bs, block_of bs data i)) <$> indices) = data.
Proof.
  intros Hbs Hin Hall.
  assert (∀ received c, blocks_in_place bs data c received →
    blocks_in_place bs data (fold_left (λ c '(offset, data), overlay c (Z.to_nat offset) data)
      ((λ i, (i * bs, block_of bs data i)) <$> indices) c) (indices ++ received)) as Hplace.
  { clear Hall. induction Hin as [|i indices Hi _ IH]; intros received c Hc; [done|]. cbn [fmap list_fmap fold_left].
    eapply blocks_in_place_sub; [|apply (IH (i :: received)); by apply place_block].
    intros j. cbn [app]. rewrite !elem_of_cons, !elem_of_app, elem_of_cons. tauto. }
  apply (blocks_complete bs data _ (indices ++ [])); [done| |apply Hplace].
  - intros i Hi. rewrite app_nil_r. by apply Hall.
  - unfold zlen. rewrite Nat2Z.id. split; [by rewrite length_replicate|]. by intros k _ ?%elem_of_nil.
Qed.

Definition block_pairs (blocks : list DeltaSyncBlockData) : list (Z * bytes) :=
  (λ b, (bd_block_offset b, bd_data b)) <$> blocks.


