(* ===== verification/TcpClient.v ===== *)
(** The client's connection: src/client/src/tcp_client.rs.

    The state is the client object, the local disk and a script of what the
    successive attempts to connect give. *)
From S2P Require Import Prelude Sha256 Paths FileSystem FileManager FileMutex WireProtocol Proto.
From S2P Require Import DeltaSync Negotiator ClientBase ClientWire ClientFiles ClientDelta.

Record TcpClient := mkTcpClient {
  stream : option socket;
  server_addr : string;
  client_id : string;
  tc_block_size : Z;
  tc_protocol_version : Z;
  tc_file_ops : FileOps;
  delta_engine : DeltaSyncEngine;
  connected : bool
}.

Record ClientNegotiation := mkClientNegotiation {
  cn_file_mode : Z;
  cn_transfer_mode : Z;
  cn_server_file_size : Z;
  cn_server_sha256 : string;
  cn_block_size : Z
}.

Record client_state := mkClient {
  tc : TcpClient;
  disk : filesystem;
  attempts : list (option socket)      (* what connecting gives: a stream, or an error *)
}.

Definition set_stream (k : option socket) (s : client_state) : client_state :=
  let c := tc s in
  mkClient (mkTcpClient k (server_addr c) (client_id c) (tc_block_size c) (tc_protocol_version c)
              (tc_file_ops c) (delta_engine c) (connected c)) (disk s) (attempts s).
Definition set_tc (c : TcpClient) (s : client_state) : client_state := mkClient c (disk s) (attempts s).
Definition set_disk (fs : filesystem) (s : client_state) : client_state := mkClient (tc s) fs (attempts s).

Definition on_disk {A} (m : CM filesystem A) : CM client_state A := zoom disk set_disk m.

(** [self.stream.as_mut().ok_or(...)?], and a call on that stream. *)
Definition on_stream {A} (m : CM socket A) : CM client_state A := λ s,
  match stream (tc s) with
  | None => (Ret (Err (Connection "Not connected")), s)
  | Some k => let '(o, k') := m k in (o, set_stream (Some k') s)
  end.

(** [TcpStream::connect]. *)
Definition dial : CM client_state socket := λ s,
  match attempts s with
  | Some k :: rest => (Ret (Ok k), mkClient (tc s) (disk s) rest)
  | None :: rest => (Ret (Err (Connection ("Failed to connect to " +:+ server_addr (tc s)))),
                     mkClient (tc s) (disk s) rest)
  | [] => (Ret (Err (Connection ("Failed to connect to " +:+ server_addr (tc s)))), s)
  end.

Definition TcpClient_new (addr root : string) (block_size pid : Z) : TcpClient :=
  let ops := mkFileOps root block_size in
  mkTcpClient None addr ("rust-client-" +:+ pretty pid) block_size 1 ops (mkEngine ops) false.

Section Client.
Context `{Host, Tokio, Disk, Sha2, Prost}.

Definition decoded {S} (k : kind) (payload : bytes) (what : string) : CM S (msg k) := λ s,
  match prost_decode k payload with
  | Some m => (Ret (Ok m), s)
  | None => (Ret (Err (Protocol ("Failed to parse " +:+ what))), s)
  end.

Definition client_send (type : Z) (k : kind) (m : msg k) : CM socket unit :=
  client_write_frame type (prost_encode k m).

(** Frames of other types are skipped, a hundred at most. *)
Fixpoint read_expected_loop (n : nat) (expected_type : Z) : CM socket WireFrame :=
  match n with
  | O => fail (Protocol ("Too many unexpected frames while waiting for type " +:+ pretty expected_type))
  | S n' =>
      frame ← client_read_frame;
      if byte.unsigned (message_type frame) =? expected_type then mret frame
      else read_expected_loop n' expected_type
  end.
Definition read_expected : Z → CM socket WireFrame := read_expected_loop 100.

(** The part of [connect] that runs on the new stream. *)
Definition handshake (c : TcpClient) : CM socket ServerHello :=
  _ ← client_send MSG_CLIENT_HELLO KClientHello
        (mkClientHello (tc_protocol_version c) (client_id c) [ZERO_COPY; DELTA_SYNC] (tc_block_size c));
  frame ← client_read_frame;
  if negb (byte.unsigned (message_type frame) =? MSG_SERVER_HELLO) then
    fail (Protocol ("Expected ServerHello, got type " +:+ pretty (byte.unsigned (message_type frame))))
  else decoded KServerHello (payload frame) "ServerHello".

(** The new stream becomes the client's only when the handshake is done. *)
Definition adopt (c : TcpClient) (k : socket) : CM client_state unit := λ s,
  match handshake c k with
  | (Ret (Ok hello), k') =>
      let bs := if (4096 <=? sh_block_size hello) && (sh_block_size hello <=? 1048576)
                then sh_block_size hello else tc_block_size c in
      (Ret (Ok tt),
       set_tc (mkTcpClient (Some k') (server_addr c) (client_id c) bs (tc_protocol_version c)
                 (tc_file_ops c) (delta_engine c) true) s)
  | (Ret (Err e), _) => (Ret (Err e), s)
  | (Throw e, _) => (Throw e, s)
  | (Trap t, _) => (Trap t, s)
  end.

Definition connect : CM client_state unit :=
  k ← dial;
  c ← plain (gets_st tc);
  adopt c k.

Definition disconnect (s : client_state) : client_state :=
  let c := tc s in
  set_tc (mkTcpClient None (server_addr c) (client_id c) (tc_block_size c) (tc_protocol_version c)
            (tc_file_ops c) (delta_engine c) false) s.

Definition client_negotiate (relative_path : string) : CM client_state ClientNegotiation :=
  _ ← on_stream (mret tt);
  c ← plain (gets_st tc);
  file_size ← on_disk (unwrap_or (client_file_size (tc_file_ops c) relative_path) 0);
  last_modified ← on_disk (unwrap_or (client_last_modified_ns (tc_file_ops c) relative_path) 0);
  sha256 ← on_disk (unwrap_or (client_sha256 (tc_file_ops c) relative_path) "");
  _ ← on_stream (client_send MSG_NEGOTIATION_REQUEST KNegotiationRequest
                   (mkNegotiationRequest relative_path file_size last_modified sha256));
  frame ← on_stream (read_expected MSG_NEGOTIATION_RESPONSE);
  resp ← decoded KNegotiationResponse (payload frame) "NegotiationResponse";
  mret (mkClientNegotiation (nr_file_mode resp) (nr_transfer_mode resp) (nr_server_file_size resp)
          (nr_server_sha256_hash resp) (nr_block_size resp)).

Definition download_file (relative_path : string) : CM client_state string :=
  _ ← on_stream (client_send MSG_ZERO_COPY_DOWNLOAD_REQUEST KZeroCopyDownloadRequest
                   (mkZeroCopyDownloadRequest relative_path 0));
  header_frame ← on_stream (read_expected MSG_ZERO_COPY_DOWNLOAD_HEADER);
  header ← decoded KZeroCopyDownloadHeader (payload header_frame) "header";
  raw_frame ← on_stream client_read_frame;
  if negb (byte.unsigned (message_type raw_frame) =? 0xfe) then fail (Protocol "Expected raw data frame")
  else
    c ← plain (gets_st tc);
    _ ← on_disk (client_write_file (tc_file_ops c) relative_path (payload raw_frame));
    local_hash ← on_disk (client_sha256 (tc_file_ops c) relative_path);
    if negb (bool_decide (dl_sha256_hash header = "")) && negb (bool_decide (local_hash = dl_sha256_hash header))
    then fail (HashMismatch (dl_sha256_hash header) local_hash)
    else mret local_hash.

Definition upload_file (relative_path : string) : CM client_state string :=
  _ ← on_stream (mret tt);
  c ← plain (gets_st tc);
  file_info ← on_disk (client_get_file_info (tc_file_ops c) relative_path);
  let metadata := mkFileMetadata (li_relative_path file_info) (li_file_size file_info)
                    (li_last_modified_ns file_info) (li_sha256_hash file_info) FRESH in
  _ ← on_stream (client_send MSG_ZERO_COPY_UPLOAD_REQUEST KZeroCopyUploadRequest
                   (mkZeroCopyUploadRequest metadata));
  ack_frame ← on_stream client_read_frame;
  ack ← decoded KZeroCopyUploadAck (payload ack_frame) "upload ack";
  if negb (ua_status ack =? OK) then fail (ServerError (ua_status ack) (ua_error_message ack))
  else
    file_data ← on_disk (or_err (read_file (client_resolve_path (tc_file_ops c) relative_path))
                           (FileIo "Cannot read file"));
    _ ← on_stream (client_write_raw_data file_data);
    mret (li_sha256_hash file_info).

Fixpoint send_blocks (blocks : list DeltaSyncBlockData) : CM socket unit :=
  match blocks with
  | [] => mret tt
  | block :: blocks' => _ ← client_send MSG_DELTA_SYNC_BLOCK_DATA KDeltaSyncBlockData block; send_blocks blocks'
  end.

Definition delta_sync_upload (relative_path : string) : CM client_state string :=
  _ ← on_stream (mret tt);
  c ← plain (gets_st tc);
  signatures ← on_disk (compute_signatures (delta_engine c) relative_path);
  file_size ← on_disk (client_file_size (tc_file_ops c) relative_path);
  let sig_request := build_signature_request relative_path file_size (tc_block_size c) signatures in
  _ ← on_stream (client_send MSG_DELTA_SYNC_SIGNATURE_REQUEST KDeltaSyncSignatureRequest sig_request);
  block_req_frame ← on_stream client_read_frame;
  block_req ← decoded KDeltaSyncBlockRequest (payload block_req_frame) "block request";
  blocks ← on_disk (read_requested_blocks (delta_engine c) relative_path (br_requested_block_indices block_req));
  _ ← on_stream (send_blocks blocks);
  complete_frame ← on_stream client_read_frame;
  complete ← decoded KDeltaSyncComplete (payload complete_frame) "completion";
  if negb (dc_status complete =? OK) then fail (ServerError (dc_status complete) (dc_error_message complete))
  else mret (dc_final_sha256_hash complete).

Definition list_server_files (prefix : string) (recursive : bool) : CM client_state (list FileMetadata) :=
  _ ← on_stream (client_send MSG_LIST_FILES_REQUEST KListFilesRequest (mkListFilesRequest prefix recursive));
  frame ← on_stream (read_expected MSG_LIST_FILES_RESPONSE);
  resp ← decoded KListFilesResponse (payload frame) "list response";
  mret (lr_files resp).

Definition sync_file (relative_path : string) : CM client_state string :=
  negotiation ← client_negotiate relative_path;
  if cn_file_mode negotiation =? UNCHANGED then mret (cn_server_sha256 negotiation)
  else if cn_file_mode negotiation =? FRESH then download_file relative_path
  else if cn_file_mode negotiation =? MODIFIED then
    if cn_transfer_mode negotiation =? DELTA_SYNC then delta_sync_upload relative_path
    else upload_file relative_path
  else fail (Protocol "Unknown file mode").

End Client.
