(* ===== verification/Service.v ===== *)
(** What one request does to a running session: the event loop of
    src/server/src/session.cpp request by request, with the reply that goes out.

    [serves env s req Q]: a session in state [s] that reads the bytes [req], cut
    into segments at will and whatever follows them, is afterwards in a state
    that has sent a reply related to it by [Q], with its loop still to run. *)
From S2P Require Import Prelude Sha256 Paths FileSystem FileManager FileMutex WireProtocol Proto.
From S2P Require Import DeltaSync Directories Negotiator ZeroCopySender Ends Session.

Section Service.
Context `{Host, Codec} (env : session_env).

(** * The loop, one frame at a time *)

(** Fuel above the input's weight makes no difference. *)
Lemma run_loop_fuel f1 : ∀ f2 s, (rx_weight (sn_socket s) < f1)%nat → (rx_weight (sn_socket s) < f2)%nat →
  run_loop env f1 s = run_loop env f2 s.
Proof.
  induction f1 as [|f1 IH]; intros [|f2] s H1 H2; try lia. cbn [run_loop].
  rewrite !SM_bind_unfold. cbn [get_st]. destruct (_ || _); [done|].
  rewrite !SM_bind_unfold. pose proof (read_frame_session s) as Hf.
  destruct (on_socket read_frame s) as [[[f|]|e|t] s1]; [|done..].
  rewrite !SM_bind_unfold. destruct (dispatch_ends env f s1) as [Hle _]. unfold rx_le in Hle.
  destruct (dispatch env f s1) as [[u|e|t] s2]; [|done..]. simpl in Hle. apply IH; lia.
Qed.

(** A session that still listens, with a peer that still reads. *)
Definition listening (s : session) : Prop :=
  shutdown_requested_ s = false ∧ state_ s ≠ DISCONNECTED ∧ Forall willing (tx_events (sn_socket s)).

Lemma run_step s f s1 s2 : shutdown_requested_ s = false → state_ s ≠ DISCONNECTED →
  on_socket read_frame s = (Ret (Some f), s1) → dispatch env f s1 = (Ret tt, s2) →
  run env s = run env s2.
Proof.
  intros Hsh Hst Hr Hd. unfold run at 1. cbn [run_loop]. rewrite SM_bind_unfold. cbn [get_st].
  rewrite Hsh, bool_decide_eq_false_2 by done. cbn [orb]. rewrite (SM_bind_ret _ _ _ _ _ Hr).
  rewrite (SM_bind_ret _ _ _ _ _ Hd). unfold run.
  pose proof (read_frame_session s) as Hf. rewrite Hr in Hf.
  destruct (dispatch_ends env f s1) as [Hle _]. rewrite Hd in Hle. unfold rx_le in Hle. simpl in Hle.
  apply run_loop_fuel; lia.
Qed.

(** The end of the stream, for a reader of frames. *)
Lemma read_frame_end k : delivers k [] →
  ∃ k', read_frame k = (Ret None, k') ∧ delivers k' [] ∧ same_tx k k'.
Proof.
  intros [Hb Hs]. destruct (read_exact_spec (Z.of_nat FRAME_HEADER_SIZE) k) as (k' & Hr & Hs' & Hb' & Ht); [done|done|].
  exists k'. split; [|split; [split; [done|by rewrite Hs', Hs, drop_nil]|done]].
  unfold read_frame. by rewrite (SM_bind_ret _ _ _ _ _ Hr), Hs, take_nil.
Qed.

(** The peer closes: the loop ends. *)
Lemma run_end s : listening s → delivers (sn_socket s) [] →
  ∃ sk, run env s = (Ret tt, set_state DISCONNECTED (set_socket sk s)) ∧ same_tx (sn_socket s) sk.
Proof.
  intros (Hsh & Hst & _) Hd. unfold run. cbn [run_loop]. rewrite SM_bind_unfold. cbn [get_st].
  rewrite Hsh, bool_decide_eq_false_2 by done. cbn [orb].
  destruct (read_frame_end _ Hd) as (sk & Hf & _ & Ht). exists sk. split; [|done]. rewrite SM_bind_unfold. unfold on_socket, zoom. by rewrite Hf.
Qed.

(** * Serving *)

Definition serves (s : session) (req : bytes) (Q : bytes → session → Prop) : Prop :=
  ∀ sk rest, Forall willing (tx_events sk) → delivers sk (req ++ rest) →
  ∃ s' reply, run env (set_socket sk s) = run env s' ∧ listening s' ∧
    delivers (sn_socket s') rest ∧ tx (sn_socket s') = tx sk ++ reply ∧ Q reply s'.

Lemma set_socket_self s : set_socket (sn_socket s) s = s.
Proof. by destruct s. Qed.

Lemma serves_mono s req (Q Q' : bytes → session → Prop) :
  serves s req Q → (∀ reply s', Q reply s' → Q' reply s') → serves s req Q'.
Proof.
  intros Hs HQ sk rest Hw Hd. destruct (Hs sk rest Hw Hd) as (s' & reply & ? & ? & ? & ? & ?).
  exists s', reply. auto 6.
Qed.

(** Requests one after the other. *)
Lemma serves_seq s req1 req2 Q1 (Q : bytes → session → Prop) :
  serves s req1 Q1 →
  (∀ r1 s', Q1 r1 s' → listening s' → serves s' req2 (λ r2 s'', Q (r1 ++ r2) s'')) →
  serves s (req1 ++ req2) Q.
Proof.
  intros H1 H2 sk rest Hw Hd. rewrite <- app_assoc in Hd.
  destruct (H1 sk _ Hw Hd) as (s1 & r1 & Hr1 & Hl1 & Hd1 & Ht1 & HQ1).
  destruct (H2 r1 s1 HQ1 Hl1 (sn_socket s1) rest) as (s2 & r2 & Hr2 & Hl2 & Hd2 & Ht2 & HQ2);
    [apply Hl1|done|].
  exists s2, (r1 ++ r2). rewrite Hr1, <- Hr2, set_socket_self, Ht2, Ht1, app_assoc. auto.
Qed.

Lemma serves_nothing s (Q : bytes → session → Prop) :
  shutdown_requested_ s = false → state_ s ≠ DISCONNECTED → (∀ sk, Q [] (set_socket sk s)) → serves s [] Q.
Proof.
  intros Hsh Hst HQ sk rest Hw Hd. exists (set_socket sk s), []. rewrite app_nil_r.
  split; [done|]. split; [done|]. split; [done|]. split; [done|]. apply HQ.
Qed.

(** A request that is read as one frame, with the bytes the handler reads itself. *)
Lemma serves_frame s f more (Q : bytes → session → Prop) :
  shutdown_requested_ s = false → state_ s ≠ DISCONNECTED →
  zlen (payload f) < RAW_DATA_SENTINEL → zlen (payload f) <= alloc_limit →
  (∀ k rest, Forall willing (tx_events k) → delivers k (more ++ rest) →
     ∃ s2 reply, dispatch env f (set_socket k s) = (Ret tt, s2) ∧ state_ s2 ≠ DISCONNECTED ∧
       Forall willing (tx_events (sn_socket s2)) ∧ delivers (sn_socket s2) rest ∧
       tx (sn_socket s2) = tx k ++ reply ∧ Q reply s2) →
  serves s (encode_frame f ++ more) Q.
Proof.
  intros Hsh Hst Hlen Hal Hq sk rest Hw Hd. destruct f as [ty data]. simpl in Hlen, Hal.
  rewrite encode_frame_standard in Hd by (unfold RAW_DATA_SENTINEL in Hlen; simpl; lia). rewrite <- app_assoc in Hd.
  destruct (read_frame_standard _ _ _ _ Hd Hlen Hal) as (k & Hr & Hdk & Ht & Hev). simpl in Hr.
  destruct (Hq k rest) as (s2 & reply & Hdis & Hst2 & Hw2 & Hd2 & Ht2 & HQ); [by rewrite Hev|done|].
  exists s2, reply. split; [|split; [|by rewrite <- Ht]].
  - apply (run_step _ (mkWireFrame ty data) (set_socket k s)); [done..| |done].
    unfold on_socket, zoom. cbn [sn_socket set_socket]. by rewrite Hr.
  - split; [|done]. destruct (dispatch_keeps env (mkWireFrame ty data) (set_socket k s)) as [_ Hk].
    rewrite Hdis in Hk. simpl in Hk. by rewrite Hk.
Qed.

(** The peer has said all it wants: the loop ends after the last request. *)
Lemma serves_run s req Q sk : serves s req Q → Forall willing (tx_events sk) → delivers sk req →
  ∃ s' reply, run env (set_socket sk s) = (Ret tt, s') ∧ state_ s' = DISCONNECTED ∧
    tx (sn_socket s') = tx sk ++ reply ∧
    ∃ s1 k, Q reply s1 ∧ s' = set_state DISCONNECTED (set_socket k s1).
Proof.
  intros Hs Hw Hd. destruct (Hs sk [] Hw) as (s1 & reply & Hr & Hl & Hd1 & Ht & HQ); [by rewrite app_nil_r|].
  destruct (run_end s1 Hl Hd1) as (k & Hr1 & Htk & _). eexists _, reply. rewrite Hr. split; [exact Hr1|].
  split; [done|]. simpl. rewrite Htk. split; [done|]. by exists s1, k.
Qed.

(** The session up to its end, on exactly the bytes [req]. *)
Definition serves_to_end (s : session) (req : bytes) (Q : bytes → filesystem → Prop) : Prop :=
  ∀ sk, Forall willing (tx_events sk) → delivers sk req →
  ∃ s' reply, run env (set_socket sk s) = (Ret tt, s') ∧ state_ s' = DISCONNECTED ∧
    tx (sn_socket s') = tx sk ++ reply ∧ Q reply (sn_fs s').

Lemma serves_end s req (Q : bytes → filesystem → Prop) :
  serves s req (λ reply s', Q reply (sn_fs s')) → serves_to_end s req Q.
Proof.
  intros Hs sk Hw Hd. destruct (serves_run s req _ sk Hs Hw Hd) as (s' & reply & Hr & Hst & Ht & s1 & k & HQ & ->).
  by eexists _, reply.
Qed.

Lemma serves_then_end s req1 req2 Q1 (Q : bytes → filesystem → Prop) :
  serves s req1 Q1 →
  (∀ r1 s', Q1 r1 s' → listening s' → serves_to_end s' req2 (λ r2 fs, Q (r1 ++ r2) fs)) →
  serves_to_end s (req1 ++ req2) Q.
Proof.
  intros H1 H2 sk Hw Hd. destruct (H1 sk _ Hw Hd) as (s1 & r1 & Hr1 & Hl1 & Hd1 & Ht1 & HQ1).
  destruct (H2 r1 s1 HQ1 Hl1 (sn_socket s1)) as (s2 & r2 & Hr2 & Hst & Ht2 & HQ2); [apply Hl1|done|].
  exists s2, (r1 ++ r2). rewrite Hr1, app_assoc, <- Ht1, <- Ht2, <- (set_socket_self s1). by rewrite Hr2.
Qed.

(** * The requests *)

(** The message a frame of each request type is handed to. *)
Definition request (type : Z) (payload : bytes) : WireFrame := mkWireFrame (byte.of_Z type) payload.

Lemma serves_request s type payload more (Q : bytes → session → Prop) :
  shutdown_requested_ s = false → state_ s ≠ DISCONNECTED → holds payload →
  (∀ k rest, Forall willing (tx_events k) → delivers k (more ++ rest) →
     ∃ s2 reply, dispatch env (request type payload) (set_socket k s) = (Ret tt, s2) ∧ state_ s2 ≠ DISCONNECTED ∧
       Forall willing (tx_events (sn_socket s2)) ∧ delivers (sn_socket s2) rest ∧
       tx (sn_socket s2) = tx k ++ reply ∧ Q reply s2) →
  serves s (encode_frame (request type payload) ++ more) Q.
Proof.
  unfold holds, INT_MAX. intros. apply serves_frame; [done..|unfold RAW_DATA_SENTINEL; simpl; lia|simpl; lia|done].
Qed.

(** The same session, but for its connection and the state word. *)
Definition same_session (s s' : session) : Prop :=
  sn_delta s' = sn_delta s ∧ negotiated_block_size_ s' = negotiated_block_size_ s ∧ state_ s' = READY.

(** A handler's last two steps: answer and be ready. *)
Lemma answer_ready type k m s rest : Forall willing (tx_events (sn_socket s)) →
  holds (serialized k m) → delivers (sn_socket s) rest →
  ∃ s2, (_ ← send_message type k m; enter READY) s = (Ret tt, s2) ∧ state_ s2 ≠ DISCONNECTED ∧
    Forall willing (tx_events (sn_socket s2)) ∧ delivers (sn_socket s2) rest ∧
    tx (sn_socket s2) = tx (sn_socket s) ++ encode_frame (framed type k m) ∧ same_session s s2.
Proof.
  unfold holds, INT_MAX. intros Hw Hl Hd.
  destruct (send_message_willing type k m s Hw) as (evs & Hev & Hr); [lia|].
  rewrite (SM_bind_ret _ _ _ _ _ Hr). eexists. split; [reflexivity|]. done.
Qed.

Lemma on_files_pure {A} (m : SM filesystem A) s a : m (sn_fs s) = (Ret a, sn_fs s) → on_files m s = (Ret a, s).
Proof.
  intros Hm. unfold on_files, on_delta, on_fs, zoom, sn_fs in *. rewrite Hm. by destruct s as [? []].
Qed.

Definition negotiation_answer (bs : Z) (node : option node) (csha : string) : NegotiationResponse :=
  match node with
  | Some (File c _) =>
      let digest := to_hex (sha256_raw c) in
      if decide (csha = digest) then mkNegotiationResponse UNCHANGED TRANSFER_MODE_UNSPECIFIED (zlen c) digest bs
      else mkNegotiationResponse MODIFIED DELTA_SYNC (zlen c) digest bs
  | _ => mkNegotiationResponse FRESH ZERO_COPY 0 "" bs
  end.

Lemma negotiation_served s payload req p :
  parse_payload KNegotiationRequest payload = Some req → holds payload →
  shutdown_requested_ s = false → state_ s ≠ DISCONNECTED →
  resolve_path (se_file_manager env) (nq_relative_path req) = Ret p → lookup_node (sn_fs s) p ≠ Some Dir →
  (∀ c t, lookup_node (sn_fs s) p = Some (File c t) → zlen c < 2 ^ 63) →
  let answer := negotiation_answer (se_block_size env) (lookup_node (sn_fs s) p) (nq_client_sha256_hash req) in
  holds (serialized KNegotiationResponse answer) →
  serves s (encode_frame (request MSG_NEGOTIATION_REQUEST payload)) (λ reply s',
    reply = encode_frame (framed MSG_NEGOTIATION_RESPONSE KNegotiationResponse answer) ∧ same_session s s').
Proof.
  intros Hp Hh Hsh Hst Hr Hnd Hsize answer Ha. rewrite <- (app_nil_r (encode_frame _)).
  apply serves_request; [done..|]. intros k rest Hw Hd.
  change (dispatch env (request MSG_NEGOTIATION_REQUEST payload)) with (handle_negotiation_request env payload).
  unfold handle_negotiation_request. rewrite Hp, SM_bind_unfold. cbn [enter modify_st].
  set (s1 := set_state NEGOTIATING _).
  pose proof (negotiate_run (negotiator env) (nq_relative_path req) p (sn_fs s) (u64 (nq_client_file_size req))
    (u64 (nq_client_last_modified_ns req)) (nq_client_sha256_hash req) Hr Hnd Hsize) as Hn.
  rewrite (SM_bind_ret _ _ _ _ _ (on_files_pure _ s1 _ Hn)). unfold negotiator. cbn [ng_block_size].
  destruct (answer_ready MSG_NEGOTIATION_RESPONSE KNegotiationResponse answer s1 rest) as (s2 & Hr2 & ? & ? & ? & ? & ?);
    [done..|].
  exists s2, (encode_frame (framed MSG_NEGOTIATION_RESPONSE KNegotiationResponse answer)).
  split; [|done]. rewrite <- Hr2. unfold answer, negotiation_answer.
  destruct (lookup_node (sn_fs s) p) as [[c t|]|]; [|done..]. cbv zeta. by case_decide.
Qed.

(** A request answered with an error message; the session goes on. *)
Lemma error_ready code message s rest : Forall willing (tx_events (sn_socket s)) →
  holds (serialized KErrorPayload (mkErrorPayload code message "")) → delivers (sn_socket s) rest →
  ∃ s2, (_ ← send_error code message; enter READY) s = (Ret tt, s2) ∧ state_ s2 ≠ DISCONNECTED ∧
    Forall willing (tx_events (sn_socket s2)) ∧ delivers (sn_socket s2) rest ∧
    tx (sn_socket s2) = tx (sn_socket s) ++
      encode_frame (framed MSG_ERROR KErrorPayload (mkErrorPayload code message "")) ∧ same_session s s2.
Proof. apply answer_ready. Qed.

Lemma download_served s payload req p c t :
  parse_payload KZeroCopyDownloadRequest payload = Some req → holds payload →
  shutdown_requested_ s = false → state_ s ≠ DISCONNECTED → calm (sn_fs s) →
  resolve_path (se_file_manager env) (dq_relative_path req) = Ret p →
  lookup_node (sn_fs s) p = Some (File c t) → 0 <= dq_offset req < zlen c → zlen c < 2 ^ 63 →
  holds (WireProtocol.payload (download_header (dq_relative_path req) c (dq_offset req))) →
  serves s (encode_frame (request MSG_ZERO_COPY_DOWNLOAD_REQUEST payload)) (λ reply s',
    reply = download_stream (dq_relative_path req) c (dq_offset req) ∧
    nodes (sn_fs s') = nodes (sn_fs s) ∧ state_ s' = READY).
Proof.
  intros Hp Hh Hsh Hst Hcalm Hr Hl Hoff Hc Ha. rewrite <- (app_nil_r (encode_frame _)).
  apply serves_request; [done..|]. intros k rest Hw Hd.
  change (dispatch env (request MSG_ZERO_COPY_DOWNLOAD_REQUEST payload))
    with (handle_zero_copy_download_request env payload).
  unfold handle_zero_copy_download_request. rewrite Hp, SM_bind_unfold. cbn [enter modify_st].
  set (s1 := set_state TRANSFERRING _). set (io := mkIo (sn_fs s) k). rewrite u64_small by lia.
  assert (zlen (WireProtocol.payload (download_header (dq_relative_path req) c (dq_offset req))) < 2 ^ 32 - 5) as Hpl
    by (unfold holds, INT_MAX in Ha; lia).
  pose proof (transmit_sends (se_linux env) (se_file_manager env) (dq_relative_path req) p c t (dq_offset req) io
    Hl Hoff Hc Hpl) as Ht.
  pose proof (send_file_checks (se_linux env) _ _ p (dq_offset req) c t io Hr Hl Hc) as Hs.
  rewrite (proj2 (Z.eqb_neq _ _)), (proj2 (Z.leb_gt _ _)) in Hs by lia. cbn [orb] in Hs. rewrite <- Hs in Ht.
  unfold on_io. rewrite SM_bind_unfold. unfold zoom.
  change (mkIo (sn_fs s1) (sn_socket s1)) with io.
  destruct (send_file _ _ _ _ io) as [r io']. destruct Ht as [(n & _ & Htx & Hrx & Hn & Hgood) Hnodes].
  destruct (Hgood Hcalm Hw) as [-> Hw']. subst n. rewrite firstn_all in Htx.
  cbn [negb]. rewrite SM_bind_unfold. cbn [mret SM_ret].
  eexists _, _. split; [reflexivity|]. split; [done|]. split; [done|].
  split; [by eapply delivers_rx|]. split; [exact Htx|]. done.
Qed.

(** A download of a file the server does not have. *)
Lemma download_refused s payload req p :
  parse_payload KZeroCopyDownloadRequest payload = Some req → holds payload →
  shutdown_requested_ s = false → state_ s ≠ DISCONNECTED →
  resolve_path (se_file_manager env) (dq_relative_path req) = Ret p → lookup_node (sn_fs s) p = None →
  let answer := mkErrorPayload 3 ("File not found or transfer failed: " +:+ dq_relative_path req) "" in
  holds (serialized KErrorPayload answer) →
  serves s (encode_frame (request MSG_ZERO_COPY_DOWNLOAD_REQUEST payload)) (λ reply s',
    reply = encode_frame (framed MSG_ERROR KErrorPayload answer) ∧ same_session s s').
Proof.
  intros Hp Hh Hsh Hst Hr Hl answer Ha. rewrite <- (app_nil_r (encode_frame _)).
  apply serves_request; [done..|]. intros k rest Hw Hd.
  change (dispatch env (request MSG_ZERO_COPY_DOWNLOAD_REQUEST payload))
    with (handle_zero_copy_download_request env payload).
  unfold handle_zero_copy_download_request. rewrite Hp, SM_bind_unfold. cbn [enter modify_st].
  set (s1 := set_state TRANSFERRING _). set (io := mkIo (sn_fs s) k).
  assert (send_file (se_linux env) (se_file_manager env) (dq_relative_path req) (u64 (dq_offset req)) io
    = (Ret false, io)) as Hs.
  { unfold send_file. rewrite Hr, SM_lift_bind.
    erewrite SM_bind_ret; [|by apply io_on_fs_pure, file_exists_run]. unfold fs_exists.
    change (io_fs io) with (sn_fs s). by rewrite Hl. }
  unfold on_io. rewrite SM_bind_unfold. unfold zoom. change (mkIo (sn_fs s1) (sn_socket s1)) with io. rewrite Hs.
  cbn [negb]. set (s2 := set_socket _ _).
  destruct (error_ready 3 ("File not found or transfer failed: " +:+ dq_relative_path req) s2 rest)
    as (s3 & -> & ? & ? & ? & ? & Hsame); [done..|].
  eexists _, _. split; [reflexivity|]. do 4 (split; [done|]). split; [done|].
  unfold same_session in *. unfold sn_fs in *. destruct s as [? []]. exact Hsame.
Qed.

(** An upload, sent as one raw-data frame (none for an empty file). *)
Lemma upload_served s payload req p chunks :
  parse_payload KZeroCopyUploadRequest payload = Some req → holds payload →
  shutdown_requested_ s = false → state_ s ≠ DISCONNECTED →
  resolve_path (se_file_manager env) (md_relative_path (uq_metadata req)) = Ret p →
  md_file_size (uq_metadata req) = zlen (concat chunks) →
  zlen (concat chunks) <= Z.min alloc_limit vector_max_size →
  Forall (λ d, d ≠ [] ∧ zlen d < 2 ^ 32) chunks → calm (sn_fs s) → room_for (sn_fs s) p →
  holds (WireProtocol.payload upload_ack) →
  serves s (encode_frame (request MSG_ZERO_COPY_UPLOAD_REQUEST payload) ++ concat (raw_frame <$> chunks))
    (λ reply s', (∃ progress, reply = encode_frame upload_ack ++ progress ∧
         (reports_fit (md_relative_path (uq_metadata req)) → progress = concat
            (encode_frame <$> upload_reports (start_upload (uq_metadata req)) chunks (sn_clock s)))) ∧ state_ s' = READY ∧
       file_at (sn_fs s') (target_loc (sn_fs s) p) = Some (concat chunks) ∧
       file_at (sn_fs s') (tmp_loc (sn_fs s) p) = None ∧ others_kept (sn_fs s) (sn_fs s') p ∧
       calm (sn_fs s') ∧ dirs_on_way p (sn_fs s) (sn_fs s')).
Proof.
  intros Hp Hh Hsh Hst Hr Hsize Hlim Hch Hcalm Hroom Ha. apply serves_request; [done..|]. intros k rest Hw Hd.
  unfold holds, INT_MAX in Ha.
  change (dispatch env (request MSG_ZERO_COPY_UPLOAD_REQUEST payload))
    with (handle_zero_copy_upload_request env payload).
  destruct (upload_run env payload req p chunks rest (set_socket k s))
    as (s2 & Hrun & Hst2 & Hf & Ht & Ho & Hd2 & Htx & Hcalm2 & Hcwd2); try done.
  { eapply Forall_impl; [exact Hw|]. by intros []. }
  destruct (Htx Hw ltac:(lia)) as [Hw2 (progress & Hprog & Hreports)].
  exists s2, (encode_frame upload_ack ++ progress). rewrite Hst2. do 5 (split; [done|]). split; [by eexists|done].
Qed.

(** An upload that is announced and never sent: nothing is stored. *)
Definition upload_lost : WireFrame :=
  framed MSG_ERROR KErrorPayload (mkErrorPayload 2 "Connection lost during upload" "").

Lemma upload_loop_cut fuel s : (rx_weight (sn_socket s) < fuel)%nat → delivers (sn_socket s) [] →
  Forall willing (tx_events (sn_socket s)) → up_received (upload_state_ s) < up_total_size (upload_state_ s) →
  holds (WireProtocol.payload upload_lost) →
  ∃ k, upload_loop fuel s = (Ret tt, set_socket k s) ∧ Forall willing (tx_events k) ∧ delivers k [] ∧
    tx k = tx (sn_socket s) ++ encode_frame upload_lost.
Proof.
  intros Hf Hd Hw Hlt Hh. destruct fuel as [|fuel]; [lia|]. cbn [upload_loop]. rewrite SM_bind_unfold. cbn [gets_st].
  rewrite (proj2 (Z.ltb_lt _ _) Hlt).
  destruct (read_frame_end _ Hd) as (k & Hr & Hdk & Ht & He).
  rewrite SM_bind_unfold. unfold on_socket at 1, zoom. rewrite Hr.
  destruct (send_message_willing MSG_ERROR KErrorPayload (mkErrorPayload 2 "Connection lost during upload" "")
    (set_socket k s)) as (evs & Hev & Hs); [simpl; by rewrite He|unfold holds, INT_MAX in Hh; simpl in Hh; lia|].
  eexists. split; [exact Hs|]. simpl. split; [done|]. split; [by eapply delivers_rx|by rewrite Ht].
Qed.

Lemma upload_cut_ends s payload req :
  parse_payload KZeroCopyUploadRequest payload = Some req → holds payload →
  shutdown_requested_ s = false → state_ s ≠ DISCONNECTED →
  0 < md_file_size (uq_metadata req) <= Z.min alloc_limit vector_max_size →
  holds (WireProtocol.payload upload_ack) → holds (WireProtocol.payload upload_lost) →
  serves_to_end s (encode_frame (request MSG_ZERO_COPY_UPLOAD_REQUEST payload)) (λ reply fs,
    reply = encode_frame upload_ack ++ encode_frame upload_lost ∧ fs = sn_fs s).
Proof.
  intros Hp Hh Hsh Hst Hsize Ha Hlost sk Hw Hd. pose proof Hh as Hh'. unfold holds, INT_MAX, vector_max_size in Hh', Hsize, Ha.
  rewrite <- (app_nil_r (encode_frame _)) in Hd.
  rewrite encode_frame_standard in Hd by (simpl; lia).
  destruct (read_frame_standard _ _ _ _ Hd) as (k & Hr & Hdk & Ht & Hev); [unfold RAW_DATA_SENTINEL; simpl; lia|simpl; lia|].
  assert (∃ s2, dispatch env (request MSG_ZERO_COPY_UPLOAD_REQUEST payload) (set_socket k s) = (Ret tt, s2) ∧
    state_ s2 = READY ∧ shutdown_requested_ s2 = false ∧ sn_fs s2 = sn_fs s ∧
    Forall willing (tx_events (sn_socket s2)) ∧ delivers (sn_socket s2) [] ∧
    tx (sn_socket s2) = tx k ++ encode_frame upload_ack ++ encode_frame upload_lost) as
    (s2 & Hdis & Hst2 & Hsh2 & Hfs2 & Hw2 & Hd2 & Ht2).
  { change (dispatch env (request MSG_ZERO_COPY_UPLOAD_REQUEST payload))
      with (handle_zero_copy_upload_request env payload).
    erewrite upload_halves by done. rewrite u64_small by lia. set (s0 := set_upload _ _).
    rewrite SM_bind_unfold. unfold receive_part.
    rewrite vector_alloc_ok, SM_lift_bind by (unfold vector_max_size; lia).
    rewrite SM_bind_unfold. cbn [enter modify_st]. rewrite SM_bind_unfold.
    destruct (send_message_willing MSG_ZERO_COPY_UPLOAD_ACK KZeroCopyUploadAck (mkZeroCopyUploadAck OK "" 0)
      (set_state TRANSFERRING s0)) as (evs & Hevs & ->); [simpl; by rewrite Hev|simpl in Ha; lia|].
    set (s1 := set_socket _ _). unfold read_upload.
    destruct (upload_loop_cut (S (rx_weight (sn_socket s1))) s1) as (k2 & -> & Hwk & Hdk2 & Htk); [lia| |done| |done|].
    { by eapply delivers_rx. }
    { simpl. rewrite u64_small; lia. }
    rewrite SM_bind_unfold. unfold save_upload. rewrite SM_bind_unfold. cbn [gets_st].
    assert ((up_received (upload_state_ (set_socket k2 s1)) =? up_total_size (upload_state_ (set_socket k2 s1))) = false)
      as -> by (apply Z.eqb_neq; simpl; rewrite u64_small; lia).
    eexists. split; [reflexivity|]. simpl. do 5 (split; [done|]). rewrite Htk. simpl. by rewrite <- app_assoc. }
  assert (run env (set_socket sk s) = run env s2) as Hrun.
  { apply (run_step _ (request MSG_ZERO_COPY_UPLOAD_REQUEST payload) (set_socket k s)); [done..| |done].
    unfold on_socket, zoom. cbn [sn_socket set_socket]. by rewrite Hr. }
  destruct (run_end s2) as (k3 & Hr3 & Htk3 & _); [split; [done|]; by rewrite Hst2|done|].
  eexists _, _. rewrite Hrun, Hr3. split; [done|]. split; [done|]. simpl. rewrite Htk3, Ht2, Ht. done.
Qed.

Lemma listing_served s payload req files :
  parse_payload KListFilesRequest payload = Some req → holds payload →
  shutdown_requested_ s = false → state_ s ≠ DISCONNECTED →
  list_files (se_file_manager env) (lq_directory_prefix req) (lq_recursive req) (sn_fs s) = (Ret files, sn_fs s) →
  let answer := mkListFilesResponse (to_metadata <$> files) in
  holds (serialized KListFilesResponse answer) →
  serves s (encode_frame (request MSG_LIST_FILES_REQUEST payload)) (λ reply s',
    reply = encode_frame (framed MSG_LIST_FILES_RESPONSE KListFilesResponse answer) ∧ sn_delta s' = sn_delta s).
Proof.
  intros Hp Hh Hsh Hst Hlist answer Ha. rewrite <- (app_nil_r (encode_frame _)).
  unfold holds, INT_MAX in Ha. apply serves_request; [done..|]. intros k rest Hw Hd.
  change (dispatch env (request MSG_LIST_FILES_REQUEST payload)) with (handle_list_files_request env payload).
  unfold handle_list_files_request. rewrite Hp.
  rewrite (SM_bind_ret _ _ _ _ _ (on_files_pure _ (set_socket k s) _ Hlist)).
  destruct (send_message_willing MSG_LIST_FILES_RESPONSE KListFilesResponse answer (set_socket k s) Hw)
    as (evs & Hev & Hsend); [lia|].
  eexists _, _. split; [exact Hsend|]. done.
Qed.

(** The block size a hello settles on. *)
Definition settled (preferred current : Z) : Z :=
  if (4096 <=? preferred) && (preferred <=? 1048576) then preferred else current.

Lemma hello_served s payload hello :
  parse_payload KClientHello payload = Some hello → holds payload →
  shutdown_requested_ s = false → state_ s ≠ DISCONNECTED → 0 <= ch_block_size hello < 2 ^ 32 →
  let bs := settled (ch_block_size hello) (negotiated_block_size_ s) in
  let answer := mkServerHello 1 "adaptivesync-cpp-1.0" [ZERO_COPY; DELTA_SYNC] 10 0 bs in
  holds (serialized KServerHello answer) →
  serves s (encode_frame (request MSG_CLIENT_HELLO payload)) (λ reply s',
    reply = encode_frame (framed MSG_SERVER_HELLO KServerHello answer) ∧
    state_ s' = READY ∧ negotiated_block_size_ s' = bs ∧ client_id_ s' = ch_client_id hello ∧
    sn_delta s' = sn_delta s).
Proof.
  intros Hp Hh Hsh Hst Hrange bs answer Ha. rewrite <- (app_nil_r (encode_frame _)).
  unfold holds, INT_MAX in Ha. apply serves_request; [done..|]. intros k rest Hw Hd.
  change (dispatch env (request MSG_CLIENT_HELLO payload)) with (handle_client_hello payload).
  unfold handle_client_hello. rewrite Hp, SM_bind_unfold. cbn [get_st]. cbv zeta. rewrite (u32_small (ch_block_size hello)) by done.
  fold (settled (ch_block_size hello) (negotiated_block_size_ (set_socket k s))).
  change (negotiated_block_size_ (set_socket k s)) with (negotiated_block_size_ s). fold bs.
  rewrite SM_bind_unfold. cbn [modify_st]. set (s1 := set_client _ _ _ _).
  destruct (send_message_willing MSG_SERVER_HELLO KServerHello answer s1) as (evs & Hev & Hr); [done|lia|].
  rewrite (SM_bind_ret _ _ _ _ _ Hr). eexists _, _. split; [reflexivity|]. done.
Qed.

End Service.
