(* ===== verification/Conversation.v ===== *)
(** The client and the server in conversation: src/client/src/tcp_client.rs
    against src/server/src/session.cpp.

    [says m c up down r c']: the client call [m] from the client state [c], with
    [down] coming in (cut into segments at will and whatever follows), sends
    exactly [up], returns [r] and leaves the client as [c'].  [conversation]
    joins such a call with a server that hears what the client sends. *)
From S2P Require Import Prelude Sha256 Paths FileSystem FileManager FileMutex WireProtocol Proto Proto3.
From S2P Require Import DeltaSync Negotiator ZeroCopySender Ends Session Service.
From S2P Require Import ClientBase ClientWire ClientFiles ClientDelta TcpClient.

Definition says {A} (m : CM client_state A) (c : client_state) (up down : bytes) (r : Result A)
  (c' : client_state) : Prop :=
  ∀ k rest, Forall willing (tx_events k) → delivers k (down ++ rest) →
  ∃ k', m (set_stream (Some k) c) = (Ret r, set_stream (Some k') c') ∧
    Forall willing (tx_events k') ∧ delivers k' rest ∧ tx k' = tx k ++ up.

(** The same for a call that hears [down] and then the end of the stream. *)
Definition says_last {A} (m : CM client_state A) (c : client_state) (up down : bytes) (r : Result A)
  (c' : client_state) : Prop :=
  ∀ k, Forall willing (tx_events k) → delivers k down →
  ∃ k', m (set_stream (Some k) c) = (Ret r, set_stream (Some k') c') ∧ tx k' = tx k ++ up.

(** * The client's calls, step by step *)

Section Says.
Context `{Host, Tokio, !TokioLaws, Disk, Sha2, Codec, Prost, !ProstLaws}.

Lemma says_ret {A} (a : A) c : says (mret a) c [] [] (Ok a) c.
Proof. intros k rest Hw Hd. exists k. by rewrite app_nil_r. Qed.

Lemma says_fail {A} e c : says (fail (A := A) e) c [] [] (Err e) c.
Proof. intros k rest Hw Hd. exists k. by rewrite app_nil_r. Qed.

Lemma says_bind {A B} (m : CM client_state A) (f : A → CM client_state B) c up1 up2 down1 down2 a c1 r c2 :
  says m c up1 down1 (Ok a) c1 → says (f a) c1 up2 down2 r c2 →
  says (m ≫= f) c (up1 ++ up2) (down1 ++ down2) r c2.
Proof.
  intros Hm1 Hm2 k rest Hw Hd. rewrite <- app_assoc in Hd.
  destruct (Hm1 k _ Hw Hd) as (k1 & Hr1 & Hw1 & Hd1 & Ht1).
  destruct (Hm2 k1 _ Hw1 Hd1) as (k2 & Hr2 & Hw2 & Hd2 & Ht2).
  exists k2. rewrite (CM_bind_ok _ _ _ _ _ Hr1), Hr2, Ht2, Ht1, app_assoc. auto.
Qed.

(** Steps that read or write nothing, or only read, or only write. *)
Lemma says_quiet {A B} (m : CM client_state A) (f : A → CM client_state B) c up down a c1 r c2 :
  says m c [] [] (Ok a) c1 → says (f a) c1 up down r c2 → says (m ≫= f) c up down r c2.
Proof. intros Hm1 Hm2. apply (says_bind _ _ _ [] up [] down _ _ _ _ Hm1 Hm2). Qed.
Lemma says_hear {A B} (m : CM client_state A) (f : A → CM client_state B) c up down1 down2 a c1 r c2 :
  says m c [] down1 (Ok a) c1 → says (f a) c1 up down2 r c2 → says (m ≫= f) c up (down1 ++ down2) r c2.
Proof. intros Hm1 Hm2. apply (says_bind _ _ _ [] up _ _ _ _ _ _ Hm1 Hm2). Qed.
Lemma says_tell {A B} (m : CM client_state A) (f : A → CM client_state B) c up1 up2 down a c1 r c2 :
  says m c up1 [] (Ok a) c1 → says (f a) c1 up2 down r c2 → says (m ≫= f) c (up1 ++ up2) down r c2.
Proof. intros Hm1 Hm2. apply (says_bind _ _ _ _ _ [] down _ _ _ _ Hm1 Hm2). Qed.
Lemma says_stop {A B} (m : CM client_state A) (f : A → CM client_state B) c up down e c1 :
  says m c up down (Err e) c1 → says (m ≫= f) c up down (Err e) c1.
Proof.
  intros Hm1 k rest Hw Hd. destruct (Hm1 k _ Hw Hd) as (k1 & Hr1 & ?).
  exists k1. by rewrite (CM_bind_err _ _ _ _ _ Hr1).
Qed.

(** The last part of a call. *)
Lemma says_final {A} (m : CM client_state A) c up down rest r c' :
  says m c up down r c' → says_last m c up (down ++ rest) r c'.
Proof. intros Hm k Hw Hd. destruct (Hm k rest Hw Hd) as (k' & ? & _ & _ & ?). by exists k'. Qed.

Lemma says_then_last {A B} (m : CM client_state A) (f : A → CM client_state B) c up1 up2 down1 down2 a c1 r c2 :
  says m c up1 down1 (Ok a) c1 → says_last (f a) c1 up2 down2 r c2 →
  says_last (m ≫= f) c (up1 ++ up2) (down1 ++ down2) r c2.
Proof.
  intros Hm1 Hm2 k Hw Hd. destruct (Hm1 k _ Hw Hd) as (k1 & Hr1 & Hw1 & Hd1 & Ht1).
  destruct (Hm2 k1 Hw1 Hd1) as (k2 & Hr2 & Ht2).
  exists k2. rewrite (CM_bind_ok _ _ _ _ _ Hr1), Hr2, Ht2, Ht1, app_assoc. auto.
Qed.

Lemma says_last_stop {A B} (m : CM client_state A) (f : A → CM client_state B) c up down e c1 :
  says_last m c up down (Err e) c1 → says_last (m ≫= f) c up down (Err e) c1.
Proof.
  intros Hm1 k Hw Hd. destruct (Hm1 k Hw Hd) as (k1 & Hr1 & ?).
  exists k1. by rewrite (CM_bind_err _ _ _ _ _ Hr1).
Qed.

(** Looking at the client object. *)
Lemma says_gets {B} (f : TcpClient → CM client_state B) c up down r c2 :
  (∀ k, says (f (tc (set_stream (Some k) c))) c up down r c2) →
  says (plain (gets_st tc) ≫= f) c up down r c2.
Proof. intros Hf k. apply (Hf k). Qed.

Lemma says_disk {A} (m : CM filesystem A) c r fs' :
  m (disk c) = (Ret r, fs') → says (on_disk m) c [] [] r (set_disk fs' c).
Proof.
  intros Hm k rest Hw Hd. exists k. unfold on_disk, zoom. cbn [disk set_stream]. rewrite Hm, app_nil_r. done.
Qed.

Lemma says_disk_pure {A} (m : CM filesystem A) c r :
  m (disk c) = (Ret r, disk c) → says (on_disk m) c [] [] r c.
Proof. intros Hm. pose proof (says_disk m c r _ Hm) as Hs. by destruct c. Qed.

Lemma says_stream {A} (m : CM socket A) c up down r :
  (∀ k rest, Forall willing (tx_events k) → delivers k (down ++ rest) →
     ∃ k', m k = (Ret r, k') ∧ Forall willing (tx_events k') ∧ delivers k' rest ∧ tx k' = tx k ++ up) →
  says (on_stream m) c up down r c.
Proof.
  intros Hm k rest Hw Hd. destruct (Hm k rest Hw Hd) as (k' & Hr & ?).
  exists k'. unfold on_stream. cbn [stream tc set_stream]. by rewrite Hr.
Qed.

Lemma says_connected c : says (on_stream (mret tt)) c [] [] (Ok tt) c.
Proof. apply says_stream. intros k rest Hw Hd. exists k. by rewrite app_nil_r. Qed.

Lemma says_send type k m c :
  says (on_stream (client_send type k m)) c (encode_frame (request type (prost_encode k m))) [] (Ok tt) c.
Proof.
  apply says_stream. intros sk rest Hw Hd. unfold client_send.
  destruct (client_write_frame_willing type (prost_encode k m) sk Hw) as (evs & -> & Hev).
  eexists. split; [reflexivity|]. rewrite client_encode_same. split; [done|]. split; [|done].
  by eapply delivers_rx.
Qed.

Lemma says_raw data c : zlen data < 2 ^ 64 →
  says (on_stream (client_write_raw_data data)) c (raw_frame data) [] (Ok tt) c.
Proof.
  intros Hl. apply says_stream. intros sk rest Hw Hd.
  destruct (client_write_raw_willing data sk Hw Hl) as (evs & -> & Hev).
  eexists. split; [reflexivity|]. split; [done|]. split; [|done]. by eapply delivers_rx.
Qed.

(** Reading keeps the peer willing. *)
Lemma heard {A} (m : CM socket A) c down r :
  (∀ k rest, delivers k (down ++ rest) → ∃ k', m k = (Ret r, k') ∧ delivers k' rest ∧ same_tx k k') →
  says (on_stream m) c [] down r c.
Proof.
  intros Hm. apply says_stream. intros k rest Hw Hd. destruct (Hm k rest Hd) as (k' & Hr & Hd' & Ht & He).
  exists k'. rewrite He, Ht, app_nil_r. done.
Qed.

Lemma read_frame_heard f rest k : holds (payload f) → delivers k (encode_frame f ++ rest) →
  ∃ k', client_read_frame k = (Ret (Ok f), k') ∧ delivers k' rest ∧ same_tx k k'.
Proof.
  unfold holds, INT_MAX. intros Hl Hd. rewrite encode_frame_standard in Hd by lia.
  destruct (client_read_standard _ _ _ _ Hd) as (k' & Hr & ?); [unfold RAW_DATA_SENTINEL; lia|lia|].
  exists k'. by destruct f.
Qed.

Lemma says_read f c : holds (payload f) → says (on_stream client_read_frame) c [] (encode_frame f) (Ok f) c.
Proof. intros Hl. apply heard. intros k rest. by apply read_frame_heard. Qed.

Lemma says_read_raw data c : zlen data < 2 ^ 63 → zlen data <= alloc_limit →
  says (on_stream client_read_frame) c [] (raw_frame data) (Ok (mkWireFrame MSG_RAW_DATA data)) c.
Proof.
  intros Hl Ha. apply heard. intros k rest Hd. unfold raw_frame in Hd. rewrite <- app_assoc in Hd.
  by apply client_read_raw.
Qed.

(** Frames of other types are skipped, up to ninety-nine of them. *)
Lemma read_expected_skips ty f rest skipped : ∀ n k,
  (length skipped < n)%nat → byte.unsigned (message_type f) = ty → holds (payload f) →
  Forall (λ g, byte.unsigned (message_type g) ≠ ty ∧ holds (payload g)) skipped →
  delivers k (concat (encode_frame <$> skipped) ++ encode_frame f ++ rest) →
  ∃ k', read_expected_loop n ty k = (Ret (Ok f), k') ∧ delivers k' rest ∧ same_tx k k'.
Proof.
  induction skipped as [|g skipped IH]; intros [|n] k Hn Hty Hl Hsk Hd; simpl in *; try lia.
  - destruct (read_frame_heard f rest k Hl Hd) as (k' & Hr & Hd' & Ht).
    rewrite (CM_bind_ok _ _ _ _ _ Hr), Hty, Z.eqb_refl. by exists k'.
  - inversion_clear Hsk as [|?? [Hg Hgl] Hsk']. rewrite <- app_assoc in Hd.
    destruct (read_frame_heard g _ k Hgl Hd) as (k1 & Hr & Hd1 & Ht1).
    rewrite (CM_bind_ok _ _ _ _ _ Hr), (proj2 (Z.eqb_neq _ _)) by done.
    destruct (IH n k1) as (k2 & -> & Hd2 & Ht2); [lia|done..|]. exists k2. eauto using same_tx_trans.
Qed.

(** Frames that a call which waits for the type [ty] passes over. *)
Definition passed_over (ty : Z) (skipped : list WireFrame) : Prop :=
  (length skipped < 100)%nat ∧
  Forall (λ g, byte.unsigned (message_type g) ≠ ty ∧ holds (payload g)) skipped.

Lemma says_expected_after ty f skipped c :
  byte.unsigned (message_type f) = ty → holds (payload f) → passed_over ty skipped →
  says (on_stream (read_expected ty)) c [] (concat (encode_frame <$> skipped) ++ encode_frame f) (Ok f) c.
Proof.
  intros Hty Hl [Hn Hsk]. apply heard. intros k rest Hd. rewrite <- app_assoc in Hd.
  by apply (read_expected_skips ty f rest skipped).
Qed.

Lemma passed_over_none ty : passed_over ty [].
Proof. split; [simpl; lia|done]. Qed.

Lemma says_expected ty f c : byte.unsigned (message_type f) = ty → holds (payload f) →
  says (on_stream (read_expected ty)) c [] (encode_frame f) (Ok f) c.
Proof. intros. by apply (says_expected_after ty f [] c), passed_over_none. Qed.

(** What the server wrote, decoded. *)
Lemma says_decoded k m data what c : data = serialized k m → msg_wf k m → holds (serialized k m) →
  says (decoded k data what) c [] [] (Ok m) c.
Proof.
  unfold holds. intros -> Hwf Hl sk rest Hw Hd. exists sk. rewrite app_nil_r. split; [|done].
  unfold decoded, serialized in *. destruct (Z.leb_spec (zlen (encoding k m)) INT_MAX) as [Hle|Hgt].
  - by rewrite prost_reads.
  - rewrite zlen_replicate in Hl by (unfold INT_MAX in *; lia). lia.
Qed.

End Says.

(** * Conversations *)

(** The two programs on one connection: there are bytes [up] such that the
    server, reading them from any segmentation, ends normally after a reply
    [down], and the client call, reading that reply from any segmentation, sends
    exactly [up] and returns [r]; the two file systems are then related by [Q]. *)
Definition conversation `{Host, Codec} {A} (env : session_env) (s : session) (talk : CM client_state A)
  (c : client_state) (r : Result A) (Q : filesystem → filesystem → Prop) : Prop :=
  ∃ up, ∀ sk, Forall willing (tx_events sk) → delivers sk up →
    ∃ s' down, run env (set_socket sk s) = (Ret tt, s') ∧ state_ s' = DISCONNECTED ∧
      tx (sn_socket s') = tx sk ++ down ∧
      ∀ k, Forall willing (tx_events k) → delivers k down →
        ∃ c' k', talk (set_stream (Some k) c) = (Ret r, c') ∧ stream (tc c') = Some k' ∧
          tx k' = tx k ++ up ∧ Q (disk c') (sn_fs s').

(** A session before it has heard anything. *)
Definition fresh_session (s : session) : Prop :=
  shutdown_requested_ s = false ∧ state_ s ≠ DISCONNECTED.

Section Conversations.
Context `{Host, Tokio, !TokioLaws, Disk, Sha2, !Sha2Laws, Codec, Prost, !ProstLaws} (env : session_env).

Lemma converse_end {A} (talk : CM client_state A) c s up r (Q : filesystem → filesystem → Prop) :
  serves_to_end env s up (λ reply fs, ∃ c', says_last talk c up reply r c' ∧ Q (disk c') fs) →
  conversation env s talk c r Q.
Proof.
  intros Hs. exists up. intros sk Hw Hd.
  destruct (Hs sk Hw Hd) as (s' & reply & Hr & Hst & Ht & c' & Hsay & HQ).
  eexists _, _. split; [exact Hr|]. split; [done|]. split; [exact Ht|]. intros k Hwk Hdk.
  destruct (Hsay k Hwk Hdk) as (k' & Hrun & Htx). eexists _, k'. split; [exact Hrun|]. done.
Qed.

Lemma converse {A} (talk : CM client_state A) c s up r (Q : filesystem → filesystem → Prop) :
  serves env s up (λ reply s', ∃ c', says_last talk c up reply r c' ∧ Q (disk c') (sn_fs s')) →
  conversation env s talk c r Q.
Proof. intros Hs. by apply (converse_end talk c s up r Q), serves_end. Qed.

Lemma conversation_mono {A} (talk : CM client_state A) c s r (Q Q' : filesystem → filesystem → Prop) :
  conversation env s talk c r Q → (∀ local files, Q local files → Q' local files) →
  conversation env s talk c r Q'.
Proof.
  intros [up Hup] HQ. exists up. intros sk Hw Hd.
  destruct (Hup sk Hw Hd) as (s' & down & Hrun & Hst & Htx & Hk). exists s', down. do 3 (split; [done|]).
  intros k Hwk Hdk. destruct (Hk k Hwk Hdk) as (c' & k' & Hr & Hst' & Htx' & Hq). exists c', k'. auto.
Qed.

(** A message the client can send and the server can take. *)
Definition sendable (k : kind) (m : msg k) : Prop := msg_wf k m ∧ holds (prost_encode k m).
(** A message the server can send and the client can take. *)
Definition answerable (k : kind) (m : msg k) : Prop := msg_wf k m ∧ holds (serialized k m).

Lemma sendable_parsed k m : sendable k m → parse_payload k (prost_encode k m) = Some m.
Proof.
  unfold sendable, holds, parse_payload. intros [Hwf Hl]. pose proof (zlen_nonneg (prost_encode k m)).
  unfold INT_MAX in Hl. replace (i32 (zlen (prost_encode k m))) with (zlen (prost_encode k m)).
  - apply prost_read; [done|]. unfold INT_MAX. lia.
  - unfold i32. rewrite Z.mod_small; lia.
Qed.

(** The file the client means, and its digest. *)
Definition local_path (c : client_state) (rel : string) : string := client_resolve_path (tc_file_ops (tc c)) rel.
Definition digest (data : bytes) : string := to_hex (Fips.sha256 data).

Lemma digest_server data : zlen data < 2 ^ 61 → to_hex (sha256_raw data) = digest data.
Proof. intros Hl. unfold digest. by rewrite sha256_raw_fips. Qed.

(** ** Downloads *)

(** What the client does with a download that comes in: the data are written, and
    then compared with the digest of the header. *)
Lemma download_received rel total hash data c :
  answerable KZeroCopyDownloadHeader (mkZeroCopyDownloadHeader rel total hash 0) →
  zlen data < 2 ^ 61 → zlen data <= alloc_limit →
  calm (disk c) → local_room (disk c) (local_path c rel) →
  ∃ local, file_at local (loc (disk c) (local_path c rel)) = Some data ∧
    local_kept (disk c) local (local_path c rel) ∧
    says (download_file rel) c
      (encode_frame (request MSG_ZERO_COPY_DOWNLOAD_REQUEST
         (prost_encode KZeroCopyDownloadRequest (mkZeroCopyDownloadRequest rel 0))))
      (encode_frame (mkWireFrame (byte.of_Z MSG_ZERO_COPY_DOWNLOAD_HEADER)
         (serialized KZeroCopyDownloadHeader (mkZeroCopyDownloadHeader rel total hash 0))) ++
       encode_raw_data_header (zlen data) ++ data)
      (if decide (hash = "" ∨ hash = digest data) then Ok (digest data) else Err (HashMismatch hash (digest data)))
      (set_disk local c).
Proof.
  intros [Hwf Hh] Hl Ha Hcalm Hroom. set (p := local_path c rel) in *.
  pose proof (client_write_file_spec (tc_file_ops (tc c)) rel data (disk c)) as Hw. unfold wp in Hw.
  fold (local_path c rel) in Hw. fold p in Hw.
  destruct (client_write_file (tc_file_ops (tc c)) rel data (disk c)) as [o fs'] eqn:Hrun.
  destruct Hw as (r & -> & Hc & Hcalm' & Hkept & Hok & _ & Hlive).
  destruct (Hlive Hcalm Hroom) as [[] ->]. specialize (Hok tt eq_refl).
  assert (loc fs' p = loc (disk c) p) as Hloc by (by apply loc_cwd).
  destruct (file_lookup fs' p data) as [t Hlk]; [apply Hroom|by rewrite Hloc|].
  exists fs'. split; [done|]. split; [done|]. unfold download_file.
  rewrite <- (app_nil_r (encode_frame (request _ _))).
  eapply says_tell; [apply says_send|].
  eapply says_hear; [by apply says_expected|]. cbv beta.
  eapply says_quiet; [by eapply (says_decoded KZeroCopyDownloadHeader)|].
  rewrite <- (app_nil_r (encode_raw_data_header _ ++ _)).
  eapply says_hear; [apply (says_read_raw data); lia|].
  change (byte.unsigned _ =? 0xfe) with true. cbv beta iota delta [negb].
  apply says_gets. intros k0. cbn [tc_file_ops tc set_stream].
  eapply says_quiet; [by apply says_disk|].
  eapply says_quiet; [apply says_disk_pure; eapply sha256_file_calm; [by apply Hcalm'|exact Hlk|done]|].
  cbn [dl_sha256_hash]. fold (digest data). case_decide as Hd.
  - destruct Hd as [Hd|Hd]; [rewrite (bool_decide_eq_true_2 (hash = "") Hd)|
      rewrite (bool_decide_eq_true_2 (digest data = hash)), andb_false_r by done]; apply says_ret.
  - rewrite !bool_decide_eq_false_2 by (intros Hx; apply Hd; auto). apply says_fail.
Qed.

Lemma download_said rel data c :
  answerable KZeroCopyDownloadHeader (mkZeroCopyDownloadHeader rel (zlen data) (to_hex (sha256_raw data)) 0) →
  zlen data < 2 ^ 61 → zlen data <= alloc_limit →
  calm (disk c) → local_room (disk c) (local_path c rel) →
  ∃ local, file_at local (loc (disk c) (local_path c rel)) = Some data ∧
    local_kept (disk c) local (local_path c rel) ∧
    says (download_file rel) c
      (encode_frame (request MSG_ZERO_COPY_DOWNLOAD_REQUEST
         (prost_encode KZeroCopyDownloadRequest (mkZeroCopyDownloadRequest rel 0))))
      (download_stream rel data 0) (Ok (digest data)) (set_disk local c).
Proof.
  intros Hans Hl Ha Hcalm Hroom.
  destruct (download_received rel _ _ data c Hans Hl Ha Hcalm Hroom) as (local & Hf & Hk & Hsay). exists local.
  rewrite decide_True in Hsay by (right; by apply digest_server).
  unfold download_stream. by rewrite Z.sub_0_r, drop_0.
Qed.

Lemma download_converses rel p data t c s :
  fresh_session s → calm (sn_fs s) → resolve_path (se_file_manager env) rel = Ret p →
  lookup_node (sn_fs s) p = Some (File data t) → 0 < zlen data < 2 ^ 61 → zlen data <= alloc_limit →
  calm (disk c) → local_room (disk c) (local_path c rel) →
  sendable KZeroCopyDownloadRequest (mkZeroCopyDownloadRequest rel 0) →
  answerable KZeroCopyDownloadHeader (mkZeroCopyDownloadHeader rel (zlen data) (to_hex (sha256_raw data)) 0) →
  conversation env s (download_file rel) c (Ok (digest data)) (λ local files,
    file_at local (loc (disk c) (local_path c rel)) = Some data ∧
    local_kept (disk c) local (local_path c rel) ∧ nodes files = nodes (sn_fs s)).
Proof.
  intros [Hsh Hst] Hcalm Hr Hl Hlen Ha Hcalm' Hroom Hreq Hans.
  destruct (download_said rel data c) as (local & Hf & Hk & Hsay); [done|lia|done..|].
  eapply converse, serves_mono.
  { eapply (download_served env s _ (mkZeroCopyDownloadRequest rel 0) p data t);
      [by apply sendable_parsed|apply Hreq|done..|simpl; lia|lia|apply Hans]. }
  intros reply s' (-> & Hn & _). exists (set_disk local c). split; [|done].
  rewrite <- (app_nil_r (download_stream rel data 0)). by apply says_final.
Qed.


(** ** Uploads *)

Definition mtime (fs : filesystem) (t : Z) : Z := t - file_clock fs + system_clock fs.
Definition upload_request (rel : string) (data : bytes) (modified : Z) : ZeroCopyUploadRequest :=
  mkZeroCopyUploadRequest (mkFileMetadata rel (zlen data) modified (digest data) FRESH).

(** The call up to the answer: the file is described and announced. *)
Lemma upload_announced {B} rel data t c (next : LocalFileInfo → CM client_state B) up down r c' :
  calm (disk c) → lookup_node (disk c) (local_path c rel) = Some (File data t) →
  0 <= mtime (disk c) t < 2 ^ 64 → zlen data < 2 ^ 61 →
  says (next (mkLocalFileInfo rel (zlen data) (mtime (disk c) t) (digest data))) c up down r c' →
  says (info ← on_disk (client_get_file_info (tc_file_ops (tc c)) rel);
        _ ← on_stream (client_send MSG_ZERO_COPY_UPLOAD_REQUEST KZeroCopyUploadRequest
              (mkZeroCopyUploadRequest (mkFileMetadata (li_relative_path info) (li_file_size info)
                 (li_last_modified_ns info) (li_sha256_hash info) FRESH))); next info) c
    (encode_frame (request MSG_ZERO_COPY_UPLOAD_REQUEST
       (prost_encode KZeroCopyUploadRequest (upload_request rel data (mtime (disk c) t)))) ++ up) down r c'.
Proof.
  intros Hcalm Hl Ht Hlen Hnext. set (ops := tc_file_ops (tc c)).
  assert (client_get_file_info ops rel (disk c) =
    (Ret (Ok (mkLocalFileInfo rel (zlen data) (mtime (disk c) t) (digest data))), disk c)) as Hinfo.
  { unfold client_get_file_info.
    rewrite (CM_bind_ok _ _ _ _ _ (client_file_size_calm ops rel _ _ _ Hcalm Hl)).
    rewrite (CM_bind_ok _ _ _ _ _ (client_modified_calm ops rel _ _ _ Hcalm Hl Ht)).
    unfold client_sha256. by rewrite (CM_bind_ok _ _ _ _ _ (sha256_file_calm _ _ _ _ Hcalm Hl Hlen)). }
  eapply says_quiet; [by apply says_disk_pure|]. eapply says_tell; [apply says_send|]. exact Hnext.
Qed.

Lemma upload_said rel data t c :
  calm (disk c) → lookup_node (disk c) (local_path c rel) = Some (File data t) →
  0 <= mtime (disk c) t < 2 ^ 64 → zlen data < 2 ^ 61 →
  answerable KZeroCopyUploadAck (mkZeroCopyUploadAck OK "" 0) →
  says (upload_file rel) c
    (encode_frame (request MSG_ZERO_COPY_UPLOAD_REQUEST
       (prost_encode KZeroCopyUploadRequest (upload_request rel data (mtime (disk c) t)))) ++ raw_frame data)
    (encode_frame upload_ack) (Ok (digest data)) c.
Proof.
  intros Hcalm Hl Ht Hlen [Hwf Hh]. unfold upload_file.
  eapply says_quiet; [apply says_connected|]. apply says_gets. intros k0. cbn [tc_file_ops tc set_stream].
  apply (upload_announced rel data t c); [done..|]. cbn [li_sha256_hash].
  rewrite <- (app_nil_r (encode_frame upload_ack)). eapply says_hear; [by apply says_read|].
  eapply says_quiet; [by eapply (says_decoded KZeroCopyUploadAck)|]. cbn [ua_status]. rewrite Z.eqb_refl.
  cbv beta iota delta [negb].
  eapply says_quiet; [by eapply says_disk_pure, or_err_some, read_file_calm|].
  rewrite <- (app_nil_r (raw_frame data)). eapply says_tell; [apply says_raw; lia|]. apply says_ret.
Qed.

(** A frame that cannot be read as the answer ends the call; nothing of the file
    has been sent. *)
Lemma upload_misled rel data t f c :
  calm (disk c) → lookup_node (disk c) (local_path c rel) = Some (File data t) →
  0 <= mtime (disk c) t < 2 ^ 64 → zlen data < 2 ^ 61 →
  holds (payload f) → prost_decode KZeroCopyUploadAck (payload f) = None →
  says (upload_file rel) c
    (encode_frame (request MSG_ZERO_COPY_UPLOAD_REQUEST
       (prost_encode KZeroCopyUploadRequest (upload_request rel data (mtime (disk c) t)))))
    (encode_frame f) (Err (Protocol "Failed to parse upload ack")) c.
Proof.
  intros Hcalm Hl Ht Hlen Hh Hno. unfold upload_file.
  eapply says_quiet; [apply says_connected|]. apply says_gets. intros k0. cbn [tc_file_ops tc set_stream].
  rewrite <- (app_nil_r (encode_frame (request _ _))).
  apply (upload_announced rel data t c); [done..|].
  rewrite <- (app_nil_r (encode_frame f)). eapply says_hear; [by apply says_read|].
  apply says_stop. intros k rest Hw Hd. exists k. rewrite app_nil_r. split; [|done].
  unfold decoded. by rewrite Hno.
Qed.

(** C9: uploading over a connection copies the file.  For a non-empty local file,
    the client's call and the server's session understand each other whatever
    the segmentation and however much progress the server reports: the call
    returns the file's SHA-256 digest, the server's file holds exactly the local
    bytes, its temporary file is gone, no other file of the server has changed,
    and the local files are untouched. *)
Theorem upload_conversation rel p data t c s :
  fresh_session s → calm (sn_fs s) → resolve_path (se_file_manager env) rel = Ret p → room_for (sn_fs s) p →
  calm (disk c) → lookup_node (disk c) (local_path c rel) = Some (File data t) →
  0 <= mtime (disk c) t < 2 ^ 64 → 0 < zlen data < 2 ^ 32 → zlen data <= alloc_limit →
  sendable KZeroCopyUploadRequest (upload_request rel data (mtime (disk c) t)) →
  answerable KZeroCopyUploadAck (mkZeroCopyUploadAck OK "" 0) →
  conversation env s (upload_file rel) c (Ok (digest data)) (λ local files,
    local = disk c ∧ file_at files (target_loc (sn_fs s) p) = Some data ∧
    file_at files (tmp_loc (sn_fs s) p) = None ∧ others_kept (sn_fs s) files p).
Proof.
  intros [Hsh Hst] Hcalm Hr Hroom Hcalm' Hl Ht Hlen Ha Hreq Hans.
  pose proof (upload_said rel data t c Hcalm' Hl Ht ltac:(lia) Hans) as Hsay.
  assert (data ≠ []) by (intros ->; unfold zlen in *; simpl in *; lia).
  assert (concat [data] = data) as Hcat by apply app_nil_r.
  replace (raw_frame data) with (concat (raw_frame <$> [data])) in Hsay by apply app_nil_r.
  eapply converse, serves_mono.
  { eapply (upload_served env s _ (upload_request rel data (mtime (disk c) t)) p [data]);
      rewrite ?Hcat; try done; [by apply sendable_parsed|apply Hreq| | |apply Hans].
    - unfold vector_max_size. lia.
    - repeat constructor; [done|lia]. }
  intros reply s' ((progress & -> & _) & _ & Hf & Htmp & Ho & _). rewrite Hcat in Hf.
  exists c. split; [by apply says_final|done].
Qed.

(** ** Listings *)

(** The client's listing is the server's.  The call returns, for each file
    the server lists under the prefix, its path, size, modification time and
    digest, in the server's order; both file systems are untouched. *)
Theorem listing_conversation prefix recursive files c s :
  fresh_session s → list_files (se_file_manager env) prefix recursive (sn_fs s) = (Ret files, sn_fs s) →
  sendable KListFilesRequest (mkListFilesRequest prefix recursive) →
  answerable KListFilesResponse (mkListFilesResponse (to_metadata <$> files)) →
  conversation env s (list_server_files prefix recursive) c (Ok (to_metadata <$> files)) (λ local tree,
    local = disk c ∧ tree = sn_fs s).
Proof.
  intros [Hsh Hst] Hlist Hreq Hans. eapply converse, serves_mono.
  { eapply (listing_served env s _ (mkListFilesRequest prefix recursive) files);
      [by apply sendable_parsed|apply Hreq|done..|apply Hans]. }
  intros reply s' (-> & Hd). exists c.
  split; [|unfold sn_fs; by rewrite Hd]. unfold list_server_files. destruct Hans.
  rewrite <- (app_nil_r (encode_frame (framed _ _ _))). apply says_final.
  rewrite <- (app_nil_r (encode_frame (request _ _))).
  eapply says_tell; [apply says_send|].
  rewrite <- (app_nil_r (encode_frame (framed _ _ _))). eapply says_hear; [by apply says_expected|].
  eapply says_quiet; [by eapply (says_decoded KListFilesResponse)|]. apply says_ret.
Qed.

(** ** Synchronisation *)

(** What the client says about its copy of the file. *)
Definition local_claim (fs : filesystem) (rel : string) (copy : option node) : NegotiationRequest :=
  match copy with
  | Some (File data t) => mkNegotiationRequest rel (zlen data) (mtime fs t) (digest data)
  | _ => mkNegotiationRequest rel 0 0 ""
  end.

(** A copy the client can speak of. *)
Definition describable (fs : filesystem) (copy : option node) : Prop :=
  match copy with
  | Some (File data t) => 0 <= mtime fs t < 2 ^ 64 ∧ zlen data < 2 ^ 61
  | Some Dir => False
  | None => True
  end.

Definition answered (resp : NegotiationResponse) : ClientNegotiation :=
  mkClientNegotiation (nr_file_mode resp) (nr_transfer_mode resp) (nr_server_file_size resp)
    (nr_server_sha256_hash resp) (nr_block_size resp).

Lemma unwrap_or_ok {S A} (m : CM S A) d s a s' : m s = (Ret (Ok a), s') → unwrap_or m d s = (Ret (Ok a), s').
Proof. intros Hm. unfold unwrap_or. by rewrite Hm. Qed.
Lemma unwrap_or_err {S A} (m : CM S A) d s e s' : m s = (Ret (Err e), s') → unwrap_or m d s = (Ret (Ok d), s').
Proof. intros Hm. unfold unwrap_or. by rewrite Hm. Qed.

Lemma metadata_none fs p : lookup_node fs p = None → calm fs → metadata p fs = (Ret None, fs).
Proof.
  intros Hl Hc. unfold metadata. rewrite (SM_bind_ret _ _ _ _ _ (next_fault_calm fs Hc)).
  rewrite SM_bind_unfold. simpl. by rewrite Hl.
Qed.

Lemma negotiate_said_after skipped rel c copy resp :
  calm (disk c) → lookup_node (disk c) (local_path c rel) = copy →
  describable (disk c) copy → answerable KNegotiationResponse resp →
  passed_over MSG_NEGOTIATION_RESPONSE skipped →
  says (client_negotiate rel) c
    (encode_frame (request MSG_NEGOTIATION_REQUEST
       (prost_encode KNegotiationRequest (local_claim (disk c) rel copy))))
    (concat (encode_frame <$> skipped) ++
     encode_frame (framed MSG_NEGOTIATION_RESPONSE KNegotiationResponse resp)) (Ok (answered resp)) c.
Proof.
  intros Hcalm Hcopy Hdesc [Hwf Hh] Hskip. set (ops := tc_file_ops (tc c)). set (claim := local_claim _ _ _).
  assert (unwrap_or (client_file_size ops rel) 0 (disk c) = (Ret (Ok (nq_client_file_size claim)), disk c) ∧
    unwrap_or (client_last_modified_ns ops rel) 0 (disk c) = (Ret (Ok (nq_client_last_modified_ns claim)), disk c) ∧
    unwrap_or (client_sha256 ops rel) "" (disk c) = (Ret (Ok (nq_client_sha256_hash claim)), disk c))
    as (Hsize & Hmod & Hsha).
  { unfold claim, local_claim. destruct copy as [[data t|]|]; [|done|].
    - destruct Hdesc as [Ht Hlen]. split; [|split]; apply unwrap_or_ok.
      + by eapply client_file_size_calm.
      + by eapply client_modified_calm.
      + by eapply sha256_file_calm.
    - pose proof (metadata_none _ _ Hcopy Hcalm) as Hm.
      split; [|split]; eapply unwrap_or_err, CM_bind_err, or_err_none; [exact Hm..|].
      unfold file_open. rewrite (SM_bind_ret _ _ _ _ _ (next_fault_calm _ Hcalm)), SM_bind_unfold. cbn [get_st].
      change (client_resolve_path ops rel) with (local_path c rel). by rewrite Hcopy. }
  unfold client_negotiate. rewrite <- (app_nil_r (encode_frame (request _ _))).
  eapply says_quiet; [apply says_connected|]. apply says_gets. intros k0. cbn [tc_file_ops tc set_stream].
  eapply says_quiet; [by apply says_disk_pure|]. eapply says_quiet; [by apply says_disk_pure|].
  eapply says_quiet; [by apply says_disk_pure|]. eapply says_tell.
  { replace (mkNegotiationRequest rel _ _ _) with claim; [apply says_send|].
    unfold claim, local_claim. by destruct copy as [[]|]. }
  rewrite <- (app_nil_r (_ ++ encode_frame (framed _ _ _))).
  eapply says_hear; [by apply says_expected_after|].
  eapply says_quiet; [by eapply (says_decoded KNegotiationResponse)|]. apply says_ret.
Qed.

Lemma negotiate_said rel c copy resp :
  calm (disk c) → lookup_node (disk c) (local_path c rel) = copy →
  describable (disk c) copy → answerable KNegotiationResponse resp →
  says (client_negotiate rel) c
    (encode_frame (request MSG_NEGOTIATION_REQUEST
       (prost_encode KNegotiationRequest (local_claim (disk c) rel copy))))
    (encode_frame (framed MSG_NEGOTIATION_RESPONSE KNegotiationResponse resp)) (Ok (answered resp)) c.
Proof. intros. by apply (negotiate_said_after [] rel c copy resp), passed_over_none. Qed.

Lemma unchanged_converses rel p data t data' t' c s :
  fresh_session s → resolve_path (se_file_manager env) rel = Ret p →
  lookup_node (sn_fs s) p = Some (File data' t') → zlen data' < 2 ^ 61 →
  calm (disk c) → lookup_node (disk c) (local_path c rel) = Some (File data t) →
  describable (disk c) (Some (File data t)) → digest data = digest data' →
  sendable KNegotiationRequest (local_claim (disk c) rel (Some (File data t))) →
  answerable KNegotiationResponse (mkNegotiationResponse UNCHANGED TRANSFER_MODE_UNSPECIFIED
    (zlen data') (digest data') (se_block_size env)) →
  conversation env s (sync_file rel) c (Ok (digest data)) (λ local files, local = disk c ∧ files = sn_fs s).
Proof.
  intros [Hsh Hst] Hr Hl Hlen Hcalm Hcopy Hdesc Hsame Hreq Hans.
  assert (negotiation_answer (se_block_size env) (lookup_node (sn_fs s) p) (digest data) =
    mkNegotiationResponse UNCHANGED TRANSFER_MODE_UNSPECIFIED (zlen data') (digest data') (se_block_size env)) as Hneg.
  { unfold negotiation_answer. rewrite Hl. cbv zeta. by rewrite digest_server, decide_True by done. }
  eapply converse, serves_mono.
  { apply (negotiation_served env s _ _ p (sendable_parsed _ _ Hreq)); try done; try apply Hreq.
    - by rewrite Hl.
    - intros ?? Hx. rewrite Hl in Hx. injection Hx as <- <-. lia.
    - cbn [local_claim nq_client_sha256_hash]. rewrite Hneg. apply Hans. }
  cbn [local_claim nq_client_sha256_hash]. rewrite Hneg.
  intros reply s' (-> & Hd & _). exists c. split; [|unfold sn_fs; by rewrite Hd].
  rewrite <- (app_nil_r (encode_frame (framed _ _ _))). apply says_final.
  rewrite <- (app_nil_r (encode_frame (framed _ _ _))), <- (app_nil_r (encode_frame (request _ _))).
  unfold sync_file. eapply says_bind.
  { by apply (negotiate_said rel c (Some (File data t))). }
  cbn. rewrite Hsame. apply says_ret.
Qed.

(** A file both sides have is not sent again.  If the digests of the local
    and of the server's file agree, synchronising is one question and one answer:
    the call returns that digest, and neither side changes a file. *)
Theorem sync_unchanged rel p data t data' t' c s :
  fresh_session s → resolve_path (se_file_manager env) rel = Ret p →
  lookup_node (sn_fs s) p = Some (File data' t') → zlen data' < 2 ^ 61 →
  calm (disk c) → lookup_node (disk c) (local_path c rel) = Some (File data t) →
  describable (disk c) (Some (File data t)) → digest data = digest data' →
  sendable KNegotiationRequest (local_claim (disk c) rel (Some (File data t))) →
  answerable KNegotiationResponse (mkNegotiationResponse UNCHANGED TRANSFER_MODE_UNSPECIFIED
    (zlen data') (digest data') (se_block_size env)) →
  conversation env s (sync_file rel) c (Ok (digest data)) (λ local files, local = disk c ∧ files = sn_fs s).
Proof. apply unchanged_converses. Qed.

(** The end of the stream, for a client that waits for a frame. *)
Lemma read_frame_eof k : delivers k [] →
  ∃ k', client_read_frame k = (Ret (Err (Connection "Failed to read frame length")), k') ∧ same_tx k k'.
Proof.
  intros Hd. destruct (read_exact_eof k [] 4 Hd) as (k' & Hr & Ht); [simpl; lia|].
  exists k'. split; [|done]. unfold client_read_frame. by rewrite (CM_bind_err _ _ _ _ _ (or_err_none _ _ _ _ Hr)).
Qed.

(** An answer of another type, and then the end. *)
Lemma expected_never ty f c : byte.unsigned (message_type f) ≠ ty → holds (payload f) →
  says_last (on_stream (read_expected ty)) c [] (encode_frame f)
    (Err (Connection "Failed to read frame length")) c.
Proof.
  intros Hty Hl k Hw Hd. unfold on_stream. cbn [stream tc set_stream]. unfold read_expected. cbn [read_expected_loop].
  rewrite <- (app_nil_r (encode_frame f)) in Hd.
  destruct (read_frame_heard f [] k Hl Hd) as (k1 & Hr & Hd1 & Ht1 & _).
  rewrite (CM_bind_ok _ _ _ _ _ Hr), (proj2 (Z.eqb_neq _ _)) by done.
  destruct (read_frame_eof k1 Hd1) as (k2 & Hr2 & Ht2 & _). rewrite (CM_bind_err _ _ _ _ _ Hr2).
  exists k2. by rewrite app_nil_r, Ht2, Ht1.
Qed.

Definition not_found (rel : string) : ErrorPayload :=
  mkErrorPayload 3 ("File not found or transfer failed: " +:+ rel) "".


(** ** Connecting *)

Definition client_hello (c : TcpClient) : ClientHello :=
  mkClientHello (tc_protocol_version c) (client_id c) [ZERO_COPY; DELTA_SYNC] (tc_block_size c).
Definition server_hello (bs : Z) : ServerHello :=
  mkServerHello 1 "adaptivesync-cpp-1.0" [ZERO_COPY; DELTA_SYNC] 10 0 bs.
Definition valid_block_size (bs : Z) : Prop := 4096 <= bs <= 1048576.

Lemma settled_valid preferred current : valid_block_size preferred ∨ valid_block_size current →
  valid_block_size (settled preferred current).
Proof.
  unfold valid_block_size, settled. intros Hv.
  destruct (Z.leb_spec 4096 preferred), (Z.leb_spec preferred 1048576); simpl; lia.
Qed.

Lemma handshake_heard c bs k rest :
  answerable KServerHello (server_hello bs) → Forall willing (tx_events k) →
  delivers k (encode_frame (framed MSG_SERVER_HELLO KServerHello (server_hello bs)) ++ rest) →
  ∃ k', handshake c k = (Ret (Ok (server_hello bs)), k') ∧ Forall willing (tx_events k') ∧ delivers k' rest ∧
    tx k' = tx k ++ encode_frame (request MSG_CLIENT_HELLO (prost_encode KClientHello (client_hello c))).
Proof.
  intros [Hwf Hh] Hw Hd. unfold handshake, client_send.
  destruct (client_write_frame_willing MSG_CLIENT_HELLO (prost_encode KClientHello (client_hello c)) k Hw)
    as (evs & Hr & Hev). rewrite client_encode_same in Hr. unfold client_hello in Hr at 1.
  rewrite (CM_bind_ok _ _ _ _ _ Hr).
  set (k1 := mkSocket _ _ _).
  destruct (read_frame_heard (framed MSG_SERVER_HELLO KServerHello (server_hello bs)) rest k1)
    as (k2 & Hr2 & Hd2 & Ht2 & He2); [done|by eapply delivers_rx|].
  rewrite (CM_bind_ok _ _ _ _ _ Hr2). change (negb _) with false. cbv iota.
  exists k2. rewrite He2, Ht2. split; [|done]. unfold decoded. cbn [payload framed].
  unfold serialized in *. destruct (Z.leb_spec (zlen (encoding KServerHello (server_hello bs))) INT_MAX) as [Hle|Hgt].
  - by rewrite prost_reads.
  - unfold holds in Hh. rewrite zlen_replicate in Hh by (unfold INT_MAX in *; lia). lia.
Qed.

(** C19: the handshake makes both ends agree on the block size.  When the client's
    wish or the server's own setting lies between 4096 and 1048576, connecting
    succeeds over any segmentation: the session is ready, knows the client's
    name and uses the block size the client object now holds.  The client's file
    operations and delta engine keep the block size they were created with. *)
Theorem handshake_agrees c s more :
  fresh_session s → let bs := settled (tc_block_size (tc c)) (negotiated_block_size_ s) in
  valid_block_size (tc_block_size (tc c)) ∨ valid_block_size (negotiated_block_size_ s) →
  sendable KClientHello (client_hello (tc c)) → answerable KServerHello (server_hello bs) →
  ∃ up, ∀ sk, Forall willing (tx_events sk) → delivers sk up →
    ∃ s' down, run env (set_socket sk s) = (Ret tt, s') ∧ tx (sn_socket s') = tx sk ++ down ∧
      negotiated_block_size_ s' = bs ∧ client_id_ s' = client_id (tc c) ∧ sn_fs s' = sn_fs s ∧
      ∀ k, Forall willing (tx_events k) → delivers k down →
        ∃ c' k', connect (mkClient (tc c) (disk c) (Some k :: more)) = (Ret (Ok tt), c') ∧
          stream (tc c') = Some k' ∧ tx k' = tx k ++ up ∧ connected (tc c') = true ∧
          tc_block_size (tc c') = bs ∧ disk c' = disk c ∧
          tc_file_ops (tc c') = tc_file_ops (tc c) ∧ delta_engine (tc c') = delta_engine (tc c).
Proof.
  intros [Hsh Hst] bs Hv Hreq Hans. pose proof (settled_valid _ _ Hv) as [Hlo Hhi]. fold bs in Hlo, Hhi.
  exists (encode_frame (request MSG_CLIENT_HELLO (prost_encode KClientHello (client_hello (tc c))))).
  intros sk Hw Hd. pose proof Hreq as [(_ & _ & _ & Hrange) Hh]. cbn in Hrange.
  destruct (serves_run env s _ _ sk (hello_served env s _ _ (sendable_parsed _ _ Hreq) Hh Hsh Hst Hrange
    (proj2 Hans)) Hw Hd) as (s' & reply & Hr & _ & Ht & s1 & k1 & (-> & _ & Hbs & Hid & Hdelta) & ->).
  eexists _, _. split; [exact Hr|]. split; [exact Ht|]. split; [exact Hbs|]. split; [exact Hid|].
  split; [unfold sn_fs; simpl; by rewrite Hdelta|]. intros k Hwk Hdk.
  rewrite <- (app_nil_r (encode_frame _)) in Hdk.
  destruct (handshake_heard (tc c) bs k [] Hans Hwk Hdk) as (k' & Hhs & _ & _ & Htx).
  eexists _, k'. split.
  { unfold connect, dial. rewrite CM_bind_unfold. cbn [attempts]. rewrite CM_bind_unfold. cbn [plain gets_st tc].
    unfold adopt. rewrite Hhs. reflexivity. }
  cbn [tc stream set_tc connected tc_block_size disk tc_file_ops delta_engine server_hello sh_block_size].
  rewrite (proj2 (Z.leb_le _ _) Hlo), (proj2 (Z.leb_le _ _) Hhi). done.
Qed.

End Conversations.

(** * Witnesses *)

#[local] Instance demo_prost : Prost := {| prost_encode := encode_message; prost_decode := decode_message true |}.

Lemma demo_prost_laws : @ProstLaws proto3 demo_prost.
Proof. constructor; [exact (decode_encode true)|exact (@parse_encoding proto3 proto3_laws)]. Qed.

Definition demo_client (files : list (string * bytes)) : client_state :=
  mkClient (TcpClient_new "127.0.0.1:9000" "/s" 65536 7) (demo_fs files) [].
Definition demo_server (files : list (string * bytes)) : session :=
  Session_new demo_env (mkSocket [] [] []) (demo_fs files) FileMutex_new [].

Lemma demo_local_room : local_room (demo_fs []) "/s/f".
Proof.
  split; [reflexivity|]. split; [reflexivity|]. split; [|split; discriminate].
  intros [|[|k]]; [reflexivity..|]. by destruct k.
Qed.

(** Messages of the examples are in range. *)
Ltac fits :=
  repeat match goal with
  | |- sendable _ _ => split; [cbn [msg_wf]|vm_compute; discriminate]
  | |- answerable _ _ => split; [cbn [msg_wf]|vm_compute; discriminate]
  | |- calm _ => reflexivity
  | |- fresh_session _ => split; [reflexivity|discriminate]
  | |- Forall _ _ => constructor
  | |- is_text _ => vm_compute; reflexivity
  | |- is_u32 _ => split
  | |- is_u64 _ => split
  | |- is_enum _ => split
  | |- metadata_wf _ => unfold metadata_wf
  | |- describable _ _ => split
  | |- _ ∧ _ => split
  | |- _ <= _ => vm_compute; discriminate
  | |- _ < _ => vm_compute; reflexivity
  | |- _ = _ => reflexivity
  end.

#[local] Existing Instances le_host proto3 demo_tokio demo_tokio_laws demo_prost_laws demo_sha2 demo_sha2_laws demo_disk.

Lemma handshake_agrees_witness :
  ∃ up, ∀ sk, Forall willing (tx_events sk) → delivers sk up →
    ∃ s', run demo_env (set_socket sk (demo_server [])) = (Ret tt, s') ∧ negotiated_block_size_ s' = 65536.
Proof.
  destruct (handshake_agrees demo_env (demo_client []) (demo_server []) []) as (up & Hup);
    [split; [reflexivity|discriminate]|left; vm_compute; by split|fits|fits|].
  exists up. intros sk Hw Hd. destruct (Hup sk Hw Hd) as (s' & down & Hr & _ & Hbs & _).
  exists s'. split; [exact Hr|exact Hbs].
Defined.


Lemma upload_conversation_witness :
  conversation demo_env (demo_server []) (upload_file "f") (demo_client [("f", [x61; x62])])
    (Ok (digest [x61; x62]))
    (λ local files, local = demo_fs [("f", [x61; x62])] ∧ file_at files ["s"; "f"] = Some [x61; x62] ∧
       file_at files ["s"; "f.tmp"] = None ∧ others_kept (demo_fs []) files "/s/f").
Proof.
  apply (upload_conversation demo_env "f" "/s/f" [x61; x62] 0 (demo_client [("f", [x61; x62])]) (demo_server []));
    first [exact demo_room|fits].
Defined.

Lemma listing_conversation_witness :
  conversation demo_env (demo_server []) (list_server_files "" true) (demo_client []) (Ok [])
    (λ local tree, local = demo_fs [] ∧ tree = demo_fs []).
Proof.
  apply (listing_conversation demo_env "" true [] (demo_client []) (demo_server []));
    [fits|vm_compute; reflexivity|fits|fits].
Defined.

Lemma sync_unchanged_witness :
  conversation demo_env (demo_server [("f", [x61; x62])]) (sync_file "f") (demo_client [("f", [x61; x62])])
    (Ok (digest [x61; x62])) (λ local files, local = demo_fs [("f", [x61; x62])] ∧ files = demo_fs [("f", [x61; x62])]).
Proof.
  apply (sync_unchanged demo_env "f" "/s/f" [x61; x62] 0 [x61; x62] 0 (demo_client [("f", [x61; x62])])
    (demo_server [("f", [x61; x62])])); fits.
Defined.

