(* ===== verification/DeltaConversation.v ===== *)
(** A delta synchronisation from end to end: the client of
    src/client/src/tcp_client.rs and src/client/src/delta_sync.rs against the
    session and the handler of src/server/src/session.cpp and
    src/server/src/delta_sync_handler.cpp. *)
From S2P Require Import Prelude Sha256 Paths FileSystem FileManager FileMutex WireProtocol Proto Proto3.
From S2P Require Import DeltaSync Negotiator ZeroCopySender Ends Session Service.
From S2P Require Import ClientBase ClientWire ClientFiles ClientDelta TcpClient Conversation.

(** * The blocks that go over the wire *)

(** The temporary file after the blocks [indices] of [data]. *)
Definition patchwork (bs : Z) (data tmp : bytes) (indices : list Z) : bytes :=
  fold_left (λ c i, overlay c (Z.to_nat (i * bs)) (block_of bs data i)) indices tmp.

(** Block [i] of the client's file is not known to be block [i] of the server's. *)
Definition hashes_differ (bs : Z) (data server : bytes) (i : Z) : bool :=
  (blocks_of (zlen data) bs <=? i) ||
  negb (adler32 (block_of bs data i) =? adler32 (block_of bs server i)) ||
  negb (bool_decide (BlockHash.sha256_hex (block_of bs data i) = BlockHash.sha256_hex (block_of bs server i))).

(** What the server asks for, and what the client sends of that. *)
Definition asked (bs : Z) (data server : bytes) : list Z :=
  let m := blocks_of (zlen server) bs in
  filter (λ i, hashes_differ bs data server i = true) (seqZ 0 m) ++ seqZ m (blocks_of (zlen data) bs - m).
Definition sent_blocks (bs : Z) (data server : bytes) : list Z :=
  filter (λ i, i * bs < zlen data) (asked bs data server).

(** ** The signatures, as the server keeps them *)

Lemma client_map_seq (f : Z → DeltaBlockSignature) n i :
  (∀ j, 0 <= j < n → block_index (f j) = j) → 0 <= i →
  client_map (f <$> seqZ 0 n) !! i = if decide (i < n) then Some (f i) else None.
Proof.
  intros Hf Hi. case_decide as Hlt.
  - apply client_map_last. exists (f <$> seqZ 0 i), (f <$> seqZ (i + 1) (n - i - 1)).
    split; [|split; [apply Hf; lia|]].
    + rewrite <- fmap_cons, <- fmap_app. f_equal. replace n with (i + (n - i)) at 1 by lia.
      rewrite seqZ_app by lia. f_equal. rewrite seqZ_cons by lia.
      repeat (f_equal; try lia).
    + apply Forall_fmap, Forall_forall. intros j Hj%elem_of_seqZ. simpl. rewrite Hf; lia.
  - destruct (client_map _ !! i) as [sig|] eqn:Hm; [|done].
    apply client_map_last in Hm as (pre & post & Heq & Hsig & _).
    assert (sig ∈ f <$> seqZ 0 n) as (j & -> & Hj%elem_of_seqZ)%list_elem_of_fmap by (rewrite Heq; set_solver).
    rewrite Hf in Hsig; lia.
Qed.

Lemma adler32_bound data : 0 <= adler32 data < 2 ^ 32.
Proof.
  rewrite adler32_rfc. unfold Rfc1950.checksum.
  pose proof (Z.mod_pos_bound (Rfc1950.B data) 65521). pose proof (Z.mod_pos_bound (Rfc1950.A data) 65521). lia.
Qed.

(** A signature request for [data], as the client builds it. *)
Definition signatures_of (bs : Z) (rel : string) (data : bytes) : DeltaSyncSignatureRequest :=
  mkDeltaSyncSignatureRequest rel (zlen data) bs
    ((λ i, let block := block_of bs data i in
           mkBlockSignature i (adler32 block) (BlockHash.sha256_hex block) (i * bs) (zlen block))
     <$> seqZ 0 (blocks_of (zlen data) bs)).

Lemma asked_spec bs rel data server : 0 < bs < 2 ^ 32 → blocks_of (zlen data) bs < 2 ^ 32 →
  filter (λ i, block_differs (client_map (to_signature <$> sq_signatures (signatures_of bs rel data))) i
                 (block_of bs server i) = true) (seqZ 0 (blocks_of (zlen server) bs)) ++
    seqZ (blocks_of (zlen server) bs) (blocks_of (zlen data) bs - blocks_of (zlen server) bs) =
  asked bs data server.
Proof.
  intros Hbs Hn. unfold asked. f_equal. apply filter_agree. intros i [Hi _]%elem_of_seqZ.
  unfold signatures_of. cbn [sq_signatures]. rewrite <- list_fmap_compose. unfold block_differs, hashes_differ.
  rewrite client_map_seq; [|intros j Hj; cbn; apply u32_small; lia|done].
  destruct (Z.leb_spec (blocks_of (zlen data) bs) i); case_decide; try lia.
  unfold compose, to_signature. cbn [rolling_hash strong_hash bg_rolling_hash bg_strong_hash orb].
  by rewrite u32_small by apply adler32_bound.
Qed.

(** * The server's side *)

Section Blocks.
Context `{Host, Codec} (env : session_env) (bs : Z) (rel p : string).
Context (Hresolve : resolve_path (se_file_manager env) rel = Ret p) (Hbs : 0 < bs < 2 ^ 32).

(** A session in the middle of the blocks: [tmp] is what the temporary file
    holds, and the published files are those of [s0]. *)
Record taking (s0 s : session) (tmp : bytes) : Prop := {
  tk_idle : idle_mutex (ds_locks (sn_delta s)) rel;
  tk_calm : calm (sn_fs s);
  tk_room : room_for (sn_fs s) p;
  tk_tmp : default [] (file_at (sn_fs s) (tmp_loc (sn_fs s) p)) = tmp;
  tk_kept : published_kept (sn_delta s0) (sn_delta s) p;
  tk_bs : negotiated_block_size_ s = bs
}.

Definition block_msg (i : Z) (block : bytes) : DeltaSyncBlockData :=
  mkDeltaSyncBlockData rel i (i * bs) block (BlockHash.sha256_hex block).

(** The handler on a block in range, up to its answer. *)
Lemma block_handled s0 s tmp i block k rest payload :
  parse_payload KDeltaSyncBlockData payload = Some (block_msg i block) →
  taking s0 s tmp → 0 <= i < 2 ^ 32 → i * bs < 2 ^ 63 → delivers k rest →
  let fin := zlen block <? bs in
  ∃ d, handle_delta_sync_block_data env payload (set_socket k s) =
      (_ ← (if fin then
              hash ← on_files (compute_sha256 (se_file_manager env) rel);
              send_message MSG_DELTA_SYNC_COMPLETE KDeltaSyncComplete (mkDeltaSyncComplete rel 1 "" hash)
            else mret tt);
       enter READY) (set_delta d (set_state TRANSFERRING (set_socket k s))) ∧
    idle_mutex (ds_locks d) rel ∧ others_kept (sn_fs s) (ds_fs d) p ∧ cwd (ds_fs d) = cwd (sn_fs s) ∧
    let content := overlay tmp (Z.to_nat (i * bs)) block in
    if fin then file_at (ds_fs d) (target_loc (sn_fs s) p) = Some content ∧
                file_at (ds_fs d) (tmp_loc (sn_fs s) p) = None
    else file_at (ds_fs d) (tmp_loc (sn_fs s) p) = Some content ∧
         file_at (ds_fs d) (target_loc (sn_fs s) p) = file_at (sn_fs s) (target_loc (sn_fs s) p) ∧
         publishable (ds_fs d) p.
Proof.
  intros Hp [Hidle Hcalm Hroom Htmp Hkept Hneg] Hi Hoff Hd fin.
  unfold handle_delta_sync_block_data. rewrite Hp, SM_bind_unfold. cbn [enter modify_st].
  set (s1 := set_state TRANSFERRING _). rewrite SM_bind_unfold. cbn [gets_st].
  change (negotiated_block_size_ s1) with (negotiated_block_size_ s). rewrite Hneg.
  cbn [block_msg bd_relative_path bd_block_index bd_block_offset bd_data bd_strong_hash]. fold fin.
  rewrite u32_small, u64_small by nia.
  pose proof (block_data_spec (delta_handler env) rel p i (i * bs) block fin (sn_delta s) Hresolve Hidle) as Hw.
  unfold wp in Hw. rewrite SM_bind_unfold. unfold on_delta at 1, zoom. change (sn_delta s1) with (sn_delta s).
  destruct (handle_block_data _ _ _ _ _ _ _ (sn_delta s)) as [r d].
  destruct Hw as (code & -> & Hid & Hc & Ho & Hcase & Hlive).
  destruct (Hlive Hcalm Hroom) as [-> Hpub]; [rewrite i64_small; nia|].
  destruct Hcase as [[? _]|(_ & _ & base & Hbase & Heff)]; [done|].
  assert (base = tmp) as -> by (destruct Hbase as [->|[_ ?]]; done).
  exists d. split.
  - change (1 =? 1) with true. cbn [negb]. rewrite orb_false_r. destruct fin; [|done].
    cbv [mbind SM_bind mret SM_ret]. by destruct (on_files _ _) as [[]].
  - do 3 (split; [done|]). cbv zeta. destruct fin; [by destruct Heff as (? & ? & _)|].
    destruct Heff as (? & ? & _). split; [done|]. split; [done|]. by apply Hpub.
Qed.

(** The signatures come in: the answer names the blocks, and they may follow. *)
Lemma signature_served s payload data server t :
  parse_payload KDeltaSyncSignatureRequest payload = Some (signatures_of bs rel data) → holds payload →
  shutdown_requested_ s = false → state_ s ≠ DISCONNECTED →
  lookup_node (sn_fs s) p = Some (File server t) → calm (sn_fs s) → room_for (sn_fs s) p →
  idle_mutex (ds_locks (sn_delta s)) rel → negotiated_block_size_ s = bs →
  zlen data < 2 ^ 63 → zlen server < 2 ^ 63 →
  blocks_of (zlen data) bs < 2 ^ 32 → blocks_of (zlen server) bs < 2 ^ 32 →
  let answer := mkDeltaSyncBlockRequest rel (asked bs data server) in
  holds (serialized KDeltaSyncBlockRequest answer) →
  serves env s (encode_frame (request MSG_DELTA_SYNC_SIGNATURE_REQUEST payload)) (λ reply s',
    reply = encode_frame (framed MSG_DELTA_SYNC_BLOCK_REQUEST KDeltaSyncBlockRequest answer) ∧
    taking s s' (default [] (file_at (sn_fs s) (tmp_loc (sn_fs s) p)))).
Proof.
  intros Hp Hh Hsh Hst Hl Hcalm Hroom Hidle Hneg Hd Hsv Hnd Hns answer Ha.
  rewrite <- (app_nil_r (encode_frame _)). apply serves_request; [done..|]. intros k rest Hw Hdel.
  change (dispatch env (request MSG_DELTA_SYNC_SIGNATURE_REQUEST payload))
    with (handle_delta_sync_signature_request env payload).
  unfold handle_delta_sync_signature_request. rewrite Hp, SM_bind_unfold. cbn [enter modify_st].
  set (s1 := set_state NEGOTIATING _). pose proof (zlen_nonneg data).
  change (sq_file_size (signatures_of bs rel data)) with (zlen data).
  change (sq_block_size (signatures_of bs rel data)) with bs.
  change (sq_relative_path (signatures_of bs rel data)) with rel. rewrite u64_small, u32_small by lia.
  destruct (signature_request_run (delta_handler env) rel p (sn_delta s) server t (zlen data) bs
    (to_signature <$> sq_signatures (signatures_of bs rel data))) as (locks & Hlocks & Hrun); try done; try lia.
  rewrite asked_spec in Hrun by done. set (d := mkDelta _ locks _) in Hrun.
  assert (on_delta (handle_signature_request (delta_handler env) rel (zlen data) bs
    (to_signature <$> sq_signatures (signatures_of bs rel data))) s1 =
    (Ret (mkRequest rel (asked bs data server)), set_delta d s1)) as Hrun'.
  { unfold on_delta, zoom. change (sn_delta s1) with (sn_delta s). by rewrite Hrun. }
  rewrite (SM_bind_ret _ _ _ _ _ Hrun').
  destruct (answer_ready MSG_DELTA_SYNC_BLOCK_REQUEST KDeltaSyncBlockRequest answer (set_delta d s1) rest)
    as (s2 & Hs2 & ? & ? & ? & ? & Hsame); [done..|].
  exists s2, (encode_frame (framed MSG_DELTA_SYNC_BLOCK_REQUEST KDeltaSyncBlockRequest answer)).
  split; [exact Hs2|]. do 4 (split; [done|]). split; [done|]. destruct Hsame as (Hsd & Hsb & _).
  split; unfold sn_fs; rewrite ?Hsd; try done. by rewrite Hsb.
Qed.

Definition block_frame (payload : bytes) : bytes := encode_frame (request MSG_DELTA_SYNC_BLOCK_DATA payload).

(** A full block is taken without an answer. *)
Lemma full_block_served s0 s tmp i block payload :
  parse_payload KDeltaSyncBlockData payload = Some (block_msg i block) → holds payload →
  shutdown_requested_ s = false → state_ s ≠ DISCONNECTED → taking s0 s tmp →
  0 <= i < 2 ^ 32 → i * bs < 2 ^ 63 → zlen block = bs →
  serves env s (block_frame payload) (λ reply s',
    reply = [] ∧ taking s0 s' (overlay tmp (Z.to_nat (i * bs)) block)).
Proof.
  intros Hp Hh Hsh Hst Htk Hi Hoff Hfull. unfold block_frame. rewrite <- (app_nil_r (encode_frame _)).
  apply serves_request; [done..|]. intros k rest Hw Hd.
  destruct (block_handled s0 s tmp i block k rest payload) as (d & Hr & Hid & Ho & Hc & Hf); [done..|].
  rewrite Hfull, Z.ltb_irrefl in Hr, Hf. destruct Hf as (Htmp & Htgt & Hcalm' & Hroom' & _).
  change (dispatch env (request MSG_DELTA_SYNC_BLOCK_DATA payload)) with (handle_delta_sync_block_data env payload).
  rewrite Hr. eexists _, []. split; [reflexivity|]. split; [done|]. split; [done|]. split; [done|].
  split; [by rewrite app_nil_r|]. split; [done|]. destruct Htk as [_ _ _ _ Hkept Hneg]. split; try done.
  - enough (default [] (file_at (ds_fs d) (tmp_loc (ds_fs d) p)) = overlay tmp (Z.to_nat (i * bs)) block) by done.
    unfold tmp_loc in *. by rewrite (loc_cwd _ _ _ Hc), Htmp.
  - by eapply published_kept_trans.
Qed.

(** A short block publishes the file and is answered with its digest. *)
Lemma last_block_served s0 s tmp i block payload :
  let content := overlay tmp (Z.to_nat (i * bs)) block in
  let answer := mkDeltaSyncComplete rel 1 "" (to_hex (sha256_raw content)) in
  parse_payload KDeltaSyncBlockData payload = Some (block_msg i block) → holds payload →
  holds (serialized KDeltaSyncComplete answer) →
  shutdown_requested_ s = false → state_ s ≠ DISCONNECTED → taking s0 s tmp →
  0 <= i < 2 ^ 32 → i * bs < 2 ^ 63 → zlen block < bs →
  serves env s (block_frame payload) (λ reply s',
    reply = encode_frame (framed MSG_DELTA_SYNC_COMPLETE KDeltaSyncComplete answer) ∧
    file_at (sn_fs s') (target_loc (sn_fs s0) p) = Some content ∧
    file_at (sn_fs s') (tmp_loc (sn_fs s0) p) = None ∧ others_kept (sn_fs s0) (sn_fs s') p ∧
    cwd (sn_fs s') = cwd (sn_fs s0)).
Proof.
  intros content answer Hp Hh Ha Hsh Hst Htk Hi Hoff Hshort. unfold block_frame. rewrite <- (app_nil_r (encode_frame _)).
  apply serves_request; [done..|]. intros k rest Hw Hd.
  destruct (block_handled s0 s tmp i block k rest payload) as (d & Hr & Hid & Ho & Hc & Hf); [done..|].
  rewrite (proj2 (Z.ltb_lt _ _) Hshort) in Hr, Hf. destruct Hf as (Htgt & Htmp). fold content in Htgt.
  destruct Htk as [_ _ (Hnd & _) _ (Hc0 & Ho0 & _) _]. fold (sn_fs s) (sn_fs s0) in Hc0, Ho0.
  change (dispatch env (request MSG_DELTA_SYNC_BLOCK_DATA payload)) with (handle_delta_sync_block_data env payload).
  rewrite Hr. set (s1 := set_delta d _).
  destruct (file_lookup (ds_fs d) p content) as [t Hlk].
  { done. }
  { unfold target_loc in Htgt. by rewrite (loc_cwd _ _ _ Hc). }
  pose proof (compute_sha256_run (se_file_manager env) rel p (sn_fs s1) content t Hresolve Hlk) as Hhash.
  rewrite SM_bind_unfold. rewrite (SM_bind_ret _ _ _ _ _ (on_files_pure _ s1 _ Hhash)).
  destruct (answer_ready MSG_DELTA_SYNC_COMPLETE KDeltaSyncComplete answer s1 rest)
    as (s2 & Hs2 & ? & ? & ? & ? & Hsame); [done..|].
  exists s2, (encode_frame (framed MSG_DELTA_SYNC_COMPLETE KDeltaSyncComplete answer)).
  rewrite SM_bind_unfold in Hs2. split; [exact Hs2|]. do 4 (split; [done|]). split; [done|].
  destruct Hsame as (Hsd & _). assert (sn_fs s2 = ds_fs d) as -> by (unfold sn_fs; by rewrite Hsd).
  unfold target_loc, tmp_loc, others_kept in *. unfold target_loc, tmp_loc in *. rewrite !(loc_cwd _ _ _ Hc0) in *.
  split; [done|]. split; [done|]. split; [|congruence].
  intros l Hl1 Hl2. rewrite Ho by done. by apply Ho0.
Qed.

(** A run of full blocks of [data]. *)
Lemma blocks_served (wire : Z → bytes) data s0 indices : ∀ s tmp,
  Forall (λ i, 0 <= i < 2 ^ 32 ∧ (i + 1) * bs <= zlen data ∧ holds (wire i) ∧
    parse_payload KDeltaSyncBlockData (wire i) = Some (block_msg i (block_of bs data i))) indices →
  zlen data < 2 ^ 63 → shutdown_requested_ s = false → state_ s ≠ DISCONNECTED → taking s0 s tmp →
  serves env s (concat ((λ i, block_frame (wire i)) <$> indices)) (λ reply s',
    reply = [] ∧ taking s0 s' (patchwork bs data tmp indices)).
Proof.
  induction indices as [|i indices IH]; intros s tmp Hall Hlen Hsh Hst Htk.
  - apply serves_nothing; [done..|]. intros sk. split; [done|]. by destruct Htk.
  - apply Forall_cons in Hall as [(Hi & Hin & Hh & Hp) Hall']. rewrite fmap_cons. cbn [concat].
    assert (0 <= i * bs) by (apply Z.mul_nonneg_nonneg; lia). rewrite Z.mul_add_distr_r, Z.mul_1_l in Hin.
    eapply serves_seq; [eapply (full_block_served s0 s tmp i (block_of bs data i)); try done; [lia|]|].
    + rewrite zlen_block by lia. lia.
    + intros r1 s1 [-> Htk1] (Hsh1 & Hst1 & _). by apply IH.
Qed.

End Blocks.

(** ** Which blocks are sent *)

(** The server has no block [i], or one with other hashes. *)
Definition stale (bs : Z) (data server : bytes) (i : Z) : bool :=
  (blocks_of (zlen server) bs <=? i) || hashes_differ bs data server i.

Lemma block_inside_iff size bs i : 0 < bs → i * bs < size ↔ i < blocks_of size bs.
Proof.
  intros Hbs. unfold blocks_of. split; intros Hi.
  - apply Z.lt_le_trans with (i + 1); [lia|]. apply Z.div_le_lower_bound; lia.
  - pose proof (Z.mul_div_le (size + bs - 1) bs Hbs). nia.
Qed.

Lemma blocks_of_nonneg size bs : 0 < bs → 0 <= size → 0 <= blocks_of size bs.
Proof. intros. unfold blocks_of. apply Z.div_pos; lia. Qed.

Lemma sent_blocks_filter bs data server : 0 < bs →
  sent_blocks bs data server = filter (λ i, stale bs data server i = true) (seqZ 0 (blocks_of (zlen data) bs)).
Proof.
  intros Hbs. unfold sent_blocks, asked. set (n := blocks_of (zlen data) bs). set (m := blocks_of (zlen server) bs).
  assert (0 <= n ∧ 0 <= m) as [Hn Hm] by (split; apply blocks_of_nonneg; try apply zlen_nonneg; done).
  assert (∀ i, i * bs < zlen data ↔ i < n) as Hin by (intros; by apply block_inside_iff).
  rewrite filter_app. rewrite list_filter_filter. destruct (decide (m <= n)) as [Hmn|Hmn].
  - rewrite (filter_all _ (seqZ m _)) by (apply Forall_forall; intros i Hi%elem_of_seqZ; rewrite Hin; lia).
    replace n with (m + (n - m)) at 2 by lia. rewrite seqZ_app, filter_app, Z.add_0_l by lia. f_equal.
    + apply filter_agree. intros i Hi%elem_of_seqZ. rewrite Hin. unfold stale. fold m.
      rewrite (proj2 (Z.leb_gt m i)) by lia. simpl. split; [tauto|]. intros ->. split; [lia|done].
    + symmetry. apply filter_all, Forall_forall. intros i Hi%elem_of_seqZ. unfold stale. fold m.
      by rewrite (proj2 (Z.leb_le m i)) by lia.
  - rewrite (seqZ_nil m) by lia. rewrite filter_nil, app_nil_r.
    replace m with (n + (m - n)) by lia. rewrite seqZ_app, filter_app, Z.add_0_l by lia.
    rewrite (filter_none _ (seqZ n _)).
    + rewrite app_nil_r. apply filter_agree. intros i Hi%elem_of_seqZ. rewrite Hin. unfold stale. fold m.
      rewrite (proj2 (Z.leb_gt m i)) by lia. simpl. split; [tauto|]. intros ->. split; [lia|done].
    + apply Forall_forall. intros i Hi%elem_of_seqZ. rewrite Hin. lia.
Qed.

(** ** What the blocks add up to *)

Lemma overlay_lookup_gap c off d k : (length c <= k < off)%nat → d ≠ [] → overlay c off d !! k = Some x00.
Proof.
  intros Hk Hd. destruct d as [|b d]; [done|]. unfold overlay.
  rewrite lookup_app_l by (rewrite length_take, length_app, length_replicate; lia).
  rewrite lookup_take_lt, lookup_app_r by lia. apply lookup_replicate_2. lia.
Qed.

(** The blocks received are in place, and all else is zero. *)
Definition patched (bs : Z) (data tmp : bytes) (received : list Z) : Prop :=
  blocks_in_place bs data tmp received ∧
  ∀ k, (k < length tmp)%nat → Z.of_nat k / bs ∉ received → tmp !! k = Some x00.

Lemma patch_block bs data tmp received i : 0 < bs → 0 <= i < blocks_of (zlen data) bs →
  patched bs data tmp received →
  patched bs data (overlay tmp (Z.to_nat (i * bs)) (block_of bs data i)) (i :: received).
Proof.
  intros Hbs Hi [Hin Hz]. split; [by apply place_block|].
  pose proof (block_starts_inside _ _ _ Hbs Hi) as Hoff.
  destruct (actual_block bs data i Hbs Hoff) as [_ Hne].
  pose proof (zlen_block bs data i Hbs ltac:(lia)) as Hblk. unfold zlen in *.
  intros k Hk Hkin. apply not_elem_of_cons in Hkin as [Hki Hkin]. rewrite length_overlay in Hk by done.
  assert (~ (Z.to_nat (i * bs) <= k < Z.to_nat (i * bs) + length (block_of bs data i)))%nat as Hout.
  { intros Hr. apply Hki. symmetry. apply Z.div_unique with (Z.of_nat k - i * bs); lia. }
  destruct (decide (k < length tmp)%nat).
  - rewrite overlay_lookup_keep by lia. by apply Hz.
  - apply overlay_lookup_gap; [lia|done].
Qed.

Lemma patchwork_in_place bs data indices : 0 < bs → Forall (λ i, 0 <= i < blocks_of (zlen data) bs) indices →
  ∀ tmp received, blocks_in_place bs data tmp received →
  blocks_in_place bs data (patchwork bs data tmp indices) (reverse indices ++ received).
Proof.
  intros Hbs. induction 1 as [|i indices Hi _ IH]; intros tmp received Hin; [done|].
  rewrite reverse_cons, <- app_assoc. apply IH. by apply place_block.
Qed.

Lemma patchwork_patched bs data indices : 0 < bs → Forall (λ i, 0 <= i < blocks_of (zlen data) bs) indices →
  ∀ tmp received, patched bs data tmp received →
  patched bs data (patchwork bs data tmp indices) (reverse indices ++ received).
Proof.
  intros Hbs. induction 1 as [|i indices Hi _ IH]; intros tmp received Hin; [done|].
  rewrite reverse_cons, <- app_assoc. apply IH. by apply patch_block.
Qed.

(** All the blocks: the whole file, whatever shorter thing was there before. *)
Lemma patchwork_all bs data tmp : 0 < bs → (length tmp <= length data)%nat →
  patchwork bs data tmp (seqZ 0 (blocks_of (zlen data) bs)) = data.
Proof.
  intros Hbs Hlen. eapply (blocks_complete bs data _ _ Hbs); cycle 1.
  - apply patchwork_in_place with (received := []); [done| |].
    + apply Forall_forall. intros i Hi%elem_of_seqZ. lia.
    + split; [done|]. set_solver.
  - intros i Hi. rewrite app_nil_r, elem_of_reverse. apply elem_of_seqZ. lia.
Qed.

(** The client's file with the blocks that were not sent blanked out. *)
Definition blanked (bs : Z) (data : bytes) (keep : Z → bool) : bytes :=
  imap (λ k b, if keep (Z.of_nat k / bs) then b else x00) data.

Lemma patchwork_blanked bs data (keep : Z → bool) : 0 < bs →
  let n := blocks_of (zlen data) bs in 0 < n → keep (n - 1) = true →
  patchwork bs data [] (filter (λ i, keep i = true) (seqZ 0 n)) = blanked bs data keep.
Proof.
  intros Hbs n Hn Hlast. set (l := filter _ _).
  assert (∀ i, i ∈ l ↔ 0 <= i < n ∧ keep i = true) as Hl.
  { intros i. unfold l. rewrite list_elem_of_filter, elem_of_seqZ. split; intros; intuition lia. }
  destruct (patchwork_patched bs data l Hbs) with (tmp := @nil byte) (received := @nil Z) as [[Hlen Hin] Hz].
  { apply Forall_forall. intros i Hi%Hl. fold n. lia. }
  { split; [split; [simpl; lia|set_solver]|]. intros k Hk. simpl in Hk. lia. }
  rewrite app_nil_r in Hin, Hz. set (c := patchwork _ _ _ _) in *.
  assert (∀ k, (k < length data)%nat → 0 <= Z.of_nat k / bs < n) as Hrange.
  { intros k Hk. split; [apply Z.div_pos; lia|]. apply block_inside_iff; [done|].
    pose proof (Z.mul_div_le (Z.of_nat k) bs Hbs). unfold zlen. lia. }
  assert (length c = length data) as Hc.
  { enough (length data - 1 < length c)%nat by lia. apply lookup_lt_is_Some.
    pose proof (block_starts_inside (zlen data) bs (n - 1) Hbs ltac:(lia)) as Hb. unfold zlen in Hb.
    rewrite Hin; [apply lookup_lt_is_Some; lia|lia|]. rewrite elem_of_reverse, Hl.
    replace (Z.of_nat (length data - 1) / bs) with (n - 1); [split; [lia|done]|].
    apply Z.le_antisymm.
    - apply Z.div_le_lower_bound; lia.
    - pose proof (Hrange (length data - 1)%nat). lia. }
  apply list_eq. intros k. unfold blanked. rewrite list_lookup_imap.
  destruct (decide (k < length data)%nat) as [Hk|Hk]; cycle 1.
  { rewrite !lookup_ge_None_2 by lia. done. }
  specialize (Hrange k Hk). destruct (data !! k) as [b|] eqn:Hdk; [|apply lookup_ge_None in Hdk; lia]. simpl.
  destruct (keep (Z.of_nat k / bs)) eqn:Hkeep.
  - rewrite <- Hdk. apply Hin; [done|]. rewrite elem_of_reverse, Hl. split; [lia|done].
  - apply Hz; [lia|]. rewrite elem_of_reverse, Hl, Hkeep. by intros [_ ?].
Qed.

(** * Both sides *)

Section Delta.
Context `{Host, Tokio, !TokioLaws, Disk, Sha2, !Sha2Laws, Codec, Prost, !ProstLaws} (env : session_env).

(** Block [i] of [data] on the wire. *)
Definition block_wire (bs : Z) (rel : string) (data : bytes) (i : Z) : bytes :=
  prost_encode KDeltaSyncBlockData (block_msg bs rel i (block_of bs data i)).

Lemma send_blocks_willing msgs : ∀ k, Forall willing (tx_events k) →
  ∃ evs, send_blocks msgs k = (Ret (Ok tt), mkSocket (rx k) evs
    (tx k ++ concat ((λ m, block_frame (prost_encode KDeltaSyncBlockData m)) <$> msgs))) ∧ Forall willing evs.
Proof.
  induction msgs as [|m msgs IH]; intros k Hw.
  - exists (tx_events k). rewrite app_nil_r. by destruct k.
  - destruct (client_write_frame_willing MSG_DELTA_SYNC_BLOCK_DATA (prost_encode KDeltaSyncBlockData m) k Hw)
      as (evs & Hr & Hev). rewrite client_encode_same in Hr.
    destruct (IH (mkSocket (rx k) evs (tx k ++ block_frame (prost_encode KDeltaSyncBlockData m))) Hev)
      as (evs' & Hr' & Hev').
    exists evs'. split; [|done]. cbn [send_blocks]. unfold client_send. rewrite (CM_bind_ok _ _ _ _ _ Hr).
    rewrite fmap_cons. cbn [concat]. rewrite app_assoc. exact Hr'.
Qed.

Lemma says_blocks msgs c : says (on_stream (send_blocks msgs)) c
  (concat ((λ m, block_frame (prost_encode KDeltaSyncBlockData m)) <$> msgs)) [] (Ok tt) c.
Proof.
  apply says_stream. intros k rest Hw Hd. destruct (send_blocks_willing msgs k Hw) as (evs & -> & Hev).
  eexists. split; [reflexivity|]. split; [done|]. split; [by eapply delivers_rx|done].
Qed.

(** A client whose parts agree on the block size [bs], with [data] as its file. *)
Record client_ready (c : client_state) (rel : string) (bs : Z) (data : bytes) : Prop := {
  cr_engine : file_ops (delta_engine (tc c)) = tc_file_ops (tc c);
  cr_ops : fo_block_size (tc_file_ops (tc c)) = bs;
  cr_block : tc_block_size (tc c) = bs;
  cr_range : 0 < bs < 2 ^ 32;
  cr_limit : bs <= alloc_limit;
  cr_calm : calm (disk c);
  cr_file : ∃ t, lookup_node (disk c) (local_path c rel) = Some (File data t) ∧ 0 <= mtime (disk c) t < 2 ^ 64;
  cr_size : zlen data < 2 ^ 61;
  cr_blocks : blocks_of (zlen data) bs < 2 ^ 32
}.

Lemma delta_said c rel bs data server hash :
  client_ready c rel bs data →
  answerable KDeltaSyncBlockRequest (mkDeltaSyncBlockRequest rel (asked bs data server)) →
  answerable KDeltaSyncComplete (mkDeltaSyncComplete rel 1 "" hash) →
  says (delta_sync_upload rel) c
    (encode_frame (request MSG_DELTA_SYNC_SIGNATURE_REQUEST
       (prost_encode KDeltaSyncSignatureRequest (signatures_of bs rel data))) ++
     concat ((λ i, block_frame (block_wire bs rel data i)) <$> sent_blocks bs data server))
    (encode_frame (framed MSG_DELTA_SYNC_BLOCK_REQUEST KDeltaSyncBlockRequest
       (mkDeltaSyncBlockRequest rel (asked bs data server))) ++
     encode_frame (framed MSG_DELTA_SYNC_COMPLETE KDeltaSyncComplete (mkDeltaSyncComplete rel 1 "" hash)))
    (Ok hash) c.
Proof.
  intros [Heng Hops Htc Hbs Hlim Hcalm (t & Hl & _) Hlen Hcount] [Hwf1 Hh1] [Hwf2 Hh2].
  set (engine := delta_engine (tc c)).
  assert (fo_block_size (file_ops engine) = bs) as Hfo by (unfold engine; by rewrite Heng).
  assert (lookup_node (disk c) (client_resolve_path (file_ops engine) rel) = Some (File data t)) as Hle
    by (unfold engine; by rewrite Heng).
  assert (compute_signatures engine rel (disk c) =
    (Ret (Ok (client_signature engine data <$> seqZ 0 (blocks_of (zlen data) bs))), disk c)) as Hsig.
  { rewrite <- Hfo at 1. apply (compute_signatures_calm engine rel data t); rewrite ?Hfo; done. }
  assert (read_requested_blocks engine rel (asked bs data server) (disk c) =
    (Ret (Ok (block_message engine rel data <$> sent_blocks bs data server)), disk c)) as Hread.
  { pose proof (read_requested_blocks_calm engine rel data t (disk c)) as Hr. rewrite Hfo in Hr.
    apply Hr; try done. unfold asked. pose proof (blocks_of_nonneg (zlen server) bs ltac:(lia) (zlen_nonneg _)).
    apply Forall_app. split; apply Forall_forall; intros i.
    - intros [_ Hi%elem_of_seqZ]%list_elem_of_filter. lia.
    - intros Hi%elem_of_seqZ. lia. }
  unfold delta_sync_upload.
  eapply says_quiet; [apply says_connected|]. apply says_gets. intros k0.
  cbn [tc_file_ops tc_block_size delta_engine tc set_stream]. rewrite Htc.
  eapply says_quiet; [by apply says_disk_pure|].
  eapply says_quiet; [by eapply says_disk_pure, client_file_size_calm|]. cbv beta zeta.
  eapply says_tell.
  { match goal with |- says (on_stream (client_send _ _ ?m)) _ _ _ _ _ =>
      replace m with (signatures_of bs rel data); [apply says_send|] end.
    unfold signatures_of, build_signature_request. f_equal. rewrite <- list_fmap_compose.
    unfold compose, client_signature. rewrite Hfo. done. }
  rewrite <- (app_nil_r (concat _)).
  eapply says_hear; [by apply says_read|].
  eapply says_quiet; [by eapply (says_decoded KDeltaSyncBlockRequest)|]. cbn [br_requested_block_indices].
  eapply says_quiet; [by apply says_disk_pure|].
  eapply says_tell.
  { match goal with |- says (on_stream (send_blocks ?l)) _ ?u _ _ _ =>
      replace u with (concat ((λ m, block_frame (prost_encode KDeltaSyncBlockData m)) <$> l)); [apply says_blocks|] end.
    f_equal. rewrite <- list_fmap_compose. unfold compose, block_message, block_wire, block_msg. rewrite Hfo. done. }
  rewrite <- (app_nil_r (encode_frame (framed MSG_DELTA_SYNC_COMPLETE _ _))).
  eapply says_hear; [by apply says_read|].
  eapply says_quiet; [by eapply (says_decoded KDeltaSyncComplete)|]. apply says_ret.
Qed.

(** A server with [server] as its file, free to take blocks of size [bs]. *)
Record server_ready (s : session) (rel p : string) (bs : Z) (server : bytes) : Prop := {
  sr_path : resolve_path (se_file_manager env) rel = Ret p;
  sr_file : ∃ t, lookup_node (sn_fs s) p = Some (File server t);
  sr_calm : calm (sn_fs s);
  sr_room : room_for (sn_fs s) p;
  sr_idle : idle_mutex (ds_locks (sn_delta s)) rel;
  sr_block : negotiated_block_size_ s = bs;
  sr_size : zlen server < 2 ^ 61;
  sr_blocks : blocks_of (zlen server) bs < 2 ^ 32
}.

Lemma server_ready_same s s' rel p bs server : same_session s s' →
  server_ready s rel p bs server → server_ready s' rel p bs server.
Proof. intros (Hd & Hb & _) []. split; unfold sn_fs in *; by rewrite ?Hd, ?Hb. Qed.

(** The last block of the client's file is short, and is sent. *)
Definition closes (bs : Z) (data server : bytes) : Prop :=
  zlen data mod bs ≠ 0 ∧ stale bs data server (blocks_of (zlen data) bs - 1) = true.

Lemma closes_last bs data server : 0 < bs → closes bs data server →
  let n := blocks_of (zlen data) bs in
  0 < n ∧ sent_blocks bs data server =
    filter (λ i, stale bs data server i = true) (seqZ 0 (n - 1)) ++ [n - 1].
Proof.
  intros Hbs [Hmod Hlast] n. pose proof (last_short_block data bs Hbs Hmod) as (Hb & _). fold n in Hb, Hlast.
  assert (0 < n) as Hn by nia. split; [done|]. rewrite sent_blocks_filter by done. fold n.
  replace n with ((n - 1) + 1) at 1 by lia. rewrite seqZ_app, filter_app, Z.add_0_l by lia. f_equal.
  rewrite seqZ_cons, seqZ_nil, filter_cons_True, filter_nil by (done || lia). done.
Qed.

(** The messages of the transfer are small enough. *)
Record carried (rel : string) (bs : Z) (data server content : bytes) : Prop := {
  ca_rel : is_text rel;
  ca_signatures : holds (prost_encode KDeltaSyncSignatureRequest (signatures_of bs rel data));
  ca_blocks : ∀ i, i ∈ sent_blocks bs data server → holds (block_wire bs rel data i);
  ca_asked : holds (serialized KDeltaSyncBlockRequest (mkDeltaSyncBlockRequest rel (asked bs data server)));
  ca_complete : holds (serialized KDeltaSyncComplete
    (mkDeltaSyncComplete rel 1 "" (to_hex (sha256_raw content))))
}.

(** They are well typed. *)
Lemma block_range bs data i : 0 < bs < 2 ^ 32 → zlen data < 2 ^ 61 → blocks_of (zlen data) bs < 2 ^ 32 →
  0 <= i < blocks_of (zlen data) bs →
  is_u32 i ∧ is_u64 (i * bs) ∧ is_u32 (zlen (block_of bs data i)) ∧ is_text (BlockHash.sha256_hex (block_of bs data i)).
Proof.
  intros Hbs Hlen Hn Hi. pose proof (block_starts_inside (zlen data) bs i ltac:(lia) Hi) as Hin.
  rewrite zlen_block by lia. unfold is_u32, is_u64. rewrite sha256_hex_same.
  split; [lia|]. split; [lia|]. split; [lia|]. apply hex_is_text.
Qed.

Lemma signatures_wf bs rel data : is_text rel → 0 < bs < 2 ^ 32 → zlen data < 2 ^ 61 →
  blocks_of (zlen data) bs < 2 ^ 32 → msg_wf KDeltaSyncSignatureRequest (signatures_of bs rel data).
Proof.
  intros Hrel Hbs Hlen Hn. pose proof (zlen_nonneg data). split; [done|]. unfold is_u64, is_u32. cbn.
  split; [lia|]. split; [lia|]. apply Forall_fmap, Forall_forall. intros i Hi%elem_of_seqZ.
  destruct (block_range bs data i) as (? & ? & ? & ?); [done..|lia|].
  split; [done|]. split; [apply adler32_bound|]. done.
Qed.

Lemma block_msg_wf bs rel data i : is_text rel → 0 < bs < 2 ^ 32 → zlen data < 2 ^ 61 →
  blocks_of (zlen data) bs < 2 ^ 32 → 0 <= i < blocks_of (zlen data) bs →
  msg_wf KDeltaSyncBlockData (block_msg bs rel i (block_of bs data i)).
Proof. intros Hrel Hbs Hlen Hn Hi. by destruct (block_range bs data i) as (? & ? & ? & ?). Qed.

Lemma asked_wf bs rel data server : is_text rel → 0 < bs →
  blocks_of (zlen data) bs < 2 ^ 32 → blocks_of (zlen server) bs < 2 ^ 32 →
  msg_wf KDeltaSyncBlockRequest (mkDeltaSyncBlockRequest rel (asked bs data server)).
Proof.
  intros Hrel Hbs Hn Hm. split; [done|]. cbn [br_requested_block_indices]. unfold asked.
  pose proof (blocks_of_nonneg (zlen server) bs Hbs (zlen_nonneg _)).
  apply Forall_app. split; apply Forall_forall; unfold is_u32; intros i.
  - intros [_ Hi%elem_of_seqZ]%list_elem_of_filter. lia.
  - intros Hi%elem_of_seqZ. lia.
Qed.

Lemma complete_wf rel content : is_text rel →
  msg_wf KDeltaSyncComplete (mkDeltaSyncComplete rel 1 "" (to_hex (sha256_raw content))).
Proof. intros Hrel. split; [done|]. split; [done|]. split; [done|]. apply hex_is_text. Qed.

Lemma delta_served s rel p bs data server :
  fresh_session s → server_ready s rel p bs server → closes bs data server →
  0 < bs < 2 ^ 32 → zlen data < 2 ^ 61 → blocks_of (zlen data) bs < 2 ^ 32 →
  let tmp := default [] (file_at (sn_fs s) (tmp_loc (sn_fs s) p)) in
  let content := patchwork bs data tmp (sent_blocks bs data server) in
  carried rel bs data server content →
  serves env s
    (encode_frame (request MSG_DELTA_SYNC_SIGNATURE_REQUEST
       (prost_encode KDeltaSyncSignatureRequest (signatures_of bs rel data))) ++
     concat ((λ i, block_frame (block_wire bs rel data i)) <$> sent_blocks bs data server))
    (λ reply s', reply =
       encode_frame (framed MSG_DELTA_SYNC_BLOCK_REQUEST KDeltaSyncBlockRequest
         (mkDeltaSyncBlockRequest rel (asked bs data server))) ++
       encode_frame (framed MSG_DELTA_SYNC_COMPLETE KDeltaSyncComplete
         (mkDeltaSyncComplete rel 1 "" (to_hex (sha256_raw content)))) ∧
     file_at (sn_fs s') (target_loc (sn_fs s) p) = Some content ∧
     file_at (sn_fs s') (tmp_loc (sn_fs s) p) = None ∧ others_kept (sn_fs s) (sn_fs s') p ∧
     cwd (sn_fs s') = cwd (sn_fs s)).
Proof.
  intros [Hsh Hst] [Hr (t & Hl) Hcalm Hroom Hidle Hneg Hsize Hns] Hclose Hbs Hlen Hn tmp content
    [Hrel Hsig Hblkh Hask Hcomp].
  assert (sendable KDeltaSyncSignatureRequest (signatures_of bs rel data)) as Hsig'
    by (split; [by apply signatures_wf|done]).
  assert (∀ i, i ∈ sent_blocks bs data server →
    sendable KDeltaSyncBlockData (block_msg bs rel i (block_of bs data i))) as Hblk.
  { intros i Hi. split; [|by apply Hblkh]. apply block_msg_wf; try done.
    rewrite sent_blocks_filter in Hi by lia. apply list_elem_of_filter in Hi as [_ Hi%elem_of_seqZ]. lia. }
  set (n := blocks_of (zlen data) bs) in *. set (init := filter (λ i, stale bs data server i = true) (seqZ 0 (n - 1))).
  destruct (closes_last bs data server) as [Hpos Hsent]; [lia|done|]. fold n in Hpos, Hsent. fold init in Hsent.
  pose proof (last_short_block data bs ltac:(lia) (proj1 Hclose)) as (Hoff & Hshort & _). fold n in Hoff, Hshort.
  eapply serves_seq.
  { eapply (signature_served env bs rel p Hr Hbs s _ data server t); try done;
      [by apply sendable_parsed|lia|lia]. }
  intros r1 s1 [-> Htk] (Hsh1 & Hst1 & _). rewrite Hsent, fmap_app, concat_app.
  eapply serves_seq.
  { apply (blocks_served env bs rel p Hr Hbs (block_wire bs rel data) data s); try done; [|lia].
    apply Forall_forall. intros i Hi.
    destruct (Hblk i) as [Hwf Hh]; [rewrite Hsent; apply elem_of_app; by left|].
    apply list_elem_of_filter in Hi as [_ Hi%elem_of_seqZ]. split; [lia|]. split; [nia|]. split; [done|].
    by apply sendable_parsed. }
  intros r2 s2 [-> Htk2] (Hsh2 & Hst2 & _). cbn [fmap list_fmap concat]. rewrite app_nil_r.
  assert (n - 1 ∈ sent_blocks bs data server) as Hin
    by (rewrite Hsent; apply elem_of_app; right; by left).
  assert (content = overlay (patchwork bs data tmp init)
    (Z.to_nat ((n - 1) * bs)) (block_of bs data (n - 1))) as Hcontent.
  { unfold content. rewrite Hsent. unfold patchwork. by rewrite fold_left_app. }
  eapply serves_mono.
  { eapply (last_block_served env bs rel p Hr Hbs s s2 (patchwork bs data tmp init) (n - 1) (block_of bs data (n - 1))
      (block_wire bs rel data (n - 1))); rewrite <- ?Hcontent; try done;
      [by apply sendable_parsed, Hblk|by apply Hblk|lia|lia]. }
  rewrite <- Hcontent. intros r3 s3 (-> & Hrest). done.
Qed.

(** Synchronising a file that differs: the negotiation, then the blocks. *)
Definition modified_answer (server : bytes) : NegotiationResponse :=
  mkNegotiationResponse MODIFIED DELTA_SYNC (zlen server) (digest server) (se_block_size env).
Definition unchanged_answer (data : bytes) : NegotiationResponse :=
  mkNegotiationResponse UNCHANGED TRANSFER_MODE_UNSPECIFIED (zlen data) (digest data) (se_block_size env).
Definition claim_of (c : client_state) (rel : string) : NegotiationRequest :=
  local_claim (disk c) rel (lookup_node (disk c) (local_path c rel)).

Lemma sync_modified c s rel p bs data server :
  fresh_session s → server_ready s rel p bs server → client_ready c rel bs data →
  closes bs data server → digest data ≠ digest server →
  let tmp := default [] (file_at (sn_fs s) (tmp_loc (sn_fs s) p)) in
  let content := patchwork bs data tmp (sent_blocks bs data server) in
  carried rel bs data server content → sendable KNegotiationRequest (claim_of c rel) →
  answerable KNegotiationResponse (modified_answer server) →
  conversation env s (sync_file rel) c (Ok (to_hex (sha256_raw content))) (λ local files,
    local = disk c ∧ file_at files (target_loc (sn_fs s) p) = Some content ∧
    file_at files (tmp_loc (sn_fs s) p) = None ∧ others_kept (sn_fs s) files p ∧ cwd files = cwd (sn_fs s)).
Proof.
  intros [Hsh Hst] Hsr Hcr Hclose Hdiff tmp content Hcar Hreq Hans.
  pose proof Hsr as [Hr (t & Hl) _ _ _ _ Hsize _]. pose proof Hcr as [_ _ _ Hbs _ Hcalm (t' & Hlc & Ht') Hlen Hn].
  unfold claim_of in Hreq. rewrite Hlc in Hreq.
  assert (negotiation_answer (se_block_size env) (lookup_node (sn_fs s) p) (digest data) = modified_answer server) as Hneg.
  { unfold negotiation_answer. rewrite Hl. cbv zeta. by rewrite digest_server, decide_False by done. }
  eapply converse, serves_seq.
  { apply (negotiation_served env s _ _ p (sendable_parsed _ _ Hreq)); try done; try apply Hreq.
    - by rewrite Hl.
    - intros ?? Hx. rewrite Hl in Hx. injection Hx as <- <-. lia.
    - cbn [local_claim nq_client_sha256_hash]. rewrite Hneg. apply Hans. }
  cbn [local_claim nq_client_sha256_hash]. rewrite Hneg. intros r1 s1 [-> Hsame] (Hsh1 & Hst1 & _).
  assert (sn_fs s1 = sn_fs s) as Hfs by (unfold sn_fs; by rewrite (proj1 Hsame)).
  eapply serves_mono.
  { apply (delta_served s1 rel p bs data server); try done; [by eapply server_ready_same|by rewrite Hfs]. }
  rewrite Hfs. fold tmp content. intros r2 s2 (-> & Hpost). exists c. split; [|done].
  rewrite <- (app_nil_r (encode_frame (framed MSG_NEGOTIATION_RESPONSE _ _) ++ _)). apply says_final.
  unfold sync_file. eapply says_bind; [by apply (negotiate_said rel c (Some (File data t')))|].
  cbn [answered cn_file_mode cn_transfer_mode nr_file_mode nr_transfer_mode modified_answer].
  change (MODIFIED =? UNCHANGED) with false. change (MODIFIED =? FRESH) with false.
  change (MODIFIED =? MODIFIED) with true. change (DELTA_SYNC =? DELTA_SYNC) with true. cbv iota.
  destruct Hsr as [_ _ _ _ _ _ _ Hm], Hcar. apply delta_said; [done|split; [|done]..].
  - apply asked_wf; lia || done.
  - by apply complete_wf.
Qed.



End Delta.

(** * Witnesses *)

#[local] Existing Instances le_host proto3 demo_tokio demo_tokio_laws demo_prost demo_prost_laws demo_sha2
  demo_sha2_laws demo_disk.

(** Blocks of four bytes; the client has "abcdef". *)
Definition four : session_env := mkEnv demo_root 4 true.
Definition four_client : client_state :=
  mkClient (TcpClient_new "127.0.0.1:9000" "/s" 4 7) (demo_fs [("f", [x61; x62; x63; x64; x65; x66])]) [].
Definition four_server (content : bytes) : session :=
  Session_new four (mkSocket [] [] []) (demo_fs [("f", content)]) FileMutex_new [].
Definition abcdef : bytes := [x61; x62; x63; x64; x65; x66].

Lemma four_room content : room_for (demo_fs [("f", content)]) "/s/f".
Proof.
  split; [reflexivity|]. split; [reflexivity|]. split; [|split; discriminate].
  intros [|[|k]]; [reflexivity..|]. by destruct k.
Qed.

Lemma four_client_ready : client_ready four_client "f" 4 abcdef.
Proof.
  split; [reflexivity..|lia|vm_compute; discriminate|reflexivity| |vm_compute; reflexivity|vm_compute; reflexivity].
  exists 0. split; [reflexivity|]. split; [vm_compute; discriminate|reflexivity].
Qed.

Lemma four_server_ready content : zlen content = 6 → server_ready four (four_server content) "f" "/s/f" 4 content.
Proof.
  intros Hl. split; [reflexivity|by exists 0|reflexivity|apply four_room|done|reflexivity|lia|].
  rewrite Hl. vm_compute. reflexivity.
Qed.

Definition wxyzuv : bytes := [x77; x78; x79; x7a; x75; x76].
Definition abcdzz : bytes := [x61; x62; x63; x64; x7a; x7a].

(** Sizes of concrete messages; the blocks sent are those of a computed list. *)
Ltac small_messages indices :=
  split;
  [reflexivity|vm_compute; discriminate|
   match goal with |- ∀ i, i ∈ ?l → _ =>
     replace l with indices by (vm_compute; reflexivity);
     intros i Hi; repeat (apply elem_of_cons in Hi as [->|Hi]; [vm_compute; discriminate|]);
     by apply elem_of_nil in Hi
   end|
   vm_compute; discriminate|vm_compute; discriminate].

Lemma four_carried_rewritten : carried "f" 4 abcdef wxyzuv abcdef.
Proof. small_messages [0; 1]. Qed.
Lemma four_carried_blanked : carried "f" 4 abcdef abcdzz [x00; x00; x00; x00; x65; x66].
Proof. small_messages [1]. Qed.

Lemma four_claim : sendable KNegotiationRequest (claim_of four_client "f").
Proof.
  split; [|vm_compute; discriminate].
  split; [reflexivity|]. split; [by split|]. split; [by split|]. apply hex_is_text.
Qed.
Lemma four_answer server : zlen server = 6 →
  holds (serialized KNegotiationResponse (modified_answer four server)) →
  answerable KNegotiationResponse (modified_answer four server).
Proof.
  intros Hl Hh. split; [|done]. cbn. rewrite Hl. do 3 (split; [done|]). split; [apply hex_is_text|done].
Qed.


