(* ===== verification/Replication.v ===== *)
(** Several calls and several clients: what one client has uploaded another
    downloads, a second synchronisation has nothing to do, and what the reports of
    progress do to the next call on the same connection
    (src/client/src/tcp_client.rs against src/server/src/session.cpp). *)
From S2P Require Import Prelude Sha256 Paths FileSystem FileManager FileMutex WireProtocol Proto Proto3.
From S2P Require Import DeltaSync Directories Negotiator ZeroCopySender Ends Session Service.
From S2P Require Import ClientBase ClientWire ClientFiles ClientDelta TcpClient Conversation DeltaConversation.

Section Replication.
Context `{Host, Tokio, !TokioLaws, Disk, Sha2, !Sha2Laws, Codec, Prost, !ProstLaws} (env : session_env).

(** A client with the file [data] to upload. *)
Record uploader (c : client_state) (rel : string) (data : bytes) (t : Z) : Prop := {
  ul_calm : calm (disk c);
  ul_file : lookup_node (disk c) (local_path c rel) = Some (File data t);
  ul_time : 0 <= mtime (disk c) t < 2 ^ 64;
  ul_size : 0 < zlen data < 2 ^ 32;
  ul_limit : zlen data <= alloc_limit;
  ul_request : sendable KZeroCopyUploadRequest (upload_request rel data (mtime (disk c) t));
  ul_claim : sendable KNegotiationRequest (local_claim (disk c) rel (Some (File data t)))
}.

(** The server's answers for that file fit a frame. *)
Record answers_fit (rel : string) (data : bytes) : Prop := {
  af_ack : answerable KZeroCopyUploadAck (mkZeroCopyUploadAck OK "" 0);
  af_unchanged : answerable KNegotiationResponse (mkNegotiationResponse UNCHANGED TRANSFER_MODE_UNSPECIFIED
    (zlen data) (digest data) (se_block_size env));
  af_header : answerable KZeroCopyDownloadHeader
    (mkZeroCopyDownloadHeader rel (zlen data) (to_hex (sha256_raw data)) 0);
  af_reports : reports_fit rel
}.

(** What the request for an upload is, on the wire. *)
Definition upload_bytes (c : client_state) (rel : string) (data : bytes) (t : Z) : bytes :=
  encode_frame (request MSG_ZERO_COPY_UPLOAD_REQUEST
    (prost_encode KZeroCopyUploadRequest (upload_request rel data (mtime (disk c) t)))) ++
  concat (raw_frame <$> [data]).

(** The reports of progress that the upload leaves on the connection. *)
Definition reports_of (c : client_state) (rel : string) (data : bytes) (t : Z) (s : session) : list WireFrame :=
  upload_reports (start_upload (uq_metadata (upload_request rel data (mtime (disk c) t)))) [data] (sn_clock s).

(** An upload that the server takes. *)
Lemma uploader_served c s rel p data t :
  uploader c rel data t → answerable KZeroCopyUploadAck (mkZeroCopyUploadAck OK "" 0) →
  fresh_session s → calm (sn_fs s) →
  resolve_path (se_file_manager env) rel = Ret p → room_for (sn_fs s) p →
  serves env s (upload_bytes c rel data t) (λ reply s',
    (∃ progress, reply = encode_frame upload_ack ++ progress ∧
       (reports_fit rel → progress = concat (encode_frame <$> reports_of c rel data t s))) ∧
    (∃ t', lookup_node (sn_fs s') p = Some (File data t')) ∧
    file_at (sn_fs s') (target_loc (sn_fs s) p) = Some data ∧ file_at (sn_fs s') (tmp_loc (sn_fs s) p) = None ∧ others_kept (sn_fs s) (sn_fs s') p ∧ calm (sn_fs s') ∧
    dirs_on_way p (sn_fs s) (sn_fs s')).
Proof.
  intros [Hcalm' Hl Ht Hlen Ha Hreq _] Hack [Hsh Hst] Hcalm Hr Hroom.
  assert (data ≠ []) by (intros ->; unfold zlen in *; simpl in *; lia).
  assert (concat [data] = data) as Hcat by apply app_nil_r.
  eapply serves_mono.
  { eapply (upload_served env s _ (upload_request rel data (mtime (disk c) t)) p [data]);
      rewrite ?Hcat; try done; [by apply sendable_parsed|apply Hreq| | |apply Hack].
    - unfold vector_max_size. lia.
    - repeat constructor; [done|lia]. }
  cbn beta. rewrite Hcat. intros reply s' ((progress & -> & Hprog) & _ & Hf & Htmp & Ho & Hc & Hcwd).
  split; [by exists progress|].
  split; [|done]. apply file_lookup; [apply Hroom|]. by rewrite (loc_cwd _ _ _ (proj1 Hcwd)).
Qed.

(** Reports are passed over by the next call that waits for its answer. *)
Lemma reports_passed ty c rel data t s : ty ≠ MSG_PROGRESS → reports_fit rel →
  passed_over ty (reports_of c rel data t s).
Proof.
  intros Hty Hf. unfold reports_of.
  destruct (upload_reports_spec [data] (start_upload (uq_metadata (upload_request rel data (mtime (disk c) t))))
    (sn_clock s) Hf) as [Hn Hall]. change (length [data]) with 1%nat in Hn.
  split; [eapply Nat.le_lt_trans; [exact Hn|lia]|]. eapply Forall_impl; [exact Hall|]. intros g [-> Hh]. split; [|done].
  change (byte.unsigned (byte.of_Z MSG_PROGRESS)) with MSG_PROGRESS. congruence.
Qed.

(** What the client says to synchronise a file the server already has, with
    frames of an earlier call still to be read. *)
Lemma sync_said_after skipped rel data t c size bs :
  calm (disk c) → lookup_node (disk c) (local_path c rel) = Some (File data t) →
  describable (disk c) (Some (File data t)) → passed_over MSG_NEGOTIATION_RESPONSE skipped →
  let resp := mkNegotiationResponse UNCHANGED TRANSFER_MODE_UNSPECIFIED size (digest data) bs in
  answerable KNegotiationResponse resp →
  says (sync_file rel) c
    (encode_frame (request MSG_NEGOTIATION_REQUEST
       (prost_encode KNegotiationRequest (local_claim (disk c) rel (Some (File data t))))))
    (concat (encode_frame <$> skipped) ++ encode_frame (framed MSG_NEGOTIATION_RESPONSE KNegotiationResponse resp))
    (Ok (digest data)) c.
Proof.
  intros Hcalm Hl Hdesc Hskip resp Hans. unfold sync_file.
  rewrite <- (app_nil_r (_ ++ encode_frame (framed _ _ _))), <- (app_nil_r (encode_frame (request _ _))).
  eapply says_bind; [by apply (negotiate_said_after skipped rel c (Some (File data t)))|].
  cbn. apply says_ret.
Qed.


(** C37: an upload after an upload is lost.  If the server's clock had advanced
    when it took the first file, it has sent a report of progress that the client
    does not read; the second upload on the connection takes that report for its
    answer.  The call fails, the first file is stored, and of the second nothing is
    sent or stored, although the server had accepted it. *)
Theorem second_upload_fails c s rel p data t e clock rel2 data2 t2 :
  uploader c rel data t → answers_fit rel data → uploader c rel2 data2 t2 →
  fresh_session s → calm (sn_fs s) → resolve_path (se_file_manager env) rel = Ret p → room_for (sn_fs s) p →
  sn_clock s = e :: clock → 0 < e → holds (WireProtocol.payload upload_lost) →
  Forall (λ f, prost_decode KZeroCopyUploadAck (WireProtocol.payload f) = None) (reports_of c rel data t s) →
  conversation env s (_ ← upload_file rel; upload_file rel2) c (Err (Protocol "Failed to parse upload ack"))
    (λ local files, local = disk c ∧ file_at files (target_loc (sn_fs s) p) = Some data ∧
       others_kept (sn_fs s) files p).
Proof.
  intros Hu Hfit Hu2 Hs Hcalm Hr Hroom Hclock He Hlost Hno. pose proof Hu as [Hcalm' Hl Ht Hlen _ _ _].
  pose proof Hu2 as [_ Hl2 Ht2 Hlen2 Ha2 Hreq2 _]. pose proof Hfit as [Hack _ _ Hrep].
  assert (∃ f, reports_of c rel data t s = [f]) as [f Hf].
  { unfold reports_of. rewrite Hclock. cbn [upload_reports].
    change (default 0 (head (e :: clock))) with e. rewrite (proj2 (Z.ltb_lt 0 e) He). by eexists. }
  assert (passed_over 0 (reports_of c rel data t s)) as [_ Hpass] by (by apply reports_passed).
  rewrite Hf in Hno, Hpass. inversion_clear Hpass as [|?? [_ Hholds] _]. inversion_clear Hno as [|?? Hdec _].
  eapply converse_end, serves_then_end; [by apply (uploader_served c s rel p data t)|].
  cbn beta. rewrite Hf. intros r1 s1 ((progress & -> & Hprog) & _ & Hf1 & _ & Ho & _) (Hsh1 & Hst1 & _). rewrite (Hprog Hrep).
  intros sk Hw Hd.
  destruct (upload_cut_ends env s1 _ _ (sendable_parsed _ _ Hreq2)) with (sk := sk) as (s2 & r2 & Hrun & Hst2 & Htx & -> & Hfs);
    try done; [apply Hreq2| |apply Hack|].
  { cbn [upload_request uq_metadata md_file_size]. unfold vector_max_size. lia. }
  exists s2, (encode_frame upload_ack ++ encode_frame upload_lost). do 3 (split; [done|]). exists c. rewrite Hfs. split.
  - unfold upload_bytes. replace (concat (raw_frame <$> [data])) with (raw_frame data) by (symmetry; apply app_nil_r).
    cbn [fmap list_fmap concat]. rewrite app_nil_r. apply says_final. eapply says_bind.
    + apply (upload_said rel data t c); done || lia.
    + apply (upload_misled rel2 data2 t2 f c); done || lia.
  - done.
Qed.

End Replication.

(** * Witnesses *)

#[local] Existing Instances le_host proto3 demo_tokio demo_tokio_laws demo_prost demo_prost_laws demo_sha2
  demo_sha2_laws demo_disk.

Lemma demo_reports_fit rel : zlen (String.list_byte_of_string rel) <= 4096 → reports_fit rel.
Proof.
  intros Hrel transferred total rate elapsed.
  pose proof (progress_size (mkProgressUpdate rel transferred total rate elapsed)) as Hs.
  cbn [pu_relative_path] in Hs. rewrite serialized_small; unfold holds, INT_MAX;
    change (encoding KProgressUpdate) with (encode_message KProgressUpdate);
    change alloc_limit with (2 ^ 40); lia.
Qed.

Definition two_files : list (string * bytes) := [("f", [x61; x62]); ("g", [x63])].

Lemma demo_uploader_f : uploader (demo_client two_files) "f" [x61; x62] 0.
Proof. split; try fits. Qed.
Lemma demo_uploader_g : uploader (demo_client two_files) "g" [x63] 0.
Proof. split; try fits. Qed.
Lemma demo_answers_fit : answers_fit demo_env "f" [x61; x62].
Proof. split; [fits..|]. apply demo_reports_fit. vm_compute. discriminate. Qed.


(** The clock of this server reads five milliseconds. *)
Definition slow_server : session := Session_new demo_env (mkSocket [] [] []) (demo_fs []) FileMutex_new [5].

Lemma second_upload_fails_witness :
  conversation demo_env slow_server (_ ← upload_file "f"; upload_file "g") (demo_client two_files)
    (Err (Protocol "Failed to parse upload ack"))
    (λ local files, local = demo_fs two_files ∧ file_at files ["s"; "f"] = Some [x61; x62] ∧
       others_kept (demo_fs []) files "/s/f").
Proof.
  apply (second_upload_fails demo_env (demo_client two_files) slow_server "f" "/s/f" [x61; x62] 0 5 [] "g" [x63] 0
    demo_uploader_f demo_answers_fit demo_uploader_g); first [exact demo_room|fits].
  vm_compute. discriminate.
Defined.
