(* ===== verification/LocalCopy.v ===== *)
(** Copying picked files below the local root: [copy_recursive] and the body of
    [upload_local_file] of src/ui/src-tauri/src/main.rs, with the calls of Rust's
    standard library they make. *)
From S2P Require Import Prelude Sha256 Paths FileSystem WireProtocol Proto ClientBase ClientFiles.

(** [Result<T, String>]: what a command answers to the window. *)
Inductive answer (A : Type) :=
| Answer (a : A)
| Refuse (message : string).
Arguments Answer {A} a.
Arguments Refuse {A} message.

(** * Copying files below the local root *)

(** [Path::file_name]. *)
Definition file_name (p : string) : option string :=
  match last_components p with
  | n :: _ => if decide (n = dotdot) then None else Some n
  | [] => None
  end.

(** [Path::components]: empty names are skipped, and a dot except at the
    beginning. *)
Definition rust_components (p : string) : list string :=
  let idle := filter (λ n, n ≠ EmptyString ∧ n ≠ dot) in
  match split_slash p with
  | n :: ns => if decide (n = dot) then dot :: idle ns else idle (n :: ns)
  | [] => []
  end.

(** [Path::strip_prefix]. *)
Definition strip_prefix (p base : string) : option string :=
  let cp := rust_components p in
  let cb := rust_components base in
  if decide (is_absolute p = is_absolute base ∧ take (length cb) cp = cb)
  then Some (join_slash (drop (length cb) cp)) else None.

Definition path_is_dir (p : string) : SM filesystem bool :=
  f ← next_fault;
  fs ← get_st;
  mret (match f, lookup_node fs p with Works, Some Dir => true | _, _ => false end).
Definition path_is_file (p : string) : SM filesystem bool :=
  f ← next_fault;
  fs ← get_st;
  mret (match f, lookup_node fs p with Works, Some (File _ _) => true | _, _ => false end).

(** [fs::read_dir]: the names in a directory, in no particular order. *)
Definition children (fs : filesystem) (l : list string) : list string :=
  omap (λ '(m, _), match last m with
                   | Some n => if decide (m = l ++ [n]) then Some n else None
                   | None => None
                   end) (map_to_list (nodes fs)).
Definition read_dir (p : string) : SM filesystem (option (list string)) :=
  f ← next_fault;
  fs ← get_st;
  mret (match f, lookup_node fs p with Works, Some Dir => Some (children fs (loc fs p)) | _, _ => None end).

(** [fs::copy]: the destination is created or emptied before anything is read
    from the source. *)
Definition fs_copy (src dst : string) : SM filesystem bool :=
  h ← file_open src;
  match h with
  | Some (HFile _) =>
      opened ← open_truncate dst;
      if negb opened then mret false
      else
        fs ← get_st;
        match lookup_node fs src with
        | Some (File c _) => write_at dst 0 c
        | _ => mret false
        end
  | _ => mret false
  end.

(** A [Result<T, String>] and its [?]. *)
Definition UM (A : Type) : Type := SM filesystem (answer A).
#[export] Instance UM_ret : MRet UM := λ A a s, (Ret (Answer a), s).
#[export] Instance UM_bind : MBind UM := λ A B f m s,
  match m s with
  | (Ret (Answer a), s') => f a s'
  | (Ret (Refuse e), s') => (Ret (Refuse e), s')
  | (Throw e, s') => (Throw e, s')
  | (Trap t, s') => (Trap t, s')
  end.
Definition sure {A} (m : SM filesystem A) : UM A := λ s,
  match m s with
  | (Ret a, s') => (Ret (Answer a), s')
  | (Throw e, s') => (Throw e, s')
  | (Trap t, s') => (Trap t, s')
  end.
Definition ok_else {A} (m : SM filesystem (option A)) (e : string) : UM A := λ s,
  match m s with
  | (Ret (Some a), s') => (Ret (Answer a), s')
  | (Ret None, s') => (Ret (Refuse e), s')
  | (Throw x, s') => (Throw x, s')
  | (Trap t, s') => (Trap t, s')
  end.
Definition refuse {A} (e : string) : UM A := λ s, (Ret (Refuse e), s).
Definition done_else (m : SM filesystem bool) (e : string) : UM unit :=
  ok_else (b ← m; mret (if b : bool then Some tt else None)) e.

(** The branch of a regular file. *)
Definition copy_one (src dst base : string) : UM (list string) :=
  match parent dst with
  | None => throw (Panic "called `Option::unwrap()` on a `None` value")
  | Some above =>
      _ ← done_else (create_dir_all above) "Failed to create parent dir";
      _ ← done_else (fs_copy src dst) ("Failed to copy " +:+ src);
      match strip_prefix dst base with
      | Some rel => mret [rel]
      | None => refuse ("Path " +:+ dst +:+ " is not under sync root")
      end
  end.

(** The fuel bounds the depth of the tree that is copied. *)
Fixpoint copy_recursive (fuel : nat) (src dst base : string) : UM (list string) :=
  match fuel with
  | O => trap_with Diverges
  | S fuel' =>
      src_is_dir ← sure (path_is_dir src);
      if src_is_dir : bool then
        _ ← done_else (create_dir_all dst) ("Failed to create dir " +:+ dst);
        names ← ok_else (read_dir src) "Failed to read dir";
        fold_left (λ (results : UM (list string)) child_name,
          copied ← results;
          sub ← copy_recursive fuel' (path_join src child_name) (path_join dst child_name) base;
          mret (copied ++ sub)) names (mret [])
      else
        src_is_file ← sure (path_is_file src);
        if src_is_file : bool then copy_one src dst base else mret []
  end.

Definition copy_into (fuel : nat) (sync_root absolute_path : string) : UM (list string) :=
  match file_name absolute_path with
  | None => refuse "Invalid file path"
  | Some name =>
      _ ← done_else (create_dir_all sync_root) "Failed to create sync root";
      copy_recursive fuel absolute_path (path_join sync_root name) sync_root
  end.

(** * One picked file *)

Lemma UM_bind_answer {A B} (m : UM A) (f : A → UM B) s a s' :
  m s = (Ret (Answer a), s') → (m ≫= f) s = f a s'.
Proof. intros Hm. unfold mbind, UM_bind. by rewrite Hm. Qed.

Lemma sure_runs {A} (m : SM filesystem A) s a s' : m s = (Ret a, s') → sure m s = (Ret (Answer a), s').
Proof. intros Hm. unfold sure. by rewrite Hm. Qed.

(** A call that succeeds when nothing fails. *)
Lemma done_else_runs (m : SM filesystem bool) e fs (Q : bool → filesystem → Prop) :
  wp m (answers fs Q) fs → calm fs → (∀ fs', Q false fs' → False) →
  ∃ fs', done_else m e fs = (Ret (Answer tt), fs') ∧ cwd fs' = cwd fs ∧ calm fs' ∧ Q true fs'.
Proof.
  unfold wp, done_else, ok_else. rewrite SM_bind_unfold. intros Hm Hc Hno.
  destruct (m fs) as [r fs']. destruct Hm as (b & -> & Hcwd & Hcalm & HQ). exists fs'.
  destruct b; [by auto|by destruct (Hno fs')].
Qed.

(** A path of proper names. *)
Definition proper_path (q : string) (ns : list string) : Prop :=
  split_slash q = ns ∧ ns ≠ [] ∧ Forall proper ns.

Lemma proper_path_name name : proper name → proper_path name [name].
Proof.
  intros Hn. pose proof Hn as (_ & _ & _ & Hns). split; [by apply split_slash_name|].
  split; [done|]. by apply Forall_singleton.
Qed.

Lemma proper_path_join ns : ns ≠ [] → Forall proper ns → proper_path (join_slash ns) ns.
Proof.
  intros Hne Hp. split; [|done]. apply split_join; [done|]. eapply Forall_impl; [exact Hp|]. by intros n (_ & _ & _ & ?).
Qed.

Lemma proper_path_relative q ns : proper_path q ns → is_absolute q = false.
Proof.
  intros (Hsp & Hne & Hp). rewrite is_absolute_split, Hsp. destruct Hp as [|n ns' (Hn & _) _]; [done|].
  destruct n; [done|]. by destruct ns'.
Qed.

Lemma components_below root q ns : proper_path q ns →
  rust_components (path_join root q) = rust_components root ++ ns.
Proof.
  intros Hq. pose proof (proper_path_relative q ns Hq) as Ha. destruct Hq as (Hsp & Hne & Hp).
  assert (filter (λ n, n ≠ "" ∧ n ≠ dot) ns = ns) as Hf.
  { clear Hsp Hne Ha. induction Hp as [|n ns (? & ? & _) _ IH]; [done|]. rewrite filter_cons_True by done. by f_equal. }
  unfold path_join, path_append. rewrite Ha. case_decide as Hr.
  { subst root. unfold rust_components at 1. rewrite Hsp. destruct Hp as [|n ns (? & ? & _) _]; [done|].
    rewrite decide_False by done. exact Hf. }
  assert (∀ r, rust_components (r +:+ String slash q) = rust_components r ++ ns) as Hjoin.
  { intros r. unfold rust_components. rewrite split_slash_app, Hsp. pose proof (split_slash_ne r).
    destruct (split_slash r) as [|n ns']; [done|]. cbn [app]. case_decide.
    - by rewrite filter_app, Hf.
    - by rewrite app_comm_cons, filter_app, Hf. }
  destruct (ends_with_slash root) eqn:Hs; [|apply Hjoin].
  destruct (ends_with_slash_split _ Hs) as [r ->]. rewrite string_app_assoc.
  change ("/" +:+ q) with (String slash q). rewrite Hjoin. f_equal.
  unfold rust_components. change "/" with (String slash ""). rewrite split_slash_app.
  pose proof (split_slash_ne r). destruct (split_slash r) as [|n ns']; [done|]. cbn [app].
  assert (filter (λ n, n ≠ "" ∧ n ≠ dot) (split_slash "") = []) as Hz by done.
  case_decide; [by rewrite filter_app, Hz, app_nil_r|].
  by rewrite (app_comm_cons ns'), filter_app, Hz, app_nil_r.
Qed.

Lemma join_absolute root q ns : proper_path q ns → is_absolute (path_join root q) = is_absolute root.
Proof.
  intros Hq. pose proof (proper_path_relative q ns Hq) as Ha. unfold path_join, path_append. rewrite Ha.
  case_decide as Hr; [by rewrite Hr, Ha|]. destruct (ends_with_slash root); by destruct root.
Qed.

Lemma strip_below root q ns : proper_path q ns → strip_prefix (path_join root q) root = Some (join_slash ns).
Proof.
  intros Hq. unfold strip_prefix. rewrite (components_below root q ns Hq).
  rewrite decide_True; [by rewrite drop_app_length|]. split; [by eapply join_absolute|by rewrite take_app_length].
Qed.

Lemma strip_under root name : proper name → strip_prefix (path_join root name) root = Some name.
Proof. intros Hn. by apply (strip_below root name [name]), proper_path_name. Qed.

(** Where such a path below a directory leads. *)
Lemma loc_below fs root q ns : proper_path q ns → loc fs (path_join root q) = loc fs root ++ ns.
Proof.
  intros Hq. pose proof (proper_path_relative q ns Hq) as Ha. destruct Hq as (Hsp & _ & Hp).
  unfold loc. eapply (locate_under _ _ _ ns []); [done|by rewrite app_nil_r|done|constructor].
Qed.

(** Copying a file onto itself empties it. *)
Definition copied (fs : filesystem) (src dst : string) (data : bytes) : bytes :=
  if decide (loc fs dst = loc fs src) then [] else data.

Lemma fs_copy_spec src dst data t fs :
  lookup_node fs src = Some (File data t) → calm fs → ~ cannot_create fs dst →
  wp (fs_copy src dst) (answers fs (λ b fs', b = true ∧ loc fs dst ≠ [] ∧
    ∃ t', nodes fs' = <[loc fs dst := File (copied fs src dst data) t']> (nodes fs))) fs.
Proof.
  intros Hl Hc Hcan. unfold fs_copy. apply wp_bind. unfold wp at 1. rewrite (file_open_calm _ _ _ _ Hc Hl).
  eapply answers_bind; [apply open_truncate_spec|]. intros b fs1 Hb Hc1 Hcalm1.
  destruct b; [|destruct Hb as [_ Hb]; by destruct (Hcan (Hb Hc))]. cbn [negb].
  destruct Hb as (Hd & Hne & t1 & Hn1). apply wp_get.
  assert (∀ q, loc fs1 q = loc fs q) as Hloc by (intros; by apply loc_cwd).
  destruct (lookup_file _ _ _ _ Hl) as [Hsrc Hsd].
  assert (∃ t', lookup_node fs1 src = Some (File (copied fs src dst data) t')) as [t' Hl1].
  { unfold lookup_node, copied. rewrite Hloc, Hn1, node_at_insert by done.
    case_decide; [by rewrite Hsd; eauto|]. rewrite Hsrc, Hsd. eauto. }
  rewrite Hl1.
  assert (file_at fs1 (loc fs1 dst) = Some []) as Hd1.
  { unfold file_at. by rewrite Hloc, Hn1, node_at_insert, decide_True by done. }
  eapply wp_mono; [apply (write_at_spec _ _ _ _ _ Hd1)|]. intros r fs2 Ha.
  eapply answers_mono; [exact Ha|]. rewrite Hloc. intros b2 (d & t2 & Hn2 & _ & Hb2 & Hlive).
  rewrite (Hb2 (Hlive (Hcalm1 Hc))), overlay_fresh, Hn1, insert_insert_eq in Hn2.
  split; [by apply Hlive, Hcalm1|]. eauto.
Qed.

Lemma picked_name p c t fs : lookup_node fs p = Some (File c t) →
  ∃ name, file_name p = Some name ∧ proper name.
Proof.
  intros [_ Hd]%lookup_file. destruct (split_slash_snoc p) as (init & l & Hs & Hl & _).
  pose proof (names_directory_proper p init l Hs Hd) as Hp. exists l. split; [|done].
  unfold file_name, last_components. rewrite Hs, reverse_app. simpl.
  destruct Hp as (? & ? & ? & _). rewrite decide_False by tauto. by rewrite decide_False.
Qed.

(** Making the root leaves room for the copy. *)
Lemma root_made root name fs : proper name → calm fs → let dst := path_join root name in local_room fs dst →
  ∃ fs', done_else (create_dir_all root) "Failed to create sync root" fs = (Ret (Answer tt), fs') ∧
    cwd fs' = cwd fs ∧ calm fs' ∧ same_files fs fs' ∧ local_room fs' dst.
Proof.
  intros Hn Hc dst Hroom. destruct Hroom as (Hd & Hcwd & Hno & Hnd & Hnt).
  assert (loc fs dst = loc fs root ++ [name]) as Hdst.
  { by apply loc_below, proper_path_name. }
  destruct (client_locations (cwd fs) dst Hd) as (above & l & dir & Hp & Ht & _).
  fold (loc fs dst) in Hp. rewrite Hdst in Hp. apply app_inj_tail in Hp as [<- <-].
  unfold create_dir_all. destruct (decide (root = "")) as [->|Hne].
  { exists fs. do 3 (split; [done|]). done. }
  rewrite Hdst, removelast_last in Hno.
  assert ((mkdirs (nodes fs) [] (loc fs root)).2 = true) as Hok by (by apply mkdirs_ok).
  destruct (done_else_runs (create_directories root) "Failed to create sync root" fs _
    (create_directories_spec root fs) Hc) as (fs' & Hr & Hc' & Hcalm' & HQ).
  { intros fs' [[_ Hf]|(_ & _ & Hf)]; [congruence|done]. }
  destruct HQ as [[Hns _]|(_ & ? & _)]; [|done].
  exists fs'. do 3 (split; [done|]).
  assert (same_files fs fs') as Hsame by (split; [done|]; intros k; unfold file_at; rewrite Hns; apply mkdirs_files).
  split; [done|]. assert (∀ q, loc fs' q = loc fs q) as Hloc by (intros; by apply loc_cwd).
  unfold local_room. rewrite !Hloc, Hc', Hns. split; [done|]. split; [by apply mkdirs_keeps_dirs|].
  split; [intros k; rewrite (proj2 Hsame), Hdst, removelast_last; apply Hno|].
  unfold local_tmp, loc in *. rewrite Ht, Hdst in *.
  split; rewrite mkdirs_deeper by (rewrite !length_app; simpl; lia); done.
Qed.

Lemma can_copy fs fs' dst : cwd fs' = cwd fs → local_room fs dst →
  parent_is_dir (nodes fs') (loc fs dst) = true →
  node_at (nodes fs') (loc fs dst) = node_at (nodes fs) (loc fs dst) → ~ cannot_create fs' dst.
Proof.
  intros Hc (Hd & _ & _ & Hnd & _) Hp Hn. unfold cannot_create. rewrite (loc_cwd _ _ _ Hc), Hn, Hp, Hd.
  by intros [?|[?|?]].
Qed.

(** Picking a local file copies it below the local root, unless it is there
    already.  When nothing fails, [upload_local_file] answers with the file's
    name, the file of that name below the root holds the picked file's bytes, and
    no other file changes.  If the picked file is itself that file, it is emptied:
    the destination is truncated before the source is read. *)
Theorem picked_file_copied fuel root src data t fs :
  calm fs → lookup_node fs src = Some (File data t) →
  ∃ name, file_name src = Some name ∧ let dst := path_join root name in
    (local_room fs dst → ∃ fs', copy_into (S fuel) root src fs = (Ret (Answer [name]), fs') ∧
       file_at fs' (loc fs dst) = Some (copied fs src dst data) ∧
       ∀ l, l ≠ loc fs dst → file_at fs' l = file_at fs l).
Proof.
  intros Hc Hl. destruct (picked_name _ _ _ _ Hl) as (name & Hname & Hprop). exists name. split; [done|].
  intros dst Hroom. unfold copy_into. rewrite Hname. fold dst.
  destruct (root_made root name fs Hprop Hc Hroom) as (fs1 & Hr1 & Hc1 & Hcalm1 & Hs1 & Hroom1).
  rewrite (UM_bind_answer _ _ _ _ _ Hr1). fold dst in Hroom1.
  assert (∀ q, loc fs1 q = loc fs q) as Hloc1 by (intros; by apply loc_cwd).
  destruct (lookup_file _ _ _ _ Hl) as [Hsrc Hsd].
  destruct (file_lookup fs1 src data) as [t1 Hl1];
    [done|rewrite (proj2 Hs1), Hloc1; unfold file_at; by rewrite Hsrc|].
  assert (path_is_dir src fs1 = (Ret false, fs1) ∧ path_is_file src fs1 = (Ret true, fs1)) as [Hdir Hfile].
  { unfold path_is_dir, path_is_file. rewrite !(SM_bind_ret _ _ _ _ _ (next_fault_calm fs1 Hcalm1)).
    rewrite !SM_bind_unfold. cbn [get_st]. by rewrite Hl1. }
  cbn [copy_recursive]. rewrite (UM_bind_answer _ _ _ _ _ (sure_runs _ _ _ _ Hdir)).
  rewrite (UM_bind_answer _ _ _ _ _ (sure_runs _ _ _ _ Hfile)). unfold copy_one.
  destruct (client_locations (cwd fs1) dst (proj1 Hroom1)) as (_ & _ & above & _ & _ & _ & Hpar & _). rewrite Hpar.
  destruct (done_else_runs _ "Failed to create parent dir" fs1 _ (create_parent_spec dst above fs1 Hpar) Hcalm1)
    as (fs2 & Hr2 & Hc2 & Hcalm2 & Hs2 & Hready).
  { intros fs2 [_ Hb]. by destruct (Hb Hcalm1 Hroom1). }
  destruct (Hready Hcalm1 Hroom1) as (_ & Hup & _ & Hnode & _).
  rewrite (UM_bind_answer _ _ _ _ _ Hr2).
  assert (∀ q, loc fs2 q = loc fs q) as Hloc2 by (intros; rewrite <- Hloc1; by apply loc_cwd).
  destruct (file_lookup fs2 src data) as [t2 Hl2].
  { done. } { rewrite (proj2 Hs2), (proj2 Hs1), Hloc2. unfold file_at. by rewrite Hsrc. }
  destruct (done_else_runs _ ("Failed to copy " +:+ src) fs2 _ (fs_copy_spec src dst data t2 fs2 Hl2 Hcalm2
    (can_copy _ _ _ Hc2 Hroom1 Hup Hnode)) Hcalm2) as (fs3 & Hr3 & _ & _ & _ & Hne3 & t3 & Hn3).
  { by intros fs3 [? _]. }
  rewrite (UM_bind_answer _ _ _ _ _ Hr3). unfold dst. rewrite strip_under by done. fold dst.
  exists fs3. split; [done|]. unfold copied in *. rewrite !Hloc2 in *. split.
  - unfold file_at. by rewrite Hn3, node_at_insert, decide_True by done.
  - intros l Hll. rewrite <- (proj2 Hs1), <- (proj2 Hs2). unfold file_at. by rewrite Hn3, node_at_insert, decide_False by done.
Qed.

(** A file beside the root and one below it. *)
Definition demo_picks : filesystem :=
  mkFs (list_to_map [(["t"], Dir); (["t"; "f"], File [x61] 0); (["s"], Dir); (["s"; "g"], File [x62] 0)]) [] [] 0 0 (λ _, 0).

Lemma picked_file_copied_witness :
  (∃ fs', copy_into 1 "/s" "/t/f" demo_picks = (Ret (Answer ["f"]), fs') ∧ file_at fs' ["s"; "f"] = Some [x61]) ∧
  (∃ fs', copy_into 1 "/s" "/s/g" demo_picks = (Ret (Answer ["g"]), fs') ∧ file_at fs' ["s"; "g"] = Some []).
Proof.
  assert (∀ n, n ∈ ["f"; "g"] → local_room demo_picks (path_join "/s" n)) as Hroom.
  { assert (∀ k, file_at demo_picks (take k ["s"]) = None) as Hno by (intros [|[|k]]; [reflexivity..|by destruct k]).
    intros n Hn. repeat (apply elem_of_cons in Hn as [->|Hn]; [split; [done|]; split; [done|];
      split; [exact Hno|split; vm_compute; discriminate]|]). by apply elem_of_nil in Hn. }
  split.
  - destruct (picked_file_copied 0 "/s" "/t/f" [x61] 0 demo_picks) as (name & [= <-] & Hcopy); [reflexivity..|].
    destruct (Hcopy (Hroom "f" ltac:(set_solver))) as (fs' & Hr & Hf & _). exists fs'. split; [exact Hr|exact Hf].
  - destruct (picked_file_copied 0 "/s" "/s/g" [x62] 0 demo_picks) as (name & [= <-] & Hcopy); [reflexivity..|].
    destruct (Hcopy (Hroom "g" ltac:(set_solver))) as (fs' & Hr & Hf & _). exists fs'. split; [exact Hr|exact Hf].
Defined.

(** A picked directory that contains the root is copied into itself: at every
    depth there is one more to copy. *)
Lemma root_below_picked_runs_away :
  (copy_into 30 "/s/q" "/s" demo_picks).1 = Trap Diverges.
Proof. vm_compute. reflexivity. Qed.
