(* ===== verification/LocalTree.v ===== *)
(** Copying a picked directory below the local root: [copy_recursive] of
    src/ui/src-tauri/src/main.rs on whole trees.  The model is in [LocalCopy];
    this file proves what the recursion does. *)
From S2P Require Import Prelude Sha256 Paths FileSystem FileManager WireProtocol Proto ClientBase ClientFiles LocalCopy.

(** * Making directories *)

Lemma node_at_lookup ns l : l ≠ [] → node_at ns l = ns !! l.
Proof. intros. unfold node_at. by rewrite decide_False. Qed.

Lemma mkdirs_past todo rest : ∀ ns above, (∀ k, node_at ns (above ++ take k todo) = Some Dir) →
  mkdirs ns above (todo ++ rest) = mkdirs ns (above ++ todo) rest.
Proof.
  induction todo as [|n todo IH]; intros ns above Hd; [by rewrite app_nil_r|]. cbn [app mkdirs].
  pose proof (Hd 1%nat) as H1. cbn [take] in H1. rewrite take_0, node_at_lookup in H1 by (by destruct above).
  rewrite H1, IH, <- app_assoc; [done|]. intros k. rewrite <- app_assoc. apply (Hd (S k)).
Qed.

Lemma mkdirs_there l ns : (∀ k, node_at ns (take k l) = Some Dir) → mkdirs ns [] l = (ns, true).
Proof. intros Hd. rewrite <- (app_nil_r l) at 1. by rewrite mkdirs_past. Qed.

Lemma mkdirs_one l n ns : (∀ k, node_at ns (take k l) = Some Dir) → is_file (ns !! (l ++ [n])) = None →
  mkdirs ns [] (l ++ [n]) = (<[l ++ [n] := Dir]> ns, true).
Proof.
  intros Hd Hf. rewrite mkdirs_past by done. cbn [mkdirs app].
  destruct (ns !! (l ++ [n])) as [[c t|]|] eqn:Hn; [done| |done]. by rewrite insert_id.
Qed.

Lemma mkdirs_all todo : ∀ ns above, node_at ns above = Some Dir → (mkdirs ns above todo).2 = true →
  ∀ k, node_at (mkdirs ns above todo).1 (above ++ take k todo) = Some Dir.
Proof.
  induction todo as [|n todo IH]; intros ns above Hd Hok k.
  { destruct k; cbn; by rewrite app_nil_r. }
  destruct k as [|k]; [rewrite take_0, app_nil_r; by apply mkdirs_keeps_dirs|]. cbn [mkdirs take] in *.
  replace (above ++ n :: take k todo) with ((above ++ [n]) ++ take k todo) by (by rewrite <- app_assoc).
  destruct (ns !! (above ++ [n])) as [[c t|]|] eqn:Hn; [done|apply IH; [|done]..].
  - by rewrite node_at_lookup by (by destruct above).
  - rewrite node_at_insert by (by destruct above). by rewrite decide_True.
Qed.

Lemma mkdirs_beside todo : ∀ ns above l, ~ l `prefix_of` above ++ todo →
  (mkdirs ns above todo).1 !! l = ns !! l.
Proof.
  induction todo as [|n todo IH]; intros ns above l Hl; [done|]. cbn [mkdirs].
  replace (above ++ n :: todo) with ((above ++ [n]) ++ todo) in Hl by (by rewrite <- app_assoc).
  destruct (ns !! (above ++ [n])) as [[c t|]|]; [done|by apply IH|].
  rewrite IH by done. apply lookup_insert_ne. intros <-. apply Hl. by apply prefix_app_r.
Qed.

(** * The names in a directory *)

Lemma elem_of_children fs l n : n ∈ children fs l ↔ is_Some (nodes fs !! (l ++ [n])).
Proof.
  unfold children. rewrite list_elem_of_omap. split.
  - intros ([m x] & Hin & Hm). apply elem_of_map_to_list in Hin.
    destruct (last m) as [n'|]; [|done]. case_decide as He; [|done]. injection Hm as ->. subst m. eauto.
  - intros [x Hx]. exists (l ++ [n], x). rewrite elem_of_map_to_list. split; [done|].
    by rewrite last_snoc, decide_True.
Qed.

Lemma NoDup_children fs l : NoDup (children fs l).
Proof.
  unfold children. pose proof (NoDup_fst_map_to_list (nodes fs)) as Hnd.
  induction (map_to_list (nodes fs)) as [|[m x] ms IH]; [constructor|].
  rewrite fmap_cons in Hnd. apply NoDup_cons in Hnd as [Hm Hnd]. cbn [omap list_omap] in *.
  destruct (last m) as [n|]; [|by apply IH]. case_decide as He; [|by apply IH].
  apply NoDup_cons. split; [|by apply IH]. intros ([m' x'] & Hin & Hm')%list_elem_of_omap.
  destruct (last m') as [n'|]; [|done]. case_decide as He'; [|done]. injection Hm' as ->.
  apply Hm, list_elem_of_fmap. exists (m', x'). split; [by rewrite He, He'|done].
Qed.

(** * Trees *)

(** Neither lies below the other. *)
Definition beside (a b : list string) : Prop := ~ a `prefix_of` b ∧ ~ b `prefix_of` a.

Lemma beside_below a b x y : beside a b → beside (a ++ x) (b ++ y).
Proof.
  intros [Hab Hba]. assert (∀ c, a `prefix_of` c → ~ b `prefix_of` c) as Hno.
  { intros c Ha Hb. by destruct (prefix_weak_total a b c Ha Hb). }
  split; intros Hp; [apply (Hno (b ++ y))|apply (Hno (a ++ x))]; try (by apply prefix_app_r);
    (etrans; [|exact Hp]); by apply prefix_app_r.
Qed.

Lemma beside_ne a b x y : beside a b → a ++ x ≠ b ++ y.
Proof. intros Hb Heq. destruct (beside_below a b x y Hb) as [Hn _]. by rewrite Heq in Hn. Qed.

Lemma beside_nil a b : beside a b → a ≠ [] ∧ b ≠ [].
Proof. intros [Ha Hb]. split; intros ->; [apply Ha|apply Hb]; apply prefix_nil. Qed.

(** What lies at [ls]: proper names, directories above everything, and a depth
    below [depth]. *)
Record tree (depth : nat) (fs : filesystem) (ls : list string) : Prop := {
  tree_names q x : nodes fs !! (ls ++ q) = Some x → Forall proper q ∧ (length q < depth)%nat;
  tree_closed q n x : nodes fs !! (ls ++ q ++ [n]) = Some x → nodes fs !! (ls ++ q) = Some Dir }.

(** No file of one stands where the other has a directory. *)
Definition fits (fs : filesystem) (ls ld : list string) : Prop :=
  ∀ q, match nodes fs !! (ls ++ q), nodes fs !! (ld ++ q) with
       | Some (File _ _), Some Dir | Some Dir, Some (File _ _) => False
       | _, _ => True
       end.

Record copyable (depth : nat) (fs : filesystem) (ls ld : list string) : Prop := {
  cp_calm : calm fs;
  cp_beside : beside ls ld;
  cp_tree : tree depth fs ls;
  cp_fits : fits fs ls ld;
  cp_above k : (k < length ld)%nat → node_at (nodes fs) (take k ld) = Some Dir }.

(** The file at [q] of the destination afterwards. *)
Definition merged (fs : filesystem) (ls ld q : list string) : option bytes :=
  match file_at fs (ls ++ q) with Some data => Some data | None => file_at fs (ld ++ q) end.

(** The outcome: exactly the files [qs] of the source have been laid over the
    destination. *)
Record tree_copied (fs fs' : filesystem) (ls ld : list string) (qs : list (list string)) : Prop := {
  tc_calm : calm fs';
  tc_cwd : cwd fs' = cwd fs;
  tc_outside l : ~ ld `prefix_of` l → nodes fs' !! l = nodes fs !! l;
  tc_merged q : file_at fs' (ld ++ q) = merged fs ls ld q;
  tc_nodup : NoDup qs;
  tc_names q : q ∈ qs ↔ is_Some (file_at fs (ls ++ q)) }.

Lemma tree_top depth fs ls q x : tree depth fs ls → q ≠ [] → nodes fs !! (ls ++ q) = Some x →
  ∃ n, head q = Some n ∧ is_Some (nodes fs !! (ls ++ [n])) ∧ nodes fs !! ls = Some Dir.
Proof.
  intros Ht. revert x. induction q as [|m q IH] using rev_ind; [done|]. intros x _ Hx.
  pose proof (tree_closed _ _ _ Ht _ _ _ Hx) as Hd. destruct (decide (q = [])) as [->|Hq].
  { rewrite app_nil_r in Hd. exists m. cbn [app] in *. eauto. }
  destruct (IH _ Hq Hd) as (n & Hn & Hs & Htop). exists n. split; [|done]. by destruct q.
Qed.

(** * Path names along the recursion *)

Record copy_paths (fs : filesystem) (src dst base : string) (rel ls ld : list string) : Prop := {
  pa_src : loc fs src = ls;
  pa_dst : loc fs dst = ld;
  pa_plain : names_directory dst = false;
  pa_rel : rust_components dst = rust_components base ++ rel;
  pa_absolute : is_absolute dst = is_absolute base }.

Lemma names_directory_join root n : proper n → names_directory (path_join root n) = false.
Proof.
  intros Hn. destruct (proper_path_name n Hn) as (Hs & _ & _). unfold path_join.
  rewrite names_directory_append; [|by apply (proper_path_relative n [n]), proper_path_name|by rewrite Hs].
  unfold names_directory. rewrite Hs. cbn. destruct Hn as (? & ? & ? & _). rewrite bool_decide_eq_false. tauto.
Qed.

Lemma copy_paths_child fs src dst base rel ls ld n : copy_paths fs src dst base rel ls ld → proper n →
  copy_paths fs (path_join src n) (path_join dst n) base (rel ++ [n]) (ls ++ [n]) (ld ++ [n]).
Proof.
  intros [Hs Hd _ Hr Ha] Hn. pose proof (proper_path_name n Hn) as Hp. split.
  - by rewrite (loc_below _ _ _ [n]), Hs.
  - by rewrite (loc_below _ _ _ [n]), Hd.
  - by apply names_directory_join.
  - by rewrite (components_below _ _ [n]), Hr, app_assoc.
  - by rewrite (join_absolute _ _ [n]).
Qed.

Lemma strip_copied fs src dst base rel ls ld : copy_paths fs src dst base rel ls ld →
  strip_prefix dst base = Some (join_slash rel).
Proof.
  intros [_ _ _ Hr Ha]. unfold strip_prefix. by rewrite Hr, Ha, take_app_length, drop_app_length, decide_True.
Qed.

(** * One file *)

(** The directories above the destination are there already. *)
Lemma parent_there dst dir e fs : names_directory dst = false → parent dst = Some dir → calm fs →
  (∀ k, (k < length (loc fs dst))%nat → node_at (nodes fs) (take k (loc fs dst)) = Some Dir) →
  ∃ fs', done_else (create_dir_all dir) e fs = (Ret (Answer tt), fs') ∧
    nodes fs' = nodes fs ∧ cwd fs' = cwd fs ∧ calm fs'.
Proof.
  intros Hd Hpar Hc Hup. destruct (client_locations (cwd fs) dst Hd) as (above & l & dir' & Hl & _ & _ & Hpar' & Ha).
  assert (dir' = dir) as -> by congruence. unfold create_dir_all. destruct (decide (dir = "")) as [->|Hne].
  { by exists fs. }
  assert (mkdirs (nodes fs) [] (loc fs dir) = (nodes fs, true)) as Hmk.
  { apply mkdirs_there. intros k. unfold loc in *. rewrite Ha, Hl in *.
    destruct (decide (k < length above)%nat) as [Hk|Hk].
    - rewrite <- (take_app_le above [l]) by lia. apply Hup. rewrite length_app. simpl. lia.
    - rewrite take_ge by lia. rewrite <- (take_app_length above [l]) at 1. apply Hup. rewrite length_app. simpl. lia. }
  destruct (done_else_runs (create_directories dir) e fs _ (create_directories_spec dir fs) Hc)
    as (fs' & Hr & Hc' & Hcalm & HQ); rewrite Hmk in *.
  { by intros fs' [[_ ?]|(_ & _ & ?)]. }
  exists fs'. by destruct HQ as [[? _]|(_ & ? & _)].
Qed.

Lemma copy_one_copies depth src dst base rel fs ls ld data t :
  copyable depth fs ls ld → copy_paths fs src dst base rel ls ld → names_directory src = false →
  nodes fs !! ls = Some (File data t) →
  ∃ fs', copy_one src dst base fs = (Ret (Answer [join_slash rel]), fs') ∧ tree_copied fs fs' ls ld [[]].
Proof.
  intros [Hc Hb Ht Hf Hup] Hp Hsd Hn. pose proof Hp as [Hs Hd Hdd _ _]. destruct (beside_nil _ _ Hb) as [Hls Hld].
  destruct (client_locations (cwd fs) dst Hdd) as (_ & _ & dir & _ & _ & _ & Hpar & _).
  destruct (parent_there dst dir "Failed to create parent dir" fs) as (fs1 & Hr1 & Hn1 & Hw1 & Hc1); rewrite ?Hd; try done.
  assert (lookup_node fs1 src = Some (File data t)) as Hl1.
  { unfold lookup_node. by rewrite (loc_cwd _ _ _ Hw1), Hn1, Hs, node_at_lookup, Hn, Hsd. }
  assert (~ cannot_create fs1 dst) as Hcan.
  { unfold cannot_create. rewrite (loc_cwd _ _ _ Hw1), Hn1, Hd, Hdd, node_at_lookup by done.
    specialize (Hf []). rewrite !app_nil_r, Hn in Hf. unfold parent_is_dir. rewrite removelast_firstn_len, Hup.
    - intros [Hx|[?|?]]; [by rewrite Hx in Hf|done..].
    - destruct ld; [done|]. simpl. lia. }
  destruct (done_else_runs _ ("Failed to copy " +:+ src) fs1 _ (fs_copy_spec src dst data t fs1 Hl1 Hc1 Hcan) Hc1)
    as (fs2 & Hr2 & Hw2 & Hc2 & _ & _ & t2 & Hn2); [by intros ? [? _]|].
  assert (loc fs1 dst = ld ∧ loc fs1 src = ls) as [Hd1 Hs1] by (by rewrite !(loc_cwd fs fs1)).
  unfold copied in Hn2. rewrite Hd1, Hs1, Hn1, decide_False in Hn2.
  2: { intros He. apply (beside_ne ls ld [] [] Hb). by rewrite He. }
  unfold copy_one. rewrite Hpar, (UM_bind_answer _ _ _ _ _ Hr1), (UM_bind_answer _ _ _ _ _ Hr2), (strip_copied _ _ _ _ _ _ _ Hp).
  exists fs2. split; [done|].
  assert (∀ q, q ≠ [] → file_at fs (ls ++ q) = None) as Hnone.
  { intros q Hq. unfold file_at. rewrite node_at_lookup by (by destruct ls).
    destruct (nodes fs !! (ls ++ q)) as [x|] eqn:Hx; [|done].
    destruct (tree_top _ _ _ _ _ Ht Hq Hx) as (? & _ & _ & Hy). congruence. }
  assert (file_at fs ls = Some data) as Hfile by (unfold file_at; by rewrite node_at_lookup, Hn).
  split; [done|congruence|..].
  - intros l Hl. rewrite Hn2. apply lookup_insert_ne. by intros ->.
  - intros q. unfold merged, file_at at 1. rewrite Hn2, node_at_insert by done. case_decide as Hq.
    + assert (q = []) as -> by (apply (app_inv_head ld); by rewrite app_nil_r). by rewrite app_nil_r, Hfile.
    + rewrite Hnone; [done|]. intros ->. by rewrite app_nil_r in Hq.
  - apply NoDup_singleton.
  - intros q. rewrite list_elem_of_singleton. split; [intros ->; rewrite app_nil_r; by eexists|].
    intros [d Hq]. destruct (decide (q = [])) as [|Hqn]; [done|]. by rewrite Hnone in Hq.
Qed.

(** * Directories *)

Lemma copyable_child depth fs fs' ls ld n : copyable (S depth) fs ls ld → calm fs' → nodes fs' !! ld = Some Dir →
  (∀ l, ~ ld `prefix_of` l → nodes fs' !! l = nodes fs !! l) →
  (∀ q, nodes fs' !! (ld ++ n :: q) = nodes fs !! (ld ++ n :: q)) →
  copyable depth fs' (ls ++ [n]) (ld ++ [n]).
Proof.
  intros [_ Hb Ht Hf Hup] Hc Hld Hout Hin.
  assert (∀ q, nodes fs' !! ((ls ++ [n]) ++ q) = nodes fs !! (ls ++ n :: q)) as Hsrc.
  { intros q. rewrite <- app_assoc. apply Hout. intros Hp. destruct (beside_below ls ld (n :: q) [] Hb) as [_ Hn].
    apply Hn. by rewrite app_nil_r. }
  split; [done|by apply beside_below|..].
  - split.
    + intros q x Hx. rewrite Hsrc in Hx. destruct (tree_names _ _ _ Ht _ _ Hx) as [Hp Hl].
      apply Forall_cons in Hp as [_ Hp]. simpl in Hl. split; [done|lia].
    + intros q m x Hx. rewrite Hsrc in *. by apply (tree_closed _ _ _ Ht (n :: q) m x).
  - intros q. rewrite Hsrc, <- app_assoc. cbn [app]. rewrite Hin. apply Hf.
  - intros k Hk. rewrite length_app in Hk. simpl in Hk. destruct (beside_nil _ _ Hb) as [_ Hne].
    destruct (decide (k = length ld)) as [->|Hk'].
    { by rewrite take_app_length, node_at_lookup. }
    rewrite take_app_le by lia. rewrite <- (Hup k) by lia. unfold node_at. case_decide; [done|].
    apply Hout. intros Hp%prefix_length. rewrite length_take in Hp. lia.
Qed.

(** After some of the names in the directory. *)
Record partly_copied (fs fs' : filesystem) (ls ld seen : list string) (qs : list (list string)) : Prop := {
  pc_calm : calm fs';
  pc_cwd : cwd fs' = cwd fs;
  pc_outside l : (∀ n, n ∈ seen → ~ (ld ++ [n]) `prefix_of` l) → nodes fs' !! l = nodes fs !! l;
  pc_merged n q : n ∈ seen → file_at fs' (ld ++ n :: q) = merged fs ls ld (n :: q);
  pc_nodup : NoDup qs;
  pc_names q : q ∈ qs ↔ (∃ n, head q = Some n ∧ n ∈ seen) ∧ is_Some (file_at fs (ls ++ q)) }.

Lemma below_child (ld q : list string) n : (ld ++ [n]) `prefix_of` (ld ++ q) ↔ head q = Some n.
Proof.
  split.
  - intros [l Hp]%prefix_app_inv. by rewrite Hp.
  - intros Hq. apply prefix_app. destruct q as [|m q]; [done|]. injection Hq as ->. by exists q.
Qed.

Lemma file_at_agree fs fs' l : nodes fs' !! l = nodes fs !! l → file_at fs' l = file_at fs l.
Proof. intros Hl. unfold file_at, node_at. by rewrite Hl. Qed.

Section Children.
Context (fs : filesystem) (ls ld : list string) (Hb : beside ls ld).

Lemma partly_source fs' seen qs q : partly_copied fs fs' ls ld seen qs →
  nodes fs' !! (ls ++ q) = nodes fs !! (ls ++ q).
Proof.
  intros Hp. apply (pc_outside _ _ _ _ _ _ Hp). intros n _ Hpre. by destruct (beside_below ls ld q [n] Hb).
Qed.

Lemma partly_unseen fs' seen qs q : partly_copied fs fs' ls ld seen qs → (∀ n, head q = Some n → n ∉ seen) →
  nodes fs' !! (ld ++ q) = nodes fs !! (ld ++ q).
Proof.
  intros Hp Hq. apply (pc_outside _ _ _ _ _ _ Hp). intros n Hn Hpre%below_child. by destruct (Hq n).
Qed.

Lemma partly_start : calm fs → partly_copied fs fs ls ld [] [].
Proof.
  intros Hc. split; try done; [by intros ?? ?%elem_of_nil|constructor|].
  intros q. split; [by intros ?%elem_of_nil|]. by intros [(n & _ & ?%elem_of_nil) _].
Qed.

Lemma partly_step fs1 fs2 seen qs n qs1 : n ∉ seen → partly_copied fs fs1 ls ld seen qs →
  tree_copied fs1 fs2 (ls ++ [n]) (ld ++ [n]) qs1 →
  partly_copied fs fs2 ls ld (seen ++ [n]) (qs ++ (cons n <$> qs1)).
Proof.
  intros Hn Hp [Hc Hw Hout Hmer Hnd Hnames].
  assert (∀ q, file_at fs1 ((ls ++ [n]) ++ q) = file_at fs (ls ++ n :: q)) as Hsrc.
  { intros q. rewrite <- app_assoc. by eapply file_at_agree, partly_source. }
  split; [done|by rewrite Hw, (pc_cwd _ _ _ _ _ _ Hp)|..].
  - intros l Hl. rewrite Hout by (apply Hl; set_solver). apply (pc_outside _ _ _ _ _ _ Hp).
    intros m Hm. apply Hl, elem_of_app. by left.
  - intros m q Hm. destruct (decide (m = n)) as [->|Hne].
    + replace (ld ++ n :: q) with ((ld ++ [n]) ++ q) by (by rewrite <- app_assoc). rewrite Hmer.
      unfold merged. rewrite Hsrc, <- app_assoc. destruct (file_at fs (ls ++ n :: q)); [done|].
      eapply file_at_agree, partly_unseen; [done|]. by intros m [= <-].
    + rewrite <- (pc_merged _ _ _ _ _ _ Hp) by (by apply elem_of_app in Hm as [|?%list_elem_of_singleton]). apply file_at_agree, Hout.
      intros Hpre%below_child. by injection Hpre.
  - apply NoDup_app. split; [apply Hp|]. split.
    + intros q Hq (q' & -> & _)%list_elem_of_fmap. apply (pc_names _ _ _ _ _ _ Hp) in Hq as [(m & [= <-] & ?) _]. done.
    + apply NoDup_fmap_2; [by intros ?? [=]|done].
  - intros q. rewrite elem_of_app, list_elem_of_fmap, (pc_names _ _ _ _ _ _ Hp). split.
    + intros [[(m & Hm & Hs) Hf]|(q' & -> & Hq')]; [split; [exists m; split; [done|apply elem_of_app; by left]|done]|].
      rewrite Hnames, Hsrc in Hq'. split; [exists n; split; [done|apply elem_of_app; by right; left]|done].
    + intros [(m & Hm & Hs) Hf]. destruct q as [|? q]; [done|]. injection Hm as ->.
      destruct (decide (m = n)) as [->|Hne]; [right; exists q; rewrite Hnames, Hsrc; done|].
      left. split; [exists m; split; [done|]|done]. by apply elem_of_app in Hs as [|?%list_elem_of_singleton].
Qed.

(** All names seen: the whole tree. *)
Lemma partly_all depth fs' qs : tree depth fs ls → nodes fs !! ls = Some Dir → nodes fs !! ld = Some Dir →
  partly_copied fs fs' ls ld (children fs ls) qs → tree_copied fs fs' ls ld qs.
Proof.
  intros Ht Hls Hld Hp. destruct (beside_nil _ _ Hb) as [Hl Hd].
  assert (file_at fs ls = None) as Hnone by (unfold file_at; by rewrite node_at_lookup, Hls).
  assert (∀ q d, file_at fs (ls ++ q) = Some d → ∃ n, head q = Some n ∧ n ∈ children fs ls) as Hhead.
  { intros q d Hq. destruct (decide (q = [])) as [->|Hne]; [rewrite app_nil_r in Hq; congruence|].
    apply file_at_some in Hq as (? & t & Hq). rewrite node_at_lookup in Hq by done.
    destruct (tree_top _ _ _ _ _ Ht Hne Hq) as (n & ? & ? & _). exists n. by rewrite elem_of_children. }
  split; [by destruct Hp|by destruct Hp|..].
  - intros l Hout. apply (pc_outside _ _ _ _ _ _ Hp). intros n _ Hpre. apply Hout. etrans; [|exact Hpre]. by apply prefix_app_r.
  - intros q. assert ((∀ n, head q = Some n → n ∉ children fs ls) ∨ ∃ n q', q = n :: q' ∧ n ∈ children fs ls) as Hq.
    { destruct q as [|n q]; [by left|]. destruct (decide (n ∈ children fs ls)) as [Hin|Hno]; [right; eauto|].
      left. by intros ? [= <-]. }
    destruct Hq as [Hno|(n & q' & -> & Hin)]; [|by apply (pc_merged _ _ _ _ _ _ Hp)].
    unfold merged. destruct (file_at fs (ls ++ q)) as [d|] eqn:Hq; [|by eapply file_at_agree, partly_unseen].
    destruct (Hhead q d Hq) as (n & Hn & Hin). by destruct (Hno n).
  - apply Hp.
  - intros q. rewrite (pc_names _ _ _ _ _ _ Hp). split; [by intros [_ ?]|]. intros Hs. split; [|done].
    destruct Hs as [d Hd']. eauto.
Qed.

End Children.

(** * The recursion *)

Definition copied_names (rel : list string) (qs : list (list string)) : list string :=
  (λ q, join_slash (rel ++ q)) <$> qs.

(** What the call does when the fuel is above the depth of the tree. *)
Definition copies (depth : nat) : Prop := ∀ src dst base rel fs ls ld x,
  copyable depth fs ls ld → copy_paths fs src dst base rel ls ld →
  nodes fs !! ls = Some x → names_directory src = false ∨ x = Dir →
  ∃ fs' qs, copy_recursive depth src dst base fs = (Ret (Answer (copied_names rel qs)), fs') ∧
    tree_copied fs fs' ls ld qs.

Lemma copy_paths_cwd fs fs' src dst base rel ls ld : cwd fs' = cwd fs →
  copy_paths fs src dst base rel ls ld → copy_paths fs' src dst base rel ls ld.
Proof. intros Hc [Hs Hd ? ? ?]. split; try done; by rewrite (loc_cwd fs). Qed.

Lemma copy_children depth src dst base rel ls ld fs0 fs : copies depth →
  copyable (S depth) fs ls ld → nodes fs !! ld = Some Dir → copy_paths fs src dst base rel ls ld →
  ∀ names seen qs (m : UM (list string)) fs1, NoDup (seen ++ names) →
  (∀ n, n ∈ names → is_Some (nodes fs !! (ls ++ [n]))) →
  m fs0 = (Ret (Answer (copied_names rel qs)), fs1) → partly_copied fs fs1 ls ld seen qs →
  ∃ fs' qs', fold_left (λ (results : UM (list string)) child_name,
      copied ← results;
      sub ← copy_recursive depth (path_join src child_name) (path_join dst child_name) base;
      mret (copied ++ sub)) names m fs0 = (Ret (Answer (copied_names rel qs')), fs') ∧
    partly_copied fs fs' ls ld (seen ++ names) qs'.
Proof.
  intros IH Hcp Hld Hpa. pose proof Hcp as [_ Hb Ht _ _].
  induction names as [|n names IHn]; intros seen qs m fs1 Hnd Hin Hm Hpart.
  { exists fs1, qs. by rewrite app_nil_r. }
  destruct (Hin n) as [x Hx]; [set_solver|].
  assert (n ∉ seen) as Hn by (intros ?; apply NoDup_app in Hnd as (_ & Hno & _); apply (Hno n); set_solver).
  assert (proper n) as Hprop by (by destruct (tree_names _ _ _ Ht _ _ Hx) as [[Hp _]%Forall_cons _]).
  destruct (IH (path_join src n) (path_join dst n) base (rel ++ [n]) fs1 (ls ++ [n]) (ld ++ [n]) x)
    as (fs2 & qs1 & Hr & Hdone).
  - apply (copyable_child _ fs); [done|by destruct Hpart| | |].
    + rewrite <- (app_nil_r ld). rewrite (partly_unseen fs ls ld fs1 seen qs [] Hpart) by done. by rewrite app_nil_r.
    + intros l Hl. apply (pc_outside _ _ _ _ _ _ Hpart). intros k _ Hpre. apply Hl. etrans; [|exact Hpre]. by apply prefix_app_r.
    + intros q. eapply partly_unseen; [done|]. by intros k [= <-].
  - apply copy_paths_child; [|done]. eapply copy_paths_cwd; [|done]. by destruct Hpart.
  - by rewrite (partly_source fs ls ld Hb fs1 seen qs).
  - left. by apply names_directory_join.
  - cbn [fold_left]. replace (seen ++ n :: names) with ((seen ++ [n]) ++ names) by (by rewrite <- app_assoc).
    apply (IHn (seen ++ [n]) (qs ++ (cons n <$> qs1)) _ fs2).
    + by rewrite <- app_assoc.
    + intros k Hk. apply Hin. set_solver.
    + rewrite (UM_bind_answer _ _ _ _ _ Hm), (UM_bind_answer _ _ _ _ _ Hr).
      unfold copied_names. rewrite fmap_app, <- list_fmap_compose. unfold mret, UM_ret. do 4 f_equal.
      apply list_fmap_ext. intros i q _. cbn. by rewrite <- app_assoc.
    + by apply (partly_step fs ls ld Hb fs1).
Qed.

(** Making the destination directory. *)
Lemma destination_made depth fs src dst base rel ls ld e : copyable depth fs ls ld →
  copy_paths fs src dst base rel ls ld → nodes fs !! ls = Some Dir →
  ∃ fs', done_else (create_dir_all dst) e fs = (Ret (Answer tt), fs') ∧ cwd fs' = cwd fs ∧ calm fs' ∧
    nodes fs' = <[ld := Dir]> (nodes fs) ∧ same_files fs fs'.
Proof.
  intros [Hc Hb _ Hf Hup] [_ Hd Hdd _ _] Hls. destruct (beside_nil _ _ Hb) as [_ Hne].
  unfold create_dir_all. rewrite decide_False by (by intros ->).
  assert (is_file (nodes fs !! ld) = None) as Hno.
  { specialize (Hf []). rewrite !app_nil_r, Hls in Hf. by destruct (nodes fs !! ld) as [[]|]. }
  assert (mkdirs (nodes fs) [] ld = (<[ld := Dir]> (nodes fs), true)) as Hmk.
  { destruct (exists_last Hne) as (above & l & ->). apply mkdirs_one; [|done]. intros k.
    rewrite length_app in Hup. simpl in Hup. destruct (decide (k < length above)%nat).
    - rewrite <- (take_app_le above [l]) by lia. apply Hup. lia.
    - rewrite take_ge by lia. rewrite <- (take_app_length above [l]) at 1. apply Hup. lia. }
  destruct (done_else_runs (create_directories dst) e fs _ (create_directories_spec dst fs) Hc)
    as (fs' & Hr & Hc' & Hcalm & HQ); rewrite Hd, Hmk in *.
  { by intros fs' [[_ ?]|(_ & _ & ?)]. }
  destruct HQ as [[Hn _]|(_ & ? & _)]; [|done]. cbn [fst] in Hn. exists fs'. do 4 (split; [done|]). split; [done|].
  intros l. unfold file_at. rewrite Hn, node_at_insert by done. case_decide as Hl; [|done].
  by rewrite <- Hl, node_at_lookup, Hno.
Qed.

Lemma made_copyable depth fs fs' ls ld : copyable depth fs ls ld → calm fs' → nodes fs' = <[ld := Dir]> (nodes fs) →
  nodes fs !! ls = Some Dir → copyable depth fs' ls ld ∧ (∀ q, nodes fs' !! (ls ++ q) = nodes fs !! (ls ++ q)).
Proof.
  intros [_ Hb [Hnames Hclosed] Hf Hup] Hc Hn Hls. destruct (beside_nil _ _ Hb) as [_ Hne].
  assert (∀ q, nodes fs' !! (ls ++ q) = nodes fs !! (ls ++ q)) as Hsrc.
  { intros q. rewrite Hn. apply lookup_insert_ne. intros He. apply (beside_ne ls ld q [] Hb). by rewrite app_nil_r. }
  split; [|done]. split; [done|done|split|..].
  - intros q x. rewrite Hsrc. apply Hnames.
  - intros q n x. rewrite !Hsrc. apply Hclosed.
  - intros q. rewrite Hsrc, Hn. specialize (Hf q). destruct (decide (q = [])) as [->|Hq].
    + by rewrite !app_nil_r, Hls, lookup_insert_eq in *.
    + rewrite lookup_insert_ne; [done|]. intros He. apply Hq, (app_inv_head ld). by rewrite app_nil_r.
  - intros k Hk. rewrite Hn, node_at_insert by done. by case_decide; [|apply Hup].
Qed.

Lemma made_copied fs fs' fs'' ls ld qs : cwd fs' = cwd fs → nodes fs' = <[ld := Dir]> (nodes fs) → same_files fs fs' →
  tree_copied fs' fs'' ls ld qs → tree_copied fs fs'' ls ld qs.
Proof.
  intros Hw Hn [_ Hsame] [Hc Hw' Hout Hmer Hnd Hnames]. split; [done|congruence|..]; [| |done|].
  - intros l Hl. rewrite Hout, Hn by done. apply lookup_insert_ne. by intros ->.
  - intros q. rewrite Hmer. unfold merged. by rewrite !Hsame.
  - intros q. by rewrite Hnames, Hsame.
Qed.

Lemma copy_recursive_copies depth : copies depth.
Proof.
  induction depth as [|depth IH]; intros src dst base rel fs ls ld x Hcp Hpa Hx Hdir; pose proof Hcp as [Hc Hb Ht _ _].
  { destruct (tree_names _ _ _ Ht [] x) as [_ Hl]; [by rewrite app_nil_r|]. simpl in Hl. lia. }
  destruct (beside_nil _ _ Hb) as [Hls Hld].
  assert (lookup_node fs src = Some x) as Hl.
  { unfold lookup_node. rewrite (pa_src _ _ _ _ _ _ _ Hpa), node_at_lookup, Hx by done.
    destruct x; [|done]. by destruct Hdir as [->|]. }
  assert (path_is_dir src fs = (Ret (match x with Dir => true | _ => false end), fs) ∧
    path_is_file src fs = (Ret (match x with Dir => false | _ => true end), fs)) as [Hisdir Hisfile].
  { unfold path_is_dir, path_is_file. rewrite !(SM_bind_ret _ _ _ _ _ (next_fault_calm fs Hc)), !SM_bind_unfold.
    cbn [get_st]. rewrite Hl. by destruct x. }
  cbn [copy_recursive]. rewrite (UM_bind_answer _ _ _ _ _ (sure_runs _ _ _ _ Hisdir)).
  destruct x as [data t|].
  - rewrite (UM_bind_answer _ _ _ _ _ (sure_runs _ _ _ _ Hisfile)).
    destruct Hdir as [Hplain|]; [|done].
    destruct (copy_one_copies _ _ _ _ _ _ _ _ _ _ Hcp Hpa Hplain Hx) as (fs' & Hr & Hdone).
    exists fs', [[]]. split; [|done]. rewrite Hr. cbn. by rewrite app_nil_r.
  - destruct (destination_made _ fs src dst base rel ls ld ("Failed to create dir " +:+ dst) Hcp Hpa Hx)
      as (fs1 & Hr1 & Hw1 & Hc1 & Hn1 & Hs1).
    destruct (made_copyable _ _ _ _ _ Hcp Hc1 Hn1 Hx) as [Hcp1 Hsrc1]. pose proof (Hsrc1 []) as Htop. rewrite !app_nil_r, Hx in Htop.
    rewrite (UM_bind_answer _ _ _ _ _ Hr1). pose proof (copy_paths_cwd _ fs1 _ _ _ _ _ _ Hw1 Hpa) as Hpa1.
    assert (ok_else (read_dir src) "Failed to read dir" fs1 = (Ret (Answer (children fs1 ls)), fs1)) as Hread.
    { unfold ok_else, read_dir. rewrite (SM_bind_ret _ _ _ _ _ (next_fault_calm fs1 Hc1)), SM_bind_unfold.
      cbn [get_st]. unfold lookup_node. by rewrite (pa_src _ _ _ _ _ _ _ Hpa1), node_at_lookup, Htop by done. }
    rewrite (UM_bind_answer _ _ _ _ _ Hread).
    assert (nodes fs1 !! ld = Some Dir) as Hld1 by (by rewrite Hn1, lookup_insert_eq).
    destruct (copy_children depth src dst base rel ls ld fs1 fs1 IH Hcp1 Hld1 Hpa1 (children fs1 ls) [] [] (mret []) fs1)
      as (fs' & qs & Hr & Hpart); [apply NoDup_children|by intros n ?%elem_of_children|done|by apply partly_start|].
    exists fs', qs. split; [exact Hr|]. eapply made_copied; [done..|].
    by apply (partly_all fs1 ls ld Hb (S depth)); [apply Hcp1|..].
Qed.

(** * A picked directory *)

Lemma file_name_proper p name : file_name p = Some name → proper name.
Proof.
  unfold file_name, last_components. intros Hf.
  assert (Forall (λ n, no_slash n = true) (reverse (split_slash p))) as Hns
    by (apply Forall_reverse, split_slash_no_slash).
  induction Hns as [|n ns Hn _ IH]; [done|]. cbn [skip_idle] in Hf. case_decide as Hd; [by apply IH|].
  case_decide; [done|]. injection Hf as <-. unfold proper. tauto.
Qed.

(** Making the root touches neither the picked tree nor the destination. *)
Lemma root_ready depth root name fs ls : calm fs → root ≠ "" → proper name → let ld := loc fs root ++ [name] in
  beside ls ld → tree depth fs ls → fits fs ls ld → (∀ k, file_at fs (take k (loc fs root)) = None) →
  ∃ fs', done_else (create_dir_all root) "Failed to create sync root" fs = (Ret (Answer tt), fs') ∧
    cwd fs' = cwd fs ∧ same_files fs fs' ∧ copyable depth fs' ls ld ∧
    ∀ q, nodes fs' !! (ls ++ q) = nodes fs !! (ls ++ q).
Proof.
  intros Hc Hne Hprop ld Hb [Hnames Hclosed] Hf Hno. set (lr := loc fs root) in *.
  unfold create_dir_all. rewrite decide_False by done.
  assert ((mkdirs (nodes fs) [] lr).2 = true) as Hok by (by apply mkdirs_ok).
  destruct (done_else_runs (create_directories root) "Failed to create sync root" fs _
    (create_directories_spec root fs) Hc) as (fs' & Hr & Hw & Hc' & HQ).
  { intros fs' [[_ Hx]|(_ & _ & Hx)]; [|done]. fold lr in Hx. congruence. }
  destruct HQ as [[Hn _]|(_ & ? & _)]; [|done]. fold lr in Hn.
  assert (∀ l, ~ l `prefix_of` lr → nodes fs' !! l = nodes fs !! l) as Hout by (intros; rewrite Hn; by apply mkdirs_beside).
  assert (∀ q, nodes fs' !! (ls ++ q) = nodes fs !! (ls ++ q)) as Hsrc.
  { intros q. apply Hout. intros Hpre. apply (proj1 Hb). etrans; [apply (prefix_app_r ls ls q); done|].
    etrans; [exact Hpre|]. by apply prefix_app_r. }
  exists fs'. do 2 (split; [done|]).
  split; [split; [done|]; intros l; unfold file_at; rewrite Hn; apply mkdirs_files|]. split; [|done].
  split; [done|done|split|..].
  - intros q x. rewrite Hsrc. apply Hnames.
  - intros q n x. rewrite !Hsrc. apply Hclosed.
  - intros q. rewrite Hsrc, (Hout (ld ++ q)); [apply Hf|]. intros Hp%prefix_length.
    unfold ld in Hp. rewrite !length_app in Hp. simpl in Hp. lia.
  - intros k Hk. unfold ld in *. rewrite length_app in Hk. simpl in Hk. rewrite take_app_le by lia. rewrite Hn.
    apply (mkdirs_all lr (nodes fs) []); done.
Qed.


(** A directory with a file and a sub-directory; the root has a directory of the
    same name with another file. *)
Definition demo_tree : filesystem :=
  mkFs (list_to_map [(["t"], Dir); (["t"; "d"], Dir); (["t"; "d"; "f"], File [x61] 0); (["t"; "d"; "e"], Dir);
    (["t"; "d"; "e"; "g"], File [x62] 0); (["s"], Dir); (["s"; "d"], Dir); (["s"; "d"; "h"], File [x63] 0);
    (["s"; "d"; "f"], File [x64] 0)]) [] [] 0 0 (λ _, 0).

Lemma demo_tree_nodes (P : list string → node → Prop) :
  Forall (λ '(l, x), P l x) (map_to_list (nodes demo_tree)) → ∀ l x, nodes demo_tree !! l = Some x → P l x.
Proof. intros HP l x Hx%elem_of_map_to_list. by apply (proj1 (Forall_forall _ _) HP (l, x)). Qed.

