(* ===== verification/LocalListing.v ===== *)
(** Listing the client's local files: [FileOps::list_files] of
    src/client/src/file_ops.rs.

    The directory walk is the walkdir crate's: the class [WalkDir], whose law is
    what the crate documents. *)
From S2P Require Import Prelude Sha256 Paths FileSystem FileManager WireProtocol Proto.
From S2P Require Import ClientBase ClientFiles LocalCopy.

(** [walkdir::DirEntry]: its path and whether it is a regular file. *)
Record walk_entry := mkWalkEntry { we_path : string; we_is_file : bool }.

(** [WalkDir::new(root)] with an optional [max_depth]: the iterator's items, an
    error for what cannot be read. *)
Class WalkDir := { walk_dir : string → option nat → filesystem → list (option walk_entry) }.

(** In a directory without failures the walk meets each regular file below it,
    down to the given depth, under the root's path joined with its relative one. *)
Class WalkDirLaws `{WalkDir} := {
  walk_dir_exact : ∀ root depth fs, calm fs → lookup_node fs root = Some Dir →
    ∃ entries, walk_dir root depth fs = Some <$> entries ∧
      ∀ path, mkWalkEntry path true ∈ entries ↔ ∃ ns c t, ns ≠ [] ∧
        match depth with Some d => (length ns <= d)%nat | None => True end ∧
        nodes fs !! (loc fs root ++ ns) = Some (File c t) ∧ path = path_join root (join_slash ns)
}.

(** [str::ends_with] and [str::starts_with]. *)
Definition starts_with (prefix s : string) : bool :=
  bool_decide (String.substring 0 (String.length prefix) s = prefix).
Definition ends_with (suffix s : string) : bool :=
  (String.length suffix <=? String.length s)%nat &&
  bool_decide (String.substring (String.length s - String.length suffix) (String.length suffix) s = suffix).

(** Files from this size on are listed without a digest. *)
Definition HASH_LIMIT : Z := 100 * 1024 * 1024.

Section Listing.
Context `{Disk, Sha2, WalkDir} (self : FileOps).

(** What is said about one file. *)
Definition walk_info (path rel : string) : CM filesystem LocalFileInfo :=
  m ← or_err (metadata path) (FileIo "Metadata error");
  sha256 ← (if m.1 <? HASH_LIMIT then
              data ← plain (read_file path); mret (client_sha256_hex (default [] data))
            else mret "");
  mret (mkLocalFileInfo rel m.1 (if m.2 <? 0 then 0 else u64 m.2) sha256).

Fixpoint list_walk (prefix : string) (walk : list (option walk_entry)) : CM filesystem (list LocalFileInfo) :=
  match walk with
  | [] => mret []
  | None :: _ => fail (FileIo "Walk error")
  | Some entry :: walk' =>
      if negb (we_is_file entry) then list_walk prefix walk' else
      match strip_prefix (we_path entry) (sync_root self) with
      | None => fail (FileIo "Path error")
      | Some rel =>
          if ends_with ".tmp" rel then list_walk prefix walk'
          else if negb (bool_decide (prefix = "")) && negb (starts_with prefix rel) then list_walk prefix walk'
          else
            info ← walk_info (we_path entry) rel;
            infos ← list_walk prefix walk';
            mret (info :: infos)
      end
  end.

Definition client_list_files (prefix : string) (recursive : bool) : CM filesystem (list LocalFileInfo) :=
  there ← plain (metadata (sync_root self));
  match there with
  | None => mret []
  | Some _ =>
      fs ← plain get_st;
      list_walk prefix (walk_dir (sync_root self) (if recursive then None else Some 1%nat) fs)
  end.

(** * Lemmas *)

(** The names a listing with a prefix shows. *)
Definition listed_name (prefix rel : string) : bool :=
  negb (ends_with ".tmp" rel) && (bool_decide (prefix = "") || starts_with prefix rel).

(** What it says about a file, by its content and time. *)
Definition file_entry (fs : filesystem) (rel : string) (c : bytes) (t : Z) : LocalFileInfo :=
  let since_epoch := t - file_clock fs + system_clock fs in
  mkLocalFileInfo rel (zlen c) (if since_epoch <? 0 then 0 else u64 since_epoch)
    (if zlen c <? HASH_LIMIT then client_sha256_hex c else "").

Lemma walk_info_calm fs path rel c t : calm fs → lookup_node fs path = Some (File c t) →
  walk_info path rel fs = (Ret (Ok (file_entry fs rel c t)), fs).
Proof.
  intros Hc Hl. unfold walk_info, file_entry.
  assert (metadata path fs = (Ret (Some (zlen c, t - file_clock fs + system_clock fs)), fs)) as Hm.
  { unfold metadata. rewrite (SM_bind_ret _ _ _ _ _ (next_fault_calm fs Hc)), SM_bind_unfold. simpl. by rewrite Hl. }
  rewrite (CM_bind_ok _ _ _ _ _ (or_err_some _ _ _ _ _ Hm)). cbn [fst snd].
  destruct (zlen c <? HASH_LIMIT); [|done].
  assert (plain (read_file path) fs = (Ret (Ok (Some c)), fs)) as Hr.
  { unfold plain. by rewrite (read_file_calm _ _ _ _ Hc Hl). }
  rewrite CM_bind_unfold. rewrite (CM_bind_ok _ _ _ _ _ Hr). done.
Qed.

(** An entry of the walk that is a regular file, with what the file system holds. *)
Definition walked (fs : filesystem) (e : walk_entry) : Prop :=
  we_is_file e = true → ∃ ns c t, ns ≠ [] ∧ Forall proper ns ∧
    nodes fs !! (loc fs (sync_root self) ++ ns) = Some (File c t) ∧
    we_path e = path_join (sync_root self) (join_slash ns).

Lemma lookup_walked fs ns c t : ns ≠ [] → Forall proper ns →
  nodes fs !! (loc fs (sync_root self) ++ ns) = Some (File c t) →
  lookup_node fs (path_join (sync_root self) (join_slash ns)) = Some (File c t).
Proof.
  intros Hne Hp Hn. pose proof (proper_path_join ns Hne Hp) as Hq.
  pose proof (proper_path_relative _ _ Hq) as Ha. unfold lookup_node.
  rewrite (loc_below fs _ _ ns Hq). unfold node_at.
  rewrite decide_False by (by destruct (loc fs (sync_root self))). rewrite Hn.
  unfold path_join. rewrite names_directory_append by (done || by rewrite (proj1 Hq)).
  unfold names_directory. rewrite (proj1 Hq). destruct (exists_last Hne) as (init & l & ->). rewrite last_snoc.
  apply Forall_app in Hp as [_ Hl]. inversion_clear Hl as [|?? Hl' _].
  rewrite bool_decide_eq_false_2; [done|]. destruct Hl' as (? & ? & ? & _). tauto.
Qed.

(** The loop over a walk without errors. *)
Definition walk_result (prefix : string) (fs : filesystem) (e : walk_entry) : option LocalFileInfo :=
  match we_is_file e, lookup_node fs (we_path e), strip_prefix (we_path e) (sync_root self) with
  | true, Some (File c t), Some rel => if listed_name prefix rel then Some (file_entry fs rel c t) else None
  | _, _, _ => None
  end.

Lemma list_walk_run prefix fs entries : calm fs → Forall (walked fs) entries →
  list_walk prefix (Some <$> entries) fs = (Ret (Ok (omap (walk_result prefix fs) entries)), fs).
Proof.
  intros Hc. induction 1 as [|[path is_file] entries He _ IH]; [done|].
  cbn [fmap list_fmap list_walk we_is_file we_path omap list_omap]. unfold walk_result at 1. cbn [we_is_file we_path].
  destruct is_file; cbn [negb]; [|exact IH].
  destruct (He eq_refl) as (ns & c & t & Hne & Hp & Hn & Hpath). cbn [we_path] in Hpath. subst path.
  rewrite (lookup_walked fs ns c t Hne Hp Hn), (strip_below _ _ ns (proper_path_join ns Hne Hp)). unfold listed_name.
  destruct (ends_with ".tmp" (join_slash ns)); cbn [negb andb]; [exact IH|].
  destruct (bool_decide (prefix = "")), (starts_with prefix (join_slash ns)); cbn [negb andb orb]; try exact IH.
  all: rewrite (CM_bind_ok _ _ _ _ _ (walk_info_calm fs _ (join_slash ns) c t Hc (lookup_walked fs ns c t Hne Hp Hn))).
  all: by rewrite (CM_bind_ok _ _ _ _ _ IH).
Qed.

Context `{!WalkDirLaws, !Sha2Laws}.

(** The client's listing of its local files is complete and exact.  For a
    local root without failures whose names are ordinary ones, it shows each
    regular file below the root (in the root itself, if it is not recursive) whose
    name starts with the prefix and does not end in ".tmp", with its relative name,
    size, modification time (zero before the epoch) and, below 100 MiB, the
    SHA-256 digest of its content; nothing else is shown and nothing changes. *)
Theorem client_list_exact prefix recursive fs :
  calm fs → lookup_node fs (sync_root self) = Some Dir →
  (∀ ns c t, nodes fs !! (loc fs (sync_root self) ++ ns) = Some (File c t) → Forall proper ns ∧ zlen c < 2 ^ 61) →
  ∃ infos, client_list_files prefix recursive fs = (Ret (Ok infos), fs) ∧
    ∀ info, info ∈ infos ↔ ∃ ns c t, ns ≠ [] ∧ (recursive = false → length ns = 1%nat) ∧
      nodes fs !! (loc fs (sync_root self) ++ ns) = Some (File c t) ∧
      ends_with ".tmp" (join_slash ns) = false ∧ (prefix = "" ∨ starts_with prefix (join_slash ns) = true) ∧
      info = mkLocalFileInfo (join_slash ns) (zlen c)
               (let ns := t - file_clock fs + system_clock fs in if ns <? 0 then 0 else u64 ns)
               (if zlen c <? HASH_LIMIT then to_hex (Fips.sha256 c) else "").
Proof.
  intros Hc Hd Hnames.
  destruct (walk_dir_exact (sync_root self) (if recursive then None else Some 1%nat) fs Hc Hd) as (entries & Hw & Hent).
  assert (Forall (walked fs) entries) as Hwalk.
  { apply Forall_forall. intros [path is_file] Hin Hf. cbn [we_is_file we_path] in *. subst is_file.
    apply Hent in Hin as (ns & c & t & Hne & _ & Hn & ->). exists ns, c, t. by destruct (Hnames _ _ _ Hn). }
  exists (omap (walk_result prefix fs) entries). split.
  { unfold client_list_files.
    assert (∃ m, metadata (sync_root self) fs = (Ret (Some m), fs)) as [m Hm].
    { unfold metadata. rewrite (SM_bind_ret _ _ _ _ _ (next_fault_calm fs Hc)), SM_bind_unfold. cbn [get_st].
      rewrite Hd. by eexists. }
    assert (plain (metadata (sync_root self)) fs = (Ret (Ok (Some m)), fs)) as Hp by (unfold plain; by rewrite Hm).
    rewrite (CM_bind_ok _ _ _ _ _ Hp). rewrite CM_bind_unfold. cbn [plain get_st]. rewrite Hw. by apply list_walk_run. }
  assert (∀ ns c t, nodes fs !! (loc fs (sync_root self) ++ ns) = Some (File c t) →
    file_entry fs (join_slash ns) c t = mkLocalFileInfo (join_slash ns) (zlen c)
      (let ns := t - file_clock fs + system_clock fs in if ns <? 0 then 0 else u64 ns)
      (if zlen c <? HASH_LIMIT then to_hex (Fips.sha256 c) else "")) as Hentry.
  { intros ns c t Hn. unfold file_entry. destruct (Hnames _ _ _ Hn) as [_ Hl]. by rewrite client_sha256_same. }
  assert (∀ rel, listed_name prefix rel = true ↔ ends_with ".tmp" rel = false ∧
    (prefix = "" ∨ starts_with prefix rel = true)) as Hlisted.
  { intros rel. unfold listed_name. by rewrite andb_true_iff, negb_true_iff, orb_true_iff, bool_decide_eq_true. }
  intros info. rewrite list_elem_of_omap. split.
  - intros ([path is_file] & Hin & Hres). unfold walk_result in Hres. cbn [we_is_file we_path] in Hres.
    destruct is_file; [|done]. apply Hent in Hin as (ns & c & t & Hne & Hdepth & Hn & ->).
    destruct (Hnames _ _ _ Hn) as [Hp _].
    rewrite (lookup_walked fs ns c t Hne Hp Hn), (strip_below _ _ ns (proper_path_join ns Hne Hp)) in Hres.
    destruct (listed_name prefix (join_slash ns)) eqn:Hs; [|done]. injection Hres as <-.
    apply Hlisted in Hs as [? ?]. exists ns, c, t. rewrite (Hentry ns c t Hn). split; [done|].
    split; [intros ->; destruct ns as [|? [|]]; simpl in *; [done|done|lia]|]. done.
  - intros (ns & c & t & Hne & Hdepth & Hn & Htmp & Hpre & ->). destruct (Hnames _ _ _ Hn) as [Hp _].
    exists (mkWalkEntry (path_join (sync_root self) (join_slash ns)) true). split.
    + apply Hent. exists ns, c, t. split; [done|]. split; [|done]. destruct recursive; [done|]. rewrite Hdepth; [lia|done].
    + unfold walk_result. cbn [we_is_file we_path].
      rewrite (lookup_walked fs ns c t Hne Hp Hn), (strip_below _ _ ns (proper_path_join ns Hne Hp)).
      rewrite (proj2 (Hlisted _)) by done. f_equal. by apply Hentry.
Qed.

End Listing.

(** * Witnesses *)

(** A walk that lists the regular files. *)
Definition within (depth : option nat) (ns : list string) : bool :=
  match depth with Some d => (length ns <=? d)%nat | None => true end.
Lemma within_spec depth ns : within depth ns = true ↔ match depth with Some d => (length ns <= d)%nat | None => True end.
Proof. destruct depth; [apply Nat.leb_le|done]. Qed.

Definition demo_walk : WalkDir := {|
  walk_dir root depth fs :=
    (λ e, Some (mkWalkEntry (path_join root (join_slash e.1)) true)) <$>
    filter (λ e, within depth e.1 = true)
      (files_below true fs (loc fs root))
|}.

Lemma demo_walk_laws : @WalkDirLaws demo_walk.
Proof.
  constructor. intros root depth fs _ _. cbn [walk_dir demo_walk].
  exists ((λ e, mkWalkEntry (path_join root (join_slash e.1)) true) <$>
    filter (λ e, within depth e.1 = true)
      (files_below true fs (loc fs root))).
  split; [by rewrite <- list_fmap_compose|]. intros path. rewrite list_elem_of_fmap. split.
  - intros ([ns size] & [= ->] & [Hd He]%list_elem_of_filter). apply files_below_spec in He as (Hne & _ & c & t & Hn & _).
    exists ns, c, t. split; [done|]. split; [by apply within_spec|done].
  - intros (ns & c & t & Hne & Hd & Hn & ->). exists (ns, zlen c). split; [done|]. apply list_elem_of_filter.
    split; [by apply within_spec|]. apply files_below_spec. split; [done|]. split; [done|]. by exists c, t.
Qed.

Lemma client_list_exact_witness :
  ∃ infos, @client_list_files demo_disk demo_sha2 demo_walk (mkFileOps "/s" 4) "" false small_fs =
    (Ret (Ok infos), small_fs) ∧
    mkLocalFileInfo "a" 1 14 (to_hex (Fips.sha256 [x61])) ∈ infos.
Proof.
  destruct (@client_list_exact demo_disk demo_sha2 demo_walk (mkFileOps "/s" 4) demo_walk_laws
    demo_sha2_laws "" false small_fs eq_refl eq_refl) as (infos & Hr & Hin).
  - intros ns c t Hn. destruct (decide (ns = [])) as [->|Hne].
    { split; [constructor|]. by vm_compute in Hn. }
    split; [by apply (small_names ns c t)|].
    cbn [sync_root] in Hn. unfold small_fs in Hn. change (loc _ "/s") with ["s"] in Hn. cbn [nodes] in Hn.
    rewrite !lookup_insert in Hn. rewrite lookup_singleton in Hn. repeat case_decide; simplify_eq; reflexivity.
  - exists infos. split; [exact Hr|]. apply Hin. exists ["a"], [x61], 5.
    split; [discriminate|]. split; [reflexivity|]. split; [reflexivity|]. split; [reflexivity|].
    split; [by left|]. reflexivity.
Defined.
