(* ===== verification/Desktop.v ===== *)
(** The desktop program around the client: src/ui/src-tauri/src/main.rs, and the
    way src/ui/src/App.tsx calls it to synchronise one file.

    The state is the application's shared state (the connected client and the
    local root), the local disk, and what the attempts to connect give.  The
    locks of the shared state are held for single assignments only, so they are
    always obtained; commands that overlap in time are the relation [ui_step]. *)
From S2P Require Import Prelude Sha256 Paths FileSystem FileManager FileMutex WireProtocol Proto Proto3.
From S2P Require Import DeltaSync Negotiator ZeroCopySender Ends Session Service.
From S2P Require Import ClientBase ClientWire ClientFiles ClientDelta TcpClient Conversation LocalCopy.

(** * Data *)

Record AppState := mkApp {
  app_client : option TcpClient;
  app_sync_root : string
}.

Record desktop := mkDesktop {
  app : AppState;
  local_disk : filesystem;
  dials : list (option socket);
  process_id : Z
}.

Definition put_client (c : option TcpClient) (a : AppState) : AppState := mkApp c (app_sync_root a).
Definition set_app (a : AppState) (d : desktop) : desktop :=
  mkDesktop a (local_disk d) (dials d) (process_id d).

Record ConnectionResult := mkConnectionResult {
  cr_success : bool;
  cr_message : string;
  cr_server_id : option string;
  cr_block_size : option Z
}.
Record UiNegotiation := mkUiNegotiation {
  un_file_mode : string;
  un_transfer_mode : string;
  un_server_file_size : Z;
  un_server_sha256 : string;
  un_block_size : Z
}.
Record UiFileInfo := mkUiFileInfo {
  uf_relative_path : string;
  uf_file_size : Z;
  uf_last_modified_ns : Z;
  uf_sha256_hash : string;
  uf_file_mode : string
}.
Record SyncResult := mkSyncResult {
  sr_success : bool;
  sr_sha256 : string;
  sr_transfer_mode : string;
  sr_error : option string
}.
Record DownloadResult := mkDownloadResult {
  dr_success : bool;
  dr_relative_path : string;
  dr_sha256 : string;
  dr_error : option string
}.

(** [ClientError::to_string]. *)
Definition to_string (e : ClientError) : string :=
  match e with
  | Connection m => "Connection error: " +:+ m
  | Protocol m => "Protocol error: " +:+ m
  | FileIo m => "File I/O error: " +:+ m
  | HashMismatch expected actual => "Hash mismatch: expected " +:+ expected +:+ ", got " +:+ actual
  | TransferFailed m => "Transfer failed: " +:+ m
  | ServerError code message => "Server error: code=" +:+ pretty code +:+ ", message=" +:+ message
  | Timeout => "Timeout"
  end.

Definition file_mode_str (mode : Z) : string :=
  if mode =? 1 then "FRESH" else if mode =? 2 then "MODIFIED" else if mode =? 3 then "UNCHANGED"
  else "UNSPECIFIED".
Definition transfer_mode_str (mode : Z) : string :=
  if mode =? 1 then "ZERO_COPY" else if mode =? 2 then "DELTA_SYNC" else "UNSPECIFIED".

(** * The guard *)

Definition ClientGuard_take (context : string) (a : AppState) : answer TcpClient * AppState :=
  match app_client a with
  | Some c => (Answer c, put_client None a)
  | None => (Refuse ("Not connected (in " +:+ context +:+ ")"), a)
  end.

(** [drop]: also runs when the command panics. *)
Definition ClientGuard_drop (c : TcpClient) (a : AppState) : AppState := put_client (Some c) a.

(** A command that uses the client between taking and returning it. *)
Definition with_guard {A} (context : string) (use : CM client_state A) : SM desktop (answer (Result A)) := λ d,
  match ClientGuard_take context (app d) with
  | (Refuse m, a) => (Ret (Refuse m), set_app a d)
  | (Answer c, a) =>
      let '(o, s) := use (mkClient c (local_disk d) (dials d)) in
      let d' := mkDesktop (ClientGuard_drop (tc s) a) (disk s) (attempts s) (process_id d) in
      match o with
      | Ret r => (Ret (Answer r), d')
      | Throw e => (Throw e, d')
      | Trap t => (Trap t, d')
      end
  end.

(** * The commands *)

Section Commands.
Context `{Host, Tokio, Disk, Sha2, Prost}.

(** A client that fails to connect is dropped; the shared state is untouched. *)
Definition connect_to_server (server_addr : string) (block_size : Z) (sync_root : string)
  : SM desktop (answer ConnectionResult) := λ d,
  let client := TcpClient_new server_addr sync_root block_size (process_id d) in
  match connect (mkClient client (local_disk d) (dials d)) with
  | (Ret (Ok _), s) =>
      (Ret (Answer (mkConnectionResult true ("Connected to " +:+ server_addr)
              (Some "adaptivesync-cpp-1.0") (Some (tc_block_size (tc s))))),
       mkDesktop (mkApp (Some (tc s)) sync_root) (disk s) (attempts s) (process_id d))
  | (Ret (Err e), s) =>
      (Ret (Refuse ("Connection failed: " +:+ to_string e)),
       mkDesktop (app d) (disk s) (attempts s) (process_id d))
  | (Throw e, s) => (Throw e, mkDesktop (app d) (disk s) (attempts s) (process_id d))
  | (Trap t, s) => (Trap t, mkDesktop (app d) (disk s) (attempts s) (process_id d))
  end.

(** The client taken is disconnected and dropped. *)
Definition disconnect_from_server : SM desktop (answer bool) := λ d,
  (Ret (Answer (bool_decide (is_Some (app_client (app d))))), set_app (put_client None (app d)) d).

Definition negotiate_file (relative_path : string) : SM desktop (answer UiNegotiation) :=
  r ← with_guard "negotiate_file" (client_negotiate relative_path);
  mret (match r with
        | Refuse m => Refuse m
        | Answer (Err e) => Refuse (to_string e)
        | Answer (Ok n) =>
            Answer (mkUiNegotiation (file_mode_str (cn_file_mode n)) (transfer_mode_str (cn_transfer_mode n))
              (cn_server_file_size n) (cn_server_sha256 n) (cn_block_size n))
        end).

Definition sync_answer (transfer_mode : string) (r : answer (Result string)) : answer SyncResult :=
  match r with
  | Refuse m => Refuse m
  | Answer (Ok hash) => Answer (mkSyncResult true hash transfer_mode None)
  | Answer (Err e) => Answer (mkSyncResult false "" transfer_mode (Some (to_string e)))
  end.

(** The client is taken before the modes are looked at. *)
Definition ui_sync_file (relative_path file_mode transfer_mode : string) : SM desktop (answer SyncResult) :=
  if decide (file_mode = "FRESH") then
    r ← with_guard "sync_file" (upload_file relative_path);
    mret (sync_answer transfer_mode r)
  else if decide (file_mode = "MODIFIED") then
    r ← with_guard "sync_file"
          (if decide (transfer_mode = "DELTA_SYNC") then delta_sync_upload relative_path
           else upload_file relative_path);
    mret (sync_answer transfer_mode r)
  else
    r ← with_guard "sync_file" (mret tt);
    mret (match r with
          | Refuse m => Refuse m
          | Answer _ => Refuse ("Unknown file mode: " +:+ file_mode)
          end).

Definition ui_download_file (relative_path : string) : SM desktop (answer DownloadResult) :=
  r ← with_guard "download_file" (download_file relative_path);
  mret (match r with
        | Refuse m => Refuse m
        | Answer (Ok hash) => Answer (mkDownloadResult true relative_path hash None)
        | Answer (Err e) => Answer (mkDownloadResult false relative_path "" (Some (to_string e)))
        end).

Definition ui_list_server_files (prefix : string) (recursive : bool) : SM desktop (answer (list UiFileInfo)) :=
  r ← with_guard "list_server_files" (list_server_files prefix recursive);
  mret (match r with
        | Refuse m => Refuse m
        | Answer (Err e) => Refuse (to_string e)
        | Answer (Ok files) =>
            Answer ((λ f, mkUiFileInfo (md_relative_path f) (md_file_size f) (md_last_modified_ns f)
                            (md_sha256_hash f) (file_mode_str (md_file_mode f))) <$> files)
        end).

(** What the window shows for a file it was asked to synchronise: the answer of
    the transfer is not looked at, only whether the command was refused. *)
Inductive job_status := Complete | JobError (message : string).

Definition handle_sync_path (path : string) : SM desktop job_status :=
  r ← negotiate_file path;
  match r with
  | Refuse m => mret (JobError m)
  | Answer n =>
      if decide (un_transfer_mode n ≠ "ZERO_COPY" ∧ un_transfer_mode n ≠ "DELTA_SYNC") then mret Complete
      else
        r' ← ui_sync_file path (un_file_mode n) (un_transfer_mode n);
        match r' with
        | Refuse m => mret (JobError m)
        | Answer _ => mret Complete
        end
  end.

End Commands.

(** * Picking local files *)

Definition upload_local_file (fuel : nat) (absolute_path : string) : SM desktop (answer (list string)) := λ d,
  let '(r, fs') := copy_into fuel (app_sync_root (app d)) absolute_path (local_disk d) in
  (r, mkDesktop (app d) fs' (dials d) (process_id d)).

(** * Commands that overlap

    [ui_flights] holds, for each command in progress, the client it has taken.
    A command returns the client in whatever state its call has brought it. *)
Inductive client_call :=
| CNegotiate (path : string)
| CUpload (path : string)
| CDeltaUpload (path : string)
| CDownload (path : string)
| CList (prefix : string) (recursive : bool).

Section Overlap.
Context `{Host, Tokio, Disk, Sha2, Prost}.

Definition run_call (call : client_call) (s : client_state) : client_state :=
  match call with
  | CNegotiate path => (client_negotiate path s).2
  | CUpload path => (upload_file path s).2
  | CDeltaUpload path => (delta_sync_upload path s).2
  | CDownload path => (download_file path s).2
  | CList prefix recursive => (list_server_files prefix recursive s).2
  end.

Record ui_config := mkUi { ui_app : AppState; ui_flights : gmap nat TcpClient }.

Inductive ui_step : ui_config → ui_config → Prop :=
| UiTake u t context c a :
    ui_flights u !! t = None → ClientGuard_take context (ui_app u) = (Answer c, a) →
    ui_step u (mkUi a (<[t := c]> (ui_flights u)))
| UiReturn u t c call fs net :
    ui_flights u !! t = Some c →
    ui_step u (mkUi (ClientGuard_drop (tc (run_call call (mkClient c fs net))) (ui_app u)) (delete t (ui_flights u)))
| UiConnect u addr root block_size pid fs net s :
    connect (mkClient (TcpClient_new addr root block_size pid) fs net) = (Ret (Ok tt), s) →
    ui_step u (mkUi (put_client (Some (tc s)) (ui_app u)) (ui_flights u))
| UiRoot u root :
    ui_step u (mkUi (mkApp (app_client (ui_app u)) root) (ui_flights u))
| UiDisconnect u :
    ui_step u (mkUi (put_client None (ui_app u)) (ui_flights u)).

End Overlap.

(** * Overlapping commands *)

(** What a client keeps while it is used: its connection, and where it points. *)
Definition same_link (c c' : TcpClient) : Prop :=
  is_Some (stream c') ∧ connected c' = connected c ∧ server_addr c' = server_addr c ∧
  client_id c' = client_id c ∧ tc_block_size c' = tc_block_size c ∧
  tc_file_ops c' = tc_file_ops c ∧ delta_engine c' = delta_engine c.

Definition link_kept {A} (m : CM client_state A) : Prop :=
  ∀ s, is_Some (stream (tc s)) → same_link (tc s) (tc (m s).2).

Create HintDb links.

Section Links.
Context `{Host, Tokio, Disk, Sha2, Prost}.

Lemma same_link_refl c : is_Some (stream c) → same_link c c.
Proof. done. Qed.

Lemma link_bind {A B} (m : CM client_state A) (f : A → CM client_state B) :
  link_kept m → (∀ a, link_kept (f a)) → link_kept (m ≫= f).
Proof.
  intros Hm Hf s Hs. specialize (Hm s Hs). rewrite CM_bind_unfold.
  destruct (m s) as [[[a|e]|x|t] s1]; simpl in *; [|done..].
  destruct Hm as (Hst & ? & ? & ? & ? & ? & ?).
  destruct (Hf a s1 Hst) as (? & ? & ? & ? & ? & ? & ?). repeat split; congruence || done.
Qed.

Lemma link_stream {A} (m : CM socket A) : link_kept (on_stream m).
Proof.
  intros s [k Hk]. unfold on_stream. rewrite Hk. destruct (m k) as [o k']. done.
Qed.

Lemma link_disk {A} (m : CM filesystem A) : link_kept (on_disk m).
Proof. intros s Hs. unfold on_disk, zoom. by destruct (m (disk s)). Qed.

Lemma link_plain {A} (f : client_state → A) : link_kept (plain (gets_st f)).
Proof. by intros s Hs. Qed.

Lemma link_fail {A} e : link_kept (fail (A := A) e).
Proof. by intros s Hs. Qed.

Lemma link_ret {A} (a : A) : link_kept (mret a).
Proof. by intros s Hs. Qed.

Lemma link_decoded {B} k data what (f : msg k → CM client_state B) :
  (∀ m, link_kept (f m)) → link_kept (decoded k data what ≫= f).
Proof.
  intros Hf. apply link_bind; [|done]. intros s Hs. unfold decoded. by destruct (prost_decode k data).
Qed.

Lemma link_if {A} (b : bool) (m m' : CM client_state A) :
  link_kept m → link_kept m' → link_kept (if b then m else m').
Proof. by destruct b. Qed.

Hint Resolve link_stream link_disk link_plain link_fail link_ret : links.

Ltac keep_link := repeat first [apply link_bind; [solve [auto with links]|intros ?]|refine (link_decoded _ _ _ _ _); intros ?|apply link_if|solve [auto with links]].

(** Every call of the client keeps the link, also when it fails or panics. *)
Lemma run_call_link call s : is_Some (stream (tc s)) → same_link (tc s) (tc (run_call call s)).
Proof.
  revert s. destruct call as [path|path|path|path|dir recursive]; cbn [run_call].
  - change (link_kept (client_negotiate path)). unfold client_negotiate. keep_link.
  - change (link_kept (upload_file path)). unfold upload_file. keep_link.
  - change (link_kept (delta_sync_upload path)). unfold delta_sync_upload. keep_link.
  - change (link_kept (download_file path)). unfold download_file. keep_link.
  - change (link_kept (list_server_files dir recursive)). unfold list_server_files. keep_link.
Qed.

Lemma connect_linked c fs net s : connect (mkClient c fs net) = (Ret (Ok tt), s) →
  is_Some (stream (tc s)) ∧ connected (tc s) = true ∧ server_addr (tc s) = server_addr c ∧
  tc_file_ops (tc s) = tc_file_ops c.
Proof.
  unfold connect, dial. rewrite CM_bind_unfold. cbn [attempts].
  destruct net as [|[k|] net]; simpl; [done| |done].
  rewrite CM_bind_unfold. cbn [plain gets_st tc]. unfold adopt.
  destruct (handshake _ k) as [[[hello|e]|x|t] k']; [|done..]. intros [= <-]. simpl. eauto.
Qed.

(** A client that can be used. *)
Definition linked (c : TcpClient) : Prop := is_Some (stream c) ∧ connected c = true.

Lemma same_link_linked c c' : linked c → same_link c c' → linked c'.
Proof. intros [_ Hc] (? & Hc' & _). split; [done|congruence]. Qed.

Definition ui_start (root : string) : ui_config := mkUi (mkApp None root) ∅.

Definition clients_linked (u : ui_config) : Prop :=
  (∀ c, app_client (ui_app u) = Some c → linked c) ∧ map_Forall (λ _, linked) (ui_flights u).

Lemma ui_step_linked u u' : ui_step u u' → clients_linked u → clients_linked u'.
Proof.
  destruct 1 as [u t context c a Ht Htake|u t c call fs net Ht|u addr root bs pid fs net s Hc|u root|u];
    intros [Happ Hfl]; split; cbn [ui_app ui_flights app_client put_client ClientGuard_drop] in *; try done.
  - unfold ClientGuard_take in Htake. destruct (app_client (ui_app u)); [|done]. by injection Htake as <- <-.
  - apply map_Forall_insert_2; [|done]. apply Happ.
    unfold ClientGuard_take in Htake. destruct (app_client (ui_app u)); [|done]. by injection Htake as <- <-.
  - intros c' [= <-]. pose proof (Hfl t c Ht) as Hlk.
    eapply same_link_linked; [exact Hlk|]. apply (run_call_link call (mkClient c fs net)), Hlk.
  - by apply map_Forall_delete.
  - intros c' [= <-]. destruct (connect_linked _ _ _ _ Hc) as (? & ? & _). done.
Qed.

Lemma reachable_linked root u : rtc ui_step (ui_start root) u → clients_linked u.
Proof.
  intros Hr. assert (clients_linked (ui_start root)) as Hs by (split; [done|apply map_Forall_empty]).
  induction Hr; eauto using ui_step_linked.
Qed.

End Links.

Section OverlapFacts.
Context `{Host, Tokio, Disk, Sha2, Prost}.


(** A command that ends late undoes a reconnection or a disconnection.  When
    the user connects to another server, or disconnects, while a command is using
    the old client, the command's end puts the old client back: the program is
    connected to the old server again. *)
Theorem late_return_undoes u t c call fs net addr root bs pid fs' net' s :
  ui_flights u !! t = Some c → is_Some (stream c) →
  connect (mkClient (TcpClient_new addr root bs pid) fs' net') = (Ret (Ok tt), s) →
  let c' := tc (run_call call (mkClient c fs net)) in
  server_addr (tc s) = addr ∧ server_addr c' = server_addr c ∧
  (∃ u1 u2, ui_step u u1 ∧ app_client (ui_app u1) = Some (tc s) ∧
     ui_step u1 u2 ∧ app_client (ui_app u2) = Some c') ∧
  (∃ u1 u2, ui_step u u1 ∧ app_client (ui_app u1) = None ∧
     ui_step u1 u2 ∧ app_client (ui_app u2) = Some c').
Proof.
  intros Ht Hst Hc c'. destruct (connect_linked _ _ _ _ Hc) as (_ & _ & Haddr & _).
  destruct (run_call_link call (mkClient c fs net) Hst) as (_ & _ & Hsame & _).
  split; [done|]. split; [done|]. split.
  - eexists _, _. split; [eapply UiConnect, Hc|]. split; [done|]. split; [by eapply (UiReturn _ t c)|done].
  - eexists _, _. split; [apply UiDisconnect|]. split; [done|]. split; [by eapply (UiReturn _ t c)|done].
Qed.

End OverlapFacts.

(** * Witnesses *)

#[local] Existing Instances le_host proto3 demo_tokio demo_tokio_laws demo_prost demo_prost_laws demo_sha2
  demo_sha2_laws demo_disk.

(** A stream on which a server says hello, byte by byte. *)
Definition demo_line : socket :=
  mkSocket ((λ b, RecvData b []) <$>
    encode_frame (framed MSG_SERVER_HELLO KServerHello (server_hello 65536))) [] [].

Lemma demo_connects addr : ∃ s,
  connect (mkClient (TcpClient_new addr "/s" 65536 7) (demo_fs []) [Some demo_line]) = (Ret (Ok tt), s).
Proof. eexists. vm_compute. reflexivity. Qed.

(** A program that has connected and whose client a command is using. *)
Lemma demo_busy : ∃ u c, rtc ui_step (ui_start "/s") u ∧ ui_flights u !! 1%nat = Some c ∧
  server_addr c = "old:9090".
Proof.
  destruct (demo_connects "old:9090") as [s Hs]. destruct (connect_linked _ _ _ _ Hs) as (_ & _ & Ha & _).
  eexists _, (tc s). split; [|split; [|exact Ha]].
  - eapply rtc_l; [exact (UiConnect (ui_start "/s") _ _ _ _ _ _ _ Hs)|].
    apply rtc_once. by apply (UiTake _ 1 "sync_file").
  - apply lookup_insert_eq.
Qed.


Lemma late_return_undoes_witness :
  ∃ u u1 u2 c c', rtc ui_step (ui_start "/s") u ∧ ui_step u u1 ∧
    app_client (ui_app u1) = Some c ∧ server_addr c = "new:9090" ∧
    ui_step u1 u2 ∧ app_client (ui_app u2) = Some c' ∧ server_addr c' = "old:9090".
Proof.
  destruct demo_busy as (u & c & Hr & Hc & Ha). destruct (demo_connects "new:9090") as [s Hs].
  assert (is_Some (stream c)) as Hst by apply (proj2 (reachable_linked _ _ Hr) 1%nat c Hc).
  destruct (late_return_undoes u 1 c (CNegotiate "f") (demo_fs []) [] _ _ _ _ _ _ s Hc Hst Hs)
    as (Hnew & Hold & (u1 & u2 & H1 & Hc1 & H2 & Hc2) & _).
  exists u, u1, u2. eexists _, _. split; [exact Hr|]. split; [exact H1|]. split; [exact Hc1|].
  split; [exact Hnew|]. split; [exact H2|]. split; [exact Hc2|]. rewrite Hold. exact Ha.
Defined.
