(* ===== verification/Window.v ===== *)
(** The window of the desktop program, src/ui/src/App.tsx: the handlers of its
    buttons and what they show, over the commands of [Desktop], and the
    conversation with the server when files are synchronised from it.

    The state is what the window keeps ([files], [transfers], [connected],
    [connecting], [syncingRef]), the desktop program behind it, and a script of the
    identifiers that the clock and the random generator give to the jobs. *)
From Stdlib Require Import Ascii.
From S2P Require Import Prelude Sha256 Paths FileSystem FileManager FileMutex WireProtocol Proto Proto3.
From S2P Require Import DeltaSync Directories Negotiator ZeroCopySender Ends Session Service.
From S2P Require Import ClientBase ClientWire ClientFiles ClientDelta TcpClient Conversation Replication LocalCopy LocalListing Desktop.

(** * What the window keeps *)

Inductive transfer_status := Negotiating | Transferring | Ended (result : job_status).

Record TransferJob := mkTransferJob {
  tj_id : string;
  tj_relative_path : string;
  tj_transfer_mode : string;
  tj_bytes_transferred : Z;
  tj_bytes_total : Z;
  tj_rate_mbps : Z;
  tj_elapsed_ms : Z;
  tj_status : transfer_status
}.

Record window := mkWindow {
  wn_connected : bool;
  wn_connecting : bool;
  wn_files : list UiFileInfo;
  wn_transfers : list TransferJob;
  wn_syncing : bool;
  wn_desktop : desktop;
  wn_ids : list string
}.

Definition set_connected (b : bool) (w : window) : window :=
  mkWindow b (wn_connecting w) (wn_files w) (wn_transfers w) (wn_syncing w) (wn_desktop w) (wn_ids w).
Definition set_connecting (b : bool) (w : window) : window :=
  mkWindow (wn_connected w) b (wn_files w) (wn_transfers w) (wn_syncing w) (wn_desktop w) (wn_ids w).
Definition set_files (files : list UiFileInfo) (w : window) : window :=
  mkWindow (wn_connected w) (wn_connecting w) files (wn_transfers w) (wn_syncing w) (wn_desktop w) (wn_ids w).
Definition set_transfers (update : list TransferJob → list TransferJob) (w : window) : window :=
  mkWindow (wn_connected w) (wn_connecting w) (wn_files w) (update (wn_transfers w)) (wn_syncing w)
    (wn_desktop w) (wn_ids w).
Definition set_syncing (b : bool) (w : window) : window :=
  mkWindow (wn_connected w) (wn_connecting w) (wn_files w) (wn_transfers w) b (wn_desktop w) (wn_ids w).
Definition set_desktop (d : desktop) (w : window) : window :=
  mkWindow (wn_connected w) (wn_connecting w) (wn_files w) (wn_transfers w) (wn_syncing w) d (wn_ids w).

(** [invoke]: a command of the desktop program. *)
Definition invoke {A} (m : SM desktop A) : SM window A := zoom wn_desktop set_desktop m.

(** The next identifier: the time and a random suffix. *)
Definition next_id : SM window string := λ w,
  (Ret (default "" (head (wn_ids w))),
   mkWindow (wn_connected w) (wn_connecting w) (wn_files w) (wn_transfers w) (wn_syncing w) (wn_desktop w)
     (tail (wn_ids w))).

(** [prev.map(j => j.id === jobId ? … : j)] *)
Definition update_job (id : string) (f : TransferJob → TransferJob) (jobs : list TransferJob) : list TransferJob :=
  (λ j, if decide (tj_id j = id) then f j else j) <$> jobs.

Definition with_mode (mode : string) (j : TransferJob) : TransferJob :=
  mkTransferJob (tj_id j) (tj_relative_path j) mode (tj_bytes_transferred j) (tj_bytes_total j) (tj_rate_mbps j)
    (tj_elapsed_ms j) Transferring.
Definition with_status (st : job_status) (j : TransferJob) : TransferJob :=
  mkTransferJob (tj_id j) (tj_relative_path j) (tj_transfer_mode j) (tj_bytes_transferred j) (tj_bytes_total j)
    (tj_rate_mbps j) (tj_elapsed_ms j) (Ended st).
Definition with_all_sent (j : TransferJob) : TransferJob :=
  mkTransferJob (tj_id j) (tj_relative_path j) (tj_transfer_mode j) (tj_bytes_total j) (tj_bytes_total j)
    (tj_rate_mbps j) (tj_elapsed_ms j) (Ended Complete).

(** * The handlers *)

Section Handlers.
Context `{Host, Tokio, Disk, Sha2, Prost}.

Definition show_mode (transfer_mode : string) : string :=
  if decide (transfer_mode = "ZERO_COPY") then "zero_copy"
  else if decide (transfer_mode = "DELTA_SYNC") then "delta_sync" else "unchanged".

(** The list of files is replaced when the server's can be had. *)
Definition refresh : SM window unit :=
  r ← invoke (ui_list_server_files "" true);
  match r with
  | Answer files => modify_st (set_files files)
  | Refuse _ => mret tt
  end.

(** One path of [handleSync]. *)
Definition sync_job (path : string) : SM window unit :=
  job_id ← next_id;
  _ ← modify_st (set_transfers (λ prev, prev ++ [mkTransferJob job_id path "zero_copy" 0 0 0 0 Negotiating]));
  r ← invoke (negotiate_file path);
  match r with
  | Refuse m => modify_st (set_transfers (update_job job_id (with_status (JobError m))))
  | Answer result =>
      let mode := show_mode (un_transfer_mode result) in
      _ ← modify_st (set_transfers (update_job job_id (with_mode mode)));
      if decide (mode = "unchanged") then
        modify_st (set_transfers (update_job job_id (with_status Complete)))
      else
        r' ← invoke (ui_sync_file path (un_file_mode result) (un_transfer_mode result));
        match r' with
        | Refuse m => modify_st (set_transfers (update_job job_id (with_status (JobError m))))
        | Answer _ => modify_st (set_transfers (update_job job_id with_all_sent))
        end
  end.

Fixpoint sync_jobs (paths : list string) : SM window unit :=
  match paths with
  | [] => mret tt
  | path :: paths => _ ← sync_job path; sync_jobs paths
  end.

Definition handle_sync (paths : list string) : SM window unit :=
  syncing ← gets_st wn_syncing;
  if syncing : bool then mret tt
  else
    _ ← modify_st (set_syncing true);
    _ ← sync_jobs paths;
    _ ← refresh;
    modify_st (set_syncing false).

Definition handle_download (path : string) : SM window unit :=
  r ← invoke (ui_download_file path);
  _ ← match r with
      | Answer result =>
          if dr_success result then
            job_id ← next_id;
            modify_st (set_transfers (λ prev, prev ++
              [mkTransferJob job_id (dr_relative_path result) "zero_copy" 0 0 0 0 (Ended Complete)]))
          else mret tt
      | Refuse _ => mret tt
      end;
  refresh.

(** The list is part of the same attempt: when it cannot be had, the window shows
    that it is not connected. *)
Definition handle_connect (addr : string) (block_size : Z) (root : string) : SM window unit :=
  _ ← modify_st (set_connecting true);
  r ← invoke (connect_to_server addr block_size root);
  _ ← match r with
      | Refuse _ => modify_st (set_connected false)
      | Answer _ =>
          _ ← modify_st (set_connected true);
          r' ← invoke (ui_list_server_files "" true);
          match r' with
          | Answer files => modify_st (set_files files)
          | Refuse _ => modify_st (set_connected false)
          end
      end;
  modify_st (set_connecting false).

Definition handle_disconnect : SM window unit :=
  _ ← invoke disconnect_from_server;
  _ ← modify_st (set_connected false);
  _ ← modify_st (set_files []);
  modify_st (set_transfers (λ _, [])).

(** The file dialog: a file that cannot be copied ends the whole attempt. *)
Fixpoint copy_picked (fuel : nat) (picked : list string) : SM desktop (answer (list string)) :=
  match picked with
  | [] => mret (Answer [])
  | abs :: picked =>
      r ← upload_local_file fuel abs;
      match r with
      | Refuse m => mret (Refuse m)
      | Answer rels =>
          r' ← copy_picked fuel picked;
          mret (match r' with Answer more => Answer (rels ++ more) | Refuse m => Refuse m end)
      end
  end.

Definition handle_open_files (fuel : nat) (picked : list string) : SM window unit :=
  is_connected ← gets_st wn_connected;
  if negb is_connected then mret tt
  else
    r ← invoke (copy_picked fuel picked);
    match r with
    | Answer rels => handle_sync rels
    | Refuse _ => mret tt
    end.

(** The folder dialog. *)
Definition handle_open_folder (fuel : nat) (folder : string) : SM window unit :=
  is_connected ← gets_st wn_connected;
  if negb is_connected then mret tt
  else
    r ← invoke (upload_local_file fuel folder);
    match r with
    | Answer rels => handle_sync rels
    | Refuse _ => mret tt
    end.

(** [fp.startsWith("/") || fp.startsWith("\\") || fp.match(/^[A-Za-z]:\\/)] *)
Definition ascii_letter (a : ascii) : bool :=
  let n := nat_of_ascii a in (65 <=? n)%nat && (n <=? 90)%nat || (97 <=? n)%nat && (n <=? 122)%nat.
Definition looks_absolute (fp : string) : bool :=
  starts_with "/" fp || starts_with "\" fp ||
  match fp with
  | String a (String b (String c _)) => ascii_letter a && bool_decide (b = ":"%char) && bool_decide (c = "\"%char)
  | _ => false
  end.

(** Files that are dropped or typed: one that cannot be copied is left out. *)
Fixpoint copy_dropped (fuel : nat) (dropped : list string) : SM desktop (list string) :=
  match dropped with
  | [] => mret []
  | fp :: dropped =>
      here ← (if looks_absolute fp then
                r ← upload_local_file fuel fp;
                mret (match r with Answer rels => rels | Refuse _ => [] end)
              else mret [fp]);
      rest ← copy_dropped fuel dropped;
      mret (here ++ rest)
  end.

Definition handle_files_dropped (fuel : nat) (dropped : list string) : SM window unit :=
  is_connected ← gets_st wn_connected;
  if negb is_connected then mret tt
  else
    rels ← invoke (copy_dropped fuel dropped);
    handle_sync rels.

(** What the calls of [sync_jobs] come to, without the list of jobs. *)
Fixpoint sync_paths (paths : list string) : SM desktop (list job_status) :=
  match paths with
  | [] => mret []
  | path :: paths => st ← handle_sync_path path; sts ← sync_paths paths; mret (st :: sts)
  end.

End Handlers.
(** * Synchronising from the window *)

(** The desktop program while it is connected. *)
Definition desk (c : client_state) (root : string) (pid : Z) : desktop :=
  mkDesktop (mkApp (Some (tc c)) root) (disk c) (attempts c) pid.

Lemma with_guard_runs {A} context (use : CM client_state A) c root pid r c' :
  use c = (Ret r, c') → with_guard context use (desk c root pid) = (Ret (Answer r), desk c' root pid).
Proof. intros Hu. destruct c. unfold with_guard. simpl. by rewrite Hu. Qed.

(** [conversation] with the desktop program in the client's place. *)
Definition ui_conversation `{Host, Codec} {A} (env : session_env) (s : session) (talk : SM desktop A)
  (c : client_state) (root : string) (pid : Z) (r : A) (Q : filesystem → filesystem → Prop) : Prop :=
  ∃ up, ∀ sk, Forall willing (tx_events sk) → delivers sk up →
    ∃ s' down, run env (set_socket sk s) = (Ret tt, s') ∧ state_ s' = DISCONNECTED ∧
      tx (sn_socket s') = tx sk ++ down ∧
      ∀ k, Forall willing (tx_events k) → delivers k down →
        ∃ c' k', talk (desk (set_stream (Some k) c) root pid) = (Ret r, desk c' root pid) ∧
          stream (tc c') = Some k' ∧ tx k' = tx k ++ up ∧ Q (disk c') (sn_fs s').

(** A run of the desktop program that says [up] and hears [down]. *)
Definition ui_says `{Host} {A} (talk : SM desktop A) (c : client_state) (root : string) (pid : Z) (up down : bytes) (r : A)
  (c' : client_state) : Prop :=
  ∀ k rest, Forall willing (tx_events k) → delivers k (down ++ rest) →
  ∃ k', talk (desk (set_stream (Some k) c) root pid) = (Ret r, desk (set_stream (Some k') c') root pid) ∧
    Forall willing (tx_events k') ∧ delivers k' rest ∧ tx k' = tx k ++ up.

Section Window.
Context `{Host, Tokio, !TokioLaws, Disk, Sha2, !Sha2Laws, Codec, Prost, !ProstLaws} (env : session_env).

Lemma ui_converse {A} (talk : SM desktop A) c root pid s up r (Q : filesystem → filesystem → Prop) :
  serves env s up (λ reply s', ∃ c', Q (disk c') (sn_fs s') ∧
    ∀ k, Forall willing (tx_events k) → delivers k reply → ∃ k',
      talk (desk (set_stream (Some k) c) root pid) = (Ret r, desk (set_stream (Some k') c') root pid) ∧
      tx k' = tx k ++ up) →
  ui_conversation env s talk c root pid r Q.
Proof.
  intros Hs. exists up. intros sk Hw Hd.
  destruct (serves_run env s up _ sk Hs Hw Hd) as (s' & reply & Hr & Hst & Ht & s1 & k1 & (c' & HQ & Hsay) & ->).
  eexists _, _. split; [exact Hr|]. split; [done|]. split; [exact Ht|]. intros k Hwk Hdk.
  destruct (Hsay k Hwk Hdk) as (k' & Hrun & Htx). eexists _, k'. split; [exact Hrun|]. done.
Qed.

Lemma ui_says_bind {A B} (m : SM desktop A) (f : A → SM desktop B) c root pid up1 up2 down1 down2 a c1 r c2 :
  ui_says m c root pid up1 down1 a c1 → ui_says (f a) c1 root pid up2 down2 r c2 →
  ui_says (m ≫= f) c root pid (up1 ++ up2) (down1 ++ down2) r c2.
Proof.
  intros Hm Hf k rest Hw Hd. rewrite <- app_assoc in Hd. destruct (Hm k _ Hw Hd) as (k1 & Hr1 & Hw1 & Hd1 & Ht1).
  destruct (Hf k1 _ Hw1 Hd1) as (k2 & Hr2 & Hw2 & Hd2 & Ht2). exists k2.
  rewrite SM_bind_unfold, Hr1. split; [exact Hr2|]. by rewrite Ht2, Ht1, app_assoc.
Qed.

Lemma ui_says_ret {A} (a : A) c root pid : ui_says (mret a) c root pid [] [] a c.
Proof. intros k rest Hw Hd. exists k. by rewrite app_nil_r. Qed.

(** A command that makes one call of the client. *)
Lemma ui_says_guard {A B} context (use : CM client_state A) (f : answer (Result A) → B) c root pid up down r c' :
  says use c up down r c' →
  ui_says (x ← with_guard context use; mret (f x)) c root pid up down (f (Answer r)) c'.
Proof.
  intros Hs k rest Hw Hd. destruct (Hs k rest Hw Hd) as (k' & Hr & Hk'). exists k'.
  rewrite SM_bind_unfold, (with_guard_runs _ _ _ _ _ _ _ Hr). done.
Qed.

(** ** A new file *)

Definition claim_bytes (c : client_state) (rel : string) (data : bytes) (t : Z) : bytes :=
  encode_frame (request MSG_NEGOTIATION_REQUEST
    (prost_encode KNegotiationRequest (local_claim (disk c) rel (Some (File data t))))).
Definition new_file_bytes (c : client_state) (rel : string) (data : bytes) (t : Z) : bytes :=
  claim_bytes c rel data t ++ upload_bytes c rel data t.

Definition fresh_answer : NegotiationResponse := mkNegotiationResponse FRESH ZERO_COPY 0 "" (se_block_size env).
Definition fresh_frame : WireFrame := framed MSG_NEGOTIATION_RESPONSE KNegotiationResponse fresh_answer.

(** The server's two answers for a new file fit a frame. *)
Definition welcomes : Prop :=
  answerable KNegotiationResponse fresh_answer ∧ answerable KZeroCopyUploadAck (mkZeroCopyUploadAck OK "" 0).

(** The window's side, with reports of an earlier upload still to be read. *)
Lemma new_file_said skipped c rel data t root pid :
  uploader c rel data t → welcomes → passed_over MSG_NEGOTIATION_RESPONSE skipped →
  ui_says (handle_sync_path rel) c root pid (new_file_bytes c rel data t)
    ((concat (encode_frame <$> skipped) ++ encode_frame fresh_frame) ++ encode_frame upload_ack) Complete c.
Proof.
  intros [Hcalm Hl Ht Hlen _ _ _] [Hfresh Hack] Hskip. unfold handle_sync_path.
  eapply ui_says_bind.
  { unfold negotiate_file. apply (ui_says_guard "negotiate_file"). apply negotiate_said_after; try done.
    split; [done|lia]. }
  cbv beta iota. change (un_transfer_mode _) with "ZERO_COPY". change (un_file_mode _) with "FRESH".
  rewrite decide_False by (by intros [? _]). unfold ui_sync_file. rewrite decide_True by done.
  unfold upload_bytes. replace (concat (raw_frame <$> [data])) with (raw_frame data) by (symmetry; apply app_nil_r).
  rewrite <- (app_nil_r (_ ++ raw_frame data)), <- (app_nil_r (encode_frame upload_ack)).
  eapply ui_says_bind; [apply (ui_says_guard "sync_file"), (upload_said rel data t c); done || lia|].
  apply ui_says_ret.
Qed.

(** Reports of progress that may stay on the connection. *)
Definition left_over (reports : list WireFrame) : Prop := ∀ ty, ty ≠ MSG_PROGRESS → passed_over ty reports.

Lemma absent_lookup fs p : room_for fs p → file_at fs (target_loc fs p) = None → lookup_node fs p = None.
Proof.
  intros (_ & _ & _ & Hnd & _) Hf. unfold lookup_node, file_at, target_loc in *.
  by destruct (node_at (nodes fs) (loc fs p)) as [[]|].
Qed.

(** The server's side. *)
Lemma new_file_served c s rel p data t :
  uploader c rel data t → welcomes → fresh_session s → calm (sn_fs s) →
  resolve_path (se_file_manager env) rel = Ret p → room_for (sn_fs s) p →
  file_at (sn_fs s) (target_loc (sn_fs s) p) = None →
  serves env s (new_file_bytes c rel data t) (λ reply s',
    (∃ progress, reply = encode_frame fresh_frame ++ encode_frame upload_ack ++ progress ∧
       (reports_fit rel → ∃ reports, progress = concat (encode_frame <$> reports) ∧ left_over reports)) ∧
    file_at (sn_fs s') (target_loc (sn_fs s) p) = Some data ∧ file_at (sn_fs s') (tmp_loc (sn_fs s) p) = None ∧
    touches p (sn_fs s) (sn_fs s') ∧ calm (sn_fs s')).
Proof.
  intros Hu [Hfresh Hack] [Hsh Hst] Hcalm Hr Hroom Habs. pose proof (absent_lookup _ _ Hroom Habs) as Hl.
  pose proof (ul_claim _ _ _ _ Hu) as Hreq.
  assert (negotiation_answer (se_block_size env) (lookup_node (sn_fs s) p) (digest data) = fresh_answer) as Hneg
    by (by rewrite Hl).
  eapply serves_seq.
  { apply (negotiation_served env s _ _ p (sendable_parsed _ _ Hreq)); try done; try apply Hreq.
    - by rewrite Hl.
    - intros ?? Hx. by rewrite Hl in Hx.
    - cbn [local_claim nq_client_sha256_hash]. rewrite Hneg. apply Hfresh. }
  cbn [local_claim nq_client_sha256_hash]. rewrite Hneg. intros r1 s1 (-> & Hd & _) (Hsh1 & Hst1 & _).
  assert (sn_fs s1 = sn_fs s) as Hfs by (unfold sn_fs; by rewrite Hd). rewrite <- Hfs in *.
  eapply serves_mono; [by apply (uploader_served env c s1 rel p data t)|].
  intros r2 s2 ((progress & -> & Hprog) & _ & Hf & Htmp & Ho & Hcalm2 & Hdirs).
  split; [|done]. exists progress. split; [done|]. intros Hrep. rewrite (Hprog Hrep).
  eexists. split; [done|]. intros ty Hty. by apply reports_passed.
Qed.

(** Synchronising a new file from the window sends it.  For a non-empty local
    file the server does not have, the window's two commands and the session
    understand each other over any segmentation: the negotiation says that the
    file is fresh, the upload that follows stores exactly the local bytes on the
    server, the job is shown as complete, and neither the other files of the
    server nor the local ones change. *)
Theorem window_syncs_new_file rel p data t c root pid s :
  uploader c rel data t → welcomes → fresh_session s → calm (sn_fs s) →
  resolve_path (se_file_manager env) rel = Ret p → room_for (sn_fs s) p →
  file_at (sn_fs s) (target_loc (sn_fs s) p) = None →
  ui_conversation env s (handle_sync_path rel) c root pid Complete (λ local files,
    local = disk c ∧ file_at files (target_loc (sn_fs s) p) = Some data ∧
    file_at files (tmp_loc (sn_fs s) p) = None ∧ others_kept (sn_fs s) files p).
Proof.
  intros Hu Hwel Hs Hcalm Hr Hroom Habs. eapply ui_converse, serves_mono; [by apply new_file_served|].
  intros reply s' ((progress & -> & _) & Hf & Htmp & [Ho _] & _). exists c. split; [done|]. intros k Hw Hd.
  rewrite app_assoc in Hd.
  destruct (new_file_said [] c rel data t root pid Hu Hwel (passed_over_none _) k _ Hw Hd) as (k' & Hrun & _ & _ & Htx).
  by exists k'.
Qed.

(** ** Several new files *)

(** A file picked in the window: its name, where the server keeps it, its bytes. *)
Record picked := mkPicked { pk_rel : string; pk_path : string; pk_data : bytes; pk_time : Z }.

Record new_file (c : client_state) (fs : filesystem) (f : picked) : Prop := {
  nf_local : uploader c (pk_rel f) (pk_data f) (pk_time f);
  nf_path : resolve_path (se_file_manager env) (pk_rel f) = Ret (pk_path f);
  nf_room : room_for fs (pk_path f);
  nf_absent : file_at fs (target_loc fs (pk_path f)) = None;
  nf_reports : reports_fit (pk_rel f)
}.

Definition all_apart (fs : filesystem) (files : list picked) : Prop :=
  ForallOrdPairs (λ f g, apart fs (pk_path f) (pk_path g)) files.

Definition picked_bytes (c : client_state) (f : picked) : bytes :=
  new_file_bytes c (pk_rel f) (pk_data f) (pk_time f).

(** Every file is where it belongs, and nothing else has changed. *)
Definition all_stored (files : list picked) (fs fs' : filesystem) : Prop :=
  Forall (λ f, file_at fs' (target_loc fs (pk_path f)) = Some (pk_data f) ∧
               file_at fs' (tmp_loc fs (pk_path f)) = None) files ∧
  ∀ l, Forall (λ f, l ≠ target_loc fs (pk_path f) ∧ l ≠ tmp_loc fs (pk_path f)) files →
    file_at fs' l = file_at fs l.

Lemma new_file_kept c fs fs' f g : new_file c fs f → new_file c fs g → apart fs (pk_path g) (pk_path f) →
  touches (pk_path g) fs fs' → new_file c fs' f.
Proof.
  intros [Hl Hp Hroom Habs Hrep] [_ _ (Hdir & _) _ _] Hap%apart_sym Htouch. split; try done.
  - by eapply touched_room.
  - rewrite (loc_cwd fs fs'); [|by apply Htouch]. rewrite (touched_files _ _ _ _ _ Hap Htouch); [done|left].
Qed.

Lemma apart_clear fs p q : apart fs p q → ∀ l, l ∈ [target_loc fs p; tmp_loc fs p] →
  l ≠ target_loc fs q ∧ l ≠ tmp_loc fs q.
Proof.
  intros Hap l Hl. split; intros ->.
  - destruct (Hap _ (target_loc fs q) Hl) as [[] _]; [left|done].
  - destruct (Hap _ (tmp_loc fs q) Hl) as [[] _]; [right; left|done].
Qed.

Lemma all_stored_cons f files fs fs1 fs2 :
  Forall (λ g, apart fs (pk_path f) (pk_path g)) files → touches (pk_path f) fs fs1 →
  file_at fs1 (target_loc fs (pk_path f)) = Some (pk_data f) → file_at fs1 (tmp_loc fs (pk_path f)) = None →
  all_stored files fs1 fs2 → all_stored (f :: files) fs fs2.
Proof.
  intros Hap (Ho & [Hc _] & _) Hf Htmp [Hall Hothers]. unfold target_loc, tmp_loc in *.
  assert (∀ l, l ∈ [loc fs (pk_path f); loc fs (pk_path f +:+ ".tmp")] → file_at fs2 l = file_at fs1 l) as Hmine.
  { intros l Hl. apply Hothers. eapply Forall_impl; [exact Hap|]. intros g Hg. rewrite !(loc_cwd _ _ _ Hc).
    by apply (apart_clear _ _ _ Hg). }
  split.
  - constructor; [split; rewrite Hmine; first [done|left|right; left]|].
    eapply Forall_impl; [exact Hall|]. intros g. cbn beta. by rewrite !(loc_cwd _ _ _ Hc).
  - intros l Hl. inversion_clear Hl as [|?? [Hl1 Hl2] Hrest]. rewrite Hothers; [by apply Ho|].
    eapply Forall_impl; [exact Hrest|]. intros g. cbn beta. by rewrite !(loc_cwd _ _ _ Hc).
Qed.

(** The two sides together: what has been heard before is [skipped], what is left
    unread at the end are reports. *)
Lemma new_files_synced c root pid files : ∀ s skipped,
  welcomes → fresh_session s → calm (sn_fs s) → Forall (new_file c (sn_fs s)) files →
  all_apart (sn_fs s) files → left_over skipped →
  serves env s (concat (picked_bytes c <$> files)) (λ reply s',
    (∃ heard reports, concat (encode_frame <$> skipped) ++ reply = heard ++ concat (encode_frame <$> reports) ∧
       left_over reports ∧ ui_says (sync_paths (pk_rel <$> files)) c root pid (concat (picked_bytes c <$> files)) heard
         (const Complete <$> files) c) ∧
    all_stored files (sn_fs s) (sn_fs s')).
Proof.
  induction files as [|f files IH]; intros s skipped Hwel Hs Hcalm Hnew Hap Hskip.
  { apply serves_nothing; [apply Hs..|]. intros sk. split; [|by split].
    exists [], skipped. split; [apply app_nil_r|]. split; [done|]. apply ui_says_ret. }
  inversion_clear Hnew as [|?? Hf Hfs]. inversion_clear Hap as [|?? Hapf Haps]. pose proof Hf as [Hu Hr Hroom Habs Hrep].
  cbn [fmap list_fmap concat]. eapply serves_seq; [by apply (new_file_served c s _ (pk_path f))|].
  intros r1 s1 ((progress & -> & Hprog) & Hstored & Htmp & Htouch & Hcalm1) (Hsh1 & Hst1 & _).
  destruct (Hprog Hrep) as (reports & -> & Hleft). pose proof Htouch as (_ & [Hc _] & _).
  eapply serves_mono.
  { apply (IH s1 reports); try done.
    - apply Forall_forall. intros g Hg. rewrite Forall_forall in Hfs, Hapf.
      apply (new_file_kept c (sn_fs s) _ g f); auto.
    - clear -Haps Hc. induction Haps as [|g gs Hg _ IHg]; constructor; [|done].
      eapply Forall_impl; [exact Hg|]. intros g'. by apply apart_cwd. }
  intros r2 s2 ((heard & last & Heq & Hlast & Htalk) & Hall). split; [|by eapply all_stored_cons].
  eexists _, last. split; [|split; [exact Hlast|]]; cycle 1.
  - cbn [sync_paths]. eapply ui_says_bind.
    { apply (new_file_said skipped); [done..|]. by apply Hskip. }
    rewrite <- (app_nil_r (concat _)). eapply ui_says_bind; [exact Htalk|]. apply ui_says_ret.
  - rewrite app_nil_r, <- !app_assoc. do 3 f_equal. exact Heq.
Qed.

(** C24: synchronising new files from the window sends them all.  For any list of
    non-empty local files that the server does not have and that do not get in
    each other's way, the window's loop and the session understand each other over
    any segmentation: every file is negotiated and uploaded, the reports of
    progress that one upload leaves on the connection do not disturb the next one,
    every job ends as complete, the server then holds exactly the local bytes of
    every file and no temporary file of theirs, and no other file of the server and
    no local file has changed. *)
Theorem window_syncs_new_files c root pid files s :
  welcomes → fresh_session s → calm (sn_fs s) → Forall (new_file c (sn_fs s)) files → all_apart (sn_fs s) files →
  ui_conversation env s (sync_paths (pk_rel <$> files)) c root pid (const Complete <$> files) (λ local stored,
    local = disk c ∧ all_stored files (sn_fs s) stored).
Proof.
  intros Hwel Hs Hcalm Hnew Hap. eapply ui_converse, serves_mono.
  { apply (new_files_synced c root pid files s []); try done. intros ty _. apply passed_over_none. }
  intros reply s' ((heard & reports & Heq & _ & Htalk) & Hall). exists c. split; [done|]. intros k Hw Hd.
  change (reply = heard ++ concat (encode_frame <$> reports)) in Heq. subst reply.
  destruct (Htalk k _ Hw Hd) as (k' & Hrun & _ & _ & Htx). by exists k'.
Qed.

End Window.

(** * What is shown *)

Section Shown.
Context `{Host, Tokio, Disk, Sha2, Prost}.

Lemma invoke_ret {A} (m : SM desktop A) w a d : m (wn_desktop w) = (Ret a, d) → invoke m w = (Ret a, set_desktop d w).
Proof. intros Hm. unfold invoke, zoom. by rewrite Hm. Qed.

Lemma update_job_last id f prev j : id ∉ tj_id <$> prev → tj_id j = id → update_job id f (prev ++ [j]) = prev ++ [f j].
Proof.
  intros Hid Hj. unfold update_job. rewrite fmap_app. simpl. rewrite decide_True by done. f_equal.
  induction prev as [|x prev IH]; [done|]. cbn in *. rewrite not_elem_of_cons in Hid. destruct Hid as [Hx Hid].
  rewrite decide_False by congruence. by rewrite IH.
Qed.

Lemma show_mode_unchanged mode : show_mode mode = "unchanged" ↔ mode ≠ "ZERO_COPY" ∧ mode ≠ "DELTA_SYNC".
Proof. unfold show_mode. repeat case_decide; split; first [done|by intros []]. Qed.

(** The window after a job has ended: one more job at the end of the list. *)
Definition job_shown (w : window) (id path mode : string) (st : job_status) (d : desktop) (ids : list string) : window :=
  mkWindow (wn_connected w) (wn_connecting w) (wn_files w)
    (wn_transfers w ++ [mkTransferJob id path mode 0 0 0 0 (Ended st)]) (wn_syncing w) d ids.

(** The job of a path shows what [handle_sync_path] came to. *)
Lemma sync_job_shows path w st d id ids :
  handle_sync_path path (wn_desktop w) = (Ret st, d) → wn_ids w = id :: ids → id ∉ tj_id <$> wn_transfers w →
  ∃ mode, sync_job path w = (Ret tt, job_shown w id path mode st d ids).
Proof.
  intros Hrun Hids Hid. unfold sync_job, handle_sync_path in *. rewrite SM_bind_unfold in Hrun. rewrite SM_bind_unfold.
  unfold next_id. rewrite Hids. change (default "" (head (id :: ids))) with id. cbn [tail]. rewrite SM_bind_unfold. cbn [modify_st].
  rewrite SM_bind_unfold. destruct (negotiate_file path (wn_desktop w)) as [[[n|m]| |] d1] eqn:Hneg; try done.
  all: erewrite invoke_ret by (cbn [wn_desktop set_transfers]; exact Hneg).
  2:{ injection Hrun as <- <-. eexists. unfold modify_st, set_transfers, set_desktop. cbn [wn_connected wn_connecting wn_files wn_transfers wn_syncing wn_desktop wn_ids].
      by rewrite update_job_last. }
  cbv beta iota zeta in Hrun |- *. rewrite SM_bind_unfold. cbn [modify_st].
  destruct (decide (show_mode (un_transfer_mode n) = "unchanged")) as [Hm|Hm]; rewrite show_mode_unchanged in Hm.
  { rewrite decide_True in Hrun by done. injection Hrun as <- <-. eexists. unfold modify_st, set_transfers, set_desktop. cbn [wn_connected wn_connecting wn_files wn_transfers wn_syncing wn_desktop wn_ids].
    by rewrite !update_job_last. }
  rewrite decide_False, SM_bind_unfold in Hrun by done. rewrite SM_bind_unfold.
  destruct (ui_sync_file path (un_file_mode n) (un_transfer_mode n) d1) as [[[x|m]| |] d2] eqn:Hsync; try done;
    (erewrite invoke_ret by (cbn [wn_desktop set_transfers set_desktop]; exact Hsync));
    injection Hrun as <- <-; eexists; unfold modify_st, set_transfers, set_desktop; cbn [wn_connected wn_connecting wn_files wn_transfers wn_syncing wn_desktop wn_ids]; by rewrite !update_job_last.
Qed.

Definition shows (x : string * job_status) (j : TransferJob) : Prop :=
  tj_relative_path j = x.1 ∧ tj_status j = Ended x.2.

Lemma sync_jobs_show more paths : ∀ ids w sts d,
  sync_paths paths (wn_desktop w) = (Ret sts, d) → wn_ids w = ids ++ more → length ids = length paths →
  NoDup ((tj_id <$> wn_transfers w) ++ ids) →
  ∃ jobs, sync_jobs paths w = (Ret tt, mkWindow (wn_connected w) (wn_connecting w) (wn_files w)
            (wn_transfers w ++ jobs) (wn_syncing w) d more) ∧ Forall2 shows (zip paths sts) jobs.
Proof.
  induction paths as [|path paths IH]; intros [|id ids] w sts d Hrun Hids Hlen Hnd; try done.
  { injection Hrun as <- <-. exists []. rewrite app_nil_r. split; [|constructor]. destruct w; simpl in *. by subst. }
  cbn [sync_paths sync_jobs] in *. rewrite SM_bind_unfold in Hrun.
  destruct (handle_sync_path path (wn_desktop w)) as [[st| |] d1] eqn:Hjob; try done.
  rewrite SM_bind_unfold in Hrun. destruct (sync_paths paths d1) as [[sts'| |] d2] eqn:Hrest; try done.
  injection Hrun as <- <-.
  assert (id ∉ tj_id <$> wn_transfers w) as Hid.
  { intros Hx. apply NoDup_app in Hnd as (_ & Hfresh & _). destruct (Hfresh _ Hx). left. }
  destruct (sync_job_shows path w st d1 id (ids ++ more) Hjob Hids Hid) as (mode & Hshow).
  rewrite SM_bind_unfold, Hshow.
  destruct (IH ids (job_shown w id path mode st d1 (ids ++ more)) sts' d2) as (jobs & Hrun & Hjobs); cbn; try done.
  - by injection Hlen.
  - rewrite fmap_app, <- app_assoc. exact Hnd.
  - eexists. rewrite Hrun. cbn. split; [by rewrite <- app_assoc|]. by constructor.
Qed.

(** When a synchronisation has run, the window is ready for the next one and shows
    one new job for each path, in order, with what its commands came to; the list
    of files is the server's when it could be had, and the old one otherwise.  The
    identifiers must differ, as times with random suffixes do. *)
Theorem handle_sync_shows paths ids more w sts d r d' :
  wn_syncing w = false → sync_paths paths (wn_desktop w) = (Ret sts, d) →
  ui_list_server_files "" true d = (Ret r, d') → wn_ids w = ids ++ more → length ids = length paths →
  NoDup ((tj_id <$> wn_transfers w) ++ ids) →
  ∃ jobs, handle_sync paths w = (Ret tt, mkWindow (wn_connected w) (wn_connecting w)
            (match r with Answer files => files | Refuse _ => wn_files w end) (wn_transfers w ++ jobs) false d' more) ∧
    Forall2 shows (zip paths sts) jobs.
Proof.
  intros Hidle Hrun Hlist Hids Hlen Hnd.
  destruct (sync_jobs_show more paths ids (set_syncing true w) sts d Hrun Hids Hlen Hnd) as (jobs & Hjobs & Hshow).
  exists jobs. split; [|done]. unfold handle_sync. rewrite SM_bind_unfold. cbn [gets_st]. rewrite Hidle.
  rewrite SM_bind_unfold. cbn [modify_st]. rewrite SM_bind_unfold, Hjobs, SM_bind_unfold.
  unfold refresh. rewrite SM_bind_unfold. erewrite invoke_ret by exact Hlist. by destruct r.
Qed.

(** While a synchronisation runs, another one is ignored. *)
Theorem handle_sync_ignored paths w : wn_syncing w = true → handle_sync paths w = (Ret tt, w).
Proof. intros Hs. unfold handle_sync. rewrite SM_bind_unfold. cbn [gets_st]. by rewrite Hs. Qed.

(** A transfer that has failed is shown as complete: only a refused command is an
    error to the window, and a failed transfer is an answer. *)
Theorem failed_transfer_complete path d n d1 message d2 :
  negotiate_file path d = (Ret (Answer n), d1) → un_transfer_mode n ∈ ["ZERO_COPY"; "DELTA_SYNC"] →
  ui_sync_file path (un_file_mode n) (un_transfer_mode n) d1 =
    (Ret (Answer (mkSyncResult false "" (un_transfer_mode n) (Some message))), d2) →
  handle_sync_path path d = (Ret Complete, d2).
Proof.
  intros Hneg Hmode Hsync. unfold handle_sync_path. rewrite SM_bind_unfold, Hneg.
  rewrite decide_False, SM_bind_unfold, Hsync; [done|]. intros [Hz Hd].
  by repeat (apply elem_of_cons in Hmode as [Hmode|Hmode]; [done|]); apply elem_of_nil in Hmode.
Qed.

(** A command that has been answered has put the client back. *)
Lemma listing_keeps_client dir recursive d r d' : ui_list_server_files dir recursive d = (Ret r, d') →
  is_Some (app_client (app d)) → is_Some (app_client (app d')).
Proof.
  unfold ui_list_server_files, with_guard, ClientGuard_take. rewrite SM_bind_unfold. intros Hrun [c Hc]. rewrite Hc in Hrun.
  destruct (list_server_files _ _ _) as [[x| |] s]; try done. injection Hrun as _ <-. by eexists.
Qed.

(** Connected and shown as not connected.  When the server accepts the connection
    and the list of its files cannot be had, the window shows that it is not
    connected, and ignores files, although the program behind it keeps its client. *)
Theorem connected_not_shown addr block_size root w r d m d' :
  connect_to_server addr block_size root (wn_desktop w) = (Ret (Answer r), d) →
  ui_list_server_files "" true d = (Ret (Refuse m), d') →
  ∃ w', handle_connect addr block_size root w = (Ret tt, w') ∧ wn_connected w' = false ∧
    is_Some (app_client (app (wn_desktop w'))) ∧
    ∀ fuel paths, handle_files_dropped fuel paths w' = (Ret tt, w').
Proof.
  intros Hconn Hlist. assert (is_Some (app_client (app d))) as Hc.
  { unfold connect_to_server in Hconn. destruct (connect _) as [[[]| |] s]; try done. injection Hconn as _ <-. by eexists. }
  eexists. unfold handle_connect. rewrite SM_bind_unfold. cbn [modify_st]. rewrite SM_bind_unfold.
  erewrite invoke_ret by exact Hconn. rewrite SM_bind_unfold, SM_bind_unfold. cbn [modify_st]. rewrite SM_bind_unfold.
  erewrite invoke_ret by exact Hlist. cbn. split; [done|]. split; [done|].
  split; [by eapply listing_keeps_client|]. done.
Qed.

End Shown.

(** * Witnesses *)

#[local] Existing Instances le_host proto3 demo_tokio demo_tokio_laws demo_prost demo_prost_laws demo_sha2
  demo_sha2_laws demo_disk.

Definition demo_picked : list picked := [mkPicked "f" "/s/f" [x61; x62] 0; mkPicked "g" "/s/g" [x63] 0].

Lemma demo_room_g : room_for (demo_fs []) "/s/g".
Proof.
  split; [reflexivity|]. split; [reflexivity|]. split; [|split; discriminate].
  intros [|[|k]]; [reflexivity..|]. by destruct k.
Qed.

Lemma demo_new_files : Forall (new_file demo_env (demo_client two_files) (demo_fs [])) demo_picked.
Proof.
  assert (∀ rel, rel ∈ ["f"; "g"] → reports_fit rel) as Hrep.
  { intros rel Hrel. apply demo_reports_fit.
    repeat (apply elem_of_cons in Hrel as [->|Hrel]; [vm_compute; discriminate|]). by apply elem_of_nil in Hrel. }
  constructor; [|constructor; [|constructor]]; split; try reflexivity.
  - exact demo_uploader_f.
  - exact demo_room.
  - apply Hrep. left.
  - exact demo_uploader_g.
  - exact demo_room_g.
  - apply Hrep. right. left.
Qed.

Lemma window_syncs_new_files_witness :
  ui_conversation demo_env (demo_server []) (sync_paths ["f"; "g"]) (demo_client two_files) "/s" 7 [Complete; Complete]
    (λ local stored, local = demo_fs two_files ∧ all_stored demo_picked (demo_fs []) stored).
Proof.
  apply (window_syncs_new_files demo_env (demo_client two_files) "/s" 7 demo_picked (demo_server [])).
  - split; fits.
  - fits.
  - reflexivity.
  - exact demo_new_files.
  - constructor; [constructor; [exact demo_apart|constructor]|]. constructor; constructor.
Defined.

(** A server that says hello and then closes the connection. *)
Definition demo_window : window :=
  mkWindow false false [] [] false (mkDesktop (mkApp None "/s") (demo_fs []) [Some demo_line] 7) [].

Example connected_not_shown_example : ∃ w', handle_connect "h:9090" 65536 "/s" demo_window = (Ret tt, w') ∧
  wn_connected w' = false ∧ is_Some (app_client (app (wn_desktop w'))).
Proof.
  edestruct (connected_not_shown "h:9090" 65536 "/s" demo_window) as (w' & Hrun & Hw & Hc & _).
  - vm_compute. reflexivity.
  - vm_compute. reflexivity.
  - by exists w'.
Qed.
