(* ===== verification/ConcurrentUploads.v ===== *)
(** Delta uploads that run at the same time: the threads of several sessions in
    [DeltaSyncHandler::handle_block_data] (src/server/src/delta_sync_handler.cpp)
    over one [FileMutex] and one storage root.

    A thread works through the blocks of one file.  Fetching the lock's pointer,
    locking, writing a block, unlocking and publishing are separate steps, so
    threads interleave between any two of them; a block write and a publication
    are single steps. *)
From S2P Require Import Prelude Sha256 Paths FileSystem FileManager FileMutex DeltaSync Directories.

(** * Publication *)

Lemma dirs_publish h rel p c s : resolve_path (dh_file_manager h) rel = Ret p → room_for (ds_fs s) p →
  file_at (ds_fs s) (tmp_loc (ds_fs s) p) = Some c →
  dirs_on_way p (ds_fs s) (ds_fs (finalize h rel s).2) ∧
  (calm (ds_fs s) → calm (ds_fs (finalize h rel s).2)).
Proof.
  intros Hr Hroom Hc. destruct (node_of_tmp _ _ _ Hc) as (t & Hl & Hne).
  enough (wp (finalize h rel) (λ _ s', dirs_on_way p (ds_fs s) (ds_fs s') ∧ (calm (ds_fs s) → calm (ds_fs s'))) s) as Hw.
  { unfold wp in Hw. by destruct (finalize h rel s). }
  unfold finalize. apply wp_bind. unfold tmp_path_for. rewrite Hr. apply wp_bind, wp_on_fs.
  unfold wp at 1. rewrite SM_bind_unfold. simpl. unfold read_stream, lift. rewrite Hl.
  apply wp_on_fs. by apply (dirs_rename _ _ _ c).
Qed.

(** * The model *)

Inductive job_phase :=
| AtLock                 (* before the block's [acquire_write] *)
| Waits                  (* inside it *)
| InLock                 (* the lock is held, the block not yet written *)
| Wrote (ok : bool)      (* written, the lock still held *)
| Publishing.            (* unlocked, the final block's publication ahead *)

(** The client's file and the blocks still to come, the current one first; the
    answers so far. *)
Record job := mkJob {
  jb_rel : string;
  jb_block_size : Z;
  jb_data : bytes;
  jb_todo : list Z;
  jb_phase : job_phase;
  jb_codes : list Z
}.

Definition at_phase (ph : job_phase) (j : job) : job :=
  mkJob (jb_rel j) (jb_block_size j) (jb_data j) (jb_todo j) ph (jb_codes j).
Definition answered_with (code : Z) (j : job) : job :=
  mkJob (jb_rel j) (jb_block_size j) (jb_data j) (tail (jb_todo j)) AtLock (jb_codes j ++ [code]).

Definition job_block (j : job) (i : Z) : bytes := block_of (jb_block_size j) (jb_data j) i.
Definition job_final (j : job) (i : Z) : bool := zlen (job_block j i) <? jb_block_size j.

Record upload_world := mkStore {
  st_locks : config;
  st_fs : filesystem;
  st_jobs : gmap nat job
}.

Inductive upload_step (h : DeltaSyncHandler) : upload_world → upload_world → Prop :=
| up_fetch c t j i rest id fm :
    st_jobs c !! t = Some j → jb_phase j = AtLock → jb_todo j = i :: rest →
    threads (st_locks c) !! t = Some Idle →
    get_or_create (jb_rel j) (table (st_locks c)) = (id, fm) →
    upload_step h c (mkStore
      (mkConfig fm (<[t := Waiting true (jb_rel j) id]> (threads (st_locks c))))
      (st_fs c) (<[t := at_phase Waits j]> (st_jobs c)))
| up_lock c t j id fm :
    st_jobs c !! t = Some j → jb_phase j = Waits →
    threads (st_locks c) !! t = Some (Waiting true (jb_rel j) id) →
    lock_object true id (table (st_locks c)) = Some fm →
    upload_step h c (mkStore
      (mkConfig fm (<[t := Holding true (jb_rel j)]> (threads (st_locks c))))
      (st_fs c) (<[t := at_phase InLock j]> (st_jobs c)))
| up_write c t j i rest ok fs :
    st_jobs c !! t = Some j → jb_phase j = InLock → jb_todo j = i :: rest →
    write_block_atomic (dh_file_manager h) (jb_rel j) (i * jb_block_size j) (job_block j i) (st_fs c)
      = (Ret ok, fs) →
    upload_step h c (mkStore (st_locks c) fs (<[t := at_phase (Wrote ok) j]> (st_jobs c)))
| up_unlock c t j i rest ok :
    st_jobs c !! t = Some j → jb_phase j = Wrote ok → jb_todo j = i :: rest →
    threads (st_locks c) !! t = Some (Holding true (jb_rel j)) →
    upload_step h c (mkStore
      (mkConfig (release true (jb_rel j) (table (st_locks c))) (<[t := Idle]> (threads (st_locks c))))
      (st_fs c)
      (<[t := if negb ok then answered_with 2 j
              else if job_final j i then at_phase Publishing j else answered_with 1 j]> (st_jobs c)))
| up_publish c t j b d :
    st_jobs c !! t = Some j → jb_phase j = Publishing →
    finalize h (jb_rel j) (mkDelta (st_fs c) (table (st_locks c)) ∅) = (Ret b, d) →
    upload_step h c (mkStore (st_locks c) (ds_fs d)
      (<[t := answered_with (if b : bool then 1 else 2) j]> (st_jobs c))).

(** Publishing only concerns the file system. *)
Lemma finalize_local h rel fs lk lk' ip ip' :
  finalize h rel (mkDelta fs lk ip) =
  let '(r, d) := finalize h rel (mkDelta fs lk' ip') in (r, mkDelta (ds_fs d) lk ip).
Proof.
  unfold finalize. rewrite !SM_bind_unfold. destruct (tmp_path_for _ _) as [tmp|e|x]; [|done..].
  cbn [lift]. rewrite !SM_bind_unfold. unfold on_fs, zoom. cbn [ds_fs ds_locks in_progress].
  destruct ((fs0 ← get_st; lift (read_stream fs0 tmp)) fs) as [[[data|]|e|x] fs1]; [|done..].
  cbn [ds_fs ds_locks in_progress]. by destruct (atomic_rename_tmp _ _ fs1) as [r fs2].
Qed.

(** ** The handler in one go

    A thread that is not interrupted does what [handle_block_data] does. *)
Lemma block_is_steps h c t j i rest ip code d :
  st_jobs c !! t = Some j → jb_phase j = AtLock → jb_todo j = i :: rest → threads (st_locks c) !! t = Some Idle →
  handle_block_data h (jb_rel j) i (i * jb_block_size j) (job_block j i) (BlockHash.sha256_hex (job_block j i))
    (job_final j i) (mkDelta (st_fs c) (table (st_locks c)) ip) = (Ret code, d) →
  rtc (upload_step h) c (mkStore (mkConfig (ds_locks d) (threads (st_locks c))) (ds_fs d)
    (<[t := answered_with code j]> (st_jobs c))).
Proof.
  intros Hj Hph Htodo Ht. unfold handle_block_data. rewrite bool_decide_eq_true_2 by done. cbn [negb].
  rewrite SM_bind_unfold. unfold ds_acquire, acquire. cbn [ds_locks ds_fs in_progress].
  destruct (get_or_create (jb_rel j) (table (st_locks c))) as [id fm] eqn:Hget.
  destruct (lock_object true id fm) as [fm'|] eqn:Hlock; [|done].
  rewrite SM_bind_unfold. unfold on_fs, zoom at 1. cbn [ds_fs].
  destruct (write_block_atomic _ _ _ _ (st_fs c)) as [[ok|e|x] fs] eqn:Hwrite; [|done..].
  rewrite SM_bind_unfold. cbn [ds_release modify_st ds_locks ds_fs in_progress].
  set (j1 := at_phase Waits j). set (j2 := at_phase InLock j). set (j3 := at_phase (Wrote ok) j).
  intros Hrun.
  eapply rtc_l; [eapply (up_fetch h c t j i rest id fm); done|].
  eapply rtc_l; [eapply (up_lock h _ t j1 id fm'); cbn [st_jobs st_locks threads table]; [apply lookup_insert_eq|done|apply lookup_insert_eq|done]|].
  eapply rtc_l; [eapply (up_write h _ t j2 i rest ok fs); cbn [st_jobs st_fs]; [apply lookup_insert_eq|done..]|].
  eapply rtc_l; [eapply (up_unlock h _ t j3 i rest ok); cbn [st_jobs st_locks threads]; [apply lookup_insert_eq|done|done|apply lookup_insert_eq]|].
  cbn [st_jobs st_fs st_locks table threads]. rewrite !insert_insert_eq.
  assert (<[t := Idle]> (threads (st_locks c)) = threads (st_locks c)) as Hsame by (by apply insert_id).
  rewrite Hsame. destruct ok; cbn [negb] in *; [|by injection Hrun as <- <-].
  rewrite SM_bind_unfold in Hrun. cbn [mark_received modify_st ds_fs ds_locks in_progress] in Hrun.
  change (job_final j3 i) with (job_final j i). destruct (job_final j i); [|by injection Hrun as <- <-].
  rewrite SM_bind_unfold, (finalize_local h _ _ _ (release true (jb_rel j) fm') _ ∅) in Hrun.
  destruct (finalize h (jb_rel j) (mkDelta fs (release true (jb_rel j) fm') ∅)) as [[b|e|x] d'] eqn:Hfin; [|done..].
  apply rtc_once.
  replace (mkStore (mkConfig (ds_locks d) _) _ _) with (mkStore (mkConfig (release true (jb_rel j) fm')
    (threads (st_locks c))) (ds_fs d') (<[t := answered_with (if b then 1 else 2) (at_phase Publishing j3)]>
      (<[t := at_phase Publishing j3]> (st_jobs c)))).
  - eapply up_publish; cbn [st_jobs st_fs st_locks table]; [apply lookup_insert_eq|done|exact Hfin].
  - rewrite insert_insert_eq. destruct b; cbn [negb] in Hrun; by injection Hrun as <- <-.
Qed.

(** * Independent uploads *)

Section Independent.
Context (h : DeltaSyncHandler) (c0 : upload_world).

Definition path_of (j : job) : string :=
  match resolve_path (dh_file_manager h) (jb_rel j) with Ret p => p | _ => "" end.
Definition job_target (j : job) : list string := target_loc (st_fs c0) (path_of j).
Definition job_tmp (j : job) : list string := tmp_loc (st_fs c0) (path_of j).

(** A job that has not begun: all blocks of a file that is not a multiple of the
    block size, in any order but the last one last. *)
Record uploadable (j : job) : Prop := {
  ub_path : resolve_path (dh_file_manager h) (jb_rel j) = Ret (path_of j);
  ub_room : room_for (st_fs c0) (path_of j);
  ub_size : 0 < jb_block_size j ∧ zlen (jb_data j) < 2 ^ 63 ∧ zlen (jb_data j) mod jb_block_size j ≠ 0;
  ub_blocks : ∃ indices, jb_todo j = indices ++ [blocks_of (zlen (jb_data j)) (jb_block_size j) - 1] ∧
    indices ≡ₚ seqZ 0 (blocks_of (zlen (jb_data j)) (jb_block_size j) - 1);
  ub_stale : (length (default [] (file_at (st_fs c0) (job_tmp j))) <= length (jb_data j))%nat;
  ub_start : jb_phase j = AtLock ∧ jb_codes j = []
}.

(** Several such jobs, one thread each, on paths that do not meet. *)
Record uploads_start : Prop := {
  us_locks : inv (st_locks c0);
  us_idle : map_Forall (λ _ th, th = Idle) (threads (st_locks c0));
  us_threads : ∀ t, is_Some (st_jobs c0 !! t) → is_Some (threads (st_locks c0) !! t);
  us_calm : calm (st_fs c0);
  us_jobs : map_Forall (λ _ j, uploadable j) (st_jobs c0);
  us_apart : ∀ t u i j, t ≠ u → st_jobs c0 !! t = Some i → st_jobs c0 !! u = Some j →
    apart (st_fs c0) (path_of i) (path_of j)
}.

(** ** The invariant *)

(** Where the thread of a job is. *)
Definition in_step (j : job) (th : thread) : Prop :=
  match jb_phase j with
  | AtLock | Publishing => th = Idle
  | Waits => ∃ id, th = Waiting true (jb_rel j) id
  | InLock | Wrote _ => th = Holding true (jb_rel j)
  end.

(** The blocks [sent] are in the temporary file, which can be published. *)
Definition staged (fs : filesystem) (j : job) (sent : list Z) : Prop :=
  parent_is_dir (nodes fs) (job_target j) = true ∧
  ∃ c, file_at fs (job_tmp j) = Some c ∧ blocks_in_place (jb_block_size j) (jb_data j) c sent.

(** The files of a job after the blocks [sent]. *)
Definition stored (fs : filesystem) (j : job) (sent : list Z) : Prop :=
  match jb_todo j with
  | [] => jb_phase j = AtLock ∧ file_at fs (job_target j) = Some (jb_data j) ∧ file_at fs (job_tmp j) = None
  | i :: _ =>
      room_for fs (path_of j) ∧
      match jb_phase j with
      | AtLock | Waits | InLock =>
          blocks_in_place (jb_block_size j) (jb_data j) (default [] (file_at fs (job_tmp j))) sent
      | Wrote ok => ok = true ∧ staged fs j (i :: sent)
      | Publishing => job_final j i = true ∧ staged fs j (i :: sent)
      end
  end.

Record job_inv (fs : filesystem) (j0 j : job) (th : thread) : Prop := {
  ji_same : jb_rel j = jb_rel j0 ∧ jb_block_size j = jb_block_size j0 ∧ jb_data j = jb_data j0;
  ji_thread : in_step j th;
  ji_sent : ∃ sent, jb_todo j0 = sent ++ jb_todo j ∧ jb_codes j = replicate (length sent) 1 ∧ stored fs j sent
}.

Record store_inv (c : upload_world) : Prop := {
  si_locks : inv (st_locks c);
  si_calm : calm (st_fs c);
  si_cwd : cwd (st_fs c) = cwd (st_fs c0);
  si_jobs : ∀ t, match st_jobs c0 !! t, st_jobs c !! t, threads (st_locks c) !! t with
                 | Some j0, Some j, Some th => job_inv (st_fs c) j0 j th
                 | Some _, _, _ => False
                 | None, None, Some th => th = Idle
                 | None, None, None => True
                 | None, Some _, _ => False
                 end;
  si_others : ∀ l, (∀ t j, st_jobs c0 !! t = Some j → l ≠ job_target j ∧ l ≠ job_tmp j) →
    file_at (st_fs c) l = file_at (st_fs c0) l
}.

Lemma path_of_same j j0 : jb_rel j = jb_rel j0 → path_of j = path_of j0.
Proof. unfold path_of. by intros ->. Qed.

Lemma job_locs fs j : cwd fs = cwd (st_fs c0) →
  target_loc fs (path_of j) = job_target j ∧ tmp_loc fs (path_of j) = job_tmp j.
Proof. intros Hc. by split; apply loc_cwd. Qed.

(** What another session does leaves a job's files as the job needs them. *)
Lemma stored_frame fs fs' q j sent : cwd fs = cwd (st_fs c0) → names_directory q = false →
  apart (st_fs c0) (path_of j) q → touches q fs fs' → stored fs j sent → stored fs' j sent.
Proof.
  intros Hc Hq Hap Htouch. apply (apart_cwd _ fs) in Hap; [|done].
  destruct (job_locs fs j Hc) as [Hg Ht].
  pose proof (touched_files fs fs' _ q (target_loc fs (path_of j)) Hap Htouch (in_first _ _)) as Hft.
  pose proof (touched_files fs fs' _ q (tmp_loc fs (path_of j)) Hap Htouch (in_second _ _)) as Hfm.
  pose proof (touched_room fs fs' _ q Hq Hap Htouch) as Hroom.
  assert (∀ l, staged fs j l → staged fs' j l) as Hstaged.
  { intros l (Hp & c & Hc' & Hb). split; [by eapply touched_parent|]. exists c. rewrite <- Ht, Hfm, Ht. done. }
  rewrite Hg, Ht in *. unfold stored. destruct (jb_todo j) as [|i rest]; [by rewrite Hft, Hfm|].
  intros [Hr Hph]. split; [auto|]. destruct (jb_phase j); rewrite ?Hfm; [done..| |]; destruct Hph; auto.
Qed.

Lemma job_inv_frame fs fs' q j0 j th : cwd fs = cwd (st_fs c0) → names_directory q = false →
  apart (st_fs c0) (path_of j0) q → touches q fs fs' → job_inv fs j0 j th → job_inv fs' j0 j th.
Proof.
  intros Hc Hq Hap Ht [Hsame Hth (sent & Htodo & Hcodes & Hst)]. split; [done..|].
  exists sent. split; [done|]. split; [done|]. eapply stored_frame; [done..| |done|done].
  by rewrite (path_of_same j j0) by apply Hsame.
Qed.

(** ** The blocks of a job *)

Lemma job_index j sent i rest : uploadable j → jb_todo j = sent ++ i :: rest →
  let n := blocks_of (zlen (jb_data j)) (jb_block_size j) in
  0 <= i < n ∧ 0 <= i * jb_block_size j < zlen (jb_data j) ∧ (job_final j i = true ↔ rest = []) ∧
  (rest = [] → ∀ k, 0 <= k < n → k ∈ i :: sent).
Proof.
  intros [_ _ (Hbs & Hmax & Hmod) (indices & Htodo & Hperm) _ _] Heq n. fold n in Htodo, Hperm.
  pose proof (last_short_block _ _ Hbs Hmod) as (Hlast & Hshort & _). fold n in Hlast, Hshort.
  rewrite Htodo in Heq. destruct rest as [|x rest _] using rev_ind.
  - apply app_inj_tail in Heq as [-> <-]. unfold job_final, job_block. rewrite (proj2 (Z.ltb_lt _ _) Hshort).
    split; [nia|]. split; [done|]. split; [done|]. intros _ k Hk.
    destruct (decide (k = n - 1)) as [->|]; [left|]. right. rewrite Hperm. apply elem_of_seqZ. lia.
  - rewrite app_comm_cons, app_assoc in Heq. apply app_inj_tail in Heq as [Hidx _].
    assert (i ∈ seqZ 0 (n - 1)) as Hi%elem_of_seqZ by (rewrite <- Hperm, Hidx, elem_of_app, elem_of_cons; auto).
    assert ((i + 1) * jb_block_size j <= zlen (jb_data j)) as Hfull by nia.
    assert (job_final j i = false) as ->.
    { unfold job_final, job_block. apply Z.ltb_ge. rewrite zlen_block by nia. lia. }
    split; [lia|]. split; [nia|]. split; [by split; [|destruct rest]|]. by destruct rest.
Qed.

(** ** One step of one thread *)

Lemma store_inv_update c t j0 j j' th' locks' fs' :
  uploads_start → store_inv c → st_jobs c0 !! t = Some j0 → st_jobs c !! t = Some j →
  inv locks' → threads locks' !! t = Some th' →
  (∀ u, u ≠ t → threads locks' !! u = threads (st_locks c) !! u) →
  touches (path_of j0) (st_fs c) fs' → job_inv fs' j0 j' th' →
  store_inv (mkStore locks' fs' (<[t := j']> (st_jobs c))).
Proof.
  intros Hstart [_ Hcalm Hcwd Hjobs Hothers] Hj0 Hj Hl Hth Hu Htouch Hinv.
  pose proof (us_jobs Hstart t j0 Hj0) as Hub.
  split; cbn [st_locks st_fs st_jobs]; [done|by apply Htouch| | |].
  - rewrite <- Hcwd. apply Htouch.
  - intros u. destruct (decide (u = t)) as [->|Hne]; [by rewrite Hj0, lookup_insert_eq, Hth|].
    rewrite lookup_insert_ne, Hu by done. specialize (Hjobs u).
    destruct (st_jobs c0 !! u) as [i0|] eqn:Hi0; [|done].
    destruct (st_jobs c !! u) as [i|], (threads (st_locks c) !! u) as [th|]; [|done..].
    eapply job_inv_frame; [exact Hcwd| | |exact Htouch|exact Hjobs].
    + apply (ub_room _ Hub).
    + by eapply (us_apart Hstart u t).
  - intros l Hl'. rewrite <- Hothers by done. destruct (job_locs (st_fs c) j0 Hcwd) as [Hg Ht].
    destruct (Hl' t j0 Hj0). apply Htouch; congruence.
Qed.

Lemma touches_refl q fs : touches q fs fs.
Proof. by split; [|split]. Qed.

(** Writing the current block stages it. *)
Lemma write_stages fs j0 j th i rest : uploadable j0 → cwd fs = cwd (st_fs c0) → calm fs →
  job_inv fs j0 j th → jb_phase j = InLock → jb_todo j = i :: rest →
  ∃ fs', write_block_atomic (dh_file_manager h) (jb_rel j) (i * jb_block_size j) (job_block j i) fs = (Ret true, fs') ∧
    touches (path_of j0) fs fs' ∧ job_inv fs' j0 (at_phase (Wrote true) j) th.
Proof.
  intros Hub Hc Hcalm [(Hrel & Hbs & Hdata) Hth (sent & Htodo & Hcodes & Hst)] Hph Hj.
  unfold stored in Hst. rewrite Hj, Hph in Hst. destruct Hst as [Hroom Hblocks].
  rewrite Hj in Htodo. destruct (job_index j0 sent i rest Hub Htodo) as (Hi & Hoff & _).
  destruct (ub_size _ Hub) as (Hpos & Hmax & _).
  pose proof (ub_path _ Hub) as Hr. rewrite (path_of_same j j0 Hrel) in Hroom.
  destruct (job_locs fs j0 Hc) as [Hg Ht].
  pose proof (write_block_spec _ _ _ (i * jb_block_size j) (job_block j i) fs Hr) as Hw.
  pose proof (dirs_write_block _ _ _ (i * jb_block_size j) (job_block j i) Hr fs) as Hdirs.
  rewrite <- Hrel in Hw, Hdirs. unfold wp in Hw.
  destruct (write_block_atomic _ _ _ _ fs) as [r fs']. destruct Hw as (b & -> & Hc' & Hcalm' & Hs & Hb & Hlive).
  destruct (Hlive Hcalm Hroom) as [-> Hpub]; [rewrite Hbs, i64_small; lia|].
  destruct (Hb eq_refl) as (_ & base & Hbase & Hover).
  assert (base = default [] (file_at fs (job_tmp j))) as Hb'.
  { unfold job_tmp. rewrite (path_of_same j j0 Hrel). fold (job_tmp j0). rewrite <- Ht. by destruct Hover as [|[_ []]]. }
  exists fs'. split; [done|]. split.
  { split; [|done]. intros l _ Hl. by apply Hs. }
  split; [done|by unfold in_step in *; rewrite Hph in Hth|].
  exists sent. split; [by rewrite <- Hj in Htodo|]. split; [done|].
  unfold stored. cbn [at_phase jb_todo jb_phase]. rewrite Hj.
  change (path_of (at_phase _ j)) with (path_of j). rewrite (path_of_same j j0 Hrel).
  split; [apply Hpub|]. split; [done|]. unfold staged, job_target, job_tmp.
  change (path_of (at_phase _ j)) with (path_of j). rewrite (path_of_same j j0 Hrel).
  destruct (job_locs fs' j0 ltac:(congruence)) as [Hg' _]. fold (job_target j0) (job_tmp j0).
  split; [rewrite <- Hg'; apply Hpub|].
  eexists. split; [rewrite <- Ht; exact Hbase|]. cbn [at_phase jb_block_size jb_data].
  rewrite Hb'. unfold job_block. rewrite Hbs, Hdata in *. by apply place_block.
Qed.

(** Publishing the staged file of a job stores it. *)
Lemma publish_stores fs j0 j th locks : uploadable j0 → cwd fs = cwd (st_fs c0) → calm fs →
  job_inv fs j0 j th → jb_phase j = Publishing →
  ∃ d, finalize h (jb_rel j) (mkDelta fs locks ∅) = (Ret true, d) ∧
    touches (path_of j0) fs (ds_fs d) ∧ job_inv (ds_fs d) j0 (answered_with 1 j) th.
Proof.
  intros Hub Hc Hcalm [(Hrel & Hbs & Hdata) Hth (sent & Htodo & Hcodes & Hst)] Hph.
  unfold stored in Hst. destruct (jb_todo j) as [|i rest] eqn:Hj; [by rewrite Hph in Hst; destruct Hst|].
  rewrite Hph in Hst. destruct Hst as (Hroom & Hfin & Hpar & data & Htmp & Hblocks).
  destruct (job_index j0 sent i rest Hub Htodo) as (_ & _ & Hlast & Hall).
  assert (job_final j i = job_final j0 i) as Hf by (unfold job_final, job_block; by rewrite Hbs, Hdata).
  assert (rest = []) as -> by (apply Hlast; congruence).
  destruct (ub_size _ Hub) as (Hpos & _). rewrite Hbs, Hdata in Hblocks.
  apply blocks_complete in Hblocks as ->; [|done|by apply Hall].
  pose proof (ub_path _ Hub) as Hr. unfold job_target, job_tmp in Hpar, Htmp. rewrite (path_of_same j j0 Hrel) in *.
  destruct (job_locs fs j0 Hc) as [Hg Ht]. unfold job_target, job_tmp in Hg, Ht. rewrite <- Hg in Hpar. rewrite <- Ht in Htmp.
  pose proof (finalize_spec h _ _ _ (mkDelta fs locks ∅) Hr Htmp) as Hw.
  pose proof (dirs_publish h _ _ _ (mkDelta fs locks ∅) Hr Hroom Htmp) as Hdirs.
  rewrite <- Hrel in Hw, Hdirs. unfold wp in Hw.
  destruct (finalize h (jb_rel j) (mkDelta fs locks ∅)) as [r d]. cbn [ds_fs snd] in *.
  destruct Hw as (b & -> & _ & _ & Hc' & Ho & Hb & Hpub).
  rewrite (Hpub (conj Hcalm (conj Hroom Hpar))) in *. destruct Hb as [Hb1 Hb2].
  exists d. split; [done|]. split; [done|]. split; [done|by unfold in_step in *; rewrite Hph in Hth|].
  exists (sent ++ [i]). cbn [answered_with jb_todo jb_codes]. rewrite Hj. cbn [tail].
  split; [by rewrite <- app_assoc|]. split.
  { by rewrite Hcodes, length_app, replicate_add. }
  unfold stored. cbn [answered_with jb_todo jb_phase jb_data]. rewrite Hj. cbn [tail]. split; [done|].
  unfold job_target, job_tmp. change (path_of (answered_with 1 j)) with (path_of j). rewrite (path_of_same j j0 Hrel).
  rewrite <- Hg, <- Ht, Hdata. done.
Qed.

(** Getting hold of the lock. *)
Lemma lock_keeps fs j0 j th ph th' : job_inv fs j0 j th → jb_todo j ≠ [] →
  (jb_phase j = AtLock ∨ jb_phase j = Waits) → (ph = Waits ∨ ph = InLock) →
  in_step (at_phase ph j) th' → job_inv fs j0 (at_phase ph j) th'.
Proof.
  intros [Hsame _ (sent & Htodo & Hcodes & Hst)] Hne Hph Hph' Hth. split; [done..|].
  exists sent. split; [done|]. split; [done|]. unfold stored in *. cbn [at_phase jb_todo jb_phase].
  destruct (jb_todo j) as [|i rest]; [done|]. destruct Hst as [Hroom Hst]. split; [done|].
  destruct Hph as [Hp|Hp], Hph' as [->| ->]; by rewrite Hp in Hst.
Qed.

(** Letting go of it: the last block is published next. *)
Lemma unlock_keeps fs j0 j th i rest ok : uploadable j0 → job_inv fs j0 j th →
  jb_phase j = Wrote ok → jb_todo j = i :: rest →
  ok = true ∧ job_inv fs j0 (if job_final j i then at_phase Publishing j else answered_with 1 j) Idle.
Proof.
  intros Hub [Hsame _ (sent & Htodo & Hcodes & Hst)] Hph Hj. pose proof Hsame as (_ & Hbs & Hdata).
  unfold stored in Hst. rewrite Hj, Hph in Hst. destruct Hst as (Hroom & -> & Hstaged). split; [done|].
  pose proof Htodo as Htodo'. rewrite Hj in Htodo'.
  destruct (job_index j0 sent i rest Hub Htodo') as (_ & _ & Hlast & _).
  assert (job_final j i = job_final j0 i) as Hf by (unfold job_final, job_block; by rewrite Hbs, Hdata).
  destruct (job_final j i) eqn:Hfin.
  - split; [done..|]. exists sent. split; [done|]. split; [done|].
    unfold stored. cbn [at_phase jb_todo jb_phase]. rewrite Hj. done.
  - assert (rest ≠ []) as Hne by (intros ->; destruct Hlast as [_ Hx]; specialize (Hx eq_refl); congruence).
    split; [done..|]. exists (sent ++ [i]). cbn [answered_with jb_todo jb_codes]. rewrite Hj. cbn [tail].
    split; [by rewrite <- app_assoc|]. split; [by rewrite Hcodes, length_app, replicate_add|].
    unfold stored. cbn [answered_with jb_todo jb_phase]. rewrite Hj. cbn [tail].
    destruct rest as [|i' rest]; [done|]. split; [done|]. destruct Hstaged as (_ & c & Hc & Hb).
    change (job_tmp (answered_with 1 j)) with (job_tmp j). rewrite Hc. simpl.
    eapply blocks_in_place_sub; [|exact Hb]. intros k. rewrite elem_of_app, list_elem_of_singleton, elem_of_cons. tauto.
Qed.

Lemma job_of c t j : store_inv c → st_jobs c !! t = Some j →
  ∃ j0 th, st_jobs c0 !! t = Some j0 ∧ threads (st_locks c) !! t = Some th ∧ job_inv (st_fs c) j0 j th.
Proof.
  intros Hinv Hj. pose proof (si_jobs _ Hinv t) as Ht. rewrite Hj in Ht.
  destruct (st_jobs c0 !! t) as [j0|]; [|done]. destruct (threads (st_locks c) !! t) as [th|]; [|done]. eauto.
Qed.

Lemma busy_todo fs j0 j th : job_inv fs j0 j th → jb_phase j ≠ AtLock → ∃ i rest, jb_todo j = i :: rest.
Proof.
  intros [_ _ (sent & _ & _ & Hst)] Hph. unfold stored in Hst. destruct (jb_todo j); [|eauto]. by destruct Hst.
Qed.

Lemma upload_step_inv c c' : uploads_start → store_inv c → upload_step h c c' → store_inv c'.
Proof.
  intros Hstart Hinv Hstep. pose proof (si_locks _ Hinv) as Hl.
  destruct Hstep as [c t j i rest id fm Hj Hph Htodo Hth Hget|c t j id fm Hj Hph Hth Hlock
    |c t j i rest ok fs Hj Hph Htodo Hw|c t j i rest ok Hj Hph Htodo Hth|c t j b d Hj Hph Hfin];
    destruct (job_of c t j Hinv Hj) as (j0 & th & Hj0 & Hth' & Hji);
    pose proof (us_jobs Hstart t j0 Hj0) as Hub.
  - eapply store_inv_update; [done..| |apply lookup_insert_eq|by intros; apply lookup_insert_ne|apply touches_refl|].
    + eapply inv_step; [exact Hl|]. by eapply step_fetch.
    + eapply lock_keeps; [exact Hji|by rewrite Htodo|by left|by left|]. by eexists.
  - eapply store_inv_update; [done..| |apply lookup_insert_eq|by intros; apply lookup_insert_ne|apply touches_refl|].
    + eapply inv_step; [exact Hl|]. by eapply step_lock.
    + destruct (busy_todo _ _ _ _ Hji) as (i & rest & Htodo); [congruence|].
      eapply lock_keeps; [exact Hji|by rewrite Htodo|by right|by right|done].
  - destruct (write_stages _ _ _ _ _ _ Hub (si_cwd _ Hinv) (si_calm _ Hinv) Hji Hph Htodo) as (fs' & Hw' & Ht & Hji').
    rewrite Hw in Hw'. injection Hw' as -> <-. by eapply store_inv_update.
  - destruct (unlock_keeps _ _ _ _ _ _ _ Hub Hji Hph Htodo) as [-> Hji'].
    eapply store_inv_update; [done..| |apply lookup_insert_eq|by intros; apply lookup_insert_ne|apply touches_refl|exact Hji'].
    eapply inv_step; [exact Hl|]. by eapply step_release.
  - destruct (publish_stores _ _ _ _ (table (st_locks c)) Hub (si_cwd _ Hinv) (si_calm _ Hinv) Hji Hph)
      as (d' & Hf' & Ht & Hji'). rewrite Hfin in Hf'. injection Hf' as -> <-. by eapply store_inv_update.
Qed.

Lemma start_inv : uploads_start → store_inv c0.
Proof.
  intros Hstart. split; [apply Hstart..|done| |done]. intros t. pose proof (us_idle Hstart t) as Hidle.
  destruct (st_jobs c0 !! t) as [j|] eqn:Hj.
  - destruct (us_threads Hstart t (mk_is_Some _ _ Hj)) as [th Hth]. rewrite Hth in *.
    pose proof (us_jobs Hstart t j Hj) as Hub. destruct (ub_start _ Hub) as [Hph Hcodes].
    split; [done|by unfold in_step; rewrite Hph; apply Hidle|]. exists []. split; [done|]. split; [done|].
    unfold stored. destruct (ub_blocks _ Hub) as (indices & Htodo & _). rewrite Hph.
    destruct (jb_todo j) eqn:Hd; [by destruct indices|]. split; [apply Hub|]. split; [apply Hub|]. set_solver.
  - destruct (threads (st_locks c0) !! t) as [th|]; [by apply Hidle|done].
Qed.

Lemma reached_inv c : uploads_start → rtc (upload_step h) c0 c → store_inv c.
Proof.
  intros Hstart. revert c. apply rtc_ind_r; [by apply start_inv|].
  intros c c' _ Hstep Hinv. by eapply upload_step_inv.
Qed.

(** ** Progress and termination *)

Definition finished (c : upload_world) : Prop := map_Forall (λ _ j, jb_todo j = []) (st_jobs c).

(** How many steps a job can still take. *)
Definition steps_left (j : job) : nat :=
  5 * length (jb_todo j) -
  match jb_phase j with AtLock => 0 | Waits => 1 | InLock => 2 | Wrote _ => 3 | Publishing => 4 end.
Definition total_left (jobs : gmap nat job) : nat := map_sum steps_left jobs.

Lemma upload_step_less c c' : uploads_start → store_inv c → upload_step h c c' →
  (total_left (st_jobs c') < total_left (st_jobs c))%nat.
Proof.
  intros Hstart Hinv Hstep.
  enough (∃ t j j', st_jobs c !! t = Some j ∧ st_jobs c' = <[t := j']> (st_jobs c) ∧ (steps_left j' < steps_left j)%nat)
    as (t & j & j' & Hj & -> & Hless).
  { pose proof (map_sum_update steps_left (st_jobs c) t j j' Hj). unfold total_left. lia. }
  destruct Hstep as [c t j i rest id fm Hj Hph Htodo Hth Hget|c t j id fm Hj Hph Hth Hlock
    |c t j i rest ok fs Hj Hph Htodo Hw|c t j i rest ok Hj Hph Htodo Hth|c t j b d Hj Hph Hfin];
    destruct (job_of c t j Hinv Hj) as (j0 & th & _ & _ & Hji); exists t, j; eexists;
    (split; [done|]); (split; [done|]); unfold steps_left;
    cbn [at_phase answered_with jb_todo jb_phase]; rewrite ?Hph, ?Htodo.
  - simpl. lia.
  - destruct (busy_todo _ _ _ _ Hji) as (i & rest & ->); [congruence|]. simpl. lia.
  - simpl. lia.
  - destruct ok; [destruct (job_final j i)|]; cbn [negb at_phase answered_with jb_todo jb_phase]; rewrite ?Htodo; simpl; lia.
  - destruct (busy_todo _ _ _ _ Hji) as (i & rest & ->); [congruence|]. simpl. lia.
Qed.

(** Nobody else holds the path of a waiting job. *)
Lemma waiting_free c t j w : uploads_start → store_inv c → st_jobs c !! t = Some j → jb_phase j = Waits →
  count (holds w (jb_rel j)) (threads (st_locks c)) = 0%nat.
Proof.
  intros Hstart Hinv Hj Hph. destruct (job_of c t j Hinv Hj) as (j0 & th & Hj0 & Hth & [(Hrel & _) Hst _]).
  apply count_zero. intros u th' Hu. destruct (holds w (jb_rel j) th') eqn:Hh; [|done]. exfalso.
  unfold in_step in Hst. rewrite Hph in Hst. destruct Hst as [id ->].
  destruct (decide (u = t)) as [->|Hne]; [rewrite Hth in Hu; by injection Hu as <-|].
  pose proof (si_jobs _ Hinv u) as Hju. rewrite Hu in Hju.
  destruct (st_jobs c0 !! u) as [i0|] eqn:Hi0.
  - destruct (st_jobs c !! u) as [i|]; [|done]. destruct Hju as [(Hri & _) Hsti _].
    assert (jb_rel i = jb_rel j) as Heq.
    { unfold in_step in Hsti. unfold holds in Hh. destruct th' as [| |w' q]; [done..|].
      apply andb_prop in Hh as [_ Hq%bool_decide_eq_true]. destruct (jb_phase i); [done|by destruct Hsti|congruence..|done]. }
    destruct (us_apart Hstart u t i0 j0 Hne Hi0 Hj0 (job_target i0) (job_target j0)) as [Hx _]; [left..|].
    apply Hx. unfold job_target. rewrite (path_of_same i0 j0) by congruence. done.
  - destruct (st_jobs c !! u); [done|]. by rewrite Hju in Hh.
Qed.

Lemma upload_progress c : uploads_start → store_inv c → ~ finished c → ∃ c', upload_step h c c'.
Proof.
  intros Hstart Hinv Hnot. apply map_not_Forall in Hnot as (t & j & Hj & Hne); [|solve_decision].
  destruct (job_of c t j Hinv Hj) as (j0 & th & Hj0 & Hth & Hji).
  pose proof (us_jobs Hstart t j0 Hj0) as Hub. destruct (jb_todo j) as [|i rest] eqn:Htodo; [done|].
  pose proof (ji_thread _ _ _ _ Hji) as Hst. unfold in_step in Hst. destruct (jb_phase j) eqn:Hph.
  - subst th. destruct (get_or_create (jb_rel j) (table (st_locks c))) as [id fm] eqn:Hget.
    eexists. by eapply up_fetch.
  - destruct Hst as [id ->].
    destruct (free_path_lockable (st_locks c) t true (jb_rel j) id (si_locks _ Hinv) Hth) as [fm Hfm].
    { intros w. by eapply waiting_free. }
    eexists. by eapply up_lock.
  - destruct (write_stages _ _ _ _ _ _ Hub (si_cwd _ Hinv) (si_calm _ Hinv) Hji Hph Htodo) as (fs' & Hw' & _).
    eexists. by eapply up_write.
  - subst th. eexists. by eapply up_unlock.
  - destruct (publish_stores _ _ _ _ (table (st_locks c)) Hub (si_cwd _ Hinv) (si_calm _ Hinv) Hji Hph) as (d & Hf & _).
    eexists. by eapply up_publish.
Qed.

End Independent.

Lemma run_bounded h c0 n c : uploads_start h c0 → nsteps (upload_step h) n c0 c →
  store_inv h c0 c ∧ (n + total_left (st_jobs c) <= total_left (st_jobs c0))%nat.
Proof.
  intros Hstart Hn. assert (store_inv h c0 c0) as H0 by (by apply start_inv).
  cut (∀ c1, nsteps (upload_step h) n c1 c → store_inv h c0 c1 →
    store_inv h c0 c ∧ (n + total_left (st_jobs c) <= total_left (st_jobs c1))%nat); [by intros Hx; apply Hx|].
  clear Hn H0. induction n as [|n IH]; intros c1 Hr Hinv; inversion Hr as [|? ? c2 ? Hstep Hr']; subst.
  - split; [done|lia].
  - pose proof (upload_step_less _ _ _ _ Hstart Hinv Hstep).
    pose proof (upload_step_inv _ _ _ _ Hstart Hinv Hstep) as Hinv2.
    destruct (IH c2 Hr' Hinv2). split; [done|lia].
Qed.


(** Two threads, two files. *)
Definition demo_job (rel : string) (data : bytes) : job := mkJob rel 4 data [0; 1] AtLock [].
Definition demo_uploads (rel1 rel2 : string) : upload_world :=
  mkStore (mkConfig FileMutex_new (<[1%nat := Idle]> (<[2%nat := Idle]> ∅))) (demo_fs [])
    (<[1%nat := demo_job rel1 [x61; x62; x63; x64; x65; x66]]>
      (<[2%nat := demo_job rel2 [x75; x76; x77; x78; x79; x7a]]> ∅)).

Lemma demo_uploads_start : uploads_start demo_handler (demo_uploads "f" "g").
Proof.
  assert (∀ n, n ∈ ["f"; "g"] → ∀ data, length data = 6%nat →
    uploadable demo_handler (demo_uploads "f" "g") (demo_job n data)) as Hjob.
  { intros n Hn data Hl.
    assert (∀ k, file_at (demo_fs []) (take k ["s"]) = None) as Hno by (intros [|[|k]]; [reflexivity..|by destruct k]).
    assert (blocks_of (zlen data) 4 - 1 = 1) as Hb by (unfold zlen; rewrite Hl; reflexivity).
    repeat (apply elem_of_cons in Hn as [->|Hn]; [|]); [..|by apply elem_of_nil in Hn];
      (split; cbn [demo_job jb_rel jb_block_size jb_data jb_todo jb_phase jb_codes]);
      [reflexivity|split; [reflexivity|]; split; [reflexivity|]; split; [exact Hno|split; discriminate]
      |unfold zlen; rewrite Hl; done|exists [0]; by rewrite Hb|vm_compute; lia|done
      |reflexivity|split; [reflexivity|]; split; [reflexivity|]; split; [exact Hno|split; discriminate]
      |unfold zlen; rewrite Hl; done|exists [0]; by rewrite Hb|vm_compute; lia|done]. }
  assert (∀ t j, st_jobs (demo_uploads "f" "g") !! t = Some j →
    (t = 1%nat ∧ j = demo_job "f" [x61; x62; x63; x64; x65; x66]) ∨
    (t = 2%nat ∧ j = demo_job "g" [x75; x76; x77; x78; x79; x7a])) as Hjobs.
  { intros t j Hj. unfold demo_uploads in Hj. cbn [st_jobs] in Hj.
    apply lookup_insert_Some in Hj as [[<- <-]|[_ [[<- <-]|[_ ?]]%lookup_insert_Some]]; [auto..|done]. }
  split.
  - assert (inv (mkConfig FileMutex_new (<[2%nat := Idle]> ∅))) as H2
      by exact (inv_spawn (mkConfig FileMutex_new ∅) 2 inv_initial eq_refl).
    exact (inv_spawn _ 1 H2 eq_refl).
  - intros t th Hth. cbn in Hth. apply lookup_insert_Some in Hth as [[_ <-]|[_ [[_ <-]|[_ ?]]%lookup_insert_Some]]; done.
  - intros t [j [[-> _]|[-> _]]%Hjobs]; by eexists.
  - done.
  - intros t j [[_ ->]|[_ ->]]%Hjobs; apply Hjob; done || (by left) || (by right; left).
  - pose proof demo_apart as Hap. intros t u i j Hne [[-> ->]|[-> ->]]%Hjobs [[-> ->]|[-> ->]]%Hjobs; try done. by apply apart_sym.
Qed.

(** Threads that take turns, a whole block at a time. *)
Definition run_block (h : DeltaSyncHandler) (t : nat) (c : upload_world) : option upload_world :=
  match st_jobs c !! t, threads (st_locks c) !! t with
  | Some j, Some Idle =>
      match jb_phase j, jb_todo j with
      | AtLock, i :: _ =>
          match handle_block_data h (jb_rel j) i (i * jb_block_size j) (job_block j i)
                  (BlockHash.sha256_hex (job_block j i)) (job_final j i)
                  (mkDelta (st_fs c) (table (st_locks c)) ∅) with
          | (Ret code, d) => Some (mkStore (mkConfig (ds_locks d) (threads (st_locks c))) (ds_fs d)
                                     (<[t := answered_with code j]> (st_jobs c)))
          | _ => None
          end
      | _, _ => None
      end
  | _, _ => None
  end.

Fixpoint take_turns (h : DeltaSyncHandler) (ts : list nat) (c : upload_world) : option upload_world :=
  match ts with
  | [] => Some c
  | t :: ts' => run_block h t c ≫= take_turns h ts'
  end.

Lemma take_turns_steps h ts : ∀ c c', take_turns h ts c = Some c' → rtc (upload_step h) c c'.
Proof.
  induction ts as [|t ts IH]; intros c c'; [by intros [= ->]|]. cbn [take_turns].
  destruct (run_block h t c) as [c1|] eqn:Hrun; [|done]. intros Hr. etransitivity; [|by apply IH].
  unfold run_block in Hrun. destruct (st_jobs c !! t) as [j|] eqn:Hj; [|done].
  destruct (threads (st_locks c) !! t) as [[]|] eqn:Ht; [|done..].
  destruct (jb_phase j) eqn:Hph; [|done..]. destruct (jb_todo j) as [|i rest] eqn:Htodo; [done|].
  destruct (handle_block_data _ _ _ _ _ _ _ _) as [[code|e|x] d] eqn:Hh; [|done..].
  injection Hrun as <-. by eapply block_is_steps.
Qed.

(** All uploads done and answered with OK, and the content of one file. *)
Definition all_ok (l : list string) (data : bytes) (c : upload_world) : bool :=
  bool_decide (map_Forall (λ _ j, jb_todo j = [] ∧ jb_codes j = [1; 1]) (st_jobs c)) &&
  bool_decide (file_at (st_fs c) l = Some data).

Lemma all_ok_run rel1 rel2 ts l data :
  (all_ok l data <$> take_turns demo_handler ts (demo_uploads rel1 rel2)) = Some true →
  ∃ c, rtc (upload_step demo_handler) (demo_uploads rel1 rel2) c ∧ finished c ∧
    map_Forall (λ _ j, jb_codes j = [1; 1]) (st_jobs c) ∧ file_at (st_fs c) l = Some data.
Proof.
  destruct (take_turns _ _ _) as [c|] eqn:Hrun; [|done]. intros [= [Hj Hf]%andb_prop].
  apply bool_decide_eq_true in Hj, Hf. exists c. split; [by eapply take_turns_steps|].
  split; [|split; [|done]]; eapply map_Forall_impl; [exact Hj|by intros ?? []|exact Hj|by intros ?? []].
Qed.


(** Two clients that upload the same file at once can both be told that it is
    stored while it is neither's.  The lock is held per block and the temporary
    file is shared: one client's last block publishes a file with the other's
    first block, and the other's last block then publishes zeros. *)
Theorem same_path_uploads_mix :
  ∃ c, rtc (upload_step demo_handler) (demo_uploads "f" "f") c ∧ finished c ∧
    map_Forall (λ _ j, jb_codes j = [1; 1]) (st_jobs c) ∧
    file_at (st_fs c) ["s"; "f"] = Some [x00; x00; x00; x00; x79; x7a].
Proof. apply (all_ok_run "f" "f" [1; 2; 1; 2]%nat). vm_compute. reflexivity. Qed.
