(* ===== verification/SharedStorage.v ===== *)
(** Plain uploads and downloads that run at the same time: the sessions that store
    what they have received ([save_upload], src/server/src/session.cpp) and those
    that send files ([send_file], zero_copy_sender.cpp) over one storage root,
    without locks.

    Making the directories, opening the temporary file, writing it and renaming
    it are separate steps, and so are the calls of a download; sessions interleave
    between any two of them.  An open file stays the same file when its name is
    taken away: descriptors follow renames. *)
From S2P Require Import Prelude Sha256 Paths FileSystem FileManager FileMutex WireProtocol Proto DeltaSync.
From S2P Require Import ZeroCopySender Session Directories ConcurrentUploads.

(** * The model *)

(** ** Open files

    A descriptor designates the file that now has the name [l], or a file that
    was replaced while it was open and has no name any more. *)
Inductive fd := Linked (l : list string) | Orphan (k : nat).

Record volume := mkVolume { vo_fs : filesystem; vo_orphans : list bytes }.

Definition on_volume {A} : SM filesystem A → SM volume A := zoom vo_fs (λ fs v, mkVolume fs (vo_orphans v)).

Definition fd_content (v : volume) (d : fd) : option bytes :=
  match d with
  | Linked l => file_at (vo_fs v) l
  | Orphan k => vo_orphans v !! k
  end.

(** Write at the beginning, and flush. *)
Definition fd_write (d : fd) (data : bytes) : SM volume bool :=
  match d with
  | Linked l => on_volume (write_node l 0 data)
  | Orphan k =>
      f ← on_volume next_fault;
      v ← get_st;
      match vo_orphans v !! k with
      | Some c =>
          let written := match f with Works => data | Fails => [] | Partial n => take n data end in
          _ ← put_st (mkVolume (vo_fs v) (<[k := overlay c 0 written]> (vo_orphans v)));
          mret (match f with Works => true | _ => false end)
      | None => mret false
      end
  end.

(** [atomic_rename_tmp] with the files that are open: what was published loses its
    name. *)
Definition publish (fm : FileManager) (rel : string) : SM volume bool :=
  target ← lift (resolve_path fm rel);
  v ← get_st;
  ok ← on_volume (atomic_rename_tmp fm rel);
  if ok : bool then
    _ ← modify_st (λ v', mkVolume (vo_fs v') (vo_orphans v' ++ [default [] (file_at (vo_fs v) (loc (vo_fs v) target))]));
    mret true
  else mret false.

(** Where a descriptor leads after the file at [tmp] was renamed to [target]; the
    file that was there became the orphan [k]. *)
Definition relocate (tmp target : list string) (k : nat) (d : fd) : fd :=
  match d with
  | Linked l => if decide (l = tmp) then Linked target else if decide (l = target) then Orphan k else Linked l
  | Orphan n => Orphan n
  end.

(** ** Uploads that are being stored *)

Inductive save_phase :=
| Received                 (* the buffer is complete *)
| DirsMade                 (* the parent directories have been seen to *)
| TmpOpen (d : fd)         (* the temporary file is open *)
| TmpFilled                (* it was given the buffer *)
| Settled (stored : bool). (* published, or given up *)

Record transfer := mkTransfer { tr_rel : string; tr_data : bytes; tr_phase : save_phase }.

Definition move_on (j : transfer) (ph : save_phase) : transfer := mkTransfer (tr_rel j) (tr_data j) ph.

(** The next system call of [write_file_atomic] and [atomic_rename_tmp]. *)
Definition advance (fm : FileManager) (j : transfer) : SM volume save_phase :=
  match tr_phase j with
  | Received => _ ← on_volume (ensure_parent_dirs fm (tr_rel j)); mret DirsMade
  | DirsMade =>
      tmp ← lift (tmp_path_for fm (tr_rel j));
      ok ← on_volume (open_truncate tmp);
      v ← get_st;
      mret (if ok : bool then TmpOpen (Linked (loc (vo_fs v) tmp)) else Settled false)
  | TmpOpen d => ok ← fd_write d (tr_data j); mret (if ok : bool then TmpFilled else Settled false)
  | TmpFilled => ok ← publish fm (tr_rel j); mret (Settled ok)
  | Settled ok => mret (Settled ok)
  end.

Definition settled_phase (ph : save_phase) : bool := match ph with Settled _ => true | _ => false end.

(** ** Downloads *)

Inductive fetch_phase :=
| Asked
| Found                                  (* the file exists *)
| Sized (total : Z)
| Hashed (total : Z) (hash : string)     (* the header can be sent *)
| Streaming (total : Z) (hash : string) (d : fd) (sent : bytes)
| Ended.                                 (* refused, or broken off *)

Record fetch := mkFetch { fe_rel : string; fe_offset : Z; fe_phase : fetch_phase }.

(** The next system call of [send_file]: sizes, digest, open, and then the
    [sendfile] loop, in which a call moves [n] bytes as far as there are so many,
    or fails. *)
Definition fetch_next (fm : FileManager) (r : fetch) (call : option nat) : SM volume fetch_phase :=
  match fe_phase r with
  | Asked => ok ← on_volume (file_exists fm (fe_rel r)); mret (if ok : bool then Found else Ended)
  | Found =>
      total ← on_volume (get_file_size fm (fe_rel r));
      mret (if total =? 0 then Ended else if total <=? fe_offset r then Ended else Sized total)
  | Sized total => hash ← on_volume (compute_sha256 fm (fe_rel r)); mret (Hashed total hash)
  | Hashed total hash =>
      full_path ← lift (resolve_path fm (fe_rel r));
      file ← on_volume (open_rdonly full_path);
      v ← get_st;
      mret (match file with Some _ => Streaming total hash (Linked (loc (vo_fs v) full_path)) [] | None => Ended end)
  | Streaming total hash d sent =>
      v ← get_st;
      mret (match call with
            | None => Ended
            | Some n =>
                let remaining := (Z.to_nat (total - fe_offset r) - length sent)%nat in
                let content := default [] (fd_content v d) in
                Streaming total hash d (sent ++ take (Nat.min n remaining) (drop (Z.to_nat (fe_offset r) + length sent) content))
            end)
  | Ended => mret Ended
  end.

(** ** All sessions *)

Record storage := mkStorage {
  sg_volume : volume;
  sg_transfers : gmap nat transfer;
  sg_fetches : gmap nat fetch
}.
Abbreviation sg_fs w := (vo_fs (sg_volume w)).

(** What a step of the transfer [j] to [ph] does to the open files. *)
Definition follow (fm : FileManager) (v : volume) (j : transfer) (ph : save_phase) : fd → fd :=
  match tr_phase j, ph, resolve_path fm (tr_rel j), tmp_path_for fm (tr_rel j) with
  | TmpFilled, Settled true, Ret p, Ret tmp => relocate (loc (vo_fs v) tmp) (loc (vo_fs v) p) (length (vo_orphans v))
  | _, _, _, _ => id
  end.

Definition track (g : fd → fd) (j : transfer) : transfer :=
  move_on j (match tr_phase j with TmpOpen d => TmpOpen (g d) | ph => ph end).
Definition track_fetch (g : fd → fd) (r : fetch) : fetch :=
  mkFetch (fe_rel r) (fe_offset r)
    (match fe_phase r with Streaming total hash d sent => Streaming total hash (g d) sent | ph => ph end).

Inductive save_step (fm : FileManager) : storage → storage → Prop :=
| save_advance w t j ph v :
    sg_transfers w !! t = Some j → settled_phase (tr_phase j) = false →
    advance fm j (sg_volume w) = (Ret ph, v) →
    let g := follow fm (sg_volume w) j ph in
    save_step fm w (mkStorage v (<[t := move_on j ph]> (track g <$> sg_transfers w)) (track_fetch g <$> sg_fetches w)).

Inductive fetch_step (fm : FileManager) : storage → storage → Prop :=
| fetch_advance w t r call ph v :
    sg_fetches w !! t = Some r → fetch_next fm r call (sg_volume w) = (Ret ph, v) →
    fetch_step fm w (mkStorage v (sg_transfers w) (<[t := mkFetch (fe_rel r) (fe_offset r) ph]> (sg_fetches w))).

Definition storage_step (fm : FileManager) (w w' : storage) : Prop := save_step fm w w' ∨ fetch_step fm w w'.

(** ** The session's code in one go

    A session that is not interrupted does what [save_upload] does. *)
Lemma tmp_of_path fm rel p : resolve_path fm rel = Ret p → tmp_path_for fm rel = Ret (p +:+ ".tmp").
Proof. unfold tmp_path_for. by intros ->. Qed.

Lemma on_volume_run {A} (m : SM filesystem A) v r fs : m (vo_fs v) = (r, fs) →
  on_volume m v = (r, mkVolume fs (vo_orphans v)).
Proof. intros Hm. unfold on_volume, zoom. by rewrite Hm. Qed.

Lemma write_node_at p off data fs : write_node (loc fs p) off data fs = write_at p off data fs.
Proof. reflexivity. Qed.

(** The only session there is. *)
Definition alone (v : volume) (j : transfer) : storage := mkStorage v {[ 0%nat := j ]} ∅.

Lemma alone_step fm v v' j ph : settled_phase (tr_phase j) = false → advance fm j v = (Ret ph, v') →
  save_step fm (alone v j) (alone v' (move_on j ph)).
Proof.
  intros Hns Hrun. pose proof (save_advance fm (alone v j) 0 j ph v' (lookup_singleton_eq _ _) Hns Hrun) as Hs.
  cbn zeta in Hs. cbn [alone sg_transfers sg_fetches] in Hs.
  by rewrite map_fmap_singleton, insert_singleton_eq, fmap_empty in Hs.
Qed.

Lemma store_is_steps fm v j p b fs : tr_phase j = Received → resolve_path fm (tr_rel j) = Ret p →
  (ok ← write_file_atomic fm (tr_rel j) (tr_data j);
   if ok : bool then atomic_rename_tmp fm (tr_rel j) else mret false) (vo_fs v) = (Ret b, fs) →
  ∃ v', vo_fs v' = fs ∧ rtc (save_step fm) (alone v j) (alone v' (move_on j (Settled b))).
Proof.
  intros Hph Hr Hrun. pose proof (tmp_of_path fm (tr_rel j) p Hr) as Ht.
  rewrite SM_bind_unfold in Hrun. unfold write_file_atomic in Hrun. rewrite Ht, SM_lift_bind, SM_bind_unfold in Hrun.
  destruct (ensure_parent_dirs fm (tr_rel j) (vo_fs v)) as [[r1|e|x] fs1] eqn:H1; [|done..].
  assert (save_step fm (alone v j) (alone (mkVolume fs1 (vo_orphans v)) (move_on j DirsMade))) as S1.
  { apply alone_step; [by rewrite Hph|]. unfold advance. by rewrite Hph, SM_bind_unfold, (on_volume_run _ _ _ _ H1). }
  rewrite SM_bind_unfold in Hrun. destruct (open_truncate (p +:+ ".tmp") fs1) as [[ok|e|x] fs2] eqn:H2; [|done..].
  set (d := Linked (loc fs2 (p +:+ ".tmp"))).
  pose proof (alone_step fm (mkVolume fs1 (vo_orphans v)) (mkVolume fs2 (vo_orphans v)) (move_on j DirsMade)
    (if ok then TmpOpen d else Settled false) eq_refl) as S2.
  unfold advance in S2. cbn [move_on tr_phase tr_rel tr_data] in S2. rewrite Ht, SM_lift_bind, SM_bind_unfold in S2.
  rewrite (on_volume_run _ (mkVolume fs1 (vo_orphans v)) _ _ H2) in S2. specialize (S2 eq_refl).
  destruct ok; cbn [negb] in Hrun.
  2: { injection Hrun as <- <-. eexists. split; [|eapply rtc_l, rtc_once; [exact S1|exact S2]]. done. }
  destruct (write_at (p +:+ ".tmp") 0 (tr_data j) fs2) as [[ok|e|x] fs3] eqn:H3; [|done..].
  pose proof (alone_step fm (mkVolume fs2 (vo_orphans v)) (mkVolume fs3 (vo_orphans v)) (move_on j (TmpOpen d))
    (if ok then TmpFilled else Settled false) eq_refl) as S3.
  unfold advance in S3. cbn [move_on tr_phase tr_rel tr_data fd_write d] in S3. rewrite SM_bind_unfold in S3.
  rewrite <- write_node_at in H3. rewrite (on_volume_run _ (mkVolume fs2 (vo_orphans v)) _ _ H3) in S3. specialize (S3 eq_refl).
  destruct ok.
  2: { injection Hrun as <- <-. eexists. split; [|eapply rtc_l, rtc_l, rtc_once; [exact S1|exact S2|exact S3]]. done. }
  eexists (mkVolume fs (if b then vo_orphans v ++ [_] else vo_orphans v)). split; [done|].
  eapply rtc_l, rtc_l, rtc_l, rtc_once; [exact S1|exact S2|exact S3|].
  apply (alone_step fm _ _ (move_on j TmpFilled) (Settled b)); [done|]. unfold advance, publish.
  cbn [move_on tr_phase tr_rel]. rewrite SM_bind_unfold, Hr, SM_lift_bind, SM_bind_unfold. cbn [get_st].
  rewrite SM_bind_unfold, (on_volume_run _ (mkVolume fs3 (vo_orphans v)) _ _ Hrun). by destruct b.
Qed.

Lemma save_is_steps `{Host, Codec} env s s' p orphans : let u := upload_state_ s in
  resolve_path (se_file_manager env) (up_relative_path u) = Ret p → up_received u = up_total_size u →
  save_upload env s = (Ret tt, s') →
  ∃ b v', vo_fs v' = sn_fs s' ∧ rtc (save_step (se_file_manager env))
    (alone (mkVolume (sn_fs s) orphans) (mkTransfer (up_relative_path u) (up_buffer u) Received))
    (alone v' (mkTransfer (up_relative_path u) (up_buffer u) (Settled b))).
Proof.
  intros u Hr He Hrun. set (fm := se_file_manager env) in *. set (j := mkTransfer _ _ Received).
  assert (∃ b, (ok ← write_file_atomic fm (tr_rel j) (tr_data j);
    if ok : bool then atomic_rename_tmp fm (tr_rel j) else mret false) (sn_fs s) = (Ret b, sn_fs s')) as [b Hb].
  { unfold save_upload in Hrun. rewrite SM_bind_unfold in Hrun. cbn [gets_st] in Hrun. fold u fm in Hrun.
    rewrite He, Z.eqb_refl, SM_bind_unfold in Hrun. rewrite SM_bind_unfold.
    unfold on_files at 1, on_delta, on_fs, zoom in Hrun. change (ds_fs (sn_delta s)) with (sn_fs s) in Hrun.
    cbn [tr_rel tr_data j].
    destruct (write_file_atomic fm (up_relative_path u) (up_buffer u) (sn_fs s)) as [[[]|e|x] fs1]; [| |done..].
    - rewrite SM_bind_unfold in Hrun. unfold on_files, on_delta, on_fs, zoom in Hrun. cbn [sn_delta set_delta ds_fs] in Hrun.
      destruct (atomic_rename_tmp fm (up_relative_path u) fs1) as [[b|e|x] fs2]; [|done..].
      injection Hrun as <-. by exists b.
    - exists false. pose proof (send_error_files 2 "Failed to save uploaded file"
        (set_delta (mkDelta fs1 (ds_locks (sn_delta s)) (in_progress (sn_delta s))) s)) as Hf.
      rewrite Hrun in Hf. simpl in Hf. by rewrite Hf. }
  exists b. by apply (store_is_steps fm (mkVolume (sn_fs s) orphans) j p b (sn_fs s')).
Qed.

(** * One session's steps *)

(** What the files of [p] hold in a phase, when [old] is what was published
    before and [data] is being stored: safe under any failure. *)
Definition holds_in (fs : filesystem) (p : string) (data : bytes) (old : option bytes) (ph : save_phase) : Prop :=
  match ph with
  | Received | DirsMade | Settled false => file_at fs (target_loc fs p) = old
  | TmpOpen d => d = Linked (tmp_loc fs p) ∧ file_at fs (target_loc fs p) = old ∧ file_at fs (tmp_loc fs p) = Some []
  | TmpFilled => file_at fs (target_loc fs p) = old ∧ file_at fs (tmp_loc fs p) = Some data
  | Settled true => file_at fs (target_loc fs p) = Some data ∧ file_at fs (tmp_loc fs p) = None
  end.

(** Nothing stands in the way of the steps ahead. *)
Definition ready_in (fs : filesystem) (p : string) (ph : save_phase) : Prop :=
  match ph with
  | Received => calm fs ∧ room_for fs p
  | DirsMade | TmpOpen _ | TmpFilled => publishable fs p
  | Settled ok => ok = true
  end.

Definition next_phase (fs : filesystem) (p : string) (ph : save_phase) : save_phase :=
  match ph with
  | Received => DirsMade
  | DirsMade => TmpOpen (Linked (tmp_loc fs p))
  | TmpOpen _ => TmpFilled
  | TmpFilled => Settled true
  | Settled ok => Settled ok
  end.

(** The temporary file can be made next to its file. *)
Lemma publishable_can_create fs p : publishable fs p → ~ cannot_create fs (p +:+ ".tmp").
Proof.
  intros (_ & (Hd & _ & _ & _ & Hnm) & Hpar). unfold cannot_create, target_loc, tmp_loc in *.
  destruct (file_locations (cwd fs) p Hd) as (above & l & Hp & Ht & _). unfold loc in *.
  rewrite names_directory_tmp by done. intros [?|[?|Hno]]; [done..|].
  unfold parent_is_dir in *. rewrite Ht, removelast_last in Hno. by rewrite Hp, removelast_last, Hno in Hpar.
Qed.

(** What a step promises: only the files of [p] change, they stay as they should
    be, and an unhindered transfer stays unhindered. *)
Definition step_post (fs : filesystem) (p : string) (data : bytes) (old : option bytes) (ph ph' : save_phase)
  (fs' : filesystem) : Prop :=
  others_kept fs fs' p ∧ holds_in fs' p data old ph' ∧
  (ready_in fs p ph → ready_in fs' p ph' ∧ dirs_on_way p fs fs' ∧ ph' = next_phase fs p ph).

Lemma same_files_kept fs fs' p : same_files_but (tmp_loc fs p) fs fs' → others_kept fs fs' p.
Proof. intros [_ Hs] l _ Hl. by apply Hs. Qed.

(** The target while only the temporary file changes. *)
Lemma target_kept fs fs' p : same_files_but (tmp_loc fs p) fs fs' →
  file_at fs' (target_loc fs' p) = file_at fs (target_loc fs p).
Proof.
  intros [Hc Hs]. unfold target_loc at 1. rewrite (loc_cwd _ _ _ Hc). apply Hs.
  pose proof (tmp_target_ne fs p). congruence.
Qed.

(** A step that is one call: its specification, and what it does to directories. *)
Lemma volume_call {A} (m : SM filesystem A) v (R : A → filesystem → Prop) (D : filesystem → Prop) :
  wp m (answers (vo_fs v) R) (vo_fs v) → wp m (λ _ fs', D fs') (vo_fs v) →
  ∃ a fs', on_volume m v = (Ret a, mkVolume fs' (vo_orphans v)) ∧ cwd fs' = cwd (vo_fs v) ∧
    (calm (vo_fs v) → calm fs') ∧ R a fs' ∧ D fs'.
Proof.
  unfold wp, on_volume, zoom. destruct (m (vo_fs v)) as [r fs']. intros (a & -> & Hc & Hcalm & HR) HD. by exists a, fs'.
Qed.

(** The step that takes the name of the published file away. *)
Definition publishes (ph ph' : save_phase) : bool :=
  match ph, ph' with TmpFilled, Settled true => true | _, _ => false end.

Definition orphans_after (v : volume) (p : string) (ph ph' : save_phase) : list bytes :=
  if publishes ph ph' then vo_orphans v ++ [default [] (file_at (vo_fs v) (target_loc (vo_fs v) p))] else vo_orphans v.

Definition advanced (p : string) (j : transfer) (old : option bytes) (v : volume) (r : outcome save_phase) (v' : volume) : Prop :=
  ∃ ph', r = Ret ph' ∧ cwd (vo_fs v') = cwd (vo_fs v) ∧ (calm (vo_fs v) → calm (vo_fs v')) ∧
    step_post (vo_fs v) p (tr_data j) old (tr_phase j) ph' (vo_fs v') ∧
    vo_orphans v' = orphans_after v p (tr_phase j) ph'.

Section Advance.
Context (fm : FileManager) (j : transfer) (p : string) (old : option bytes) (v : volume).
Context (Hr : resolve_path fm (tr_rel j) = Ret p).

Lemma advance_received : tr_phase j = Received → holds_in (vo_fs v) p (tr_data j) old Received →
  wp (advance fm j) (advanced p j old v) v.
Proof.
  intros Hph Hh. unfold wp, advance, advanced, step_post. rewrite Hph, SM_bind_unfold.
  destruct (volume_call (ensure_parent_dirs fm (tr_rel j)) v _ (dirs_on_way p (vo_fs v)) (prepare_spec _ _ _ _ Hr))
    as (a & fs' & -> & Hc & Hcalm & [Hs Hlive] & HD); [by apply keeps_wp, dirs_ensure|].
  exists DirsMade. cbn [vo_fs vo_orphans]. do 3 (split; [done|]). split; [|done].
  apply (same_files_weaken (tmp_loc (vo_fs v) p)) in Hs. split; [by apply same_files_kept|].
  split; [simpl; by rewrite (target_kept (vo_fs v))|]. intros [Hca Hroom]. split; [by apply Hlive|done].
Qed.

Lemma advance_dirs_made : tr_phase j = DirsMade → holds_in (vo_fs v) p (tr_data j) old DirsMade →
  wp (advance fm j) (advanced p j old v) v.
Proof.
  intros Hph Hh. unfold wp, advance, advanced, step_post. rewrite Hph, (tmp_of_path _ _ _ Hr), SM_lift_bind, SM_bind_unfold.
  destruct (volume_call (open_truncate (p +:+ ".tmp")) v _ (dirs_on_way p (vo_fs v)) (create_tmp_spec p _))
    as (ok & fs' & -> & Hc & Hcalm & (Hs & Hb & _ & Hlive & Hpub) & HD); [by apply keeps_wp, dirs_open_truncate|].
  rewrite SM_bind_unfold. cbn [get_st vo_fs vo_orphans]. eexists. do 3 (split; [done|]).
  assert (tmp_loc fs' p = tmp_loc (vo_fs v) p) as Htm by (by apply loc_cwd). fold (tmp_loc fs' p).
  split; [|by destruct ok]. split; [by apply same_files_kept|]. split.
  - destruct ok; simpl; rewrite (target_kept (vo_fs v)) by done; [|done]. rewrite Htm. auto.
  - intros Hp. specialize (Hlive (proj1 Hp) (publishable_can_create _ _ Hp)). subst ok. rewrite Htm.
    by split; [apply Hpub|].
Qed.

Lemma advance_tmp_open d : tr_phase j = TmpOpen d → holds_in (vo_fs v) p (tr_data j) old (TmpOpen d) →
  wp (advance fm j) (advanced p j old v) v.
Proof.
  intros Hph (-> & Hh & Ht). unfold wp, advance, advanced, step_post. rewrite Hph, SM_bind_unfold. cbn [fd_write].
  destruct (volume_call (write_at (p +:+ ".tmp") 0 (tr_data j)) v _ (dirs_on_way p (vo_fs v)) (write_tmp_spec p 0 _ [] _ Ht))
    as (ok & fs' & Hrun & Hc & Hcalm & (Hs & Hb & Hlive & Hpub) & HD); [by apply keeps_wp, dirs_write_at|].
  change (on_volume (write_node (tmp_loc (vo_fs v) p) 0 (tr_data j)) v)
    with (on_volume (write_at (p +:+ ".tmp") 0 (tr_data j)) v).
  rewrite Hrun. cbn [vo_fs vo_orphans]. eexists. do 3 (split; [done|]).
  assert (tmp_loc fs' p = tmp_loc (vo_fs v) p) as Htm by (by apply loc_cwd).
  split; [|by destruct ok]. split; [by apply same_files_kept|]. split.
  - destruct ok; simpl; rewrite (target_kept (vo_fs v)) by done; [|done]. rewrite Htm, Hb, overlay_fresh by done. done.
  - intros Hp. specialize (Hlive (proj1 Hp)). subst ok. by split; [apply Hpub|].
Qed.

Lemma advance_tmp_filled : tr_phase j = TmpFilled → holds_in (vo_fs v) p (tr_data j) old TmpFilled →
  wp (advance fm j) (advanced p j old v) v.
Proof.
  intros Hph [Hh Ht]. unfold wp, advance, publish, advanced, step_post.
  rewrite Hph, SM_bind_unfold, Hr, SM_lift_bind, SM_bind_unfold. cbn [get_st]. rewrite SM_bind_unfold.
  destruct (volume_call (atomic_rename_tmp fm (tr_rel j)) v _ (λ fs', room_for (vo_fs v) p → dirs_on_way p (vo_fs v) fs')
    (rename_tmp_spec _ _ _ _ _ Hr Ht)) as (ok & fs' & -> & Hc & Hcalm & [Hb Hpub] & HD).
  { unfold wp. destruct (atomic_rename_tmp fm (tr_rel j) (vo_fs v)) as [o fs'] eqn:Hrun. intros Hroom.
    pose proof (dirs_rename fm (tr_rel j) p (tr_data j) (vo_fs v) Hr Hroom Ht) as Hd. unfold wp in Hd.
    rewrite Hrun in Hd. apply Hd. }
  assert (tmp_loc fs' p = tmp_loc (vo_fs v) p) as Htm by (by apply loc_cwd).
  assert (target_loc fs' p = target_loc (vo_fs v) p) as Htg by (by apply loc_cwd).
  destruct ok; cbn; eexists; (do 3 (split; [done|])); (split; [|done]); cbn.
  - destruct Hb as (Htgt & Hnone & Ho). split; [by intros l Hl1 Hl2; apply Ho|]. rewrite Htm, Htg.
    split; [done|]. intros Hp. split; [done|]. split; [apply HD, Hp|done].
  - split; [by intros l _ _; apply Hb|]. rewrite Htg. split; [by rewrite (proj2 Hb)|].
    intros Hp. specialize (Hpub Hp). done.
Qed.

Lemma advance_spec : settled_phase (tr_phase j) = false → holds_in (vo_fs v) p (tr_data j) old (tr_phase j) →
  wp (advance fm j) (advanced p j old v) v.
Proof.
  intros Hns Hh. destruct (tr_phase j) eqn:Hph; [|by eauto using advance_dirs_made|by eauto using advance_tmp_open|..].
  - by apply advance_received.
  - by apply advance_tmp_filled.
  - done.
Qed.

End Advance.

(** * All sessions *)

Section Shared.
Context (fm : FileManager) (w0 : storage).

Definition transfer_path (j : transfer) : string :=
  match resolve_path fm (tr_rel j) with Ret p => p | _ => "" end.
Definition transfer_target (j : transfer) : list string := target_loc (sg_fs w0) (transfer_path j).
Definition transfer_tmp (j : transfer) : list string := tmp_loc (sg_fs w0) (transfer_path j).

(** Buffers ready to be stored, on paths that do not meet. *)
Record saves_start : Prop := {
  ss_paths : map_Forall (λ _ j, resolve_path fm (tr_rel j) = Ret (transfer_path j) ∧
    names_directory (transfer_path j) = false ∧ tr_phase j = Received) (sg_transfers w0);
  ss_apart : ∀ t u i j, t ≠ u → sg_transfers w0 !! t = Some i → sg_transfers w0 !! u = Some j →
    apart (sg_fs w0) (transfer_path i) (transfer_path j)
}.

(** No failure ahead, and nothing in the way of any of them. *)
Definition unhindered : Prop :=
  calm (sg_fs w0) ∧ map_Forall (λ _ j, room_for (sg_fs w0) (transfer_path j)) (sg_transfers w0).

Record transfer_inv (fs : filesystem) (j0 j : transfer) : Prop := {
  ti_same : tr_rel j = tr_rel j0 ∧ tr_data j = tr_data j0;
  ti_holds : holds_in fs (transfer_path j0) (tr_data j0) (file_at (sg_fs w0) (transfer_target j0)) (tr_phase j);
  ti_ready : unhindered → ready_in fs (transfer_path j0) (tr_phase j)
}.

Record storage_inv (w : storage) : Prop := {
  wi_cwd : cwd (sg_fs w) = cwd (sg_fs w0);
  wi_calm : unhindered → calm (sg_fs w);
  wi_transfers : ∀ t, match sg_transfers w0 !! t, sg_transfers w !! t with
                      | Some j0, Some j => transfer_inv (sg_fs w) j0 j
                      | None, None => True
                      | _, _ => False
                      end;
  wi_others : ∀ l, (∀ t j, sg_transfers w0 !! t = Some j → l ≠ transfer_target j ∧ l ≠ transfer_tmp j) →
    file_at (sg_fs w) l = file_at (sg_fs w0) l
}.

(** What another session does to its own file leaves a transfer as it is. *)
Lemma ready_frame fs fs' p q ph : names_directory q = false → apart fs p q → touches q fs fs' →
  ready_in fs p ph → ready_in fs' p ph.
Proof.
  intros Hq Hap Ht. pose proof Ht as (_ & [Hc _] & Hcalm).
  assert (publishable fs p → publishable fs' p) as Hpub.
  { intros (Hca & Hroom & Hpar). split; [auto|]. split; [by eapply touched_room|].
    unfold target_loc. rewrite (loc_cwd _ _ _ Hc). by eapply touched_parent. }
  destruct ph; simpl; [|done..]. intros [Hca Hroom]. split; [auto|by eapply touched_room].
Qed.

Lemma holds_frame fs fs' p q data old ph : cwd fs' = cwd fs → apart fs p q → others_kept fs fs' q →
  holds_in fs p data old ph → holds_in fs' p data old ph.
Proof.
  intros Hc Hap Ho.
  assert (file_at fs' (target_loc fs' p) = file_at fs (target_loc fs p) ∧
          file_at fs' (tmp_loc fs' p) = file_at fs (tmp_loc fs p)) as [Hg Ht].
  { unfold target_loc, tmp_loc. rewrite !(loc_cwd _ _ _ Hc).
    split; apply (kept_apart _ _ p q _ Hap Ho); [left|right; left]. }
  assert (tmp_loc fs' p = tmp_loc fs p) as Hl by (by apply loc_cwd).
  destruct ph as [| |d| |[]]; simpl; rewrite ?Hg, ?Ht, ?Hl; done.
Qed.

(** The open files of other sessions stay where they are. *)
Lemma follow_apart v j ph p q : tr_phase j = TmpFilled → resolve_path fm (tr_rel j) = Ret q →
  apart (vo_fs v) p q → ∀ l, l ∈ [target_loc (vo_fs v) p; tmp_loc (vo_fs v) p] → follow fm v j ph (Linked l) = Linked l.
Proof.
  intros Hph Hr Hap l Hl. unfold follow. rewrite Hph, Hr, (tmp_of_path _ _ _ Hr). destruct ph as [| | | |[]]; try done.
  fold (tmp_loc (vo_fs v) q) (target_loc (vo_fs v) q). unfold relocate.
  assert (∀ m, m ∈ [target_loc (vo_fs v) q; tmp_loc (vo_fs v) q] → l ≠ m) as Hne.
  { intros m Hm ->. destruct (Hap m m) as [Hno _]; [set_solver..|]. by apply Hno. }
  rewrite !decide_False; [done|apply Hne; by left|apply Hne; by right; left].
Qed.

Lemma follow_quiet v j ph : publishes (tr_phase j) ph = false → follow fm v j ph = id.
Proof. unfold follow. by destruct (tr_phase j), ph as [| | | |[]]. Qed.

Lemma track_id (m : gmap nat transfer) : track id <$> m = m.
Proof.
  rewrite <- (map_fmap_id m) at 2. apply map_fmap_ext. intros t j _. unfold track, move_on. by destruct j as [? ? []].
Qed.

Lemma holds_track v i j ph p q data old : resolve_path fm (tr_rel j) = Ret q → apart (vo_fs v) p q →
  holds_in (vo_fs v) p data old (tr_phase i) →
  holds_in (vo_fs v) p data old (tr_phase (track (follow fm v j ph) i)).
Proof.
  intros Hr Hap Hh. unfold track. cbn [move_on tr_phase]. destruct (tr_phase i) as [| |d| |]; try done.
  destruct Hh as [-> Hh]. split; [|done].
  destruct (publishes (tr_phase j) ph) eqn:Hp; [|by rewrite follow_quiet].
  eapply follow_apart; [|done..|right; left]. by destruct (tr_phase j).
Qed.

Lemma save_step_inv w w' : saves_start → storage_inv w → save_step fm w w' → storage_inv w'.
Proof.
  intros [Hpaths Hapart] [Hc Hcalm Hinv Ho] Hstep. destruct Hstep as [w t j ph v Hj Hns Hrun g].
  pose proof (Hinv t) as Ht. rewrite Hj in Ht. destruct (sg_transfers w0 !! t) as [j0|] eqn:Hj0; [|done].
  destruct Ht as [[Hrel Hdata] Hh Hready]. destruct (Hpaths t j0 Hj0) as (Hr & Hnd & _).
  set (p := transfer_path j0) in *. rewrite <- Hrel in Hr. rewrite <- Hdata in Hh.
  pose proof (advance_spec fm j p _ (sg_volume w) Hr Hns Hh) as Hw. unfold wp in Hw. rewrite Hrun in Hw.
  destruct Hw as (ph' & [= <-] & Hcw & Hcalm' & (Hkept & Hh' & Hlive) & _).
  assert (unhindered → touches p (sg_fs w) (vo_fs v)) as Htouch
    by (intros Hu; split; [done|]; split; [by apply Hlive, Hready|done]).
  split; cbn [sg_volume sg_transfers].
  - congruence.
  - intros Hu. by apply Hcalm', Hcalm.
  - intros u. destruct (decide (t = u)) as [<-|Hne].
    + rewrite lookup_insert_eq, Hj0. split; [done| |].
      * rewrite <- Hdata. exact Hh'.
      * intros Hu. by apply Hlive, Hready.
    + rewrite lookup_insert_ne, lookup_fmap by done. pose proof (Hinv u) as Hiu.
      destruct (sg_transfers w0 !! u) as [i0|] eqn:Hi0, (sg_transfers w !! u) as [i|]; try done. destruct Hiu as [Hs Hhi Hri].
      assert (apart (sg_fs w) (transfer_path i0) p) as Hap
        by (eapply apart_cwd; [exact Hc|]; by apply (Hapart u t i0 j0)).
      split; [done|eapply (holds_frame (sg_fs w)); [done..|]; by eapply (holds_track (sg_volume w))|]. intros Hu.
      eapply ready_frame; [done..|by apply Htouch|]. cbn [track move_on tr_phase]. specialize (Hri Hu).
      by destruct (tr_phase i).
  - intros l Hl. rewrite Hkept; [by apply Ho|..]; unfold target_loc, tmp_loc; rewrite (loc_cwd _ _ _ Hc);
      by apply (Hl t j0).
Qed.

Lemma saves_inv_start : saves_start → storage_inv w0.
Proof.
  intros [Hpaths _]. split; [done|by intros []| |done]. intros t.
  destruct (sg_transfers w0 !! t) as [j|] eqn:Hj; [|done]. destruct (Hpaths t j Hj) as (_ & _ & Hph).
  split; [done|by rewrite Hph|]. intros [Hca Hroom]. rewrite Hph. split; [done|]. by apply (Hroom t).
Qed.

Lemma saves_reached w : saves_start → rtc (save_step fm) w0 w → storage_inv w.
Proof.
  intros Hstart. revert w. apply rtc_ind_r; [by apply saves_inv_start|].
  intros w w' _ Hstep Hinv. by eapply save_step_inv.
Qed.

(** ** Every session can go on *)

Definition all_settled (w : storage) : Prop := map_Forall (λ _ j, settled_phase (tr_phase j) = true) (sg_transfers w).

Lemma save_progress w : saves_start → storage_inv w → ~ all_settled w → ∃ w', save_step fm w w'.
Proof.
  intros [Hpaths _] [_ _ Hinv _] Hnot. apply map_not_Forall in Hnot as (t & j & Hj & Hne); [|solve_decision].
  apply not_true_is_false in Hne. pose proof (Hinv t) as Ht. rewrite Hj in Ht.
  destruct (sg_transfers w0 !! t) as [j0|] eqn:Hj0; [|done]. destruct Ht as [[Hrel Hdata] Hh _].
  destruct (Hpaths t j0 Hj0) as (Hr & _). rewrite <- Hrel in Hr. rewrite <- Hdata in Hh.
  pose proof (advance_spec fm j _ _ _ Hr Hne Hh) as Hw. unfold wp in Hw.
  destruct (advance fm j (sg_volume w)) as [r v] eqn:Hrun. destruct Hw as (ph & -> & _). eexists. by econstructor.
Qed.

Definition phase_left (ph : save_phase) : nat :=
  match ph with Received => 4 | DirsMade => 3 | TmpOpen _ => 2 | TmpFilled => 1 | Settled _ => 0 end.

Lemma advance_less j ph v v' : settled_phase (tr_phase j) = false → advance fm j v = (Ret ph, v') →
  (phase_left ph < phase_left (tr_phase j))%nat.
Proof.
  unfold advance. destruct (tr_phase j) as [| |d| |]; [..|done]; intros _; rewrite ?SM_bind_unfold.
  - destruct (on_volume _ _) as [[]]; [|done..]. intros [= <- _]. simpl. lia.
  - destruct (lift _ _) as [[]]; [|done..]. rewrite SM_bind_unfold. destruct (on_volume _ _) as [[[]| |]]; [| |done..];
      intros [= <- _]; simpl; lia.
  - destruct (fd_write _ _ _) as [[[]| |]]; [| |done..]; intros [= <- _]; simpl; lia.
  - destruct (publish _ _ _) as [[]]; [|done..]. intros [= <- _]. simpl. lia.
Qed.

Definition saves_left (w : storage) : nat := map_sum (phase_left ∘ tr_phase) (sg_transfers w).

Lemma track_left g (m : gmap nat transfer) :
  map_sum (phase_left ∘ tr_phase) (track g <$> m) = map_sum (phase_left ∘ tr_phase) m.
Proof. rewrite map_sum_fmap. apply map_sum_ext. intros j. unfold track. simpl. by destruct (tr_phase j). Qed.

Lemma save_step_less w w' : save_step fm w w' → (saves_left w' < saves_left w)%nat.
Proof.
  intros [w1 t j ph v Hj Hns Hrun g]. pose proof (advance_less j ph _ _ Hns Hrun) as Hless.
  pose proof (map_sum_update (phase_left ∘ tr_phase) (track g <$> sg_transfers w1) t (track g j) (move_on j ph)) as Hsum.
  rewrite lookup_fmap, Hj in Hsum. specialize (Hsum eq_refl). rewrite track_left in Hsum.
  unfold saves_left. cbn [sg_transfers]. simpl in *. destruct (tr_phase j); simpl in *; lia.
Qed.

End Shared.

Lemma saves_bounded fm n w w' : nsteps (save_step fm) n w w' → (n + saves_left w' <= saves_left w)%nat.
Proof.
  revert w. induction n as [|n IH]; intros w Hn; inversion Hn as [|? ? w1 ? Hstep Hn']; subst; [lia|].
  pose proof (save_step_less _ _ _ Hstep). specialize (IH _ Hn'). lia.
Qed.

(** Some run settles them all. *)
Lemma saves_can_finish fm w0 w : saves_start fm w0 → storage_inv fm w0 w →
  ∃ n w', nsteps (save_step fm) n w w' ∧ all_settled w'.
Proof.
  intros Hstart. remember (saves_left w) as k eqn:Hk. revert w Hk.
  induction (lt_wf k) as [k _ IH]. intros w -> Hinv.
  destruct (decide (map_Forall (λ _ j, settled_phase (tr_phase j) = true) (sg_transfers w))) as [Hs|Hs].
  { exists 0%nat, w. split; [constructor|done]. }
  destruct (save_progress fm w0 w Hstart Hinv Hs) as [w1 Hstep].
  destruct (IH (saves_left w1) (save_step_less _ _ _ Hstep) w1 eq_refl) as (n & w' & Hn & Hall);
    [by eapply save_step_inv|].
  exists (S n), w'. split; [by econstructor|done].
Qed.

(** C12: sessions that store uploads at the same time leave every file whole.  Any
    number of sessions store buffers on paths that do not meet, with their system
    calls interleaved at will and failing at will.  At every moment, so for every
    download, a published file is the one from before or the complete upload, and
    no other file has changed but their temporary files; every run is bounded, and
    goes on until all have settled.  Without failures, and with nothing in the way
    of any of them, they have then all stored their buffers and left no temporary
    file. *)
Theorem uploads_leave_files_whole fm w0 n w :
  saves_start fm w0 → nsteps (save_step fm) n w0 w →
  (∀ t j, sg_transfers w0 !! t = Some j →
     file_at (sg_fs w) (transfer_target fm w0 j) = file_at (sg_fs w0) (transfer_target fm w0 j) ∨
     file_at (sg_fs w) (transfer_target fm w0 j) = Some (tr_data j)) ∧
  (∀ l, (∀ t j, sg_transfers w0 !! t = Some j → l ≠ transfer_target fm w0 j ∧ l ≠ transfer_tmp fm w0 j) →
     file_at (sg_fs w) l = file_at (sg_fs w0) l) ∧
  (n <= saves_left w0)%nat ∧ (all_settled w ∨ ∃ w', save_step fm w w') ∧
  (unhindered fm w0 → all_settled w → ∀ t j, sg_transfers w0 !! t = Some j →
     file_at (sg_fs w) (transfer_target fm w0 j) = Some (tr_data j) ∧
     file_at (sg_fs w) (transfer_tmp fm w0 j) = None).
Proof.
  intros Hstart Hn. pose proof (saves_bounded _ _ _ _ Hn) as Hle.
  assert (storage_inv fm w0 w) as Hinv by (apply saves_reached; [done|]; apply rtc_nsteps; by eexists).
  pose proof Hinv as [Hc _ Hjobs Ho].
  assert (∀ j, target_loc (sg_fs w) (transfer_path fm j) = transfer_target fm w0 j ∧
    tmp_loc (sg_fs w) (transfer_path fm j) = transfer_tmp fm w0 j) as Hlocs by (intros j; by split; apply loc_cwd).
  assert (∀ t j0, sg_transfers w0 !! t = Some j0 → ∃ j, sg_transfers w !! t = Some j ∧ transfer_inv fm w0 (sg_fs w) j0 j)
    as Hjob.
  { intros t j0 Hj0. specialize (Hjobs t). rewrite Hj0 in Hjobs. destruct (sg_transfers w !! t) as [j|]; [|done]. eauto. }
  split; [|split; [done|split; [lia|split]]].
  - intros t j0 Hj0. destruct (Hjob t j0 Hj0) as (j & _ & [_ Hh _]). unfold holds_in in Hh.
    rewrite !(proj1 (Hlocs j0)), !(proj2 (Hlocs j0)) in Hh. destruct (tr_phase j) as [| | | |[]]; tauto.
  - destruct (decide (map_Forall (λ _ j, settled_phase (tr_phase j) = true) (sg_transfers w))) as [Hs|Hs]; [by left|].
    right. by eapply save_progress.
  - intros Hu Hall t j0 Hj0. destruct (Hjob t j0 Hj0) as (j & Hj & [_ Hh Hready]). specialize (Hready Hu).
    specialize (Hall t j Hj). cbn beta in Hall. unfold holds_in in Hh. rewrite !(proj1 (Hlocs j0)), !(proj2 (Hlocs j0)) in Hh.
    destruct (tr_phase j) as [| | | |ok]; [done..|]. simpl in Hready. by subst ok.
Qed.

(** ** Two uploads of one file

    The temporary file belongs to the path, not to the session. *)

Lemma overlay_start c d : overlay c 0 d = d ++ drop (length d) c.
Proof. by destruct d. Qed.

Lemma track_fetch_id (m : gmap nat fetch) : track_fetch id <$> m = m.
Proof.
  rewrite <- (map_fmap_id m) at 2. apply map_fmap_ext. intros t r _. unfold track_fetch. by destruct r as [? ? []].
Qed.

(** A step that renames nothing. *)
Lemma quiet_step fm w t j ph v : sg_transfers w !! t = Some j → settled_phase (tr_phase j) = false →
  publishes (tr_phase j) ph = false → advance fm j (sg_volume w) = (Ret ph, v) →
  save_step fm w (mkStorage v (<[t := move_on j ph]> (sg_transfers w)) (sg_fetches w)).
Proof.
  intros Hj Hns Hq Hrun. pose proof (save_advance fm w t j ph v Hj Hns Hrun) as Hs. cbn zeta in Hs.
  by rewrite follow_quiet, track_id, track_fetch_id in Hs by done.
Qed.

(** One such step of an unhindered transfer. *)
Lemma save_once fm w t j p old ph : sg_transfers w !! t = Some j → tr_phase j = ph → ph ≠ TmpFilled →
  settled_phase ph = false → resolve_path fm (tr_rel j) = Ret p → holds_in (sg_fs w) p (tr_data j) old ph →
  ready_in (sg_fs w) p ph → let ph' := next_phase (sg_fs w) p ph in
  ∃ v, save_step fm w (mkStorage v (<[t := move_on j ph']> (sg_transfers w)) (sg_fetches w)) ∧
    cwd (vo_fs v) = cwd (sg_fs w) ∧ holds_in (vo_fs v) p (tr_data j) old ph' ∧ ready_in (vo_fs v) p ph'.
Proof.
  intros Hj Hph Hnf Hns Hr Hh Hready ph'. subst ph.
  pose proof (advance_spec fm j p old _ Hr Hns Hh) as Hw. unfold wp in Hw.
  destruct (advance fm j (sg_volume w)) as [r v] eqn:Hrun.
  destruct Hw as (ph & -> & Hc & _ & (_ & Hh' & Hlive) & _). destruct (Hlive Hready) as (Hready' & _ & ->).
  exists v. split; [|done]. apply quiet_step; [done..| |done]. by destruct (tr_phase j).
Qed.

(** Making the directories and opening the temporary file, one after the other. *)
Lemma opened_tmp fm w t j p old : sg_transfers w !! t = Some j → tr_phase j = Received →
  resolve_path fm (tr_rel j) = Ret p → calm (sg_fs w) → room_for (sg_fs w) p →
  file_at (sg_fs w) (target_loc (sg_fs w) p) = old →
  ∃ v, let ph := TmpOpen (Linked (tmp_loc (vo_fs v) p)) in
    rtc (save_step fm) w (mkStorage v (<[t := move_on j ph]> (sg_transfers w)) (sg_fetches w)) ∧
    cwd (vo_fs v) = cwd (sg_fs w) ∧ holds_in (vo_fs v) p (tr_data j) old ph ∧ publishable (vo_fs v) p.
Proof.
  intros Hj Hph Hr Hca Hroom Hold.
  destruct (save_once fm w t j p old Received) as (v1 & S1 & Hc1 & Hh1 & Hr1); try done. cbn [next_phase] in *.
  destruct (save_once fm (mkStorage v1 (<[t := move_on j DirsMade]> (sg_transfers w)) (sg_fetches w)) t (move_on j DirsMade) p old DirsMade)
    as (v2 & S2 & Hc2 & Hh2 & Hr2); [apply lookup_insert_eq|done..|]. cbn [next_phase sg_transfers sg_fetches sg_volume] in *.
  rewrite insert_insert_eq in S2. exists v2. assert (tmp_loc (vo_fs v2) p = tmp_loc (vo_fs v1) p) as -> by (by apply loc_cwd).
  split; [eapply rtc_l, rtc_once; [exact S1|exact S2]|]. split; [congruence|done].
Qed.

(** The last two calls of a session whose buffer goes over what is there. *)
Lemma filled_over fm w t j p c : sg_transfers w !! t = Some j → resolve_path fm (tr_rel j) = Ret p →
  tr_phase j = TmpOpen (Linked (tmp_loc (sg_fs w) p)) → file_at (sg_fs w) (tmp_loc (sg_fs w) p) = Some c →
  publishable (sg_fs w) p →
  ∃ v, save_step fm w (mkStorage v (<[t := move_on j TmpFilled]> (sg_transfers w)) (sg_fetches w)) ∧
    cwd (vo_fs v) = cwd (sg_fs w) ∧ file_at (vo_fs v) (tmp_loc (vo_fs v) p) = Some (tr_data j ++ drop (length (tr_data j)) c) ∧
    publishable (vo_fs v) p.
Proof.
  intros Hj Hr Hph Hc Hpub.
  destruct (volume_call (write_at (p +:+ ".tmp") 0 (tr_data j)) (sg_volume w) _ (λ _, True) (write_tmp_spec p 0 _ _ _ Hc))
    as (ok & fs & Hrun & Hcw & _ & (_ & Hok & Hlive & Hpub') & _); [by unfold wp; destruct (write_at _ _ _ _)|].
  specialize (Hlive (proj1 Hpub)). subst ok. rewrite overlay_start in Hok.
  exists (mkVolume fs (vo_orphans (sg_volume w))). cbn [vo_fs]. split.
  - apply quiet_step; [done|by rewrite Hph|by rewrite Hph|]. unfold advance. rewrite Hph, SM_bind_unfold. cbn [fd_write].
    change (on_volume (write_node (tmp_loc (sg_fs w) p) 0 (tr_data j)) (sg_volume w))
      with (on_volume (write_at (p +:+ ".tmp") 0 (tr_data j)) (sg_volume w)). by rewrite Hrun.
  - assert (tmp_loc fs p = tmp_loc (sg_fs w) p) as -> by (by apply loc_cwd). auto.
Qed.

(** Once renamed, the temporary file is gone. *)
Lemma tmp_gone fs fs' p : room_for fs p → dirs_on_way p fs fs' → file_at fs' (tmp_loc fs p) = None →
  lookup_node fs' (p +:+ ".tmp") = None.
Proof.
  intros (Hd & _ & _ & _ & Hnd) [Hc Hdirs] Hnone. unfold lookup_node. rewrite (loc_cwd _ _ _ Hc). fold (tmp_loc fs p).
  unfold file_at in Hnone. destruct (node_at (nodes fs') (tmp_loc fs p)) as [[c t|]|] eqn:Hn; [done| |done].
  destruct (Hdirs (tmp_loc fs p)) as [_ Hx]. destruct (Hx Hn) as [Hy|Hp]; [done|].
  pose proof (prefix_length _ _ Hp) as Hlen. destruct (file_locations (cwd fs) p Hd) as (above & l & _ & Ht & Hpar).
  assert (locate (cwd fs) (parent_path p) = above) as Ha.
  { case_decide as He; [by rewrite He, locate_empty, Hpar|done]. }
  unfold tmp_loc, loc in *. rewrite Ht, Ha, length_app in Hlen. simpl in Hlen. lia.
Qed.

Lemma published_over fm w t j p c : sg_transfers w !! t = Some j → resolve_path fm (tr_rel j) = Ret p →
  tr_phase j = TmpFilled → file_at (sg_fs w) (tmp_loc (sg_fs w) p) = Some c → publishable (sg_fs w) p →
  ∃ w', save_step fm w w' ∧ cwd (sg_fs w') = cwd (sg_fs w) ∧ file_at (sg_fs w') (target_loc (sg_fs w) p) = Some c ∧
    lookup_node (sg_fs w') (p +:+ ".tmp") = None ∧ sg_transfers w' !! t = Some (move_on j (Settled true)) ∧
    (∀ u i, u ≠ t → sg_transfers w !! u = Some i → tr_phase i = TmpFilled → sg_transfers w' !! u = Some i) ∧
    calm (sg_fs w') ∧ ∃ g, sg_fetches w' = track_fetch g <$> sg_fetches w.
Proof.
  intros Hj Hr Hph Hc Hpub.
  destruct (volume_call (atomic_rename_tmp fm (tr_rel j)) (sg_volume w) _ (dirs_on_way p (sg_fs w)) (rename_tmp_spec fm _ _ _ _ Hr Hc))
    as (ok & fs & Hrun & Hcw & Hcalm & (Hok & Hlive) & HD).
  { eapply wp_mono; [apply (dirs_rename fm (tr_rel j) p c); [done|by apply Hpub|done]|]. by intros r fs [? _]. }
  specialize (Hlive Hpub). subst ok. destruct Hok as (Htgt & Hnone & _).
  eexists. split; [apply (save_advance fm w t j (Settled true)); [done|by rewrite Hph|]|].
  { unfold advance, publish. rewrite Hph, SM_bind_unfold, Hr, SM_lift_bind, SM_bind_unfold. cbn [get_st].
    rewrite SM_bind_unfold, Hrun. reflexivity. }
  cbn [sg_volume vo_fs sg_transfers]. do 2 (split; [done|]). split; [by apply (tmp_gone (sg_fs w)); [apply Hpub|..]|].
  split; [apply lookup_insert_eq|]. split; [|split; [by apply Hcalm, Hpub|by eexists]]. intros u i Hne Hu Hi. rewrite lookup_insert_ne, lookup_fmap, Hu by done. cbn. unfold track, move_on. rewrite Hi.
  by destruct i; cbn in *; subst.
Qed.
(** C38: two sessions that store the same path at the same time can publish a file
    that is neither upload.  Both open the temporary file, both write their buffer
    at its beginning, and one renames it.  Without any failure the published file
    is the second buffer followed by what is left of the first, and it stays: one
    session has settled as stored, and the other finds nothing to rename. *)
Theorem same_path_saves_mix fm w t u i j p :
  t ≠ u → sg_transfers w !! t = Some i → sg_transfers w !! u = Some j →
  tr_phase i = Received → tr_phase j = Received →
  resolve_path fm (tr_rel i) = Ret p → tr_rel j = tr_rel i → calm (sg_fs w) → room_for (sg_fs w) p →
  ∃ w', rtc (save_step fm) w w' ∧
    file_at (sg_fs w') (target_loc (sg_fs w) p) = Some (tr_data j ++ drop (length (tr_data j)) (tr_data i)) ∧
    sg_transfers w' !! t = Some (move_on i (Settled true)) ∧ sg_transfers w' !! u = Some (move_on j (Settled false)).
Proof.
  intros Hne Hi Hj Hpi Hpj Hr Hrel Hcalm Hroom. assert (resolve_path fm (tr_rel j) = Ret p) as Hrj by congruence.
  destruct (opened_tmp fm w t i p _ Hi Hpi Hr Hcalm Hroom eq_refl) as (v1 & S1 & Hc1 & (_ & Hold1 & _) & Hp1).
  set (w1 := mkStorage v1 _ _) in S1. assert (sg_transfers w1 !! u = Some j) as Hj1 by (simpl; by rewrite lookup_insert_ne).
  destruct (opened_tmp fm w1 u j p _ Hj1 Hpj Hrj (proj1 Hp1) (proj1 (proj2 Hp1)) eq_refl) as (v2 & S2 & Hc2 & (_ & _ & Ht2) & Hp2).
  set (w2 := mkStorage v2 _ _) in S2. simpl in Hc2.
  assert (tmp_loc (vo_fs v2) p = tmp_loc (vo_fs v1) p) as Htm by (by apply loc_cwd).
  destruct (filled_over fm w2 t (move_on i (TmpOpen (Linked (tmp_loc (vo_fs v1) p)))) p []) as (v3 & S3 & Hc3 & Ht3 & Hp3);
    [simpl; by rewrite lookup_insert_ne, lookup_insert_eq|done|by rewrite <- Htm|done..|].
  rewrite drop_nil, app_nil_r in Ht3. set (w3 := mkStorage v3 _ _) in S3. simpl in Hc3.
  assert (tmp_loc (vo_fs v3) p = tmp_loc (vo_fs v2) p) as Htm3 by (by apply loc_cwd).
  destruct (filled_over fm w3 u (move_on j (TmpOpen (Linked (tmp_loc (vo_fs v2) p)))) p (tr_data i)) as (v4 & S4 & Hc4 & Ht4 & Hp4);
    [simpl; by rewrite lookup_insert_ne, lookup_insert_eq|done|by rewrite <- Htm3|done..|].
  set (w4 := mkStorage v4 _ _) in S4. simpl in Hc4.
  destruct (published_over fm w4 t (move_on i TmpFilled) p (tr_data j ++ drop (length (tr_data j)) (tr_data i))) as (w5 & S5 & Hc5 & Hf & Hgone & Ht5 & Hu5 & _);
    [simpl; by rewrite lookup_insert_ne, lookup_insert_eq|done..|].
  specialize (Hu5 u (move_on j TmpFilled) ltac:(done) ltac:(by simpl; rewrite lookup_insert_eq) eq_refl).
  exists (mkStorage (sg_volume w5) (<[u := move_on j (Settled false)]> (sg_transfers w5)) (sg_fetches w5)).
  split; [|split; [|split]].
  - etransitivity; [exact S1|]. etransitivity; [exact S2|]. do 3 (eapply rtc_l; [eassumption|]). apply rtc_once.
    apply (quiet_step fm w5 u (move_on j TmpFilled)); [done..|]. unfold advance, publish. cbn [move_on tr_phase tr_rel].
    rewrite SM_bind_unfold, Hrj, SM_lift_bind, SM_bind_unfold. cbn [get_st].
    rewrite SM_bind_unfold, (on_volume_run _ _ (Ret false) (sg_fs w5)); [by destruct (sg_volume w5)|].
    unfold atomic_rename_tmp. rewrite (tmp_of_path _ _ _ Hrj), SM_lift_bind, Hrj, SM_lift_bind, SM_bind_unfold.
    cbn [gets_st]. unfold fs_exists. by rewrite Hgone.
  - simpl. simpl in Hf. rewrite <- Hf. f_equal. apply loc_cwd. simpl in *. congruence.
  - simpl. by rewrite lookup_insert_ne.
  - simpl. apply lookup_insert_eq.
Qed.

(** * Witnesses *)

Definition demo_saves (rel1 rel2 : string) (fetches : gmap nat fetch) : storage :=
  mkStorage (mkVolume (demo_fs [("f", [x41])]) [])
    (<[1%nat := mkTransfer rel1 [x61; x62] Received]> (<[2%nat := mkTransfer rel2 [x63] Received]> ∅)) fetches.

Lemma demo_saves_room rel : rel ∈ ["f"; "g"] → room_for (demo_fs [("f", [x41])]) ("/s/" +:+ rel).
Proof.
  assert (∀ k, file_at (demo_fs [("f", [x41])]) (take k ["s"]) = None) as Hno by (intros [|[|k]]; [reflexivity..|by destruct k]).
  intros Hin. repeat (apply elem_of_cons in Hin as [->|Hin]; [|]); [..|by apply elem_of_nil in Hin];
    (split; [reflexivity|]; split; [reflexivity|]; split; [exact Hno|split; discriminate]).
Qed.

Lemma demo_saves_start fetches : saves_start demo_root (demo_saves "f" "g" fetches).
Proof.
  split.
  - apply map_Forall_insert_2; [done|]. apply map_Forall_insert_2; [done|]. apply map_Forall_empty.
  - intros t u i j Hne Hi Hj. unfold demo_saves in Hi, Hj. cbn [sg_transfers] in Hi, Hj.
    apply lookup_insert_Some in Hi as [[<- <-]|[_ [[<- <-]|[_ ?]]%lookup_insert_Some]]; [| |done];
      apply lookup_insert_Some in Hj as [[<- <-]|[_ [[<- <-]|[_ ?]]%lookup_insert_Some]]; try done;
      intros a b Ha Hb; vm_compute in Ha, Hb;
      repeat (apply elem_of_cons in Ha as [->|Ha]; [|]); try (by apply elem_of_nil in Ha);
      repeat (apply elem_of_cons in Hb as [->|Hb]; [|]); try (by apply elem_of_nil in Hb);
      by split; intros [k [=]].
Qed.

Lemma uploads_leave_files_whole_witness :
  ∃ n w, nsteps (save_step demo_root) n (demo_saves "f" "g" ∅) w ∧
    file_at (sg_fs w) ["s"; "f"] = Some [x61; x62] ∧ file_at (sg_fs w) ["s"; "g"] = Some [x63].
Proof.
  destruct (saves_can_finish demo_root _ _ (demo_saves_start ∅) (saves_inv_start _ _ (demo_saves_start ∅))) as (n & w & Hn & Hall).
  destruct (uploads_leave_files_whole demo_root (demo_saves "f" "g" ∅) n w (demo_saves_start ∅) Hn)
    as (_ & _ & _ & _ & Hend).
  assert (unhindered demo_root (demo_saves "f" "g" ∅)) as Hu.
  { split; [reflexivity|]. apply map_Forall_insert_2; [apply (demo_saves_room "f"); left|].
    apply map_Forall_insert_2; [apply (demo_saves_room "g"); right; left|]. apply map_Forall_empty. }
  exists n, w. split; [exact Hn|]. split.
  - exact (proj1 (Hend Hu Hall 1%nat (mkTransfer "f" [x61; x62] Received) eq_refl)).
  - exact (proj1 (Hend Hu Hall 2%nat (mkTransfer "g" [x63] Received) eq_refl)).
Defined.

Lemma same_path_saves_mix_witness :
  ∃ w, rtc (save_step demo_root) (demo_saves "f" "f" ∅) w ∧ file_at (sg_fs w) ["s"; "f"] = Some [x63; x62].
Proof.
  destruct (same_path_saves_mix demo_root (demo_saves "f" "f" ∅) 1 2 (mkTransfer "f" [x61; x62] Received)
    (mkTransfer "f" [x63] Received) "/s/f") as (w & Hsteps & Hf & _); try reflexivity; [discriminate| |].
  - apply (demo_saves_room "f"). left.
  - exists w. split; [exact Hsteps|exact Hf].
Defined.
