(* ===== verification/SharedDownloads.v ===== *)
(** Downloads while files are being replaced: [send_file]
    (src/server/src/zero_copy_sender.cpp) in sessions that run at the same time as
    uploads.  The steps are those of [SharedStorage]. *)
From S2P Require Import Prelude Sha256 Paths FileSystem FileManager FileMutex WireProtocol Proto DeltaSync Negotiator.
From S2P Require Import ZeroCopySender Session Directories ConcurrentUploads SharedStorage.

(** * Uploads do not notice downloads *)

(** Two file systems a program cannot tell apart, unless by failures ahead. *)
Definition alike (fs fs' : filesystem) : Prop :=
  nodes fs' = nodes fs ∧ cwd fs' = cwd fs ∧ (calm fs → calm fs').

Lemma alike_file fs fs' l : alike fs fs' → file_at fs' l = file_at fs l.
Proof. intros (Hn & _). unfold file_at. by rewrite Hn. Qed.

Lemma alike_loc fs fs' p : alike fs fs' → loc fs' p = loc fs p.
Proof. intros (_ & Hc & _). by apply loc_cwd. Qed.

Lemma alike_holds fs fs' p data old ph : alike fs fs' → holds_in fs p data old ph → holds_in fs' p data old ph.
Proof.
  intros Ha. assert (target_loc fs' p = target_loc fs p ∧ tmp_loc fs' p = tmp_loc fs p) as [Hg Ht]
    by (split; by apply alike_loc).
  destruct ph as [| |d| |[]]; simpl; by rewrite ?Hg, ?Ht, ?(alike_file fs fs').
Qed.

Lemma alike_ready fs fs' p ph : alike fs fs' → ready_in fs p ph → ready_in fs' p ph.
Proof.
  intros (Hn & Hc & Hca). assert (room_for fs p → room_for fs' p) as Hroom.
  { unfold room_for, target_loc, tmp_loc, file_at. by rewrite !(loc_cwd _ _ _ Hc), Hc, Hn. }
  assert (publishable fs p → publishable fs' p) as Hpub.
  { intros (H1 & H2 & H3). split; [auto|]. split; [auto|]. unfold target_loc. by rewrite (loc_cwd _ _ _ Hc), Hn. }
  destruct ph; simpl; try done. intros [? ?]. auto.
Qed.

Lemma alike_inv fm w0 w w' : alike (sg_fs w) (sg_fs w') → sg_transfers w' = sg_transfers w →
  storage_inv fm w0 w → storage_inv fm w0 w'.
Proof.
  intros Ha Ht [Hc Hca Hinv Ho]. split.
  - by rewrite (proj1 (proj2 Ha)).
  - intros Hu. by apply Ha, Hca.
  - intros t. specialize (Hinv t). rewrite Ht. destruct (sg_transfers w0 !! t), (sg_transfers w !! t); try done.
    destruct Hinv as [Hs Hh Hr]. split; [done|by eapply alike_holds|]. intros Hu. by eapply alike_ready; [|apply Hr].
  - intros l Hl. rewrite (alike_file _ _ _ Ha). by apply Ho.
Qed.

(** * What a call of a download finds *)

(** A read-only call. *)
Lemma fetch_exists fm rel fs : ∀ o fs', file_exists fm rel fs = (o, fs') → fs' = fs.
Proof. intros o fs' Hrun. unfold file_exists in Hrun. rewrite SM_bind_unfold in Hrun. by destruct (resolve_path fm rel); injection Hrun. Qed.

Lemma fetch_size fm rel p fs total fs' : resolve_path fm rel = Ret p → get_file_size fm rel fs = (Ret total, fs') →
  fs' = fs ∧ (total ≠ 0 → ∃ c t, lookup_node fs p = Some (File c t) ∧ total = u64 (zlen c)).
Proof.
  intros Hr. unfold get_file_size, fs_exists, fs_file_size. rewrite Hr, SM_lift_bind, SM_bind_unfold. cbn [get_st].
  destruct (lookup_node fs p) as [[c t|]|]; cbn; intros [= <- <-]; (split; [done|]); [eauto|done].
Qed.

Lemma fetch_open p fs file fs' : open_rdonly p fs = (Ret file, fs') →
  alike fs fs' ∧ ∀ c, file = Some c → ∃ t, lookup_node fs p = Some (File c t).
Proof.
  unfold open_rdonly. pose proof (next_fault_spec fs) as Hf. unfold wp in Hf. rewrite SM_bind_unfold.
  destruct (next_fault fs) as [r fs1]. destruct Hf as (f & -> & Hn & Hc & Hca). rewrite SM_bind_unfold. cbn [get_st].
  assert (alike fs fs1) as Ha by (split; [done|]; split; [done|]; intros Hcalm; by apply Hca).
  assert (lookup_node fs1 p = lookup_node fs p) as -> by (unfold lookup_node, loc; by rewrite Hc, Hn).
  destruct f; [destruct (lookup_node fs p) as [[c t|]|]|..]; intros [= <- <-]; (split; [done|]); intros ? [=]; subst; eauto.
Qed.

(** ** Versions

    What a download may see at [l]: the file from the start, or an upload that is
    published there. *)
Section Downloads.
Context (fm : FileManager) (w0 : storage).

Definition version_at (l : list string) (c : bytes) : Prop :=
  file_at (sg_fs w0) l = Some c ∨
  ∃ t j, sg_transfers w0 !! t = Some j ∧ l = transfer_target fm w0 j ∧ c = tr_data j.

Definition fetch_path (r : fetch) : string := match resolve_path fm (fe_rel r) with Ret p => p | _ => "" end.
Definition fetch_target (r : fetch) : list string := target_loc (sg_fs w0) (fetch_path r).

(** Requests for files that are not the temporary file of an upload. *)
Definition fetches_start : Prop :=
  map_Forall (λ _ r, resolve_path fm (fe_rel r) = Ret (fetch_path r) ∧ names_directory (fetch_path r) = false ∧
    fe_phase r = Asked ∧ ∀ t j, sg_transfers w0 !! t = Some j → fetch_target r ≠ transfer_tmp fm w0 j) (sg_fetches w0).

(** What a download has seen so far. *)
Definition fetch_inv (v : volume) (l : list string) (offset : Z) (ph : fetch_phase) : Prop :=
  match ph with
  | Asked | Found | Ended => True
  | Sized total => is_Some (file_at (vo_fs v) l) ∧ ∃ c, version_at l c ∧ total = u64 (zlen c)
  | Hashed total hash => (∃ c, version_at l c ∧ total = u64 (zlen c)) ∧
      ∃ c, version_at l c ∧ hash = to_hex (sha256_raw c)
  | Streaming total hash d sent => (∃ c, version_at l c ∧ total = u64 (zlen c)) ∧
      (∃ c, version_at l c ∧ hash = to_hex (sha256_raw c)) ∧
      (d = Linked l ∨ ∃ k, d = Orphan k) ∧
      (length sent <= Z.to_nat (total - offset))%nat ∧
      ∃ c, version_at l c ∧ fd_content v d = Some c ∧ sent = take (length sent) (drop (Z.to_nat offset) c)
  end.

(** What is published now is a version. *)
Lemma current_version w l c : storage_inv fm w0 w → (∀ t j, sg_transfers w0 !! t = Some j → l ≠ transfer_tmp fm w0 j) →
  file_at (sg_fs w) l = Some c → version_at l c.
Proof.
  intros [Hc _ Hinv Ho] Hnt Hf.
  destruct (decide (map_Forall (λ _ j, transfer_target fm w0 j ≠ l) (sg_transfers w0))) as [Hall|Hex].
  { left. rewrite <- Ho; [done|]. intros t j Hj. split; [|by eapply Hnt]. specialize (Hall t j Hj). congruence. }
  apply map_not_Forall in Hex as (t & j0 & Hj0 & Heq%dec_stable); [|intros; apply _].
  specialize (Hinv t). rewrite Hj0 in Hinv. destruct (sg_transfers w !! t) as [j|]; [|done]. destruct Hinv as [_ Hh _].
  assert (target_loc (sg_fs w) (transfer_path fm j0) = l) as Hl by (rewrite <- Heq; by apply loc_cwd).
  rewrite Heq in Hh. unfold holds_in in Hh. rewrite !Hl in Hh.
  assert (file_at (sg_fs w) l = file_at (sg_fs w0) l ∨ file_at (sg_fs w) l = Some (tr_data j0)) as [He|He]
    by (destruct (tr_phase j) as [| | | |[]]; tauto).
  - left. congruence.
  - right. exists t, j0. split; [done|]. split; [done|]. congruence.
Qed.

(** Only a rename settles an upload as stored. *)
Lemma stored_by_rename j ph v v' : settled_phase (tr_phase j) = false → advance fm j v = (Ret ph, v') →
  ph = Settled true → publishes (tr_phase j) ph = true.
Proof.
  unfold advance. destruct (tr_phase j) as [| |d| |]; [..|done]; intros _; rewrite ?SM_bind_unfold.
  - destruct (on_volume _ _) as [[]]; [|done..]. by intros [= <- _].
  - destruct (lift _ _) as [[]]; [|done..]. rewrite SM_bind_unfold. destruct (on_volume _ _) as [[[]| |]]; [| |done..]; by intros [= <- _].
  - destruct (fd_write _ _ _) as [[[]| |]]; [| |done..]; by intros [= <- _].
  - by intros _ ->.
Qed.

(** What a step of an upload does to open and published files. *)
Lemma save_effect w t j ph v : saves_start fm w0 → storage_inv fm w0 w → sg_transfers w !! t = Some j →
  settled_phase (tr_phase j) = false → advance fm j (sg_volume w) = (Ret ph, v) →
  let orphans := vo_orphans (sg_volume w) in let g := follow fm (sg_volume w) j ph in
  ∃ j0, sg_transfers w0 !! t = Some j0 ∧ let tmp := transfer_tmp fm w0 j0 in let target := transfer_target fm w0 j0 in
    (g = id ∧ vo_orphans v = orphans ∧ ∀ l, l ≠ tmp → file_at (vo_fs v) l = file_at (sg_fs w) l) ∨
    (g = relocate tmp target (length orphans) ∧ vo_orphans v = orphans ++ [default [] (file_at (sg_fs w) target)] ∧
     file_at (vo_fs v) target = Some (tr_data j0) ∧
     ∀ l, l ≠ tmp → l ≠ target → file_at (vo_fs v) l = file_at (sg_fs w) l).
Proof.
  intros [Hpaths _] [Hc _ Hinv _] Hj Hns Hrun orphans g. pose proof (Hinv t) as Ht. rewrite Hj in Ht.
  destruct (sg_transfers w0 !! t) as [j0|] eqn:Hj0; [|done]. destruct Ht as [[Hrel Hdata] Hh _].
  destruct (Hpaths t j0 Hj0) as (Hr & _). rewrite <- Hrel in Hr. rewrite <- Hdata in Hh.
  pose proof (advance_spec fm j _ _ (sg_volume w) Hr Hns Hh) as Hw. unfold wp in Hw. rewrite Hrun in Hw.
  destruct Hw as (ph' & [= <-] & Hcw & _ & (Hkept & Hh' & _) & Horph).
  assert (∀ fs, cwd fs = cwd (sg_fs w0) → target_loc fs (transfer_path fm j0) = transfer_target fm w0 j0 ∧
    tmp_loc fs (transfer_path fm j0) = transfer_tmp fm w0 j0) as Hlocs by (by split; apply loc_cwd).
  destruct (Hlocs (sg_fs w) Hc) as [Hg Htm], (Hlocs (vo_fs v) ltac:(congruence)) as [Hg' Htm'].
  exists j0. split; [done|]. intros tmp target. unfold orphans_after in Horph. unfold others_kept in Hkept. rewrite Hg, Htm in *.
  destruct (publishes (tr_phase j) ph) eqn:Hpub; [right|left].
  - assert (tr_phase j = TmpFilled ∧ ph = Settled true) as [Hph ->]
      by (by destruct (tr_phase j), ph as [| | | |[]]).
    destruct Hh' as [Hf _]. rewrite Hg' in Hf. split; [|split; [done|split; [unfold target; congruence|auto]]].
    unfold g, follow. rewrite Hph, Hr, (tmp_of_path _ _ _ Hr). unfold orphans, tmp, target. by rewrite <- Hg, <- Htm.
  - split; [by apply follow_quiet|]. split; [done|]. intros l Hl.
    destruct (decide (l = target)) as [->|Hne]; [|by apply Hkept]. unfold holds_in in Hh, Hh'. rewrite Hg, ?Htm in Hh.
    rewrite Hg', ?Htm' in Hh'. assert (ph ≠ Settled true) as Hns' by (intros Hx; rewrite (stored_by_rename _ _ _ _ Hns Hrun Hx) in Hpub; done).
    unfold target. destruct (tr_phase j) as [| | | |b]; [..|done]; destruct ph as [| | | |[]]; try done; destruct_and?; congruence.
Qed.

Lemma fetch_inv_save w t j ph v l r : saves_start fm w0 → storage_inv fm w0 w → sg_transfers w !! t = Some j →
  settled_phase (tr_phase j) = false → advance fm j (sg_volume w) = (Ret ph, v) →
  (∀ t j, sg_transfers w0 !! t = Some j → l ≠ transfer_tmp fm w0 j) →
  fetch_inv (sg_volume w) l (fe_offset r) (fe_phase r) →
  fetch_inv v l (fe_offset r) (fe_phase (track_fetch (follow fm (sg_volume w) j ph) r)).
Proof.
  intros Hs Hinv Hj Hns Hrun Hnt Hf. destruct (save_effect w t j ph v Hs Hinv Hj Hns Hrun) as (j0 & Hj0 & Heff).
  specialize (Hnt t j0 Hj0). cbn zeta in Heff. unfold track_fetch. cbn [fe_phase].
  assert (is_Some (file_at (sg_fs w) l) → is_Some (file_at (vo_fs v) l)) as Hthere.
  { intros Hx. destruct Heff as [(_ & _ & Hk)|(_ & _ & Hd & Hk)]; [by rewrite Hk|].
    destruct (decide (l = transfer_target fm w0 j0)) as [->|Hne]; [rewrite Hd; eauto|by rewrite Hk]. }
  destruct (fe_phase r) as [| |total|total hash|total hash d sent|]; try done.
  - destruct Hf as [Hx Hf]. split; [auto|done].
  - destruct Hf as (H1 & H2 & Hd & Hlen & c & Hc & Hcont & Hsent). split; [done|]. split; [done|].
    enough ((follow fm (sg_volume w) j ph d = Linked l ∨ ∃ k, follow fm (sg_volume w) j ph d = Orphan k) ∧
      fd_content v (follow fm (sg_volume w) j ph d) = Some c) as [? ?] by eauto 6.
    destruct Hd as [->|[k ->]]; cbn [fd_content] in Hcont.
    + destruct Heff as [(-> & _ & Hk)|(-> & Ho & Hd & Hk)]; [split; [by left|]; cbn; by rewrite Hk|].
      unfold relocate. rewrite decide_False by done. case_decide as Hl; cbn [fd_content]; [|split; [by left|by rewrite Hk]].
      split; [eauto|]. rewrite Ho, <- Hl, Hcont. cbn. by rewrite lookup_app_r, Nat.sub_diag by lia.
    + destruct Heff as [(-> & Ho & _)|(-> & Ho & _)]; cbn [relocate fd_content id]; rewrite Ho; (split; [eauto|]); [done|].
      by apply lookup_app_l_Some.
Qed.

Lemma fetch_inv_alike v v' l offset ph : alike (vo_fs v) (vo_fs v') → vo_orphans v' = vo_orphans v →
  fetch_inv v l offset ph → fetch_inv v' l offset ph.
Proof.
  intros Ha Ho. assert (∀ d, fd_content v' d = fd_content v d) as Hd.
  { intros [m|k]; cbn; [by apply alike_file|by rewrite Ho]. }
  destruct ph; simpl; rewrite ?(alike_file _ _ _ Ha), ?Hd; done.
Qed.

(** The chunk a call adds continues what was sent. *)
Lemma chunk_continues (sent c : bytes) off n : sent = take (length sent) (drop off c) →
  let more := sent ++ take n (drop (off + length sent) c) in more = take (length more) (drop off c).
Proof.
  intros Hs more. assert (more = take (length sent + n) (drop off c)) as ->.
  { unfold more. rewrite Hs at 1. rewrite <- drop_drop. apply take_take_drop. }
  by rewrite length_take, take_min_length.
Qed.

Lemma fetch_next_inv w r call ph v l p : storage_inv fm w0 w → resolve_path fm (fe_rel r) = Ret p →
  names_directory p = false → l = loc (sg_fs w) p → (∀ t j, sg_transfers w0 !! t = Some j → l ≠ transfer_tmp fm w0 j) →
  fetch_inv (sg_volume w) l (fe_offset r) (fe_phase r) → fetch_next fm r call (sg_volume w) = (Ret ph, v) →
  alike (sg_fs w) (vo_fs v) ∧ vo_orphans v = vo_orphans (sg_volume w) ∧ fetch_inv v l (fe_offset r) ph.
Proof.
  intros Hinv Hr Hd -> Hnt Hf Hrun. set (l := loc (sg_fs w) p) in *. assert (alike (sg_fs w) (sg_fs w)) as Hrefl by done.
  assert (∀ c t, lookup_node (sg_fs w) p = Some (File c t) → file_at (sg_fs w) l = Some c ∧ version_at l c) as Hver.
  { intros c t [Hn _]%lookup_file. assert (file_at (sg_fs w) l = Some c) as Hx by (unfold file_at, l; by rewrite Hn).
    split; [done|]. by eapply current_version. }
  unfold fetch_next in Hrun. destruct (fe_phase r) as [| |total|total hash|total hash d sent|].
  - rewrite SM_bind_unfold in Hrun. unfold on_volume, zoom in Hrun.
    destruct (file_exists fm (fe_rel r) (sg_fs w)) as [o fs] eqn:He. apply fetch_exists in He. subst fs.
    destruct o as [[]| |]; [..|done|done]; injection Hrun as <- <-; by destruct (sg_volume w).
  - rewrite SM_bind_unfold in Hrun. unfold on_volume, zoom in Hrun.
    destruct (get_file_size fm (fe_rel r) (sg_fs w)) as [[total| |] fs] eqn:He; [|done..].
    apply (fetch_size _ _ p) in He as [-> Htotal]; [|done]. injection Hrun as <- <-. cbn [vo_fs vo_orphans].
    do 2 (split; [done|]). destruct (Z.eqb_spec total 0) as [|Hne]; [done|]. destruct (total <=? fe_offset r); [done|].
    destruct (Htotal Hne) as (c & t & Hl & ->). destruct (Hver c t Hl) as [Hx Hv]. cbn. rewrite Hx. eauto.
  - destruct Hf as [[c Hc] Hf]. destruct (lookup_target _ _ _ Hd Hc) as [t Hl]. rewrite SM_bind_unfold in Hrun.
    rewrite (on_volume_run _ _ _ _ (compute_sha256_run fm _ p (sg_fs w) c t Hr Hl)) in Hrun. injection Hrun as <- <-.
    do 2 (split; [done|]). split; [done|]. destruct (Hver c t Hl). eauto.
  - rewrite Hr, SM_lift_bind, SM_bind_unfold in Hrun. unfold on_volume, zoom in Hrun.
    destruct (open_rdonly p (sg_fs w)) as [[file| |] fs] eqn:Ho; [|done..]. apply fetch_open in Ho as [Ha Ho].
    rewrite SM_bind_unfold in Hrun. cbn [get_st vo_fs] in Hrun. injection Hrun as <- <-. cbn [vo_fs vo_orphans].
    split; [done|]. split; [done|]. destruct file as [c|]; [|done]. destruct (Ho c eq_refl) as [t Hl].
    destruct Hf as [H1 H2], (Hver c t Hl) as [Hx Hv]. split; [done|]. split; [done|]. rewrite (alike_loc _ _ _ Ha). fold l.
    split; [by left|]. split; [simpl; lia|]. exists c. cbn [fd_content vo_fs]. by rewrite (alike_file _ _ _ Ha).
  - rewrite SM_bind_unfold in Hrun. cbn [get_st] in Hrun. injection Hrun as <- <-. do 2 (split; [done|]).
    destruct call as [n|]; [|done]. destruct Hf as (H1 & H2 & Hdl & Hlen & c & Hv & Hc & Hs). do 3 (split; [done|]).
    split; [rewrite length_app, length_take; lia|]. exists c. split; [done|]. split; [done|]. rewrite Hc. by apply chunk_continues.
  - by injection Hrun as <- <-.
Qed.

(** ** All sessions *)

Record downloads_inv (w : storage) : Prop := {
  di_uploads : storage_inv fm w0 w;
  di_fetches : ∀ t, match sg_fetches w0 !! t, sg_fetches w !! t with
                    | Some r0, Some r => fe_rel r = fe_rel r0 ∧ fe_offset r = fe_offset r0 ∧
                        fetch_inv (sg_volume w) (fetch_target r0) (fe_offset r) (fe_phase r)
                    | None, None => True
                    | _, _ => False
                    end
}.

Lemma storage_step_inv w w' : saves_start fm w0 → fetches_start → downloads_inv w → storage_step fm w w' → downloads_inv w'.
Proof.
  intros Hs Hf [Hu Hinv] [Hstep|Hstep].
  - split; [by eapply save_step_inv|]. destruct Hstep as [w t j ph v Hj Hns Hrun g]. intros u. cbn [sg_fetches sg_volume].
    rewrite lookup_fmap. specialize (Hinv u). destruct (sg_fetches w0 !! u) as [r0|] eqn:Hr0, (sg_fetches w !! u) as [r|]; try done.
    destruct Hinv as (Hrel & Hoff & Hi). destruct (Hf u r0 Hr0) as (_ & _ & _ & Hnt). split; [done|]. split; [done|].
    by apply (fetch_inv_save w t j ph v _ r).
  - destruct Hstep as [w t r call ph v Hr Hrun]. pose proof (Hinv t) as Ht. rewrite Hr in Ht.
    destruct (sg_fetches w0 !! t) as [r0|] eqn:Hr0; [|done]. destruct Ht as (Hrel & Hoff & Hi).
    destruct (Hf t r0 Hr0) as (Hpath & Hplain & _ & Hnt).
    destruct (fetch_next_inv w r call ph v (fetch_target r0) (fetch_path r0)) as (Ha & Ho & Hi'); try done;
      [by rewrite Hrel|symmetry; by apply loc_cwd, Hu|].
    split; [by eapply (alike_inv fm w0 w)|]. intros u. cbn [sg_fetches sg_volume]. destruct (decide (t = u)) as [<-|Hne].
    + by rewrite lookup_insert_eq, Hr0.
    + rewrite lookup_insert_ne by done. specialize (Hinv u). destruct (sg_fetches w0 !! u), (sg_fetches w !! u); try done.
      destruct Hinv as (? & ? & ?). split; [done|]. split; [done|]. by eapply fetch_inv_alike.
Qed.

Lemma downloads_reached w : saves_start fm w0 → fetches_start → rtc (storage_step fm) w0 w → downloads_inv w.
Proof.
  intros Hs Hf. revert w. apply rtc_ind_r.
  - split; [by apply saves_inv_start|]. intros t. destruct (sg_fetches w0 !! t) as [r|] eqn:Hr; [|done].
    destruct (Hf t r Hr) as (_ & _ & Hph & _). by rewrite Hph.
  - intros w w' _ Hstep Hinv. by eapply storage_step_inv.
Qed.

End Downloads.


(** * The session's code in one go *)

Lemma fetch_once fm w t r call ph v : sg_fetches w !! t = Some r → fetch_next fm r call (sg_volume w) = (Ret ph, v) →
  fetch_step fm w (mkStorage v (sg_transfers w) (<[t := mkFetch (fe_rel r) (fe_offset r) ph]> (sg_fetches w))).
Proof. by econstructor. Qed.

(** The checks and the digest, when the file has a byte at the offset. *)
Lemma fetch_hashed fm w t rel offset p c tm : sg_fetches w !! t = Some (mkFetch rel offset Asked) →
  resolve_path fm rel = Ret p → lookup_node (sg_fs w) p = Some (File c tm) → 0 <= offset < zlen c → zlen c < 2 ^ 63 →
  rtc (fetch_step fm) w (mkStorage (sg_volume w) (sg_transfers w)
    (<[t := mkFetch rel offset (Hashed (zlen c) (to_hex (sha256_raw c)))]> (sg_fetches w))).
Proof.
  intros Hr Hp Hl Hoff Hlen. destruct w as [[fs orphans] transfers fetches]. cbn [sg_fetches sg_volume sg_transfers vo_fs] in *.
  eapply rtc_l; [eapply (fetch_once _ _ t _ None Found (mkVolume fs orphans)); [exact Hr|]|].
  { unfold fetch_next. cbn [fe_phase fe_rel sg_volume]. rewrite SM_bind_unfold, (on_volume_run _ (mkVolume fs orphans) _ _ (file_exists_run _ _ _ _ Hp)).
    unfold fs_exists. cbn [vo_fs]. by rewrite Hl. }
  eapply rtc_l; [eapply (fetch_once _ _ t _ None (Sized (zlen c)) (mkVolume fs orphans)); [apply lookup_insert_eq|]|].
  { unfold fetch_next. cbn [fe_phase fe_rel fe_offset sg_volume].
    rewrite SM_bind_unfold, (on_volume_run _ (mkVolume fs orphans) _ _ (get_file_size_run _ _ _ _ _ _ Hp Hl Hlen)).
    rewrite (proj2 (Z.eqb_neq _ _)), (proj2 (Z.leb_gt _ _)) by lia. done. }
  eapply rtc_l; [eapply (fetch_once _ _ t _ None (Hashed (zlen c) (to_hex (sha256_raw c))) (mkVolume fs orphans)); [apply lookup_insert_eq|]|].
  { unfold fetch_next. cbn [fe_phase fe_rel sg_volume].
    by rewrite SM_bind_unfold, (on_volume_run _ (mkVolume fs orphans) _ _ (compute_sha256_run _ _ _ _ _ _ Hp Hl)). }
  cbn [sg_fetches sg_transfers fe_rel fe_offset]. by rewrite !insert_insert_eq.
Qed.

(** Opening and sending, whatever the file then is. *)
Lemma fetch_streamed fm w t rel offset p total hash c tm : sg_fetches w !! t = Some (mkFetch rel offset (Hashed total hash)) →
  resolve_path fm rel = Ret p → lookup_node (sg_fs w) p = Some (File c tm) → calm (sg_fs w) →
  rtc (fetch_step fm) w (mkStorage (sg_volume w) (sg_transfers w)
    (<[t := mkFetch rel offset (Streaming total hash (Linked (loc (sg_fs w) p))
              (take (Z.to_nat (total - offset)) (drop (Z.to_nat offset) c)))]> (sg_fetches w))).
Proof.
  intros Hr Hp Hl Hcalm. destruct w as [[fs orphans] transfers fetches]. cbn [sg_fetches sg_volume sg_transfers vo_fs] in *.
  assert (file_at fs (loc fs p) = Some c) as Hf by (apply lookup_file in Hl as [Hn _]; unfold file_at; by rewrite Hn).
  assert (open_rdonly p fs = (Ret (Some c), fs)) as Ho.
  { unfold open_rdonly, next_fault. rewrite SM_bind_unfold, Hcalm, SM_bind_unfold. cbn [get_st]. by rewrite Hl. }
  eapply rtc_l; [eapply (fetch_once _ _ t _ None (Streaming total hash (Linked (loc fs p)) []) (mkVolume fs orphans)); [exact Hr|]|].
  { unfold fetch_next. cbn [fe_phase fe_rel sg_volume].
    by rewrite Hp, SM_lift_bind, SM_bind_unfold, (on_volume_run _ (mkVolume fs orphans) _ _ Ho). }
  eapply rtc_l; [eapply (fetch_once _ _ t _ (Some (Z.to_nat (total - offset)))); [apply lookup_insert_eq|]|].
  { unfold fetch_next. cbn [fe_phase fe_rel sg_volume]. by rewrite SM_bind_unfold. }
  cbn [sg_fetches sg_transfers fe_rel fe_offset sg_volume fd_content vo_fs length app get_st]. rewrite insert_insert_eq, Hf. cbn [default].
  by rewrite Nat.add_0_r, Nat.sub_0_r, Nat.min_id.
Qed.

(** A download that is not interrupted puts on the wire what these steps send. *)
Lemma send_file_is_steps `{Host, Codec} linux fm rel offset p c tm fs sk s' orphans :
  resolve_path fm rel = Ret p → lookup_node fs p = Some (File c tm) → 0 <= offset < zlen c → zlen c < 2 ^ 63 →
  zlen (payload (download_header rel c offset)) < 2 ^ 32 - 5 → calm fs →
  send_file linux fm rel offset (mkIo fs sk) = (Ret true, s') →
  ∃ total hash d sent, rtc (fetch_step fm) (mkStorage (mkVolume fs orphans) ∅ {[ 0%nat := mkFetch rel offset Asked ]})
      (mkStorage (mkVolume fs orphans) ∅ {[ 0%nat := mkFetch rel offset (Streaming total hash d sent) ]}) ∧
    tx (io_socket s') = tx sk ++ encode_frame (mkWireFrame (byte.of_Z MSG_ZERO_COPY_DOWNLOAD_HEADER)
        (serialized KZeroCopyDownloadHeader (mkZeroCopyDownloadHeader rel total hash offset))) ++
      encode_raw_data_header (total - offset) ++ sent.
Proof.
  intros Hp Hl Hoff Hlen Hhead Hcalm Hrun. eexists (zlen c), (to_hex (sha256_raw c)), _, _. split.
  - etransitivity; [by eapply (fetch_hashed fm _ 0 rel offset p c tm); [apply lookup_singleton_eq|..]|].
    cbn [sg_volume sg_transfers sg_fetches vo_fs]. rewrite insert_singleton_eq.
    etransitivity; [by eapply (fetch_streamed fm _ 0 rel offset p _ _ c tm); [apply lookup_singleton_eq|..]|].
    cbn [sg_volume sg_transfers sg_fetches vo_fs]. by rewrite insert_singleton_eq.
  - rewrite (send_file_checks _ _ _ p _ c tm) in Hrun by done.
    rewrite (proj2 (Z.eqb_neq _ _)), (proj2 (Z.leb_gt _ _)) in Hrun by lia. cbn [orb] in Hrun.
    pose proof (transmit_sends linux fm rel p c tm offset (mkIo fs sk) Hl Hoff Hlen Hhead) as Hs. rewrite Hrun in Hs.
    destruct Hs as [(k & _ & Htx & _ & -> & _) _]. rewrite Htx, take_ge by done. cbn [io_socket].
    unfold download_stream, download_header. do 3 f_equal. symmetry. apply take_ge. rewrite length_drop. unfold zlen. lia.
Qed.

(** ** A header that no longer fits

    Size and digest are taken by name, and then the file is opened by name: if an
    upload is published in between, the header describes the old file and the data
    are the new one's. *)
Lemma save_steps fm w w' : rtc (save_step fm) w w' → rtc (storage_step fm) w w'.
Proof. apply rtc_subrel. intros ? ?. by left. Qed.
Lemma fetch_steps fm w w' : rtc (fetch_step fm) w w' → rtc (storage_step fm) w w'.
Proof. apply rtc_subrel. intros ? ?. by right. Qed.

Theorem download_header_stale fm w t u rel j p old : sg_fetches w !! t = Some (mkFetch rel 0 Asked) →
  sg_transfers w !! u = Some j → tr_phase j = Received → tr_rel j = rel → resolve_path fm rel = Ret p →
  calm (sg_fs w) → room_for (sg_fs w) p → file_at (sg_fs w) (target_loc (sg_fs w) p) = Some old →
  old ≠ [] → zlen old < 2 ^ 63 →
  ∃ w' d, rtc (storage_step fm) w w' ∧ sg_transfers w' !! u = Some (move_on j (Settled true)) ∧
    sg_fetches w' !! t = Some (mkFetch rel 0
      (Streaming (zlen old) (to_hex (sha256_raw old)) d (take (length old) (tr_data j)))).
Proof.
  intros Hr Hj Hph Hrel Hp Hcalm Hroom Hold Hne Hlen. subst rel.
  destruct (lookup_target _ _ _ (proj1 Hroom) Hold) as [tm Hl].
  assert (0 <= 0 < zlen old) as Hoff by (unfold zlen in *; destruct old; [done|]; simpl; lia).
  pose proof (fetch_hashed fm w t (tr_rel j) 0 p old tm Hr Hp Hl Hoff Hlen) as S1. set (w1 := mkStorage _ _ _) in S1.
  destruct (opened_tmp fm w1 u j p _ Hj Hph Hp Hcalm Hroom eq_refl) as (v2 & S2 & Hc2 & (_ & _ & Ht2) & Hp2).
  set (w2 := mkStorage v2 _ _) in S2. cbn [w1 sg_volume] in Hc2.
  destruct (filled_over fm w2 u (move_on j (TmpOpen (Linked (tmp_loc (vo_fs v2) p)))) p []) as (v3 & S3 & Hc3 & Ht3 & Hp3);
    [apply lookup_insert_eq|done..|]. cbn [move_on tr_data w2 sg_volume] in Ht3, Hc3. rewrite drop_nil, app_nil_r in Ht3.
  set (w3 := mkStorage v3 _ _) in S3.
  destruct (published_over fm w3 u (move_on j TmpFilled) p (tr_data j)) as (w4 & S4 & Hc4 & Hf4 & _ & Hu4 & _ & Hcalm4 & g & Hg4);
    [apply lookup_insert_eq|done..|]. cbn [w3 sg_volume] in Hc4, Hf4.
  destruct (lookup_target (sg_fs w4) p (tr_data j) (proj1 Hroom)) as [tm4 Hl4].
  { rewrite <- Hf4. f_equal. by apply loc_cwd. }
  eexists _, _. split; [|split].
  - etransitivity; [apply fetch_steps, S1|]. etransitivity; [apply save_steps, S2|].
    etransitivity; [apply save_steps; eapply rtc_l, rtc_once; [exact S3|exact S4]|].
    apply fetch_steps. apply (fetch_streamed fm w4 t (tr_rel j) 0 p (zlen old) (to_hex (sha256_raw old)) (tr_data j) tm4); try done.
    rewrite Hg4, lookup_fmap. cbn [w3 w2 w1 sg_fetches]. by rewrite lookup_insert_eq.
  - cbn [sg_transfers]. exact Hu4.
  - cbn [sg_fetches]. rewrite lookup_insert_eq. unfold zlen. rewrite Z.sub_0_r, Nat2Z.id. done.
Qed.

(** * Witnesses *)

Definition demo_fetches : gmap nat fetch := {[ 7%nat := mkFetch "f" 0 Asked ]}.

Lemma demo_stale : ∃ w d, rtc (storage_step demo_root) (demo_saves "f" "g" demo_fetches) w ∧
  sg_fetches w !! 7%nat = Some (mkFetch "f" 0 (Streaming 1 (to_hex (sha256_raw [x41])) d [x61])).
Proof.
  destruct (download_header_stale demo_root (demo_saves "f" "g" demo_fetches) 7 1 "f" (mkTransfer "f" [x61; x62] Received)
    "/s/f" [x41]) as (w & d & Hw & _ & Hf); try reflexivity; [apply (demo_saves_room "f"); left|discriminate|].
  exists w, d. split; [exact Hw|exact Hf].
Qed.

