(* ===== verification/DownloadRace.v ===== *)
(** A download that overlaps an upload of the same file, at both ends: the server's
    steps of [SharedDownloads] and the client's [download_file]
    (src/client/src/tcp_client.rs). *)
From S2P Require Import Prelude Sha256 Paths FileSystem FileManager FileMutex WireProtocol Proto Proto3 DeltaSync.
From S2P Require Import Negotiator ZeroCopySender Session ClientBase ClientWire ClientFiles ClientDelta TcpClient Service.
From S2P Require Import Conversation Directories ConcurrentUploads SharedStorage SharedDownloads.

(** The bytes a download has put on the wire. *)
Definition fetch_wire `{Host, Codec} (rel : string) (offset total : Z) (hash : string) (sent : bytes) : bytes :=
  encode_frame (mkWireFrame (byte.of_Z MSG_ZERO_COPY_DOWNLOAD_HEADER)
    (serialized KZeroCopyDownloadHeader (mkZeroCopyDownloadHeader rel total hash offset))) ++
  encode_raw_data_header (total - offset) ++ sent.

(** The new file is published after the server has taken size and digest of the
    old one and before it opens the file.  If the new file is at least as long, the
    client gets as many bytes of it as the old one had, writes them to its file,
    and only then finds that they do not have the announced digest: the call fails,
    and the local file is neither version. *)
Theorem download_race_damages `{Host, Tokio, !TokioLaws, Disk, Sha2, !Sha2Laws, Codec, Prost, !ProstLaws}
    fm w t u rel j p old c :
  sg_fetches w !! t = Some (mkFetch rel 0 Asked) →
  sg_transfers w !! u = Some j → tr_phase j = Received → tr_rel j = rel → resolve_path fm rel = Ret p →
  calm (sg_fs w) → room_for (sg_fs w) p → file_at (sg_fs w) (target_loc (sg_fs w) p) = Some old →
  old ≠ [] → zlen old < 2 ^ 61 → zlen old <= alloc_limit → (length old <= length (tr_data j))%nat →
  let got := take (length old) (tr_data j) in digest got ≠ digest old →
  answerable KZeroCopyDownloadHeader (mkZeroCopyDownloadHeader rel (zlen old) (digest old) 0) →
  calm (disk c) → local_room (disk c) (local_path c rel) →
  ∃ w' d local, rtc (storage_step fm) w w' ∧
    sg_fetches w' !! t = Some (mkFetch rel 0 (Streaming (zlen old) (digest old) d got)) ∧
    says (download_file rel) c
      (encode_frame (request MSG_ZERO_COPY_DOWNLOAD_REQUEST
         (prost_encode KZeroCopyDownloadRequest (mkZeroCopyDownloadRequest rel 0))))
      (fetch_wire rel 0 (zlen old) (digest old) got) (Err (HashMismatch (digest old) (digest got))) (set_disk local c) ∧
    file_at local (loc (disk c) (local_path c rel)) = Some got ∧ local_kept (disk c) local (local_path c rel).
Proof.
  intros Hr Hj Hph Hrel Hp Hcalm Hroom Hold Hne Hlen Halloc Hlong got Hdiff Hans Hcalm' Hroom'.
  destruct (download_header_stale fm w t u rel j p old) as (w' & d & Hsteps & _ & Hf); try done; [lia|].
  rewrite digest_server in Hf by done. assert (zlen got = zlen old) as Hgot.
  { unfold zlen, got. rewrite length_take. lia. }
  destruct (download_received rel (zlen old) (digest old) got c Hans) as (local & Hfile & Hk & Hsay); [lia|lia|exact Hcalm'|exact Hroom'|].
  rewrite decide_False in Hsay.
  - exists w', d, local. split; [done|]. split; [done|]. split; [|done]. unfold fetch_wire. rewrite Hgot in Hsay. by rewrite Z.sub_0_r.
  - intros [Hx|Hx]; [|congruence]. apply (f_equal String.length) in Hx. unfold digest in Hx.
    by rewrite length_to_hex, <- sha256_raw_fips, length_sha256_raw in Hx by done.
Qed.
